(* ===== verification/_CoqProject ===== *)
-Q . S2P
Prelude.v
Endian.v
Serialisation.v
SocketBase.v
Message.v
WireFormat.v
MessageCorrect.v
Router.v
WriteQueue.v
Session.v
SocketTimers.v
TimerProperties.v
Lifetime.v
BoostSocket.v
Ssl.v
SessionManager.v
ManagerCorrect.v
ManagerEvents.v
Reconnect.v
ManagerThreads.v
System.v
ClientServer.v
Peer.v
