(* ===== verification/Prelude.v ===== *)
(** * SocketSL: a verification development (root file)

    SocketSL is a C++ library for framed messages over TLS: FlatBuffers messages
    behind a little-endian size prefix, a TCP socket on Boost.Asio with a
    write queue and three deadline timers, asynchronous sessions, and session
    managers that accept, limit, dial and re-dial connections.  This development
    models that code and proves what makes it correct.

    ** The program and the files

    The parts, from the wire upwards; paths are relative to [src/src], those of the
    examples to [src].
    - [Prelude] (this file): bytes, [std::size_t], exceptions, the
      state-and-exception monad, vector allocation, tactics and hints.
    - [Endian]: [endian/endian.hpp].  Boost.Endian is the class [BoostEndian].
    - [Serialisation]: [serialisation/serialisation.hpp] and the schemas
      [message/*.fbs].  FlatBuffers and the code generated from the schemas are
      the classes [FlatBuffers], [Table], [Schema], with their documented laws.
    - [SocketBase]: the abstract class [sl::socket] of [network/socket.hpp] as the
      classes [SyncSocket], [AsyncReader], [AsyncWriter]; the contract of a byte
      stream, [StreamSocket]; the test suite's [memory_socket] as an instance.
    - [Message]: [message/message.hpp], [message.cpp], one definition per
      function, in the monad of the prelude.
    - [WireFormat]: the specification, a reference decoder of the wire format on
      byte lists, and the lemmas that relate the code to it.
    - [MessageCorrect]: the theorems on sending and receiving.
    - [Router]: [router/router.hpp].
    - [WriteQueue]: [boost_tcp_socket::async_write] and [write_next], as a step
      relation at the granularity of [write_mutex_], with any number of callers.
    - [Session]: [connection/session.cpp], the asynchronous read loop; its
      handlers are the constructors of [read_handler].
    - [SocketTimers], [TimerProperties]: the timers of [boost_tcp_socket] and the
      operations that arm them, as a timed transition system.
    - [BoostSocket]: the synchronous operations of [boost_tcp_socket] over a
      parameter for Asio's stream, and the proof that it keeps the contract
      [StreamSocket].
    - [SessionManager]: [connection/session_manager.hpp], [.cpp], both classes;
      the handlers given to Asio are the constructors of [mgr_op].
    - [Lifetime]: what each lambda captures, who owns a session ([shared_ptr]s in
      the registry, in captures and with users), its destructor, and which handlers
      may outlive it.
    - [Ssl]: [network/ssl.hpp], [ssl.cpp] and the set-up of the examples, over a
      parameter for the native context.
    - [ManagerCorrect], [ManagerEvents], [Reconnect]: the theorems on the registry
      and the limits, the order of events, and dialling again; each operation and
      handler of a manager is one step.
    - [ManagerThreads]: the managers on a pool, where a handler is a thread that is
      interrupted between its locked regions, callbacks and tests; the theorems on
      callbacks and [stop] under every interleaving.
      [ManagerThreads.atomic_runs_are_schedules]: the runs of [SessionManager] are
      those in which no handler is interrupted.
    - [System]: a manager and the sessions it has started, running together.
    - [ClientServer]: [examples/client_server], both programs; [Peer]:
      [examples/peer], with its command line, its session and its broadcaster.

    ** What the theorems show

    - The wire (C1, C4, C5): integers and messages survive the trip between hosts
      of any byte order.
    - Receiving (C2, C3, C6, C13 to C16): the synchronous [recv_buffer] and the
      asynchronous session both implement the reference decoder, hence agree; no
      peer can make them allocate more than the cap; which exceptions remain; a
      session ends once.
    - Routing (C7): the first handler for the id runs, on a verified body.
    - Sending (C8 to C12): under every interleaving writes do not overlap, keep
      their order, stay within the cap, call back exactly once, and drain.
    - Lifetime (C17): the handlers of a session's operations run on a live object,
      a managed session is not leaked, an operation that succeeds hands it over to
      the next, and which handlers can still use it after its destruction;
      [Lifetime.use_after_destruction] has a run of each kind.
    - Timers (C18 to C21): a timer closes a connection only after the silence it
      watches for (no read completed, no handshake succeeded, as Asio reports it),
      a silent peer and a stalled handshake are closed in time.
      [idle_timer_race] and [heartbeat_before_handshake] are runs that show where
      the code does less than its comments say.
    - Synchronous socket (C22): what [connect] does when the resolver fails;
      [sync_connect_forgets_peer]: what it leaves of the peer's address.
    - Managers (C23 to C29): the registry is exact, admission decides on it, how
      far the session limit binds, removal, the order of callbacks and what follows
      [stop] for interleaved threads, the registry follows the sessions.
      [session_limit_exceeded], [session_registered_after_stop],
      [ipv6_session_half_registered], [removal_before_announcement] and
      [dial_after_stop] are runs at the edges.
    - Reconnecting (C31 to C35): no dial after [stop], delays and attempts within
      the policy, a bound on dials, the default sequence of delays.
    - Programs (C30, C36 to C40): the set-up is for mutual authentication or
      throws, and the programs that listen fail closed; client and server
      understand each other and the server drops silent clients; a peer dials what
      its command line says and its broadcasts are delivered.
      [signal_stops_broadcaster] says when its signal handler does not stop them.

    ** Bounds and fuel

    [std::size_t] and [std::uint64_t] are integers of [Z] with the range
    [is_u64] where it matters; buffer sizes come from eight wire bytes and are in
    range by construction.  [recv_buffer] and [serve] loop with fuel: a frame takes
    at least the eight bytes of its size, and three reads, so one unit of fuel for
    [recv_buffer] and three for [serve] per eight bytes are enough; the theorems
    prove that the result is then not the one for spent fuel.  The backoff delay is
    computed with the binary64 operations of [SpecFloat].  Time is an integer count
    of nanoseconds.

    ** What is not modelled

    Asio, OpenSSL, FlatBuffers and the allocator are parameters or environment.
    The timed model assumes an executor that runs a queued handler before time
    passes.  Except in [ManagerThreads], handlers of one manager are steps that do
    not overlap; the user's callbacks do not call back into the manager, and a
    session object is given to a manager once.  The capacity of vectors is left
    out (a [resize] always asks the allocator), as are the allocations of messages
    that are sent.  In [WriteQueue] the start of a write belongs to the step that
    reads the front of the queue, which no other step changes meanwhile.  The
    destruction of managers is not modelled, nor are the texts that logging
    formats. *)

From stdpp Require Export prelude gmap relations.
From Stdlib Require Export ZArith Lia.
From coqutil Require Export Byte Word.LittleEndianList.

#[global] Open Scope Z_scope.
#[global] Set Default Goal Selector "!".

(** ** Bytes and machine-width integers

    [std::uint8_t] is the 256-element type [byte].  [std::size_t] and
    [std::uint64_t] are integers of [Z] in the range of [is_u64]. *)

Abbreviation uint8_t := Init.Byte.byte.

#[global] Instance uint8_eq_dec : EqDecision uint8_t := Byte.byte_eq_dec.

Definition u64_modulus : Z := 2 ^ 64.

Definition is_u64 (z : Z) : Prop := 0 <= z < u64_modulus.

#[global] Instance is_u64_dec z : Decision (is_u64 z).
Proof. unfold is_u64. apply _. Defined.

(** The length of a byte buffer as a [std::size_t]. *)
Definition zlen {A} (l : list A) : Z := Z.of_nat (length l).

(** ** Exceptions and the state-and-exception monad

    The C++ code reports most failures by value ([bool], [std::optional]) and
    a few by exceptions of the libraries it calls.  A computation over a world
    [W] returns its result, or throws, and leaves a world in both cases. *)

Inductive exn : Type :=
| length_error        (* std::vector larger than max_size() *)
| bad_alloc           (* the allocator refused *)
| system_error        (* a throwing Asio overload *)
| bad_address_cast    (* boost::asio::ip::address::to_v4 on an IPv6 address *)
| invalid_argument    (* std::stoul on no number *)
| out_of_range.       (* std::stoul on a number that is too large *)

#[global] Instance exn_eq_dec : EqDecision exn.
Proof. solve_decision. Defined.

Inductive outcome (A : Type) : Type :=
| Ret (a : A)
| Throw (e : exn).
Arguments Ret {A} a.
Arguments Throw {A} e.

#[global] Instance outcome_eq_dec `{EqDecision A} : EqDecision (outcome A).
Proof. solve_decision. Defined.

Definition M (W A : Type) : Type := W -> outcome A * W.

#[global] Instance M_ret W : MRet (M W) := fun _ a w => (Ret a, w).
#[global] Instance M_bind W : MBind (M W) := fun _ _ k m w =>
  match m w with
  | (Ret a, w') => k a w'
  | (Throw e, w') => (Throw e, w')
  end.

Definition gets {W A} (f : W -> A) : M W A := fun w => (Ret (f w), w).
Definition modify {W} (f : W -> W) : M W unit := fun w => (Ret tt, f w).
Definition throw {W A} (e : exn) : M W A := fun w => (Throw e, w).
Definition lift_outcome {W A} (o : outcome A) : M W A := fun w => (o, w).

Lemma bind_Ret {W A B} (m : M W A) (k : A -> M W B) w a w' :
  m w = (Ret a, w') -> (m ≫= k) w = k a w'.
Proof. intros H. unfold mbind, M_bind. by rewrite H. Qed.

Lemma bind_Throw {W A B} (m : M W A) (k : A -> M W B) w e w' :
  m w = (Throw e, w') -> (m ≫= k) w = (Throw e, w').
Proof. intros H. unfold mbind, M_bind. by rewrite H. Qed.

Lemma bind_inv_Ret {W A B} (m : M W A) (k : A -> M W B) w b w'' :
  (m ≫= k) w = (Ret b, w'') ->
  exists a w', m w = (Ret a, w') /\ k a w' = (Ret b, w'').
Proof. unfold mbind, M_bind. destruct (m w) as [[a|e] w'] eqn:?; naive_solver. Qed.

(** An invariant of the world that a computation keeps, also when it throws. *)
Definition preserves {W A} (P : W -> Prop) (m : M W A) : Prop := forall w, P w -> P (m w).2.

Lemma preserves_ret {W A} (P : W -> Prop) (a : A) : preserves P (mret a : M W A).
Proof. intros w Hw. exact Hw. Qed.

Lemma preserves_bind {W A B} (P : W -> Prop) (m : M W A) (k : A -> M W B) :
  preserves P m -> (forall a, preserves P (k a)) -> preserves P (m ≫= k).
Proof.
  intros Hm Hk w Hw. specialize (Hm w Hw). unfold mbind, M_bind.
  destruct (m w) as [[a|e] w'] eqn:E; [by apply Hk|done].
Qed.

Lemma preserves_if {W A} (P : W -> Prop) (b : bool) (m1 m2 : M W A) :
  (b = true -> preserves P m1) -> (b = false -> preserves P m2) ->
  preserves P (if b then m1 else m2).
Proof. destruct b; auto. Qed.

(** ** The standard library's vector allocation

    [std::vector<std::uint8_t> v(n)] throws [std::length_error] when [n]
    exceeds [max_size()] (PTRDIFF_MAX elements for one-byte elements on the
    64-bit platforms modelled here), and [std::bad_alloc] when the allocator has
    no [n] bytes; which requests the allocator can serve is a parameter. *)

Definition vector_max_size : Z := 2 ^ 63 - 1.

Class Allocator := { alloc_available : Z -> bool }.

Definition vector_alloc `{Allocator} (n : Z) : outcome unit :=
  if vector_max_size <? n then Throw length_error
  else if alloc_available n then Ret tt
  else Throw bad_alloc.

(** A receive-side cap, [max != 0 && n > max]: zero means unlimited. *)
Definition over_cap (cap n : Z) : bool := negb (cap =? 0) && (n >? cap).

Lemma over_cap_false cap n : over_cap cap n = false <-> cap = 0 \/ n <= cap.
Proof. unfold over_cap. rewrite andb_false_iff, negb_false_iff, Z.eqb_eq. lia. Qed.

Lemma over_cap_true cap n : over_cap cap n = true <-> cap <> 0 /\ cap < n.
Proof. unfold over_cap. rewrite andb_true_iff, negb_true_iff, Z.eqb_neq. lia. Qed.

Create HintDb sl.
Create Rewrite HintDb sl.
#[export] Hint Rewrite @length_app @length_replicate @length_take @length_drop : sl.
#[export] Hint Resolve preserves_ret : sl.

(** ** Generic list facts shared by the components *)

Lemma zlen_nonneg {A} (l : list A) : 0 <= zlen l.
Proof. unfold zlen. lia. Qed.

Lemma zlen_app {A} (l k : list A) : zlen (l ++ k) = zlen l + zlen k.
Proof. unfold zlen. rewrite length_app. lia. Qed.

Lemma zlen_to_nat {A} (l : list A) : Z.to_nat (zlen l) = length l.
Proof. unfold zlen. lia. Qed.
#[export] Hint Resolve zlen_nonneg : sl.
#[export] Hint Rewrite @zlen_app @zlen_to_nat : sl.

(** ** Tactics *)

(** Split every pair and existential in the context and substitute. *)
Ltac crush_pairs :=
  repeat match goal with
  | H : _ /\ _ |- _ => destruct H
  | H : exists _, _ |- _ => destruct H
  | H : (_, _) = (_, _) |- _ => injection H as H; subst
  end; simplify_eq.

(** Case-split the scrutinee of a match in the goal, keeping the equation. *)
Ltac split_match :=
  match goal with
  | |- context [match ?x with _ => _ end] => destruct x eqn:?
  end.

(** Run the first command of a monadic block, whose result [H] gives. *)
Ltac run H := erewrite bind_Ret by (exact H); cbn beta iota.
