(* ===== verification/Endian.v ===== *)
(** * Endianness ([src/src/endian/endian.hpp])

    [to_little] and [from_little] delegate to Boost.Endian.  The host's byte
    order and Boost's two conversions are parameters; the laws in
    [BoostEndianLaws] are the ones Boost documents (the identity on a
    little-endian host, a byte reversal on a big-endian one). *)

From S2P Require Import Prelude.

Inductive byte_order : Type := order_little | order_big.

(** The object representation of an unsigned integer of [w] bytes on a host:
    what [memcpy] and [reinterpret_cast] see. *)
Definition object_bytes (o : byte_order) (w : nat) (x : Z) : list uint8_t :=
  match o with
  | order_little => le_split w x
  | order_big => rev (le_split w x)
  end.

Definition object_value (o : byte_order) (bs : list uint8_t) : Z :=
  match o with
  | order_little => le_combine bs
  | order_big => le_combine (rev bs)
  end.

(** Reversal of the bytes of an unsigned integer of [w] bytes. *)
Definition endian_reverse (w : nat) (x : Z) : Z := le_combine (rev (le_split w x)).

Class BoostEndian := {
  native_order : byte_order;
  native_to_little : nat -> Z -> Z;
  little_to_native : nat -> Z -> Z
}.

Class BoostEndianLaws `{BoostEndian} : Prop := {
  native_to_little_doc w x : 0 <= x < 2 ^ (Z.of_nat w * 8) ->
    native_to_little w x =
    match native_order with order_little => x | order_big => endian_reverse w x end;
  little_to_native_doc w x : 0 <= x < 2 ^ (Z.of_nat w * 8) ->
    little_to_native w x =
    match native_order with order_little => x | order_big => endian_reverse w x end
}.

Section endian.
Context `{BoostEndian}.

(** [sl::endian::to_little] and [sl::endian::from_little] at a type of [w] bytes. *)
Definition to_little (w : nat) (x : Z) : Z := native_to_little w x.
Definition from_little (w : nat) (x : Z) : Z := little_to_native w x.
End endian.

(** ** Byte-level facts *)

Lemma object_value_bytes o w x :
  0 <= x < 2 ^ (Z.of_nat w * 8) -> object_value o (object_bytes o w x) = x.
Proof.
  intros Hx. destruct o; simpl; rewrite ?rev_involutive;
    rewrite le_combine_split; by apply Z.mod_small.
Qed.

Lemma length_object_bytes o w x : length (object_bytes o w x) = w.
Proof. destruct o; simpl; rewrite ?length_rev; apply length_le_split. Qed.

Lemma object_bytes_value o bs : object_bytes o (length bs) (object_value o bs) = bs.
Proof.
  destruct o; simpl; [apply split_le_combine|].
  rewrite <-(length_rev bs), split_le_combine. apply rev_involutive.
Qed.

Lemma object_value_bound o bs :
  0 <= object_value o bs < 2 ^ (Z.of_nat (length bs) * 8).
Proof.
  rewrite Z.mul_comm. destruct o; simpl; [apply le_combine_bound|].
  rewrite <-(length_rev bs). apply le_combine_bound.
Qed.

Lemma endian_reverse_bound w x : 0 <= endian_reverse w x < 2 ^ (Z.of_nat w * 8).
Proof.
  unfold endian_reverse. pose proof (le_combine_bound (rev (le_split w x))) as B.
  rewrite length_rev, length_le_split in B. by rewrite Z.mul_comm.
Qed.

Lemma le_split_endian_reverse w x : le_split w (endian_reverse w x) = rev (le_split w x).
Proof.
  unfold endian_reverse. apply split_le_combine'.
  by rewrite length_rev, length_le_split.
Qed.

Lemma endian_reverse_involutive w x :
  0 <= x < 2 ^ (Z.of_nat w * 8) -> endian_reverse w (endian_reverse w x) = x.
Proof.
  intros Hx. unfold endian_reverse at 1.
  rewrite le_split_endian_reverse, rev_involutive, le_combine_split.
  by apply Z.mod_small.
Qed.

(** ** Properties *)
Section properties.
Context `{BoostEndianLaws}.

Lemma to_little_bytes_eq w x :
  0 <= x < 2 ^ (Z.of_nat w * 8) ->
  object_bytes native_order w (to_little w x) = le_split w x.
Proof.
  intros Hx. unfold to_little. rewrite native_to_little_doc by done.
  destruct native_order; simpl; [done|].
  by rewrite le_split_endian_reverse, rev_involutive.
Qed.

Lemma from_little_bytes_eq bs :
  from_little (length bs) (object_value native_order bs) = le_combine bs.
Proof.
  unfold from_little. rewrite little_to_native_doc by apply object_value_bound.
  destruct native_order; simpl; [done|]. unfold endian_reverse.
  rewrite <-(length_rev bs), split_le_combine. by rewrite rev_involutive.
Qed.

Lemma from_to_little w x :
  0 <= x < 2 ^ (Z.of_nat w * 8) -> from_little w (to_little w x) = x.
Proof.
  intros Hx. unfold from_little, to_little. rewrite native_to_little_doc by done.
  destruct native_order eqn:E.
  - rewrite little_to_native_doc by done. by rewrite E.
  - rewrite little_to_native_doc by apply endian_reverse_bound. rewrite E.
    by apply endian_reverse_involutive.
Qed.
End properties.

(** ** The two kinds of host *)

Definition boost_endian_on (o : byte_order) : BoostEndian := {|
  native_order := o;
  native_to_little w x := match o with order_little => x | order_big => endian_reverse w x end;
  little_to_native w x := match o with order_little => x | order_big => endian_reverse w x end
|}.

Lemma boost_endian_on_laws o : @BoostEndianLaws (boost_endian_on o).
Proof. split; done. Qed.

(** C1 The wire form of an integer does not depend on the host: the object
    bytes of [to_little x] are the little-endian bytes of [x] on every host, a
    receiver of any byte order that applies [from_little] to those bytes gets
    [x] back, and any received bytes decode to their little-endian value. *)
Theorem endian_wire_portable (sender receiver : BoostEndian)
    (Hs : @BoostEndianLaws sender) (Hr : @BoostEndianLaws receiver) w x :
  0 <= x < 2 ^ (Z.of_nat w * 8) ->
  let wire := object_bytes (@native_order sender) w (@to_little sender w x) in
  wire = le_split w x /\
  @from_little receiver w (object_value (@native_order receiver) wire) = x /\
  (forall bs, length bs = w ->
     @from_little receiver w (object_value (@native_order receiver) bs) = le_combine bs) /\
  @from_little sender w (@to_little sender w x) = x.
Proof.
  intros Hx wire. assert (wire = le_split w x) as E by by apply to_little_bytes_eq.
  split_and!; [done| |by intros bs <-; apply from_little_bytes_eq|by apply from_to_little].
  rewrite E. rewrite <-(length_le_split w x) at 1.
  rewrite from_little_bytes_eq, le_combine_split. by apply Z.mod_small.
Qed.

Lemma endian_wire_portable_witness :
  @from_little (boost_endian_on order_little) 8
    (object_value order_little
       (object_bytes order_big 8 (@to_little (boost_endian_on order_big) 8 81985529216486895)))
  = 81985529216486895.
Proof.
  apply (endian_wire_portable (boost_endian_on order_big) (boost_endian_on order_little)
           (boost_endian_on_laws _) (boost_endian_on_laws _) 8 81985529216486895).
  vm_compute. split; congruence.
Defined.
