(* ===== verification/Serialisation.v ===== *)
(** * Serialisation ([src/src/serialisation/serialisation.hpp]) and schemas

    FlatBuffers and the code [flatc] generates from the [.fbs] schemas are
    parameters: [FlatBuffers] has the builder's operations the code calls,
    [Table] what is generated for one table type, and [TableLaws] what
    FlatBuffers documents (a finished buffer verifies, its root has the values
    it was created with, accessors return values of the schema's types, and no
    buffer reaches 2 GiB). *)

From S2P Require Import Prelude.

(** ** The library *)

Class FlatBuffers := {
  FlatBufferBuilder : Type;
  offset_t : Type;
  new_builder : FlatBufferBuilder;
  Finish : FlatBufferBuilder -> offset_t -> FlatBufferBuilder;
  (* the bytes from the buffer pointer on, and the size of the finished buffer *)
  GetBufferPointer : FlatBufferBuilder -> list uint8_t;
  GetSize : FlatBufferBuilder -> nat
}.

Class Table `{FlatBuffers} (T : Type) := {
  Create : FlatBufferBuilder -> T -> FlatBufferBuilder * offset_t;
  VerifyBuffer : list uint8_t -> bool;
  GetRoot : list uint8_t -> T;
  (* the field values that the schema's types can hold *)
  table_wf : T -> Prop
}.

Section serialisation.
Context `{FlatBuffers}.

(** [serialisation::builder_to_vector]. *)
Definition builder_to_vector (builder : FlatBufferBuilder) : list uint8_t :=
  take (GetSize builder) (GetBufferPointer builder).

(** [serialisation::serialise] with the caller's builder. *)
Definition serialise_with {Args} (builder : FlatBufferBuilder)
    (create_fn : FlatBufferBuilder -> Args -> FlatBufferBuilder * offset_t)
    (args : Args) : list uint8_t :=
  let '(builder, request_header) := create_fn builder args in
  builder_to_vector (Finish builder request_header).

(** [serialisation::serialise] with a fresh builder. *)
Definition serialise {Args}
    (create_fn : FlatBufferBuilder -> Args -> FlatBufferBuilder * offset_t)
    (args : Args) : list uint8_t :=
  serialise_with new_builder create_fn args.

(** [serialisation::lift]: a [CreateX] function as a callable. *)
Definition lift {Args}
    (CreateFn : FlatBufferBuilder -> Args -> FlatBufferBuilder * offset_t) :=
  fun (builder : FlatBufferBuilder) (args : Args) => CreateFn builder args.

(** [serialisation::deserialise]: no verification, only the root accessor. *)
Definition deserialise (T : Type) `{Table T} (buffer : list uint8_t) : T :=
  GetRoot buffer.

(** [serialisation::is_valid]. *)
Definition is_valid (T : Type) `{Table T} (buffer : list uint8_t) : bool :=
  VerifyBuffer (T := T) buffer.
End serialisation.

Class TableLaws `{FlatBuffers} (T : Type) `{!Table T} : Prop := {
  verify_finished t : table_wf t -> VerifyBuffer (T := T) (serialise Create t) = true;
  root_finished t : table_wf t -> GetRoot (serialise Create t) = t;
  root_typed b : VerifyBuffer (T := T) b = true -> table_wf (GetRoot (T := T) b);
  (* FLATBUFFERS_MAX_BUFFER_SIZE *)
  finished_size t : zlen (serialise Create t) < 2 ^ 31
}.

(** ** The schemas of the library ([message.fbs], [system.fbs]) *)

Record MessageHeader := mkMessageHeader {
  type : uint8_t;
  body_size : Z;
  is_system : bool
}.

#[global] Instance MessageHeader_eq_dec : EqDecision MessageHeader.
Proof. solve_decision. Defined.

(** The schema types of the fields: [uint8], [uint64] and [bool]. *)
Definition MessageHeader_wf (h : MessageHeader) : Prop := is_u64 (body_size h).

Definition MessageId_HbPing : uint8_t := Byte.x00.
Definition MessageId_HbPong : uint8_t := Byte.x01.

Inductive HbPingRequest : Type := mkHbPingRequest.
Inductive HbPongRequest : Type := mkHbPongRequest.

(** The generated code the library includes, as one interface. *)
Class Schema := {
  schema_fb :: FlatBuffers;
  header_table :: Table MessageHeader;
  ping_table :: Table HbPingRequest;
  pong_table :: Table HbPongRequest
}.

Class SchemaLaws `{Schema} : Prop := {
  header_laws :: TableLaws MessageHeader;
  header_wf h : table_wf h <-> MessageHeader_wf h;
  ping_laws :: TableLaws HbPingRequest;
  ping_wf r : table_wf (T := HbPingRequest) r;
  pong_laws :: TableLaws HbPongRequest;
  pong_wf r : table_wf (T := HbPongRequest) r
}.

Section facts.
Context `{TableLaws T}.

Lemma is_valid_serialise t : table_wf t -> is_valid T (serialise (lift Create) t) = true.
Proof. apply verify_finished. Qed.

Lemma deserialise_serialise t :
  table_wf t -> deserialise T (serialise (lift Create) t) = t.
Proof. apply root_finished. Qed.
End facts.

(** ** A concrete instance of the interface

    A fixed-layout codec that satisfies the laws; the witnesses of the
    development run on it. *)
Module ToyCodec.

#[export] Instance toy_flatbuffers : FlatBuffers := {|
  FlatBufferBuilder := list uint8_t;
  offset_t := list uint8_t;
  new_builder := [];
  Finish b o := b ++ o;
  GetBufferPointer b := b;
  GetSize b := length b
|}.

Definition bool_byte (b : bool) : uint8_t := if b then Byte.x01 else Byte.x00.

Definition header_verify (b : list uint8_t) : bool :=
  match b with
  | m :: _ :: s :: r =>
      bool_decide (m = Byte.x4d) && bool_decide (length r = 8%nat) &&
      (bool_decide (s = Byte.x00) || bool_decide (s = Byte.x01))
  | _ => false
  end.

Definition header_root (b : list uint8_t) : MessageHeader :=
  match b with
  | _ :: t :: s :: r => mkMessageHeader t (le_combine r) (bool_decide (s = Byte.x01))
  | _ => mkMessageHeader Byte.x00 0 false
  end.

#[export] Instance toy_header : Table MessageHeader := {|
  Create b h := (b, Byte.x4d :: type h :: bool_byte (is_system h) :: le_split 8 (body_size h));
  VerifyBuffer := header_verify;
  GetRoot := header_root;
  table_wf := MessageHeader_wf
|}.

#[export] Instance toy_ping : Table HbPingRequest := {|
  Create b _ := (b, [Byte.x50]);
  VerifyBuffer b := bool_decide (b = [Byte.x50]);
  GetRoot _ := mkHbPingRequest;
  table_wf _ := True
|}.

#[export] Instance toy_pong : Table HbPongRequest := {|
  Create b _ := (b, [Byte.x51]);
  VerifyBuffer b := bool_decide (b = [Byte.x51]);
  GetRoot _ := mkHbPongRequest;
  table_wf _ := True
|}.

#[export] Instance toy_schema : Schema := {| schema_fb := toy_flatbuffers |}.

(** An application table with one 64-bit field, as in the examples' schemas. *)
Record toy_message := mkToy { toy_key : Z }.

Section key_table.
Context {T : Type} (mk : Z -> T) (key : T -> Z).

Definition key_table : Table T := {|
  Create b t := (b, le_split 8 (key t));
  VerifyBuffer b := bool_decide (length b = 8%nat);
  GetRoot b := mk (le_combine b);
  table_wf t := is_u64 (key t)
|}.
End key_table.

#[export] Instance toy_message_table : Table toy_message := key_table mkToy toy_key.

Lemma toy_serialise {T} (f : list uint8_t -> T -> list uint8_t * list uint8_t) t :
  serialise (H := toy_flatbuffers) f t = (f [] t).1 ++ (f [] t).2.
Proof.
  unfold serialise, serialise_with, builder_to_vector. simpl.
  destruct (f [] t) as [b o]; simpl. by rewrite firstn_all.
Qed.

Lemma toy_created_size {T} (f : list uint8_t -> T -> list uint8_t * list uint8_t) t :
  zlen ((f [] t).1 ++ (f [] t).2) <= 11 -> zlen (serialise (H := toy_flatbuffers) f t) < 2 ^ 31.
Proof. rewrite toy_serialise. lia. Qed.

Lemma le_combine_u64 bs : length bs = 8%nat -> is_u64 (le_combine bs).
Proof.
  intros Hl. pose proof (le_combine_bound bs) as B. rewrite Hl in B. exact B.
Qed.

#[export] Instance toy_header_laws : TableLaws MessageHeader.
Proof.
  split.
  - intros [t n []] _; by rewrite toy_serialise.
  - intros [t n s] Hwf. rewrite toy_serialise. simpl.
    rewrite le_combine_split, Z.mod_small by exact Hwf. by destruct s.
  - intros [|m [|t [|s r]]] Hv; simpl in *; try done. apply le_combine_u64.
    apply andb_true_iff in Hv as [[_ Hv]%andb_true_iff _].
    by apply bool_decide_eq_true in Hv.
  - intros h. by apply toy_created_size.
Qed.

#[export] Instance toy_ping_laws : TableLaws HbPingRequest.
Proof. split; [by intros []|by intros []|done|by intros []]. Qed.

#[export] Instance toy_pong_laws : TableLaws HbPongRequest.
Proof. split; [by intros []|by intros []|done|by intros []]. Qed.

Lemma key_table_laws {T} (mk : Z -> T) (key : T -> Z) :
  (forall t, mk (key t) = t) -> (forall k, key (mk k) = k) -> @TableLaws _ T (key_table mk key).
Proof.
  intros Hmk Hkey. split.
  - intros t Hwf. by rewrite toy_serialise.
  - intros t Hwf. rewrite toy_serialise. simpl.
    by rewrite le_combine_split, Z.mod_small.
  - intros b Hv. simpl in *. rewrite Hkey. apply le_combine_u64. by apply bool_decide_eq_true in Hv.
  - intros h. by apply toy_created_size.
Qed.

#[export] Instance toy_message_laws : TableLaws toy_message.
Proof. by apply key_table_laws; [intros []|]. Qed.

#[export] Instance toy_schema_laws : SchemaLaws.
Proof. split; try apply _; done. Qed.
End ToyCodec.
