(* ===== verification/SocketBase.v ===== *)
(** * The abstract socket ([sl::socket], [src/src/network/socket.hpp])

    The interface the framing code is written against: the synchronous part as
    [SyncSocket], the asynchronous part as [AsyncReader] and [AsyncWriter],
    the non-virtual helpers defined on top of them, the contract of a byte stream
    ([StreamSocket]) that the client theorems assume, and the in-memory socket
    of the tests ([src/tests/memory_socket.hpp]) as one implementation of it. *)

From S2P Require Import Prelude Endian.

(** ** The interface *)

(** [socket_read buf s] fills the caller's buffer: the flag the call returns,
    the buffer's contents afterwards, the socket afterwards. *)
Class SyncSocket (S : Type) := {
  max_message_size : S -> Z;
  socket_read : list uint8_t -> S -> bool * list uint8_t * S;
  socket_write : list uint8_t -> S -> bool * S
}.

(** [async_callback_t], over the program state [W] a callback may change; an
    empty [std::function] is [None]. *)
Definition async_callback_t (W : Type) : Type := option (bool -> W -> W).

(** The completion of [async_read] also sees the buffer it captured. *)
Class AsyncReader (W : Type) := {
  async_read : list uint8_t -> option (bool -> list uint8_t -> W -> W) -> W -> W
}.

Class AsyncWriter (W : Type) := {
  async_write : list uint8_t -> list uint8_t -> async_callback_t W -> W -> W
}.

Definition invoke {W} (handler : async_callback_t W) (is_valid : bool) (w : W) : W :=
  match handler with Some h => h is_valid w | None => w end.

Section helpers.
Context `{SyncSocket Sk, BoostEndian}.

(** [socket::read<T>(T&)] at an unsigned type of [w] bytes. *)
Definition read_value (w : nat) (value : Z) (s : Sk) : bool * Z * Sk :=
  let '(ok, bytes, s) := socket_read (object_bytes native_order w value) s in
  (ok, object_value native_order bytes, s).

(** [socket::write<T>(T)] at an unsigned type of [w] bytes. *)
Definition write_value (w : nat) (value : Z) (s : Sk) : bool * Sk :=
  socket_write (object_bytes native_order w value) s.

(** [socket::erase]: read and drop [size] bytes. *)
Definition erase `{Allocator} (size : Z) (s : Sk) : outcome unit * Sk :=
  match vector_alloc size with
  | Throw e => (Throw e, s)
  | Ret _ =>
      let dummy_buffer := replicate (Z.to_nat size) Byte.x00 in
      let '(_, _, s) := socket_read dummy_buffer s in (Ret tt, s)
  end.
End helpers.

(** [socket::async_erase]. *)
Definition async_erase `{AsyncReader W, Allocator} (size : Z)
    (handler : bool -> W -> W) (w : W) : outcome unit * W :=
  match vector_alloc size with
  | Throw e => (Throw e, w)
  | Ret _ =>
      let dummy_buffer := replicate (Z.to_nat size) Byte.x00 in
      (Ret tt, async_read dummy_buffer (Some (fun is_valid _ w => handler is_valid w)) w)
  end.

(** ** The contract of a byte-stream socket

    [incoming s] are the bytes not yet read, up to the end of the stream, and
    [outgoing s] the bytes written so far.  A read of [n] bytes succeeds exactly
    when [n] bytes are left, and takes them; a write keeps the unread bytes, and
    on a [loopback] socket appends what it wrote to them. *)
Class StreamSocket (Sk : Type) `{SyncSocket Sk} := {
  incoming : Sk -> list uint8_t;
  outgoing : Sk -> list uint8_t;
  loopback : bool;
  (* the states the implementation can be in *)
  stream_inv : Sk -> Prop;
  read_enough buf s : stream_inv s -> (length buf <= length (incoming s))%nat ->
    exists s', socket_read buf s = (true, take (length buf) (incoming s), s') /\
      stream_inv s' /\ incoming s' = drop (length buf) (incoming s) /\
      outgoing s' = outgoing s /\ max_message_size s' = max_message_size s;
  read_short buf s : stream_inv s -> (length (incoming s) < length buf)%nat ->
    exists buf' s', socket_read buf s = (false, buf', s') /\
      stream_inv s' /\ length buf' = length buf /\
      outgoing s' = outgoing s /\ max_message_size s' = max_message_size s;
  write_inv bs s : stream_inv s -> stream_inv (socket_write bs s).2;
  write_cap bs s : max_message_size (socket_write bs s).2 = max_message_size s;
  write_ok bs s s' : stream_inv s -> socket_write bs s = (true, s') ->
    incoming s' = incoming s ++ (if loopback then bs else []) /\
    outgoing s' = outgoing s ++ bs;
  write_fail bs s s' : stream_inv s -> socket_write bs s = (false, s') ->
    loopback = false /\ incoming s' = incoming s /\
    exists sent, outgoing s' = outgoing s ++ sent
}.

(** ** The in-memory socket of the tests *)
Module MemorySocket.

Record memory_socket := mkMemorySocket {
  buffer_ : list uint8_t;
  read_pos_ : nat;
  max_message_size_ : Z;
  max_pending_writes_ : Z;
  ipv4_address_ : Z
}.

(** Default member initialisers. *)
Definition new_memory_socket : memory_socket := mkMemorySocket [] 0 0 0 0.

Definition set_max_message_size (n : Z) (s : memory_socket) : memory_socket :=
  mkMemorySocket (buffer_ s) (read_pos_ s) n (max_pending_writes_ s) (ipv4_address_ s).

Definition set_max_pending_writes (n : Z) (s : memory_socket) : memory_socket :=
  mkMemorySocket (buffer_ s) (read_pos_ s) (max_message_size_ s) n (ipv4_address_ s).

Definition set_ipv4_address (ip : Z) (s : memory_socket) : memory_socket :=
  mkMemorySocket (buffer_ s) (read_pos_ s) (max_message_size_ s) (max_pending_writes_ s) ip.

(** [memory_socket::read]: all or nothing. *)
Definition read (buffer : list uint8_t) (s : memory_socket)
    : bool * list uint8_t * memory_socket :=
  if (length (buffer_ s) <? read_pos_ s + length buffer)%nat then (false, buffer, s)
  else (true, take (length buffer) (drop (read_pos_ s) (buffer_ s)),
        mkMemorySocket (buffer_ s) (read_pos_ s + length buffer) (max_message_size_ s)
          (max_pending_writes_ s) (ipv4_address_ s)).

(** [memory_socket::write]: append. *)
Definition write (buffer : list uint8_t) (s : memory_socket) : bool * memory_socket :=
  (true, mkMemorySocket (buffer_ s ++ buffer) (read_pos_ s) (max_message_size_ s)
           (max_pending_writes_ s) (ipv4_address_ s)).

(** A socket with the state its callbacks change. *)
Record mem_world (A : Type) := mkMemWorld { mw_socket : memory_socket; mw_user : A }.
Arguments mkMemWorld {A} _ _.
Arguments mw_socket {A} _.
Arguments mw_user {A} _.

(** [memory_socket::async_read]: completes inline. *)
Definition mem_async_read {A} (buffer : list uint8_t)
    (handler : option (bool -> list uint8_t -> mem_world A -> mem_world A))
    (w : mem_world A) : mem_world A :=
  let '(is_valid, buffer, s) := read buffer (mw_socket w) in
  let w := mkMemWorld s (mw_user w) in
  match handler with Some h => h is_valid buffer w | None => w end.

(** [memory_socket::async_write(head, body, handler)]: completes inline. *)
Definition mem_async_write {A} (head body : list uint8_t)
    (handler : async_callback_t (mem_world A)) (w : mem_world A) : mem_world A :=
  let '(head_ok, s) :=
    match head with [] => (true, mw_socket w) | _ => write head (mw_socket w) end in
  let '(body_ok, s) :=
    if negb head_ok then (true, s) else
    match body with [] => (true, s) | _ => write body s end in
  invoke handler (head_ok && body_ok) (mkMemWorld s (mw_user w)).

(** [memory_socket::async_write(buffer, handler)]. *)
Definition mem_async_write_single {A} (buffer : list uint8_t)
    (handler : async_callback_t (mem_world A)) (w : mem_world A) : mem_world A :=
  let '(is_valid, s) := write buffer (mw_socket w) in
  invoke handler is_valid (mkMemWorld s (mw_user w)).

(** Connecting and shaking hands always succeed, the asynchronous calls inline;
    [close] and the setters of the timeouts do nothing. *)
Definition mem_connect (s : memory_socket) : bool * memory_socket := (true, s).
Definition mem_handshake (s : memory_socket) : bool * memory_socket := (true, s).

Definition mem_async_connect {A} (handler : async_callback_t (mem_world A)) (w : mem_world A)
    : mem_world A := invoke handler true w.
Definition mem_async_handshake {A} (handler : async_callback_t (mem_world A)) (w : mem_world A)
    : mem_world A := invoke handler true w.

Definition mem_close (s : memory_socket) : memory_socket := s.
Definition mem_set_timeout (timeout : Z) (s : memory_socket) : memory_socket := s.

(** The accessors. *)
Definition mem_ipv4_address (s : memory_socket) : Z := ipv4_address_ s.
Definition mem_port (s : memory_socket) : Z := 0.
Definition mem_bytes (s : memory_socket) : list uint8_t := buffer_ s.

#[global] Instance memory_sync : SyncSocket memory_socket := {|
  max_message_size := max_message_size_; socket_read := read; socket_write := write |}.

#[global] Instance memory_async_reader A : AsyncReader (mem_world A) := {|
  async_read := mem_async_read |}.

#[global] Instance memory_async_writer A : AsyncWriter (mem_world A) := {|
  async_write := mem_async_write |}.

(** [read_pos_] never passes the end of the buffer. *)
Definition memory_wf (s : memory_socket) : Prop := (read_pos_ s <= length (buffer_ s))%nat.

Lemma read_wf buf s : memory_wf s -> memory_wf (read buf s).2.
Proof. unfold memory_wf, read. case_match eqn:E; simpl; [done|]. apply Nat.ltb_ge in E. lia. Qed.

Lemma write_wf buf s : memory_wf s -> memory_wf (write buf s).2.
Proof. unfold memory_wf, write. simpl. rewrite length_app. lia. Qed.

Lemma read_enough_spec buf s :
  memory_wf s -> (length buf <= length (drop (read_pos_ s) (buffer_ s)))%nat ->
  read buf s = (true, take (length buf) (drop (read_pos_ s) (buffer_ s)),
    mkMemorySocket (buffer_ s) (read_pos_ s + length buf) (max_message_size_ s)
      (max_pending_writes_ s) (ipv4_address_ s)).
Proof.
  unfold memory_wf, read. rewrite length_drop. intros ??.
  by rewrite (proj2 (Nat.ltb_ge _ _)) by lia.
Qed.

Lemma read_short_spec buf s :
  memory_wf s -> (length (drop (read_pos_ s) (buffer_ s)) < length buf)%nat ->
  read buf s = (false, buf, s).
Proof.
  unfold memory_wf, read. rewrite length_drop. intros ??.
  by rewrite (proj2 (Nat.ltb_lt _ _)) by lia.
Qed.

(** The two overloads of [async_write] agree: a frame in two buffers is the frame
    in one, and the callback runs once, with success. *)
Lemma mem_async_write_joins {A} head body (handler : async_callback_t (mem_world A)) (w : mem_world A) :
  mem_async_write head body handler w = mem_async_write_single (head ++ body) handler w.
Proof.
  unfold mem_async_write, mem_async_write_single, write.
  destruct head as [|h head]; [destruct body as [|b body]|]; simpl.
  - rewrite app_nil_r. by destruct (mw_socket w).
  - done.
  - destruct body as [|b body]; simpl; [by rewrite app_nil_r|].
    by rewrite <-!(assoc_L (++)).
Qed.

#[global, refine] Instance memory_stream : StreamSocket memory_socket := {|
  incoming s := drop (read_pos_ s) (buffer_ s);
  outgoing := buffer_;
  loopback := true;
  stream_inv := memory_wf
|}.
Proof.
  - intros buf s Hwf Hl. eexists. split; [by apply read_enough_spec|].
    unfold memory_wf in *. rewrite length_drop in Hl. simpl.
    rewrite drop_drop. split_and!; [lia|done..].
  - intros buf s Hwf Hl. exists buf, s. split; [by apply read_short_spec|done].
  - intros bs s. apply write_wf.
  - done.
  - intros bs s s' Hwf [= <-]. simpl. split; [by apply drop_app_le|done].
  - done.
Defined.
End MemorySocket.

(** ** A two-ended pipe

    A concrete duplex socket: what the peer sent, what was written, a cap, and
    whether writes still go through.  The witnesses of the development use it. *)
Module PipeSocket.

Record pipe := mkPipe {
  rx : list uint8_t;
  tx : list uint8_t;
  pipe_cap : Z;
  writable : bool
}.

Definition pipe_read (buffer : list uint8_t) (s : pipe) : bool * list uint8_t * pipe :=
  if (length (rx s) <? length buffer)%nat
  then (false, rx s ++ drop (length (rx s)) buffer, mkPipe [] (tx s) (pipe_cap s) (writable s))
  else (true, take (length buffer) (rx s),
        mkPipe (drop (length buffer) (rx s)) (tx s) (pipe_cap s) (writable s)).

Definition pipe_write (buffer : list uint8_t) (s : pipe) : bool * pipe :=
  if writable s then (true, mkPipe (rx s) (tx s ++ buffer) (pipe_cap s) true)
  else (false, s).

#[global] Instance pipe_sync : SyncSocket pipe := {|
  max_message_size := pipe_cap; socket_read := pipe_read; socket_write := pipe_write |}.

#[global, refine] Instance pipe_stream : StreamSocket pipe := {|
  incoming := rx; outgoing := tx; loopback := false; stream_inv _ := True |}.
Proof.
  - intros buf s _ Hl. simpl. unfold pipe_read.
    rewrite (proj2 (Nat.ltb_ge _ _)) by done. by eexists.
  - intros buf s _ Hl. simpl. unfold pipe_read.
    rewrite (proj2 (Nat.ltb_lt _ _)) by done. do 2 eexists. split; [done|].
    rewrite length_app, length_drop. split_and!; [done|lia|done..].
  - done.
  - intros bs s. simpl. unfold pipe_write. by destruct (writable s).
  - intros bs s s' _. simpl. unfold pipe_write. destruct (writable s); [|done].
    intros [= <-]. simpl. by rewrite app_nil_r.
  - intros bs s s' _. simpl. unfold pipe_write. destruct (writable s); [done|].
    intros [= <-]. split_and!; [done..|]. exists []. by rewrite app_nil_r.
Defined.
End PipeSocket.
