(* ===== verification/Message.v ===== *)
(** * Framing, sending and receiving ([src/src/message/message.hpp], [message.cpp])

    A message on the wire is a frame: the size of the header as a little-endian
    64-bit integer, the header (a MessageHeader buffer), and the body. *)

From S2P Require Import Prelude Endian Serialisation SocketBase.

Abbreviation message_id_t := uint8_t (only parsing).

(** [sizeof(frame_size_t)]. *)
Definition sizeof_frame_size : nat := 8.

Record message_t := mkMessage { header : list uint8_t; body : list uint8_t }.

(** ** Building messages *)
Section make.
Context `{Schema} {BE : BoostEndian}.

(** [msg::make_header]. *)
Definition make_header (id : message_id_t) (body_size : Z) (is_system : bool)
    : list uint8_t :=
  serialise (lift Create) (mkMessageHeader id body_size is_system).

(** [msg::make_frame_header]: the size prefix is the object representation of
    the little-endian size, copied in front of the header. *)
Definition make_frame_header (id : message_id_t) (body_size : Z) (is_system : bool)
    : list uint8_t :=
  let header_fb := make_header id body_size is_system in
  let wire_size := to_little sizeof_frame_size (zlen header_fb) in
  object_bytes native_order sizeof_frame_size wire_size ++ header_fb.

(** [msg::make_from_body]. *)
Definition make_from_body (id : message_id_t) (body : list uint8_t) (is_system : bool)
    : message_t :=
  mkMessage (make_frame_header id (zlen body) is_system) body.

(** [msg::make<CreateFn, is_system>]. *)
Definition make {T} `{!Table T} (is_system : bool) (id : message_id_t) (args : T)
    : message_t :=
  let body := serialise (lift Create) args in
  mkMessage (make_frame_header id (zlen body) is_system) body.
End make.

(** ** Synchronous sends *)
Section send.
Context `{Schema} {BE : BoostEndian} `{SyncSocket Sk}.

(** [msg::send_buffer]: header first; an empty body is not written. *)
Definition send_buffer (header body : list uint8_t) (socket : Sk) : bool * Sk :=
  let '(ok, socket) := socket_write header socket in
  if negb ok then (false, socket) else
  match body with
  | [] => (true, socket)
  | _ => socket_write body socket
  end.

(** [msg::send<CreateFn, is_system>]. *)
Definition send {T} `{!Table T} (is_system : bool) (id : message_id_t) (args : T)
    (socket : Sk) : bool * Sk :=
  let m := make is_system id args in
  send_buffer (header m) (body m) socket.

(** [msg::send_view]. *)
Definition send_view (is_system : bool) (id : message_id_t) (body : list uint8_t)
    (socket : Sk) : bool * Sk :=
  let header := make_frame_header id (zlen body) is_system in
  send_buffer header body socket.

(** [msg::send_ping]. *)
Definition send_ping (socket : Sk) : bool * Sk :=
  send true MessageId_HbPing mkHbPingRequest socket.
End send.

(** ** Asynchronous sends *)
Section async_send.
Context `{Schema} {BE : BoostEndian} `{AsyncWriter W}.

(** A completion handler is invocable as [void()] or as [void(bool)]. *)
Inductive completion_handler : Type :=
| handler_void (f : W -> W)
| handler_bool (f : bool -> W -> W).

(** [msg::detail::adapt]. *)
Definition adapt (handler : completion_handler) : bool -> W -> W :=
  match handler with
  | handler_bool f => f
  | handler_void f => fun _ => f
  end.

(** [msg::async_send_buffer]. *)
Definition async_send_buffer (header body : list uint8_t)
    (handler : async_callback_t W) (w : W) : W :=
  async_write header body handler w.

(** [msg::async_send] with a completion handler. *)
Definition async_send_with {T} `{!Table T} (is_system : bool) (id : message_id_t)
    (handler : completion_handler) (args : T) (w : W) : W :=
  let owned := make is_system id args in
  async_send_buffer (header owned) (body owned)
    (Some (fun is_valid => adapt handler is_valid)) w.

(** [msg::async_send], fire and forget. *)
Definition async_send {T} `{!Table T} (is_system : bool) (id : message_id_t)
    (args : T) (w : W) : W :=
  let owned := make is_system id args in
  async_send_buffer (header owned) (body owned) (Some (fun _ w => w)) w.

(** [msg::async_send_view] with a completion handler. *)
Definition async_send_view_with (is_system : bool) (id : message_id_t)
    (handler : completion_handler) (body : list uint8_t) (w : W) : W :=
  let header := make_frame_header id (zlen body) is_system in
  async_send_buffer header body (Some (fun is_valid => adapt handler is_valid)) w.

(** [msg::async_send_view], fire and forget. *)
Definition async_send_view (is_system : bool) (id : message_id_t)
    (body : list uint8_t) (w : W) : W :=
  let header := make_frame_header id (zlen body) is_system in
  async_send_buffer header body (Some (fun _ w => w)) w.
End async_send.
Arguments completion_handler : clear implicits.

(** ** Synchronous receives *)
Section recv.
Context `{Schema} {BE : BoostEndian} `{SyncSocket Sk, Allocator}.

(** What [recv_buffer] changes: the socket, the caller's [body_buffer], and
    (for the memory bounds) the sizes of the vectors it asks for. *)
Record recv_world := mkRecvWorld {
  rw_socket : Sk;
  rw_body : list uint8_t;
  rw_allocs : list Z
}.

(** [socket.read(value)] on an unsigned integer of [w] bytes. *)
Definition recv_value (w : nat) (value : Z) : M recv_world (bool * Z) := fun s =>
  let '(ok, v, sk) := read_value w value (rw_socket s) in
  (Ret (ok, v), mkRecvWorld sk (rw_body s) (rw_allocs s)).

(** [std::vector<std::uint8_t> v(n)]: zero-filled. *)
Definition new_vector (n : Z) : M recv_world (list uint8_t) := fun s =>
  let s := mkRecvWorld (rw_socket s) (rw_body s) (rw_allocs s ++ [n]) in
  match vector_alloc n with
  | Throw e => (Throw e, s)
  | Ret _ => (Ret (replicate (Z.to_nat n) Byte.x00), s)
  end.

(** [socket.read(buffer)] on a local buffer. *)
Definition recv_bytes (buffer : list uint8_t) : M recv_world (bool * list uint8_t) :=
  fun s =>
  let '(ok, buffer, sk) := socket_read buffer (rw_socket s) in
  (Ret (ok, buffer), mkRecvWorld sk (rw_body s) (rw_allocs s)).

(** [body_buffer.resize(n)]: truncate, or extend with zeros.  The capacity of the
    vector is not part of the world: every resize asks the allocator for [n] bytes,
    also one that would fit the capacity the vector has. *)
Definition resize_body (n : Z) : M recv_world unit := fun s =>
  match vector_alloc n with
  | Throw e => (Throw e, mkRecvWorld (rw_socket s) (rw_body s) (rw_allocs s ++ [n]))
  | Ret _ => (Ret tt, mkRecvWorld (rw_socket s) (resize (Z.to_nat n) Byte.x00 (rw_body s))
                        (rw_allocs s ++ [n]))
  end.

(** [socket.read(body_buffer)]. *)
Definition recv_body : M recv_world bool := fun s =>
  let '(ok, buffer, sk) := socket_read (rw_body s) (rw_socket s) in
  (Ret ok, mkRecvWorld sk buffer (rw_allocs s)).

(** [(void)send<System::CreateHbPongRequest, true>(socket, System::MessageId_HbPong)].
    The buffers that the builder of a sent message allocates, which depend on no
    byte of the peer, are neither recorded nor refused. *)
Definition send_pong : M recv_world unit := fun s =>
  let '(_, sk) := send true MessageId_HbPong mkHbPongRequest (rw_socket s) in
  (Ret tt, mkRecvWorld sk (rw_body s) (rw_allocs s)).

(** One iteration of the loop of [recv_buffer]: [Some r] when it returns [r],
    [None] when it goes round again. *)
Definition recv_once (max_message_size : Z)
    : M recv_world (option (option message_id_t)) :=
  '(ok, le_header_size) ← recv_value sizeof_frame_size 0;
  if negb ok then mret (Some None) else
  let header_size := from_little sizeof_frame_size le_header_size in
  if over_cap max_message_size header_size then mret (Some None) else
  header_buffer ← new_vector header_size;
  '(ok, header_buffer) ← recv_bytes header_buffer;
  if negb ok then mret (Some None) else
  if negb (is_valid MessageHeader header_buffer) then mret (Some None) else
  let header := deserialise MessageHeader header_buffer in
  let id := type header in
  let body_size := body_size header in
  let is_system := is_system header in
  if over_cap max_message_size body_size then mret (Some None) else
  _ ← resize_body body_size;
  ok ← recv_body;
  if negb ok then mret (Some None) else
  if negb is_system then mret (Some (Some id)) else
  _ ← (if decide (id = MessageId_HbPing) then send_pong else mret tt);
  mret None.

(** The loop, with fuel for its iterations; [None] when the fuel runs out. *)
Fixpoint recv_loop (max_message_size : Z) (fuel : nat)
    : M recv_world (option (option message_id_t)) :=
  match fuel with
  | O => mret None
  | S fuel =>
      r ← recv_once max_message_size;
      match r with
      | Some res => mret (Some res)
      | None => recv_loop max_message_size fuel
      end
  end.

(** [msg::recv_buffer]: the cap is read once, before the loop. *)
Definition recv_buffer (fuel : nat) : M recv_world (option (option message_id_t)) :=
  max_message_size ← gets (fun s => max_message_size (rw_socket s));
  recv_loop max_message_size fuel.

(** [msg::recv<T>]: the inner [None] is the null pointer. *)
Definition recv (T : Type) `{!Table T} (fuel : nat) : M recv_world (option (option T)) :=
  r ← recv_buffer fuel;
  match r with
  | None => mret None
  | Some None => mret (Some None)
  | Some (Some _) =>
      buffer ← gets rw_body;
      if negb (is_valid T buffer) then mret (Some None)
      else mret (Some (Some (deserialise T buffer)))
  end.
End recv.
Arguments recv_world : clear implicits.
Arguments mkRecvWorld {Sk} _ _ _.
