(* ===== verification/WireFormat.v ===== *)
(** * The wire format: a reference codec, and the framing code against it

    [encode_frame] and [parse_frame] say what a frame is, without sockets, hosts
    or buffers; [next_message] says what a receiver should return on a stream of
    bytes.  The theorems relate [send], [recv_buffer] and [recv] of Message.v to
    them, for every socket that satisfies the [StreamSocket] contract. *)

From S2P Require Import Prelude Endian Serialisation SocketBase Message.

(** ** Reference definitions *)

Record frame := mkFrame {
  f_system : bool;
  f_id : message_id_t;
  f_body : list uint8_t
}.

(** Where a receiver gives up on a frame. *)
Inductive fail_stage : Type :=
| short_size | header_over_cap | short_header | invalid_header | body_over_cap | short_body.

Inductive parsed : Type :=
| PFrame (f : frame) (rest : list uint8_t)
| PFail (st : fail_stage)
| PExn (e : exn).

(** The first message of a stream, the system frames in front of it, and the
    bytes behind it; or why there is none. *)
Inductive next_result : Type :=
| NMessage (skipped : list frame) (f : frame) (rest : list uint8_t)
| NFail (skipped : list frame) (st : fail_stage)
| NThrow (skipped : list frame) (e : exn)
| NFuel (skipped : list frame).

Definition skip_frame (f : frame) (r : next_result) : next_result :=
  match r with
  | NMessage fs g rest => NMessage (f :: fs) g rest
  | NFail fs st => NFail (f :: fs) st
  | NThrow fs e => NThrow (f :: fs) e
  | NFuel fs => NFuel (f :: fs)
  end.

Definition skipped (r : next_result) : list frame :=
  match r with NMessage fs _ _ | NFail fs _ | NThrow fs _ | NFuel fs => fs end.

Inductive stream_end : Type :=
| end_fail (st : fail_stage)
| end_throw (e : exn)
| end_fuel.

Definition is_ping (f : frame) : bool :=
  f_system f && bool_decide (f_id f = MessageId_HbPing).

Section reference.
Context `{Schema}.

Definition frame_header (f : frame) : list uint8_t :=
  make_header (f_id f) (zlen (f_body f)) (f_system f).

Definition encode_frame (f : frame) : list uint8_t :=
  le_split 8 (zlen (frame_header f)) ++ frame_header f ++ f_body f.

(** The pong a receiver answers a ping with. *)
Definition pong_frame : frame :=
  mkFrame true MessageId_HbPong (serialise (lift Create) mkHbPongRequest).

Context `{Allocator}.

Definition parse_frame (cap : Z) (bs : list uint8_t) : parsed :=
  if (length bs <? 8)%nat then PFail short_size else
  let header_size := le_combine (take 8 bs) in
  let bs := drop 8 bs in
  if over_cap cap header_size then PFail header_over_cap else
  match vector_alloc header_size with
  | Throw e => PExn e
  | Ret _ =>
    if zlen bs <? header_size then PFail short_header else
    let hb := take (Z.to_nat header_size) bs in
    let bs := drop (Z.to_nat header_size) bs in
    if negb (is_valid MessageHeader hb) then PFail invalid_header else
    let h := deserialise MessageHeader hb in
    if over_cap cap (body_size h) then PFail body_over_cap else
    match vector_alloc (body_size h) with
    | Throw e => PExn e
    | Ret _ =>
      if zlen bs <? body_size h then PFail short_body else
      PFrame (mkFrame (is_system h) (type h) (take (Z.to_nat (body_size h)) bs))
        (drop (Z.to_nat (body_size h)) bs)
    end
  end.

Fixpoint next_message (cap : Z) (fuel : nat) (bs : list uint8_t) : next_result :=
  match fuel with
  | O => NFuel []
  | S fuel =>
    match parse_frame cap bs with
    | PFrame f rest =>
        if f_system f then skip_frame f (next_message cap fuel rest) else NMessage [] f rest
    | PFail st => NFail [] st
    | PExn e => NThrow [] e
    end
  end.

(** All frames of a stream, and why the sequence ends. *)
Fixpoint decode (cap : Z) (fuel : nat) (bs : list uint8_t) : list frame * stream_end :=
  match fuel with
  | O => ([], end_fuel)
  | S fuel =>
    match parse_frame cap bs with
    | PFrame f rest => let '(fs, e) := decode cap fuel rest in (f :: fs, e)
    | PFail st => ([], end_fail st)
    | PExn e => ([], end_throw e)
    end
  end.

(** A frame a receiver with cap [cap] accepts: neither part is over the cap, and
    both can be allocated. *)
Definition frame_fits (cap : Z) (f : frame) : Prop :=
  over_cap cap (zlen (frame_header f)) = false /\
  over_cap cap (zlen (f_body f)) = false /\
  vector_alloc (zlen (frame_header f)) = Ret tt /\
  vector_alloc (zlen (f_body f)) = Ret tt.
End reference.
Arguments encode_frame : simpl never.
Arguments parse_frame : simpl never.

(** ** The codec *)

Lemma vector_alloc_bound `{Allocator} n : vector_alloc n = Ret tt -> n <= vector_max_size.
Proof.
  unfold vector_alloc. destruct (Z.ltb_spec vector_max_size n); [done|].
  by destruct (alloc_available n).
Qed.

Lemma vector_alloc_u64 `{Allocator} {A} (l : list A) :
  vector_alloc (zlen l) = Ret tt -> is_u64 (zlen l).
Proof.
  intros Hb%vector_alloc_bound. unfold vector_max_size in Hb.
  pose proof (zlen_nonneg l). unfold is_u64, u64_modulus. lia.
Qed.

Lemma zlen_ltb_false {A} (l k : list A) : (zlen (l ++ k) <? zlen l) = false.
Proof. rewrite zlen_app. pose proof (zlen_nonneg k). lia. Qed.

Lemma take_zlen {A} (l k : list A) : take (Z.to_nat (zlen l)) (l ++ k) = l.
Proof. rewrite zlen_to_nat. apply take_app_length. Qed.

Lemma drop_zlen {A} (l k : list A) : drop (Z.to_nat (zlen l)) (l ++ k) = k.
Proof. rewrite zlen_to_nat. apply drop_app_length. Qed.

Section codec.
Context `{SchemaLaws, Allocator}.

Lemma parse_encode_frame cap f rest :
  frame_fits cap f -> parse_frame cap (encode_frame f ++ rest) = PFrame f rest.
Proof.
  intros (Hch & Hcb & Hah & Hab).
  assert (table_wf (mkMessageHeader (f_id f) (zlen (f_body f)) (f_system f))) as Hwf.
  { apply (proj2 (header_wf _)). by apply vector_alloc_u64. }
  unfold parse_frame, encode_frame.
  set (sz := le_split 8 (zlen (frame_header f))).
  assert (length sz = 8%nat) as Hsz by apply length_le_split.
  rewrite <-!(assoc_L (++)).
  rewrite (proj2 (Nat.ltb_ge _ _)) by (rewrite length_app; lia).
  rewrite take_app_length', drop_app_length' by done.
  assert (le_combine sz = zlen (frame_header f)) as ->.
  { unfold sz. rewrite le_combine_split. apply Z.mod_small. by apply vector_alloc_u64. }
  rewrite Hch, Hah, zlen_ltb_false, take_zlen, drop_zlen.
  unfold frame_header, make_header.
  rewrite is_valid_serialise, deserialise_serialise by done. simpl.
  rewrite Hcb, Hab, zlen_ltb_false, take_zlen, drop_zlen. by destruct f.
Qed.

(** Every frame takes at least its size prefix. *)
Lemma parse_frame_shrinks cap bs f rest :
  parse_frame cap bs = PFrame f rest -> (length rest + 8 <= length bs)%nat.
Proof.
  unfold parse_frame. destruct (Nat.ltb_spec (length bs) 8); [done|].
  repeat case_match; intros; simplify_eq. rewrite !length_drop. lia.
Qed.

(** The parsed body has the size the header announced, within the cap. *)
Lemma parse_frame_body_cap cap bs f rest :
  parse_frame cap bs = PFrame f rest -> over_cap cap (zlen (f_body f)) = false.
Proof.
  unfold parse_frame. repeat case_match; intros; simplify_eq. simpl.
  match goal with H : negb (is_valid _ ?b) = false |- _ =>
    apply negb_false_iff, root_typed, header_wf in H as [Hge _] end.
  match goal with H : over_cap _ _ = false |- context [take ?n ?l] =>
    enough (zlen (take n l) = Z.of_nat n) as ->; [rewrite Z2Nat.id; done|] end.
  unfold zlen in *. rewrite length_take, min_l; [done|].
  match goal with H : (_ <? _) = false |- (_ <= length ?l)%nat =>
    match type of H with context [l] => apply Z.ltb_ge in H end end.
  unfold deserialise in *. lia.
Qed.

Lemma next_message_terminates cap fuel bs :
  (length bs < 8 * fuel)%nat -> forall fs, next_message cap fuel bs <> NFuel fs.
Proof.
  revert bs. induction fuel as [|fuel IH]; intros bs Hl fs; [lia|]. simpl.
  destruct (parse_frame cap bs) as [f rest| |] eqn:E; try done.
  apply parse_frame_shrinks in E. destruct (f_system f); [|done].
  specialize (IH rest ltac:(lia)). by destruct (next_message cap fuel rest); [| | |edestruct IH].
Qed.

Lemma decode_terminates cap fuel bs :
  (length bs < 8 * fuel)%nat -> (decode cap fuel bs).2 <> end_fuel.
Proof.
  revert bs. induction fuel as [|fuel IH]; intros bs Hl; [lia|]. cbn [decode].
  destruct (parse_frame cap bs) as [f rest| |] eqn:E; try done.
  apply parse_frame_shrinks in E. specialize (IH rest ltac:(lia)).
  by destruct (decode cap fuel rest).
Qed.

(** The first application message of the decoded stream is the one
    [next_message] finds. *)
Lemma decode_next_message cap fuel bs :
  match next_message cap fuel bs with
  | NMessage fs f rest => exists fs', (decode cap fuel bs).1 = fs ++ f :: fs' /\
      f_system f = false
  | NFail fs st => decode cap fuel bs = (fs, end_fail st)
  | NThrow fs e => decode cap fuel bs = (fs, end_throw e)
  | NFuel fs => decode cap fuel bs = (fs, end_fuel)
  end /\ Forall (fun f => f_system f = true) (skipped (next_message cap fuel bs)).
Proof.
  revert bs. induction fuel as [|fuel IH]; intros bs; [by repeat constructor|].
  cbn [next_message decode].
  destruct (parse_frame cap bs) as [f rest|st|e]; [|by repeat constructor..].
  specialize (IH rest). destruct (f_system f) eqn:Hs.
  - destruct IH as [IH Hsk].
    destruct (next_message cap fuel rest); simpl in *; split; try by constructor.
    + destruct IH as (fs' & E & Hf). exists fs'. destruct (decode cap fuel rest).
      simpl in *. by rewrite E.
    + by rewrite IH.
    + by rewrite IH.
    + by rewrite IH.
  - split; [|constructor]. exists (decode cap fuel rest).1.
    by destruct (decode cap fuel rest).
Qed.

Lemma next_message_encoded cap fuel sys msg rest :
  Forall (fun f => f_system f = true /\ frame_fits cap f) sys ->
  f_system msg = false -> frame_fits cap msg -> (length sys < fuel)%nat ->
  next_message cap fuel (concat (encode_frame <$> sys) ++ encode_frame msg ++ rest)
  = NMessage sys msg rest.
Proof.
  intros Hsys Hmsg Hfit. revert fuel.
  induction Hsys as [|f sys [Hf Hff] _ IH]; intros [|fuel] Hl;
    cbn [length] in Hl; try lia; cbn [fmap list_fmap concat next_message app].
  - rewrite parse_encode_frame by done. by rewrite Hmsg.
  - rewrite <-(assoc_L (++)), parse_encode_frame by done. rewrite Hf.
    by rewrite IH by lia.
Qed.
End codec.

(** ** The receiver against the reference *)
Section receiver.
Context `{SchemaLaws} {BE : BoostEndian} {BEL : BoostEndianLaws} `{StreamSocket Sk, Allocator}.
Implicit Types (w : recv_world Sk).

(** [w'] is [w] after [n] more bytes of its socket were read. *)
Definition advanced (n : nat) (w w' : recv_world Sk) : Prop :=
  stream_inv (rw_socket w') /\
  incoming (rw_socket w') = drop n (incoming (rw_socket w)) /\
  outgoing (rw_socket w') = outgoing (rw_socket w) /\
  max_message_size (rw_socket w') = max_message_size (rw_socket w).

(** [w'] is [w] after a failed read. *)
Definition failed (w w' : recv_world Sk) : Prop :=
  stream_inv (rw_socket w') /\
  outgoing (rw_socket w') = outgoing (rw_socket w) /\
  max_message_size (rw_socket w') = max_message_size (rw_socket w).

Lemma recv_value_enough n v w :
  stream_inv (rw_socket w) -> (n <= length (incoming (rw_socket w)))%nat ->
  exists w', recv_value n v w =
    (Ret (true, object_value native_order (take n (incoming (rw_socket w)))), w') /\
    advanced n w w' /\ rw_body w' = rw_body w.
Proof.
  intros Hi Hl. unfold recv_value, read_value.
  destruct (read_enough (object_bytes native_order n v) (rw_socket w)) as (s' & -> & ?);
    rewrite ?length_object_bytes in *; [done..|].
  by eexists.
Qed.

Lemma recv_value_short n v w :
  stream_inv (rw_socket w) -> (length (incoming (rw_socket w)) < n)%nat ->
  exists v' w', recv_value n v w = (Ret (false, v'), w') /\
    failed w w' /\ rw_body w' = rw_body w.
Proof.
  intros Hi Hl. unfold recv_value, read_value.
  destruct (read_short (object_bytes native_order n v) (rw_socket w)) as (b & s' & -> & ?);
    rewrite ?length_object_bytes in *; [done..|].
  do 2 eexists. split; [done|]. unfold failed. tauto.
Qed.

Lemma recv_bytes_enough buf w :
  stream_inv (rw_socket w) -> (length buf <= length (incoming (rw_socket w)))%nat ->
  exists w', recv_bytes buf w =
    (Ret (true, take (length buf) (incoming (rw_socket w))), w') /\
    advanced (length buf) w w' /\ rw_body w' = rw_body w.
Proof.
  intros Hi Hl. unfold recv_bytes.
  destruct (read_enough buf (rw_socket w)) as (s' & -> & ?); [done..|]. by eexists.
Qed.

Lemma recv_bytes_short buf w :
  stream_inv (rw_socket w) -> (length (incoming (rw_socket w)) < length buf)%nat ->
  exists b w', recv_bytes buf w = (Ret (false, b), w') /\
    failed w w' /\ rw_body w' = rw_body w.
Proof.
  intros Hi Hl. unfold recv_bytes.
  destruct (read_short buf (rw_socket w)) as (b & s' & -> & ?); [done..|].
  do 2 eexists. split; [done|]. unfold failed. tauto.
Qed.

Lemma recv_body_enough w :
  stream_inv (rw_socket w) ->
  (length (rw_body w) <= length (incoming (rw_socket w)))%nat ->
  exists w', recv_body w = (Ret true, w') /\ advanced (length (rw_body w)) w w' /\
    rw_body w' = take (length (rw_body w)) (incoming (rw_socket w)).
Proof.
  intros Hi Hl. unfold recv_body.
  destruct (read_enough (rw_body w) (rw_socket w)) as (s' & -> & ?); [done..|]. by eexists.
Qed.

Lemma recv_body_short w :
  stream_inv (rw_socket w) ->
  (length (incoming (rw_socket w)) < length (rw_body w))%nat ->
  exists w', recv_body w = (Ret false, w') /\ failed w w'.
Proof.
  intros Hi Hl. unfold recv_body.
  destruct (read_short (rw_body w) (rw_socket w)) as (b & s' & -> & ?); [done..|].
  eexists. split; [done|]. unfold failed. tauto.
Qed.

Lemma new_vector_run n w :
  new_vector n w =
  (match vector_alloc n with
   | Throw e => Throw e
   | Ret _ => Ret (replicate (Z.to_nat n) Byte.x00)
   end, mkRecvWorld (rw_socket w) (rw_body w) (rw_allocs w ++ [n])).
Proof. unfold new_vector. by destruct (vector_alloc n). Qed.

(** What an iteration from [w] with result [r] does, given what the reference
    parses. *)
Definition once_rel (p : parsed) w (r : outcome (option (option message_id_t)) * recv_world Sk)
    : Prop :=
  match p with
  | PExn e => exists w', r = (Throw e, w') /\ failed w w'
  | PFail st => exists w', r = (Ret (Some None), w') /\ failed w w' /\
      (st <> short_body -> rw_body w' = rw_body w)
  | PFrame f rest => exists w1,
      failed w w1 /\ incoming (rw_socket w1) = rest /\ rw_body w1 = f_body f /\
      r = (if f_system f then (Ret None, if is_ping f then (send_pong w1).2 else w1)
           else (Ret (Some (Some (f_id f))), w1))
  end.

Lemma send_pong_run w : send_pong w = (Ret tt, (send_pong w).2).
Proof. unfold send_pong. by destruct (send true _ _ _). Qed.

(** A world that differs from [w0] only by successful reads and allocations. *)
Lemma failed_trans w0 w1 w2 : failed w0 w1 -> failed w1 w2 -> failed w0 w2.
Proof. unfold failed. intros (?&?&?) (?&?&?). split_and!; congruence. Qed.

(** The second half of an iteration, from a parsed header on. *)
Definition recv_tail (cap : Z) (h : MessageHeader)
    : M (recv_world Sk) (option (option message_id_t)) :=
  if over_cap cap (body_size h) then mret (Some None) else
  _ ← resize_body (body_size h);
  ok ← recv_body;
  if negb ok then mret (Some None) else
  if negb (is_system h) then mret (Some (Some (type h))) else
  _ ← (if decide (type h = MessageId_HbPing) then send_pong else mret tt);
  mret None.

Definition parse_tail (cap : Z) (h : MessageHeader) (bs : list uint8_t) : parsed :=
  if over_cap cap (body_size h) then PFail body_over_cap else
  match vector_alloc (body_size h) with
  | Throw e => PExn e
  | Ret _ =>
    if zlen bs <? body_size h then PFail short_body else
    PFrame (mkFrame (is_system h) (type h) (take (Z.to_nat (body_size h)) bs))
      (drop (Z.to_nat (body_size h)) bs)
  end.

Lemma recv_tail_run cap h w0 w :
  failed w0 w -> rw_body w = rw_body w0 -> is_u64 (body_size h) ->
  once_rel (parse_tail cap h (incoming (rw_socket w))) w0 (recv_tail cap h w).
Proof.
  intros Hf Hb [Hge _]. assert (stream_inv (rw_socket w)) as Hi by apply Hf.
  unfold parse_tail, recv_tail.
  destruct (over_cap cap (body_size h)); [by exists w|].
  set (n := Z.to_nat (body_size h)).
  destruct (vector_alloc (body_size h)) as [[]|e] eqn:Ha.
  2: { eexists. split; [by apply bind_Throw; unfold resize_body; rewrite Ha|]. done. }
  set (w1 := mkRecvWorld (rw_socket w) (resize n Byte.x00 (rw_body w))
               (rw_allocs w ++ [body_size h])).
  assert (resize_body (body_size h) w = (Ret tt, w1)) as Hr
    by (unfold resize_body; by rewrite Ha).
  run Hr. assert (length (rw_body w1) = n) as Hn by apply length_resize.
  change (rw_socket w) with (rw_socket w1).
  destruct (Z.ltb_spec (zlen (incoming (rw_socket w1))) (body_size h)) as [Hlt|Hle].
  - destruct (recv_body_short w1) as (w' & Hw' & Hf'); [done|unfold zlen in *; lia|].
    run Hw'. exists w'. split_and!; [done|by eapply failed_trans|done].
  - destruct (recv_body_enough w1) as (w' & Hw' & (?&Hin&?&?) & Hb');
      [done|unfold zlen in *; lia|].
    run Hw'. rewrite Hn in *. exists w'. split_and!; [|done..|].
    { by apply (failed_trans _ w). }
    unfold is_ping. destruct h as [ty sz []]; [|done]; cbn.
    case_bool_decide; [rewrite decide_True by done; run (send_pong_run w')
                      |rewrite decide_False by done]; done.
Qed.

Lemma recv_once_parse cap w :
  stream_inv (rw_socket w) ->
  once_rel (parse_frame cap (incoming (rw_socket w))) w (recv_once cap w).
Proof.
  intros Hi. unfold parse_frame, recv_once.
  set (bs := incoming (rw_socket w)).
  destruct (Nat.ltb_spec (length bs) 8) as [Hlt|Hge].
  { destruct (recv_value_short sizeof_frame_size 0 w) as (v & w' & Hw' & Hf); [done..|].
    run Hw'. eexists. split; [done|]. tauto. }
  destruct (recv_value_enough sizeof_frame_size 0 w) as (w1 & Hw1 & (Hi1&Hin1&Ho1&Hc1) & Hb1);
    [done..|].
  run Hw1. fold bs in Hin1 |- *.
  assert (from_little sizeof_frame_size (object_value native_order (take sizeof_frame_size bs))
          = le_combine (take 8 bs)) as ->.
  { rewrite <-(from_little_bytes_eq (take 8 bs)). f_equal. rewrite length_take.
    unfold sizeof_frame_size. lia. }
  set (hs := le_combine (take 8 bs)). change sizeof_frame_size with 8%nat in Hin1.
  assert (failed w w1) as Hf1 by done.
  cbn [negb]. destruct (over_cap cap hs); [by exists w1|].
  pose proof (new_vector_run hs w1) as Hv.
  destruct (vector_alloc hs) as [[]|e].
  2: { eexists. split; [by apply bind_Throw|done]. }
  run Hv. set (w2 := mkRecvWorld _ _ _) in *.
  set (hb := replicate (Z.to_nat hs) Byte.x00).
  assert (0 <= hs) by apply le_combine_bound.
  assert (length hb = Z.to_nat hs) as Hhb by apply length_replicate.
  rewrite <-Hin1. change (rw_socket w1) with (rw_socket w2).
  destruct (Z.ltb_spec (zlen (incoming (rw_socket w2))) hs) as [Hlt|Hle].
  { destruct (recv_bytes_short hb w2) as (b & w' & Hw' & Hf & Hbo);
      [done|unfold zlen in *; lia|].
    run Hw'. exists w'. split_and!; [done|by apply (failed_trans _ w2)|].
    intros _. by rewrite Hbo. }
  destruct (recv_bytes_enough hb w2) as (w3 & Hw3 & (Hi3&Hin3&Ho3&Hc3) & Hb3);
    [done|unfold zlen in *; lia|].
  run Hw3. rewrite Hhb in *. rewrite <-Hin3.
  assert (failed w w3) as Hf3 by by apply (failed_trans _ w2).
  set (hdr := take (Z.to_nat hs) (incoming (rw_socket w2))).
  assert (rw_body w3 = rw_body w) as Hb03 by by rewrite Hb3.
  destruct (is_valid MessageHeader hdr) eqn:Hval; cbn [negb]; [|by exists w3].
  apply root_typed, header_wf in Hval.
  exact (recv_tail_run cap (deserialise MessageHeader hdr) w w3 Hf3 Hb03 Hval).
Qed.

(** *** Answering pings *)

Lemma make_frame_header_eq id n sys :
  make_frame_header id n sys =
  le_split 8 (zlen (make_header id n sys)) ++ make_header id n sys.
Proof.
  unfold make_frame_header. f_equal. apply to_little_bytes_eq.
  assert (zlen (make_header id n sys) < 2 ^ 31) as Hs
    by exact (finished_size (mkMessageHeader id n sys)).
  pose proof (zlen_nonneg (make_header id n sys)).
  change (2 ^ (Z.of_nat sizeof_frame_size * 8)) with (2 ^ 64). lia.
Qed.

Lemma frame_bytes_eq id sys (body : list uint8_t) :
  make_frame_header id (zlen body) sys ++ body = encode_frame (mkFrame sys id body).
Proof. rewrite make_frame_header_eq. unfold encode_frame. by rewrite <-(assoc_L (++)). Qed.

(** Every write of the socket goes through. *)
Definition reliable : Prop := forall bs (s : Sk), (socket_write bs s).1 = true.

Lemma write_duplex bs (s : Sk) :
  loopback = false -> stream_inv s -> incoming (socket_write bs s).2 = incoming s.
Proof.
  intros Hl Hi. destruct (socket_write bs s) as [[] s1] eqn:E; simpl.
  - destruct (write_ok _ _ _ Hi E) as [-> _]. by rewrite Hl, app_nil_r.
  - by destruct (write_fail _ _ _ Hi E) as (_&->&_).
Qed.

Lemma send_buffer_keeps hd bd (s : Sk) :
  stream_inv s ->
  stream_inv (send_buffer hd bd s).2 /\
  max_message_size (send_buffer hd bd s).2 = max_message_size s /\
  (loopback = false -> incoming (send_buffer hd bd s).2 = incoming s).
Proof.
  intros Hi. unfold send_buffer.
  pose proof (write_inv hd s Hi) as Hi1. pose proof (write_cap hd s) as Hc1.
  pose proof (fun Hl => write_duplex hd s Hl Hi) as Hin1.
  destruct (socket_write hd s) as [[] s1]; simpl in *; [|done].
  destruct bd as [|b bd]; [done|].
  pose proof (write_cap (b :: bd) s1) as Hc2.
  split_and!; [by apply write_inv|congruence|].
  intros Hl. rewrite <-(Hin1 Hl). by apply write_duplex.
Qed.

Lemma send_buffer_reliable hd bd (s : Sk) :
  reliable -> stream_inv s ->
  (send_buffer hd bd s).1 = true /\
  outgoing (send_buffer hd bd s).2 = outgoing s ++ hd ++ bd /\
  incoming (send_buffer hd bd s).2 = incoming s ++ (if loopback then hd ++ bd else []).
Proof.
  intros Hr Hi. unfold send_buffer.
  pose proof (Hr hd s) as Hw. pose proof (write_inv hd s Hi) as Hi1.
  destruct (socket_write hd s) as [? s1] eqn:E; simpl in *; subst.
  apply write_ok in E as [Hin1 Ho1]; [|done].
  destruct bd as [|b bd]; [simpl; by rewrite app_nil_r|]. cbn [negb].
  pose proof (Hr (b :: bd) s1) as Hw.
  destruct (socket_write (b :: bd) s1) as [? s2] eqn:E; simpl in *; subst.
  apply write_ok in E as [Hin2 Ho2]; [|done]. rewrite Hin2, Ho2, Hin1, Ho1.
  rewrite <-!(assoc_L (++)). destruct loopback; [done|by rewrite !app_nil_r].
Qed.

Lemma send_pong_keeps w :
  loopback = false -> stream_inv (rw_socket w) ->
  stream_inv (rw_socket (send_pong w).2) /\
  incoming (rw_socket (send_pong w).2) = incoming (rw_socket w) /\
  (reliable -> outgoing (rw_socket (send_pong w).2) =
     outgoing (rw_socket w) ++ encode_frame pong_frame).
Proof.
  intros Hl Hi. unfold send_pong, send.
  set (m := make _ _ _).
  pose proof (send_buffer_keeps (header m) (body m) (rw_socket w) Hi) as (?&_&?).
  pose proof (send_buffer_reliable (header m) (body m) (rw_socket w)) as Hr.
  destruct (send_buffer _ _ _) as [ok s']; simpl in *. split_and!; [auto..|].
  intros R. destruct (Hr R Hi) as (_&->&_). f_equal. apply frame_bytes_eq.
Qed.

(** *** The loop *)

(** The pongs sent for the pings among the skipped frames [fs]. *)
Definition answered (fs : list frame) w w' : Prop :=
  reliable -> outgoing (rw_socket w') =
    outgoing (rw_socket w) ++ concat ((fun _ => encode_frame pong_frame) <$> filter is_ping fs).

(** What [recv_buffer] from [w] does, given what the reference says. *)
Definition recv_rel (n : next_result) w
    (r : outcome (option (option message_id_t)) * recv_world Sk) : Prop :=
  match n with
  | NMessage fs f rest => exists w', r = (Ret (Some (Some (f_id f))), w') /\
      rw_body w' = f_body f /\ incoming (rw_socket w') = rest /\ answered fs w w'
  | NFail fs _ => exists w', r = (Ret (Some None), w') /\ answered fs w w'
  | NThrow fs e => exists w', r = (Throw e, w') /\ answered fs w w'
  | NFuel _ => False
  end.

Lemma answered_skip f fs w w1 w' :
  (reliable -> outgoing (rw_socket w1) = outgoing (rw_socket w) ++
     (if is_ping f then encode_frame pong_frame else [])) ->
  answered fs w1 w' -> answered (f :: fs) w w'.
Proof.
  unfold answered. intros Ho Ha R. rewrite (Ha R), (Ho R), filter_cons.
  destruct (is_ping f); simpl; rewrite <-(assoc_L (++)); done.
Qed.

Lemma recv_rel_skip f n w w1 r :
  (reliable -> outgoing (rw_socket w1) = outgoing (rw_socket w) ++
     (if is_ping f then encode_frame pong_frame else [])) ->
  recv_rel n w1 r -> recv_rel (skip_frame f n) w r.
Proof.
  intros Ho Hr. destruct n; simpl in *; [..|done].
  all: destruct Hr as (w' & ? & Hr); exists w'; destruct_and?; split_and?;
    eauto using answered_skip.
Qed.

Lemma recv_loop_refines cap fuel w :
  loopback = false -> stream_inv (rw_socket w) ->
  (length (incoming (rw_socket w)) < 8 * fuel)%nat ->
  recv_rel (next_message cap fuel (incoming (rw_socket w))) w (recv_loop cap fuel w).
Proof.
  intros Hl. revert w. induction fuel as [|fuel IH]; intros w Hi Hf; [lia|].
  cbn [next_message recv_loop].
  pose proof (recv_once_parse cap w Hi) as Ho.
  destruct (parse_frame cap (incoming (rw_socket w))) as [f rest|st|e] eqn:Hp; simpl in Ho.
  - apply parse_frame_shrinks in Hp.
    destruct Ho as (w1 & (Hi1 & Ho1 & _) & <- & Hb1 & Hr).
    destruct (f_system f) eqn:Hs; run Hr.
    + assert (exists w2, (if is_ping f then (send_pong w1).2 else w1) = w2 /\
        stream_inv (rw_socket w2) /\ incoming (rw_socket w2) = incoming (rw_socket w1) /\
        (reliable -> outgoing (rw_socket w2) = outgoing (rw_socket w) ++
           (if is_ping f then encode_frame pong_frame else []))) as (w2 & -> & Hi2 & Hin2 & Ho2).
      { eexists. split; [done|]. rewrite <-Ho1. destruct (is_ping f).
        - by apply send_pong_keeps.
        - by rewrite app_nil_r. }
      apply (recv_rel_skip _ _ _ w2); [done|]. rewrite <-Hin2. apply IH; [done|].
      rewrite Hin2. lia.
    + exists w1. split_and!; [done..|]. intros _. by rewrite Ho1, app_nil_r.
  - destruct Ho as (w' & Hr & (_ & Ho1 & _) & _). run Hr. exists w'. split; [done|].
    intros _. by rewrite Ho1, app_nil_r.
  - destruct Ho as (w' & Hr & (_ & Ho1 & _)). exists w'. split; [by apply bind_Throw|].
    intros _. by rewrite Ho1, app_nil_r.
Qed.
End receiver.
