(* ===== verification/MessageCorrect.v ===== *)
(** * Correctness of the message layer

    The properties of [src/src/message/message.cpp] and [message.hpp]: the
    receiver implements the reference of WireFormat.v and terminates, allocates
    within the cap, and undoes the senders, across hosts and sockets. *)

From S2P Require Import Prelude Endian Serialisation SocketBase Message WireFormat.

(** ** The receiver *)

(** C2 [recv_buffer] on a stream socket implements the reference receiver, and
    returns: with fuel for one iteration per eight unread bytes, it returns the
    id and body of the first application message and leaves exactly the bytes
    behind it, or reports failure, or throws, as [next_message] says; system
    frames in front of it are skipped, and one pong is written for each ping. *)
Theorem recv_buffer_refines `{SchemaLaws} {BE : BoostEndian} {BEL : BoostEndianLaws} `{StreamSocket Sk, Allocator}
    (fuel : nat) (w : recv_world Sk) :
  loopback = false -> stream_inv (rw_socket w) ->
  (length (incoming (rw_socket w)) < 8 * fuel)%nat ->
  recv_rel (next_message (max_message_size (rw_socket w)) fuel (incoming (rw_socket w)))
    w (recv_buffer fuel w).
Proof. apply recv_loop_refines. Qed.

(** Allocations: *)
Section bounds.
Context `{Schema} {BE : BoostEndian} `{SyncSocket Sk, Allocator}.

(** Every vector size asked for since [old] is at most [cap]. *)
Definition allocs_within (cap : Z) (old : list Z) (w : recv_world Sk) : Prop :=
  exists new, rw_allocs w = old ++ new /\ Forall (fun n => n <= cap) new.

Lemma allocs_within_snoc cap old s b l b' s' n :
  n <= cap -> allocs_within cap old (mkRecvWorld s b l) ->
  allocs_within cap old (mkRecvWorld s' b' (l ++ [n])).
Proof.
  intros Hn (new & Hl & Hf). exists (new ++ [n]). simpl in *. subst.
  split; [by rewrite (assoc_L (++))|]. rewrite Forall_app. auto.
Qed.

Lemma new_vector_within cap old n :
  n <= cap -> preserves (allocs_within cap old) (new_vector (Sk := Sk) n).
Proof.
  intros Hn [s b l] Hw. rewrite new_vector_run. by eapply allocs_within_snoc.
Qed.

Lemma resize_body_within cap old n :
  n <= cap -> preserves (allocs_within cap old) (resize_body (Sk := Sk) n).
Proof.
  intros Hn [s b l] Hw. unfold resize_body.
  destruct (vector_alloc n); by eapply allocs_within_snoc.
Qed.

Lemma recv_value_within cap old w v :
  preserves (allocs_within cap old) (recv_value (Sk := Sk) w v).
Proof. intros s Hw. unfold recv_value. by destruct (read_value _ _ _) as [[]]. Qed.

Lemma recv_bytes_within cap old b :
  preserves (allocs_within cap old) (recv_bytes (Sk := Sk) b).
Proof. intros s Hw. unfold recv_bytes. by destruct (socket_read _ _) as [[]]. Qed.

Lemma recv_body_within cap old : preserves (allocs_within cap old) (recv_body (Sk := Sk)).
Proof. intros s Hw. unfold recv_body. by destruct (socket_read _ _) as [[]]. Qed.

Lemma send_pong_within cap old : preserves (allocs_within cap old) (send_pong (Sk := Sk)).
Proof. intros s Hw. unfold send_pong. by destruct (send _ _ _ _) as []. Qed.

Lemma recv_once_within cap old :
  cap <> 0 -> preserves (allocs_within cap old) (recv_once (Sk := Sk) cap).
Proof.
  intros Hc. unfold recv_once.
  repeat first
    [ apply preserves_ret
    | apply preserves_bind; [|intros]
    | apply preserves_if; intros
    | apply recv_value_within | apply recv_bytes_within | apply recv_body_within
    | apply send_pong_within
    | apply new_vector_within | apply resize_body_within
    | match goal with |- preserves _ (let '(_, _) := ?p in _) => destruct p end
    | case_decide ].
  all: by match goal with H : over_cap _ ?n = false |- ?n <= _ =>
         apply over_cap_false in H as [?|?] end.
Qed.

Lemma recv_loop_within cap old fuel :
  cap <> 0 -> preserves (allocs_within cap old) (recv_loop (Sk := Sk) cap fuel).
Proof.
  intros Hc. induction fuel as [|fuel IH]; simpl; [apply preserves_ret|].
  apply preserves_bind; [by apply recv_once_within|].
  intros [r|]; [apply preserves_ret|done].
Qed.
End bounds.

(** C3 Memory safety of the receiver against a hostile peer: with a non-zero
    [max_message_size], whatever the socket delivers and however often the loop
    runs, every vector that [recv_buffer] allocates is at most the cap. *)
Theorem recv_buffer_alloc_bounded `{Schema} {BE : BoostEndian} `{SyncSocket Sk, Allocator}
    (fuel : nat) (w : recv_world Sk) :
  max_message_size (rw_socket w) <> 0 ->
  exists new, rw_allocs (recv_buffer fuel w).2 = rw_allocs w ++ new /\
    Forall (fun n => n <= max_message_size (rw_socket w)) new.
Proof.
  intros Hc.
  apply (recv_loop_within (max_message_size (rw_socket w)) (rw_allocs w) fuel Hc).
  exists []. by rewrite app_nil_r.
Qed.

(** ** Witness worlds: a little-endian receiver over a pipe *)
Module Witness.
Export ToyCodec PipeSocket.

#[export] Instance host : BoostEndian := boost_endian_on order_little.
#[export] Instance host_laws : BoostEndianLaws := boost_endian_on_laws order_little.
#[export] Instance allocator : Allocator := {| alloc_available n := n <=? 1048576 |}.

Definition ping : frame := mkFrame true MessageId_HbPing [Byte.x50].
Definition pong : frame := mkFrame true MessageId_HbPong [Byte.x51].
Definition hello : frame := mkFrame false Byte.x2a [Byte.x01; Byte.x02; Byte.x03].
Definition stream : list uint8_t :=
  encode_frame ping ++ encode_frame pong ++ encode_frame hello ++ [Byte.xff].
Definition world : recv_world pipe := mkRecvWorld (mkPipe stream [] 64 true) [] [].
End Witness.

Section witnesses.
Import Witness.

Lemma recv_buffer_refines_witness :
  exists w', recv_buffer 20 world = (Ret (Some (Some Byte.x2a)), w') /\
    rw_body w' = [Byte.x01; Byte.x02; Byte.x03] /\
    incoming (rw_socket w') = [Byte.xff].
Proof.
  pose proof (recv_buffer_refines 20 world eq_refl I) as R.
  vm_compute in R. destruct R as (w' & E & Hb & Hi & _); [lia|].
  exists w'. split_and!; [exact E|exact Hb|exact Hi].
Defined.

Lemma recv_buffer_alloc_bounded_witness :
  exists new, rw_allocs (recv_buffer 20 world).2 = new /\ Forall (fun n => n <= 64) new.
Proof.
  destruct (recv_buffer_alloc_bounded 20 world) as (new & E & F); [done|].
  exists new. split; [exact E|exact F].
Defined.
End witnesses.

(** ** Round trips *)

Section send_all.
Context `{Schema} {BE : BoostEndian} `{SyncSocket Sk}.

(** Send a sequence of frames, stopping at the first failure. *)
Fixpoint send_all (fs : list frame) (s : Sk) : bool * Sk :=
  match fs with
  | [] => (true, s)
  | f :: fs =>
      let '(ok, s) := send_view (f_system f) (f_id f) (f_body f) s in
      if ok then send_all fs s else (false, s)
  end.
End send_all.

Lemma send_view_reliable `{SchemaLaws} {BE : BoostEndian} {BEL : BoostEndianLaws} `{StreamSocket Sk} f (s : Sk) :
  reliable -> stream_inv s ->
  exists s', send_view (f_system f) (f_id f) (f_body f) s = (true, s') /\ stream_inv s' /\
    outgoing s' = outgoing s ++ encode_frame f /\
    incoming s' = incoming s ++ (if loopback then encode_frame f else []) /\
    max_message_size s' = max_message_size s.
Proof.
  intros R Hi. unfold send_view. set (hd := make_frame_header _ _ _).
  destruct (send_buffer_reliable hd (f_body f) s R Hi) as (E & Ho & Hin).
  destruct (send_buffer_keeps hd (f_body f) s Hi) as (Hi' & Hc & _).
  destruct (send_buffer hd (f_body f) s) as [ok s']; simpl in *; subst ok.
  exists s'. unfold hd in *. rewrite frame_bytes_eq in *. destruct f. done.
Qed.

Lemma send_all_reliable `{SchemaLaws} {BE : BoostEndian} {BEL : BoostEndianLaws} `{StreamSocket Sk} fs (s : Sk) :
  reliable -> stream_inv s ->
  exists s', send_all fs s = (true, s') /\
    outgoing s' = outgoing s ++ concat (encode_frame <$> fs).
Proof.
  intros R. revert s. induction fs as [|f fs IH]; intros s Hi.
  - exists s. split; [done|]. by rewrite app_nil_r.
  - destruct (send_view_reliable f s R Hi) as (s1 & E1 & Hi1 & Ho1 & _).
    destruct (IH s1 Hi1) as (s2 & E2 & Ho2). exists s2. cbn [send_all].
    rewrite E1, E2, Ho2, Ho1. split; [done|]. cbn. by rewrite <-(assoc_L (++)).
Qed.

(** A frame takes at least its size prefix. *)
Lemma length_encoded `{Schema} fs :
  (8 * length fs <= length (concat (encode_frame <$> fs)))%nat.
Proof.
  induction fs as [|f fs IH]; cbn [length fmap list_fmap concat]; [lia|].
  rewrite length_app. unfold encode_frame at 1. rewrite length_app, length_le_split. lia.
Qed.

(** C4 End to end: whatever the byte orders of the two hosts and the sockets in
    between, a sender that sends any number of system frames and then an
    application message writes bytes on which the receiver's [recv_buffer]
    returns that message's id and body, keeps what follows, and has answered
    each ping with a pong. *)
Theorem send_recv_roundtrip `{SchemaLaws, Allocator}
    (E1 E2 : BoostEndian) (L1 : @BoostEndianLaws E1) (L2 : @BoostEndianLaws E2)
    `{StreamSocket S1, StreamSocket S2} (sys : list frame) (msg : frame)
    (s : S1) (w : recv_world S2) (rest : list uint8_t) (fuel : nat) :
  reliable (Sk := S1) -> stream_inv s ->
  loopback (Sk := S2) = false -> stream_inv (rw_socket w) ->
  Forall (fun f => f_system f = true) sys -> f_system msg = false ->
  Forall (frame_fits (max_message_size (rw_socket w))) (sys ++ [msg]) ->
  outgoing s ++ incoming (rw_socket w) = outgoing (send_all (BE := E1) (sys ++ [msg]) s).2 ++ rest ->
  (length (incoming (rw_socket w)) < 8 * fuel)%nat ->
  (send_all (BE := E1) (sys ++ [msg]) s).1 = true /\
  exists w', recv_buffer (BE := E2) fuel w = (Ret (Some (Some (f_id msg))), w') /\
    rw_body w' = f_body msg /\ incoming (rw_socket w') = rest /\ answered sys w w'.
Proof.
  intros R Hi Hl Hiw Hsys Hmsg [Hfs Hfm]%Forall_app Hin Hfuel.
  rewrite Forall_singleton in Hfm.
  destruct (send_all_reliable (BE := E1) (sys ++ [msg]) s R Hi) as (s' & Es & Ho).
  rewrite Es in *. cbn [fst snd] in *. split; [done|]. rewrite Ho, <-(assoc_L (++)) in Hin. apply app_inv_head in Hin.
  pose proof (recv_loop_refines (BE := E2) (max_message_size (rw_socket w)) fuel w Hl Hiw Hfuel) as Hr.
  rewrite fmap_app, concat_app in Hin. cbn [fmap list_fmap concat] in Hin.
  rewrite app_nil_r, <-(assoc_L (++)) in Hin. rewrite Hin in Hr, Hfuel.
  rewrite length_app in Hfuel. pose proof (length_encoded sys) as Hlen.
  assert (Forall (fun f => f_system f = true /\ frame_fits (max_message_size (rw_socket w)) f) sys)
    as Hboth by by apply Forall_and.
  rewrite (next_message_encoded _ _ _ _ _ Hboth Hmsg Hfm) in Hr by lia. exact Hr.
Qed.

(** [msg::recv<T>] on a stream that starts with an encoded [T]. *)
Lemma recv_encoded `{SchemaLaws} {BE : BoostEndian} {BEL : BoostEndianLaws}
    `{StreamSocket Sk, Allocator} {T} `{!Table T} `{!TableLaws T}
    id (t : T) rest fuel (w : recv_world Sk) :
  let f := mkFrame false id (serialise (lift Create) t) in
  stream_inv (rw_socket w) -> table_wf t ->
  frame_fits (max_message_size (rw_socket w)) f ->
  incoming (rw_socket w) = encode_frame f ++ rest ->
  exists w', recv T (S fuel) w = (Ret (Some (Some t)), w') /\
    incoming (rw_socket w') = rest /\ outgoing (rw_socket w') = outgoing (rw_socket w).
Proof.
  intros f Hi Ht Hfit Hin.
  pose proof (recv_once_parse (max_message_size (rw_socket w)) w Hi) as Ho.
  rewrite Hin, parse_encode_frame in Ho by done.
  destruct Ho as (w1 & (_ & Ho1 & _) & Hin1 & Hb1 & Hr). exists w1. split; [|done].
  unfold recv. assert (recv_buffer (S fuel) w = (Ret (Some (Some id)), w1)) as Hb.
  { unfold recv_buffer. erewrite bind_Ret by done. cbn [recv_loop].
    erewrite bind_Ret by (exact Hr). done. }
  run Hb. erewrite bind_Ret by done. rewrite Hb1. unfold f. cbn [f_body].
  by rewrite is_valid_serialise, deserialise_serialise by done.
Qed.

(** C5 Loopback round trip (what the tests check on the in-memory socket): on a
    drained loopback socket whose writes succeed, [send<T>] succeeds and the
    following [recv<T>] returns the very value that was sent, for every table
    type [T] and every message id. *)
Theorem loopback_send_recv `{SchemaLaws} {BE : BoostEndian} {BEL : BoostEndianLaws}
    `{StreamSocket Sk, Allocator} {T} `{!Table T} `{!TableLaws T}
    (id : message_id_t) (t : T) (s : Sk) (buffer : list uint8_t) :
  loopback = true -> reliable (Sk := Sk) -> stream_inv s -> incoming s = [] -> table_wf t ->
  frame_fits (max_message_size s) (mkFrame false id (serialise (lift Create) t)) ->
  let '(ok, s') := send false id t s in
  ok = true /\
  exists w', recv T 1 (mkRecvWorld s' buffer []) = (Ret (Some (Some t)), w') /\
    incoming (rw_socket w') = [] /\ outgoing (rw_socket w') = outgoing s'.
Proof.
  intros Hl R Hi Hin Ht Hfit. set (f := mkFrame _ _ _) in Hfit.
  destruct (send_view_reliable f s R Hi) as (s' & E & Hi' & _ & Hin' & Hc).
  change (send false id t s) with (send_view (f_system f) (f_id f) (f_body f) s).
  rewrite E. split; [done|]. rewrite Hin, Hl in Hin'.
  apply (recv_encoded id t [] 0 (mkRecvWorld s' buffer [])); simpl; [done..| |].
  - by rewrite Hc.
  - by rewrite app_nil_r.
Qed.

Section roundtrip_witnesses.
Import Witness.

Lemma send_recv_roundtrip_witness :
  exists w', recv_buffer 20 world = (Ret (Some (Some (f_id hello))), w') /\
    rw_body w' = f_body hello /\ incoming (rw_socket w') = [Byte.xff].
Proof.
  (* a big-endian sender over a memory socket, a little-endian receiver over a pipe *)
  destruct (send_recv_roundtrip (boost_endian_on order_big) host
    (boost_endian_on_laws _) (boost_endian_on_laws _) [ping; pong] hello
    MemorySocket.new_memory_socket world [Byte.xff] 20) as (_ & w' & E & Hb & Hi & _).
  - by intros bs s.
  - by vm_compute.
  - done.
  - done.
  - by repeat constructor.
  - done.
  - by repeat constructor.
  - by vm_compute.
  - vm_compute. lia.
  - exists w'. exact (conj E (conj Hb Hi)).
Defined.

Lemma loopback_send_recv_witness :
  let '(ok, s') := send false Byte.x2a (mkToy 43981) MemorySocket.new_memory_socket in
  ok = true /\
  exists w', recv toy_message 1 (mkRecvWorld s' [] []) = (Ret (Some (Some (mkToy 43981))), w').
Proof.
  pose proof (loopback_send_recv Byte.x2a (mkToy 43981) MemorySocket.new_memory_socket [])
    as L.
  destruct (send false Byte.x2a (mkToy 43981) MemorySocket.new_memory_socket) as [ok s'].
  destruct L as (-> & w' & E & _); [reflexivity|by intros ??|by vm_compute|reflexivity|by vm_compute|by vm_compute|].
  split; [reflexivity|]. exists w'. exact E.
Defined.
End roundtrip_witnesses.

(** ** Exceptions *)

(** A computation that returns from every world. *)
Definition no_throw {W A} (m : M W A) : Prop := forall w, exists a w', m w = (Ret a, w').

Lemma no_throw_ret {W A} (a : A) : no_throw (mret a : M W A).
Proof. intros w. by exists a, w. Qed.

Lemma no_throw_bind {W A B} (m : M W A) (k : A -> M W B) :
  no_throw m -> (forall a, no_throw (k a)) -> no_throw (m ≫= k).
Proof. intros Hm Hk w. destruct (Hm w) as (a & w' & E). erewrite bind_Ret by done. apply Hk. Qed.

Lemma no_throw_if {W A} (b : bool) (m1 m2 : M W A) :
  (b = true -> no_throw m1) -> (b = false -> no_throw m2) -> no_throw (if b then m1 else m2).
Proof. destruct b; auto. Qed.

Section exceptions.
Context `{Schema} {BE : BoostEndian} `{SyncSocket Sk, Allocator}.

Lemma recv_once_no_throw cap :
  cap <> 0 -> (forall n, n <= cap -> vector_alloc n = Ret tt) ->
  no_throw (recv_once (Sk := Sk) cap).
Proof.
  intros Hc Ha. unfold recv_once.
  assert (forall n, over_cap cap n = false -> vector_alloc n = Ret tt) as Hov.
  { intros n [?|?]%over_cap_false; [done|auto]. }
  repeat first
    [ apply no_throw_ret
    | apply no_throw_bind; [|intros]
    | apply no_throw_if; intros
    | match goal with |- no_throw (let '(_, _) := ?p in _) => destruct p end
    | case_decide ].
  all: intros w; unfold recv_value, recv_bytes, recv_body, send_pong, new_vector, resize_body;
    rewrite ?Hov by done; repeat case_match; by do 2 eexists.
Qed.

Lemma recv_loop_no_throw cap fuel :
  cap <> 0 -> (forall n, n <= cap -> vector_alloc n = Ret tt) ->
  no_throw (recv_loop (Sk := Sk) cap fuel).
Proof.
  intros Hc Ha. induction fuel as [|fuel IH]; simpl; [apply no_throw_ret|].
  apply no_throw_bind; [by apply recv_once_no_throw|].
  intros [r|]; [apply no_throw_ret|done].
Qed.
End exceptions.

(** C6 The cap decides whether a peer can make [recv_buffer] throw: with a
    non-zero cap that the allocator can serve, [recv_buffer] never throws on any
    socket; without a cap, an eight-byte frame announcing a header of at least
    2^63 bytes makes it throw [length_error], on every allocator. *)
Theorem recv_buffer_exceptions `{SchemaLaws} {BE : BoostEndian} {BEL : BoostEndianLaws}
    `{StreamSocket Sk, Allocator} (fuel : nat) (w : recv_world Sk) :
  (max_message_size (rw_socket w) <> 0 ->
   (forall n, n <= max_message_size (rw_socket w) -> vector_alloc n = Ret tt) ->
   exists r w', recv_buffer fuel w = (Ret r, w')) /\
  (max_message_size (rw_socket w) = 0 -> stream_inv (rw_socket w) ->
   forall rest n, 2 ^ 63 <= n < 2 ^ 64 ->
   incoming (rw_socket w) = le_split 8 n ++ rest ->
   exists w', recv_buffer (S fuel) w = (Throw length_error, w')).
Proof.
  split.
  - intros Hc Ha. by apply recv_loop_no_throw.
  - intros Hc Hi rest n Hn Hin. pose proof (recv_once_parse 0 w Hi) as Ho.
    assert (parse_frame 0 (incoming (rw_socket w)) = PExn length_error) as E.
    { rewrite Hin. unfold parse_frame.
      rewrite (proj2 (Nat.ltb_ge _ _)) by (rewrite length_app, length_le_split; lia).
      rewrite take_app_length', le_combine_split by (by rewrite length_le_split).
      rewrite Z.mod_small by (change (Z.of_nat 8 * 8) with 64; lia).
      simpl. unfold vector_alloc, vector_max_size.
      by rewrite (proj2 (Z.ltb_lt _ _)) by lia. }
    rewrite E in Ho. destruct Ho as (w' & Hr & _). exists w'.
    unfold recv_buffer. erewrite bind_Ret by done. rewrite Hc. cbn [recv_loop].
    by apply bind_Throw.
Qed.

Section exception_witness.
Import Witness.

Lemma recv_buffer_exceptions_witness :
  (exists r w', recv_buffer 20 world = (Ret r, w')) /\
  exists w', recv_buffer 1 (mkRecvWorld (mkPipe (le_split 8 (2 ^ 63)) [] 0 true) [] [])
    = (Throw length_error, w').
Proof.
  split.
  - apply (proj1 (recv_buffer_exceptions 20 world)); [done|].
    intros n Hn. unfold vector_alloc, vector_max_size. simpl in *.
    by rewrite (proj2 (Z.ltb_ge _ _)), (proj2 (Z.leb_le _ _)) by lia.
  - apply (proj2 (recv_buffer_exceptions 0
      (mkRecvWorld (mkPipe (le_split 8 (2 ^ 63)) [] 0 true) [] []))) with (rest := []) (n := 2 ^ 63);
      [reflexivity|exact I|lia|reflexivity].
Defined.
End exception_witness.
