(* ===== verification/Router.v ===== *)
(** * Message routing ([src/src/router/router.hpp])

    [message_info] pairs a message id with a typed handler; [message_router]
    tries its handlers in order with a fold over [||].  A handler may change the
    program state [W]. *)

From S2P Require Import Prelude Serialisation.

Section router.
Context `{FlatBuffers} {SessionType W : Type}.

Record message_info := mkMessageInfo {
  BodyType : Type;
  body_table :: Table BodyType;
  id : uint8_t;
  handler : SessionType -> BodyType -> W -> W
}.

(** [message_info::process]. *)
Definition process (info : message_info) (actual_id : uint8_t)
    (session : SessionType) (body : list uint8_t) (w : W) : bool * W :=
  if negb (bool_decide (actual_id = id info)) then (false, w) else
  if negb (is_valid (BodyType info) body) then (true, w) else
  (true, handler info session (deserialise (BodyType info) body) w).

(** [message_router::dispatch]: [(Handlers.process(id, session, body) || ...)]. *)
Fixpoint dispatch (Handlers : list message_info) (actual_id : uint8_t)
    (session : SessionType) (body : list uint8_t) (w : W) : bool * W :=
  match Handlers with
  | [] => (false, w)
  | h :: Handlers =>
      let '(handled, w) := process h actual_id session body w in
      if handled then (true, w) else dispatch Handlers actual_id session body w
  end.

(** The handler registered for an id: the first in the list. *)
Definition route (Handlers : list message_info) (actual_id : uint8_t) : option message_info :=
  head (filter (fun h => id h = actual_id) Handlers).

(** C7 Routing: [dispatch] reports an id as handled exactly when some handler is
    registered for it; then the first such handler, and no other, runs on the
    deserialised body if the body verifies, and nothing runs if it does not; an
    unknown id changes nothing. *)
Theorem dispatch_routes (Handlers : list message_info) (actual_id : uint8_t)
    (session : SessionType) (body : list uint8_t) (w : W) :
  dispatch Handlers actual_id session body w =
  match route Handlers actual_id with
  | None => (false, w)
  | Some h =>
      (true, if is_valid (BodyType h) body
             then handler h session (deserialise (BodyType h) body) w
             else w)
  end.
Proof.
  unfold route. induction Handlers as [|h hs IH]; [done|]. simpl.
  rewrite filter_cons. unfold process. case_bool_decide as Hid; simpl.
  - rewrite decide_True by done. simpl. by destruct (is_valid _ _).
  - rewrite decide_False by congruence. exact IH.
Qed.
End router.
Arguments message_info {_} _ _.
Arguments mkMessageInfo {_ _ _} _ _ _ _.
