(* ===== verification/WriteQueue.v ===== *)
(** * The outbound write queue ([boost_tcp_socket::async_write] and [write_next],
      [src/src/network/socket.cpp])

    Several threads may call [async_write] on one socket while Asio's threads run
    completions.  The state is what the mutex protects, the write operations
    started on the SSL stream and not yet completed, and the threads that are
    between two critical sections; each critical section, and each stretch of
    code between two of them, is one step, so every interleaving that the lock
    allows is a sequence of steps.

    What Asio's composed [async_write] does with an operation's bytes is the
    environment's choice: all of them on success, some prefix on error. *)

From S2P Require Import Prelude.

Section write_queue.
(** Completion callbacks, by identity. *)
Context {Callback : Type}.
Abbreviation async_callback_t := (option Callback) (only parsing).

(** [struct pending_write]. *)
Record pending_write := mkPendingWrite {
  head : list uint8_t;
  body : list uint8_t;
  handler : async_callback_t
}.

(** A thread between two critical sections of this file. *)
Inductive thread : Type :=
| t_rejected (h : async_callback_t)               (* async_write, after the lock: rejected *)
| t_enqueued (idle : bool)                        (* async_write, after the lock: queued *)
| t_write_next                                    (* about to enter write_next *)
| t_completed (ec : bool)                         (* completion entered, not yet locked *)
| t_popped (h : async_callback_t) (ec more : bool). (* completion, after the lock *)

Record queue_state := mkQueueState {
  max_pending_writes_ : Z;
  write_queue_ : list pending_write;
  in_flight : list (list uint8_t * list uint8_t);
  threads : list thread;
  (* history: what was queued, what each operation put on the wire, which
     callbacks were passed in, and which were invoked with what *)
  accepted : list pending_write;
  wire : list (bool * list uint8_t);
  passed : list Callback;
  invoked : list (Callback * bool)
}.

Definition new_queue (cap : Z) : queue_state := mkQueueState cap [] [] [] [] [] [] [].

(** ** The code *)

(** [async_write(head, body, handler)] up to the end of its critical section. *)
Definition async_write_enqueue (hd bd : list uint8_t) (h : async_callback_t)
    (q : queue_state) : queue_state * thread :=
  let passed := match h with Some c => passed q ++ [c] | None => passed q end in
  if negb (max_pending_writes_ q =? 0) && (zlen (write_queue_ q) >=? max_pending_writes_ q)
  then (mkQueueState (max_pending_writes_ q) (write_queue_ q) (in_flight q) (threads q)
          (accepted q) (wire q) passed (invoked q),
        t_rejected h)
  else
    let idle := bool_decide (write_queue_ q = []) in
    let pw := mkPendingWrite hd bd h in
    (mkQueueState (max_pending_writes_ q) (write_queue_ q ++ [pw]) (in_flight q) (threads q)
       (accepted q ++ [pw]) (wire q) passed (invoked q),
     t_enqueued idle).

(** [async_write(buffer, handler)]. *)
Definition async_write_single (buffer : list uint8_t) (h : async_callback_t)
    (q : queue_state) : queue_state * thread :=
  async_write_enqueue buffer [] h q.

(** [if (handler) handler(is_valid)]. *)
Definition call (h : async_callback_t) (is_valid : bool) (q : queue_state) : queue_state :=
  match h with
  | None => q
  | Some c =>
      mkQueueState (max_pending_writes_ q) (write_queue_ q) (in_flight q) (threads q)
        (accepted q) (wire q) (passed q) (invoked q ++ [(c, is_valid)])
  end.

(** [write_next]: read the front under the lock and start one write with both
    buffers; [None] when the queue is empty (front() is undefined there). *)
Definition write_next (q : queue_state) : option queue_state :=
  match write_queue_ q with
  | [] => None
  | pw :: _ =>
      Some (mkQueueState (max_pending_writes_ q) (write_queue_ q)
              (in_flight q ++ [(head pw, body pw)]) (threads q)
              (accepted q) (wire q) (passed q) (invoked q))
  end.

(** The critical section of the completion: take the handler, pop, look for
    more; [None] when the queue is empty. *)
Definition completion_pop (ec : bool) (q : queue_state) : option (queue_state * thread) :=
  match write_queue_ q with
  | [] => None
  | pw :: rest =>
      Some (mkQueueState (max_pending_writes_ q) rest (in_flight q) (threads q)
              (accepted q) (wire q) (passed q) (invoked q),
            t_popped (handler pw) ec (negb (bool_decide (rest = []))))
  end.

(** One step of a thread: its next state, if any; [None] is undefined
    behaviour. *)
Definition resume (t : thread) (q : queue_state) : option (queue_state * list thread) :=
  match t with
  | t_rejected h => Some (call h false q, [])
  | t_enqueued idle => Some (q, if idle then [t_write_next] else [])
  | t_write_next => q' ← write_next q; Some (q', [])
  | t_completed ec => '(q', t') ← completion_pop ec q; Some (q', [t'])
  | t_popped h ec more => Some (call h (negb ec) q, if more then [t_write_next] else [])
  end.

Definition with_threads (ts : list thread) (q : queue_state) : queue_state :=
  mkQueueState (max_pending_writes_ q) (write_queue_ q) (in_flight q) ts
    (accepted q) (wire q) (passed q) (invoked q).

(** ** The steps *)

(** Threads already inside this code, and Asio. *)
Inductive internal_step : queue_state -> queue_state -> Prop :=
| step_resume q ts1 t ts2 q' new :
    threads q = ts1 ++ t :: ts2 ->
    resume t (with_threads (ts1 ++ ts2) q) = Some (q', new) ->
    internal_step q (with_threads (threads q' ++ new) q')
| step_complete q ops1 hd bd ops2 ec sent :
    in_flight q = ops1 ++ (hd, bd) :: ops2 ->
    sent `prefix_of` hd ++ bd -> (ec = false -> sent = hd ++ bd) ->
    internal_step q (mkQueueState (max_pending_writes_ q) (write_queue_ q) (ops1 ++ ops2)
      (threads q ++ [t_completed ec]) (accepted q) (wire q ++ [(ec, sent)]) (passed q) (invoked q)).

(** Any of those, or a caller entering [async_write]. *)
Inductive queue_step : queue_state -> queue_state -> Prop :=
| step_internal q q' : internal_step q q' -> queue_step q q'
| step_call q hd bd h q' t :
    async_write_enqueue hd bd h q = (q', t) ->
    queue_step q (with_threads (threads q' ++ [t]) q').

Definition reachable (cap : Z) (q : queue_state) : Prop := rtc queue_step (new_queue cap) q.

(** ** The invariant *)

(** The threads that are going to start the next write. *)
Definition token (t : thread) : nat :=
  match t with
  | t_enqueued true | t_write_next | t_completed _ | t_popped _ _ true => 1
  | _ => 0
  end.

Definition tokens (ts : list thread) : nat := sum_list_with token ts.

(** The callback a thread still has to invoke. *)
Definition owed (t : thread) : list Callback :=
  match t with
  | t_rejected (Some c) | t_popped (Some c) _ _ => [c]
  | _ => []
  end.

Definition callbacks (pws : list pending_write) : list Callback := omap handler pws.

Definition is_completed (t : thread) : bool :=
  match t with t_completed _ => true | _ => false end.

Definition completions (ts : list thread) : nat := length (filter is_completed ts).

(** A write operation put one message on the wire: all of it, or on error a
    prefix of it. *)
Definition wrote (op : bool * list uint8_t) (pw : pending_write) : Prop :=
  op.2 `prefix_of` head pw ++ body pw /\ (op.1 = false -> op.2 = head pw ++ body pw).

(** The message with callback [c] is on the wire in full. *)
Definition delivered (q : queue_state) (c : Callback) : Prop :=
  exists i pw, accepted q !! i = Some pw /\ handler pw = Some c /\
    wire q !! i = Some (false, head pw ++ body pw).

(** What a thread's local state says about the history. *)
Definition thread_ok (q : queue_state) (t : thread) : Prop :=
  match t with
  | t_completed ec => fst <$> last (wire q) = Some ec
  | t_popped (Some c) false _ => delivered q c
  | _ => True
  end.

Record queue_inv (cap : Z) (q : queue_state) : Prop := {
  inv_cap : max_pending_writes_ q = cap;
  inv_bound : cap <> 0 -> zlen (write_queue_ q) <= cap;
  inv_token : (tokens (threads q) + length (in_flight q) = length (take 1 (write_queue_ q)))%nat;
  inv_front : Forall (fun op => exists pw rest,
      write_queue_ q = pw :: rest /\ op = (head pw, body pw)) (in_flight q);
  inv_wire : exists written, accepted q = written ++ write_queue_ q /\
      Forall2 wrote (wire q) (written ++ take (completions (threads q)) (write_queue_ q));
  inv_threads : Forall (thread_ok q) (threads q);
  inv_told : Forall (fun cv => cv.2 = true -> delivered q cv.1) (invoked q);
  inv_once : passed q ≡ₚ callbacks (write_queue_ q) ++ (threads q ≫= owed) ++ (invoked q).*1
}.

(** ** The invariant holds *)

#[local] Arguments tokens : simpl never.
#[local] Arguments completions : simpl never.

#[local] Instance tokens_perm : Proper ((≡ₚ) ==> (=)) tokens.
Proof. intros ts ts' Hp. induction Hp; simpl; unfold tokens in *; simpl; lia. Qed.

#[local] Instance completions_perm : Proper ((≡ₚ) ==> (=)) completions.
Proof. intros ts ts' Hp. unfold completions. by rewrite Hp. Qed.

Lemma tokens_cons t ts : tokens (t :: ts) = (token t + tokens ts)%nat.
Proof. done. Qed.

Lemma tokens_app ts ts' : tokens (ts ++ ts') = (tokens ts + tokens ts')%nat.
Proof. apply sum_list_with_app. Qed.

Lemma completions_cons t ts :
  completions (t :: ts) = ((if is_completed t then 1 else 0) + completions ts)%nat.
Proof. unfold completions. rewrite filter_cons. by destruct (is_completed t). Qed.

Lemma completions_app ts ts' : completions (ts ++ ts') = (completions ts + completions ts')%nat.
Proof. unfold completions. by rewrite filter_app, length_app. Qed.

Lemma completions_tokens ts : (completions ts <= tokens ts)%nat.
Proof.
  induction ts as [|t ts IH]; [done|]. rewrite completions_cons, tokens_cons.
  destruct t; simpl; try destruct idle; try destruct more; simpl; lia.
Qed.

Lemma queue_inv_perm cap q ts :
  threads q ≡ₚ ts -> queue_inv cap q -> queue_inv cap (with_threads ts q).
Proof.
  intros Hp [Hc Hb Ht Hf Hw Hok Htold Ho]. split; simpl; try done.
  - by rewrite <-Hp.
  - destruct Hw as (wr & Ha & Hw). exists wr. by rewrite <-Hp.
  - change (Forall (thread_ok q) ts). by rewrite <-Hp.
  - by rewrite <-Hp.
Qed.

(** History only grows. *)
Lemma delivered_mono q q' c :
  accepted q `prefix_of` accepted q' -> wire q `prefix_of` wire q' ->
  delivered q c -> delivered q' c.
Proof.
  intros [a Ha] [l Hl] (i & pw & Hi & Hh & Hw). exists i, pw. rewrite Ha, Hl.
  split_and!; [by apply lookup_app_l_Some|done|by apply lookup_app_l_Some].
Qed.

Lemma told_mono q q' cvs :
  accepted q `prefix_of` accepted q' -> wire q `prefix_of` wire q' ->
  Forall (fun cv => cv.2 = true -> delivered q cv.1) cvs ->
  Forall (fun cv : Callback * bool => cv.2 = true -> delivered q' cv.1) cvs.
Proof. intros ?? Hf. eapply Forall_impl; [exact Hf|]. simpl. eauto using delivered_mono. Qed.

(** A thread that does not hold a completion stays fine as history grows. *)
Lemma threads_ok_mono q q' ts :
  accepted q `prefix_of` accepted q' -> wire q `prefix_of` wire q' ->
  (completions ts = 0%nat \/ wire q' = wire q) ->
  Forall (thread_ok q) ts -> Forall (thread_ok q') ts.
Proof.
  intros Ha Hw Hc Hok. rewrite Forall_forall in *. intros t Ht.
  specialize (Hok t Ht). destruct t as [| | |ec|[c|] [] more]; simpl in *;
    eauto using delivered_mono.
  destruct Hc as [Hc|Hc]; [|by rewrite Hc].
  apply list_elem_of_split in Ht as (l1 & l2 & ->).
  rewrite completions_app, completions_cons in Hc. simpl in Hc. lia.
Qed.

(** Whoever holds the token holds it alone, and the queue is not empty. *)
Lemma token_unique cap q t ts :
  queue_inv cap (with_threads (t :: ts) q) -> token t = 1%nat ->
  exists pw rest, write_queue_ q = pw :: rest /\ tokens ts = 0%nat /\
    in_flight q = [] /\ completions ts = 0%nat.
Proof.
  intros [_ _ Ht _ _ _ _ _] Htok. simpl in Ht. rewrite tokens_cons, Htok in Ht.
  pose proof (completions_tokens ts).
  destruct (write_queue_ q) as [|pw rest]; simpl in Ht; [lia|].
  exists pw, rest. split_and!; [done|lia| |lia].
  apply nil_length_inv. lia.
Qed.

Lemma next_tokens (more : bool) :
  tokens (if more then [t_write_next] else []) = (if more then 1 else 0)%nat.
Proof. by destruct more. Qed.

Lemma next_completions (more : bool) :
  completions (if more then [t_write_next] else []) = 0%nat.
Proof. by destruct more. Qed.

(** A thread that invokes its callback, and may go on to [write_next]. *)
Lemma inv_call cap q t ts h v (more : bool) :
  queue_inv cap (with_threads (t :: ts) q) ->
  owed t = option_list h -> is_completed t = false ->
  token t = (if more then 1 else 0)%nat ->
  (forall c, v = true -> h = Some c -> delivered q c) ->
  queue_inv cap (with_threads (ts ++ if more then [t_write_next] else []) (call h v q)).
Proof.
  intros [Hc Hb Ht Hf Hw Hok Htold Ho] Howed Hcmp Htok Hv. simpl in *.
  rewrite completions_cons, Hcmp in Hw. rewrite tokens_cons, Htok in Ht.
  apply Forall_cons in Hok as [_ Hok].
  assert (Forall (thread_ok q) (ts ++ if more then [t_write_next] else [])) as Hok'.
  { apply Forall_app. split; [done|]. by destruct more; repeat constructor. }
  assert (completions (ts ++ if more then [t_write_next] else []) = completions ts) as Hcm.
  { rewrite completions_app. rewrite next_completions. lia. }
  assert ((ts ++ if more then [t_write_next] else []) ≫= owed = ts ≫= owed) as How.
  { rewrite bind_app. destruct more; simpl; by rewrite ?app_nil_r. }
  assert (Forall (fun cv => cv.2 = true -> delivered q cv.1)
            (invoked q ++ ((., v) <$> option_list h))) as Htold'.
  { apply Forall_app. split; [done|]. destruct h as [c|]; simpl; [|constructor].
    constructor; [|constructor]. simpl. eauto. }
  destruct h as [c|]; simpl in *; (split; simpl; rewrite ?Hcm, ?How; try done).
  - rewrite tokens_app, next_tokens. lia.
  - rewrite Ho, fmap_app, Howed. simpl. f_equiv.
    solve_Permutation.
  - rewrite tokens_app, next_tokens. lia.
  - rewrite Ho, Howed. done.
Qed.

(** [write_next] starts the front of the queue, and nothing else is in flight. *)
Lemma inv_write_next cap q ts q' :
  queue_inv cap (with_threads (t_write_next :: ts) q) ->
  write_next (with_threads ts q) = Some q' -> queue_inv cap q'.
Proof.
  intros Hinv Hq'. destruct (token_unique _ _ _ _ Hinv eq_refl) as (pw & rest & Hq & Ht0 & Hf0 & Hc0).
  destruct Hinv as [Hc Hb Ht Hf Hw Hok Htold Ho].
  unfold write_next in Hq'. simpl in Hq'. rewrite Hq in Hq'. simplify_eq.
  apply Forall_cons in Hok as [_ Hok]. split; simpl in *; rewrite ?Hq, ?Hf0, ?Ht0 in *; try done.
  constructor; [|constructor]. eauto.
Qed.

(** The completion of the front: its message is the last on the wire. *)
Lemma inv_completion_pop cap q ts ec q' t' :
  queue_inv cap (with_threads (t_completed ec :: ts) q) ->
  completion_pop ec (with_threads ts q) = Some (q', t') ->
  queue_inv cap (with_threads (threads q' ++ [t']) q').
Proof.
  intros Hinv Hpop. destruct (token_unique _ _ _ _ Hinv eq_refl) as (pw & rest & Hq & Ht0 & Hf0 & Hc0).
  destruct Hinv as [Hc Hb Ht Hf Hw Hok Htold Ho].
  unfold completion_pop in Hpop. simpl in *. rewrite Hq in Hpop. simplify_eq. simpl.
  destruct Hw as (wr & Ha & Hw). rewrite completions_cons, Hc0, Hq in Hw. simpl in Hw.
  rewrite take_0 in Hw. apply Forall_cons in Hok as [Hlast Hok]. simpl in Hlast.
  split; simpl; try done.
  - intros Hcap. specialize (Hb Hcap). rewrite Hq in Hb. unfold zlen in *. simpl in *. lia.
  - rewrite tokens_app, Ht0, Hf0. by destruct rest.
  - by rewrite Hf0.
  - exists (wr ++ [pw]). rewrite Ha, Hq, <-(assoc_L (++)). split; [done|].
    rewrite completions_app, Hc0. simpl. by rewrite app_nil_r.
  - apply Forall_app. split; [exact Hok|]. constructor; [|constructor]. simpl.
    destruct (handler pw) as [c|] eqn:Hh; [|done]. destruct ec; [done|].
    (* the last operation wrote pw *)
    apply Forall2_app_inv_r in Hw as (w1 & w2 & Hw1 & Hw2 & Hwire).
    apply Forall2_cons_inv_r in Hw2 as ([e b] & w3 & [Hp Hfull] & Hw3 & ->).
    apply Forall2_nil_inv_r in Hw3 as ->.
    exists (length wr), pw. simpl. rewrite Ha, Hq, Hwire in *.
    rewrite last_snoc in Hlast. simpl in *. simplify_eq.
    split_and!; [by rewrite lookup_app_r, Nat.sub_diag|done|].
    rewrite <-(Forall2_length _ _ _ Hw1), lookup_app_r, Nat.sub_diag by done.
    simpl. by rewrite Hfull.
  - rewrite Ho, Hq, bind_app. simpl. destruct (handler pw); simpl; solve_Permutation.
Qed.

Lemma inv_resume cap q t ts q' new :
  queue_inv cap (with_threads (t :: ts) q) ->
  resume t (with_threads ts q) = Some (q', new) ->
  queue_inv cap (with_threads (threads q' ++ new) q').
Proof.
  intros Hinv Hr. destruct t as [h|idle| |ec|h ec more]; simpl in Hr.
  - simplify_eq. assert (threads (call h false (with_threads ts q)) = ts) as -> by by destruct h.
    pose proof (inv_call _ _ _ _ h false false Hinv) as Hi. destruct h; apply Hi; done.
  - simplify_eq. pose proof (inv_call _ _ _ _ None false idle Hinv) as Hi.
    apply Hi; [done..|by destruct idle|done].
  - destruct (write_next _) as [q1|] eqn:E; simplify_eq/=.
    rewrite app_nil_r. pose proof (inv_write_next _ _ _ _ Hinv E) as Hi. by destruct q'.
  - destruct (completion_pop _ _) as [[q1 t1]|] eqn:E; simplify_eq/=.
    by eapply inv_completion_pop.
  - simplify_eq.
    assert (threads (call h (negb ec) (with_threads ts q)) = ts) as -> by by destruct h.
    assert (forall c, negb ec = true -> h = Some c -> delivered q c) as Hd.
    { intros c Hec ->. destruct ec; [done|]. by pose proof (inv_threads _ _ Hinv) as [? _]%Forall_cons. }
    pose proof (inv_call _ _ _ _ h (negb ec) more Hinv) as Hi.
    destruct h; apply Hi; try done; by destruct more.
Qed.

Lemma inv_complete cap q ops1 hd bd ops2 ec sent :
  queue_inv cap q -> in_flight q = ops1 ++ (hd, bd) :: ops2 ->
  sent `prefix_of` hd ++ bd -> (ec = false -> sent = hd ++ bd) ->
  queue_inv cap (mkQueueState (max_pending_writes_ q) (write_queue_ q) (ops1 ++ ops2)
    (threads q ++ [t_completed ec]) (accepted q) (wire q ++ [(ec, sent)]) (passed q) (invoked q)).
Proof.
  intros [Hc Hb Ht Hf Hw Hok Htold Ho] Hin Hpre Hec.
  assert (ops1 = [] /\ ops2 = [] /\ tokens (threads q) = 0%nat /\
          exists rest pw, write_queue_ q = pw :: rest /\ (hd, bd) = (head pw, body pw))
    as (-> & -> & Ht0 & rest & pw & Hq & [= -> ->]).
  { rewrite Hin in Ht, Hf. rewrite length_app in Ht. simpl in Ht.
    apply Forall_app in Hf as [_ [(pw & rest & Hq & Hop) _]%Forall_cons].
    rewrite Hq in Ht. simpl in Ht. split_and!; [apply nil_length_inv; lia..|lia|eauto]. }
  pose proof (completions_tokens (threads q)) as Hc0. rewrite Ht0 in Hc0.
  assert (completions (threads q) = 0%nat) as Hc1 by lia.
  assert (wire q `prefix_of` wire q ++ [(ec, sent)]) by by apply prefix_app_r.
  split; simpl; try done.
  - rewrite tokens_app, Ht0, Hq. done.
  - destruct Hw as (wr & Ha & Hw). exists wr. split; [done|].
    rewrite completions_app, Hc1, Hq in *. simpl in *. rewrite app_nil_r in Hw.
    apply Forall2_app; [done|]. by repeat constructor.
  - apply Forall_app. split.
    + eapply threads_ok_mono; [| | |exact Hok]; simpl; auto.
    + constructor; [|constructor]. simpl. by rewrite last_snoc.
  - eapply told_mono; [..|exact Htold]; done.
  - rewrite Ho, bind_app. simpl. by rewrite app_nil_r.
Qed.

Lemma inv_enqueue cap q hd bd h q' t :
  queue_inv cap q -> async_write_enqueue hd bd h q = (q', t) ->
  queue_inv cap (with_threads (threads q' ++ [t]) q').
Proof.
  intros [Hc Hb Ht Hf Hw Hok Htold Ho]. unfold async_write_enqueue.
  destruct (negb _ && _) eqn:Hfull; intros; simplify_eq/=.
  - split; simpl; try done.
    + rewrite tokens_app. change (tokens [t_rejected h]) with 0%nat. lia.
    + destruct Hw as (wr & ? & ?). exists wr. split; [done|].
      rewrite completions_app. change (completions [t_rejected h]) with 0%nat.
      by rewrite Nat.add_0_r.
    + apply Forall_app. split; [exact Hok|]. by repeat constructor.
    + rewrite bind_app. simpl. destruct h; simpl; rewrite Ho; solve_Permutation.
  - set (pw := mkPendingWrite hd bd h).
    assert (completions (threads q) <= length (write_queue_ q))%nat as Hcq.
    { pose proof (completions_tokens (threads q)). rewrite length_take in Ht. lia. }
    split; simpl; try done.
    + intros Hcap. apply andb_false_iff in Hfull as [Hfull|Hfull]; [lia|].
      rewrite zlen_app. unfold zlen in *. simpl. lia.
    + rewrite tokens_app, length_take, length_app. rewrite length_take in Ht.
      case_bool_decide as Hi.
      * rewrite Hi in *. change (tokens [t_enqueued true]) with 1%nat. simpl in *. lia.
      * change (tokens [t_enqueued false]) with 0%nat.
        destruct (write_queue_ q); [done|]. simpl in *. lia.
    + apply Forall_impl with (1 := Hf). intros op (pw' & rest & -> & ->). simpl. eauto.
    + destruct Hw as (wr & Ha & Hw). exists wr. rewrite Ha, (assoc_L (++)). split; [done|].
      rewrite completions_app. change (completions [t_enqueued _]) with 0%nat.
      rewrite Nat.add_0_r. by rewrite take_app_le by lia.
    + apply Forall_app. split; [|by repeat constructor].
      eapply threads_ok_mono; [..|exact Hok]; simpl; [by apply prefix_app_r|done|by right].
    + eapply told_mono; [..|exact Htold]; simpl; [by apply prefix_app_r|done].
    + unfold callbacks in *. rewrite omap_app, bind_app. simpl.
      destruct h; simpl; rewrite Ho; solve_Permutation.
Qed.

Lemma queue_inv_step cap q q' : queue_step q q' -> queue_inv cap q -> queue_inv cap q'.
Proof.
  intros Hs Hinv. destruct Hs as [q q' Hi|q hd bd h q' t He]; [|by eapply inv_enqueue].
  destruct Hi as [q ts1 t ts2 q' new Hts Hr|]; [|by eapply inv_complete].
  apply (inv_resume cap q t (ts1 ++ ts2)); [|done].
  apply queue_inv_perm; [|done]. rewrite Hts. solve_Permutation.
Qed.

Lemma queue_inv_reachable cap q : 0 <= cap -> reachable cap q -> queue_inv cap q.
Proof.
  intros Hcap. apply rtc_ind_r; [|intros; by eapply queue_inv_step].
  split; simpl; try done.
  exists []. done.
Qed.

(** ** Draining *)

(** How much work is left inside the socket: each internal step makes it less. *)
Definition thread_work (t : thread) : nat :=
  match t with
  | t_rejected _ => 1
  | t_enqueued idle => if idle then 5 else 1
  | t_write_next => 4
  | t_completed _ => 2
  | t_popped _ _ more => if more then 6 else 1
  end.

Definition work (q : queue_state) : nat :=
  5 * length (write_queue_ q) + sum_list_with thread_work (threads q) + 3 * length (in_flight q).

Lemma work_resume q t ts q' new :
  resume t (with_threads ts q) = Some (q', new) ->
  (work (with_threads (threads q' ++ new) q') < work (with_threads (t :: ts) q))%nat.
Proof.
  unfold work. destruct t as [h|idle| |ec|h ec more]; simpl; intros Hr.
  - destruct h; simplify_eq/=; rewrite sum_list_with_app; simpl; lia.
  - destruct idle; simplify_eq/=; rewrite sum_list_with_app; simpl; lia.
  - unfold write_next in Hr. simpl in Hr.
    destruct (write_queue_ q) eqn:Hq; simplify_eq/=.
    rewrite app_nil_r, length_app. simpl. lia.
  - unfold completion_pop in Hr. simpl in Hr.
    destruct (write_queue_ q) as [|pw rest] eqn:Hq; simplify_eq/=.
    rewrite sum_list_with_app. simpl. case_bool_decide; simpl; lia.
  - destruct h, more; simplify_eq/=; rewrite sum_list_with_app; simpl; lia.
Qed.

Lemma work_decreases q q' : internal_step q q' -> (work q' < work q)%nat.
Proof.
  intros [?????? Hts Hr|? ops1 hd bd ops2 ec sent Hin _ _].
  - apply work_resume in Hr. unfold work in *. simpl in *. rewrite Hts, !sum_list_with_app in *.
    simpl in *. lia.
  - unfold work. simpl. rewrite Hin, sum_list_with_app, !length_app. simpl. lia.
Qed.

(** Nothing left to do inside the socket. *)
Definition quiescent (q : queue_state) : Prop := threads q = [] /\ in_flight q = [].

Lemma resume_defined cap q t ts :
  queue_inv cap (with_threads (t :: ts) q) -> is_Some (resume t (with_threads ts q)).
Proof.
  intros Hinv. destruct t as [| | |ec|]; simpl; try by eexists.
  - destruct (token_unique _ _ _ _ Hinv eq_refl) as (pw & rest & Hq & _).
    unfold write_next. simpl. rewrite Hq. by eexists.
  - destruct (token_unique _ _ _ _ Hinv eq_refl) as (pw & rest & Hq & _).
    unfold completion_pop. simpl. rewrite Hq. by eexists.
Qed.

Lemma internal_progress cap q :
  queue_inv cap q -> quiescent q \/ exists q', internal_step q q'.
Proof.
  intros Hinv. destruct (threads q) as [|t ts] eqn:Hts.
  - destruct (in_flight q) as [|[hd bd] ops] eqn:Hin; [by left|]. right.
    eexists. apply (step_complete q [] hd bd ops false (hd ++ bd)); done.
  - right. destruct (resume_defined cap q t ts) as [[q' new] Hr].
    + apply queue_inv_perm; [by rewrite Hts|done].
    + eexists. by apply (step_resume q [] t ts).
Qed.

Lemma drains cap q :
  queue_inv cap q -> exists q', rtc internal_step q q' /\ quiescent q' /\ queue_inv cap q'.
Proof.
  induction q as [q IH] using (induction_ltof1 _ work). unfold ltof in IH. intros Hinv.
  destruct (internal_progress cap q Hinv) as [Hq|[q1 Hs]]; [by exists q|].
  destruct (IH q1) as (q' & Hr & Hq & Hi).
  - by apply work_decreases.
  - eapply queue_inv_step; [by apply step_internal|done].
  - exists q'. split; [by eapply rtc_l|done].
Qed.

Lemma bounded_runs n q q' : nsteps internal_step n q q' -> (n + work q' <= work q)%nat.
Proof.
  induction 1 as [|n x y z Hs _ IH]; [lia|]. apply work_decreases in Hs. lia.
Qed.

Lemma quiescent_empty cap q : queue_inv cap q -> quiescent q -> write_queue_ q = [].
Proof.
  intros Hinv [Ht Hf]. pose proof (inv_token _ _ Hinv) as Htok. rewrite Ht, Hf in Htok.
  by destruct (write_queue_ q).
Qed.

(** ** Executing a schedule *)

Inductive action : Type :=
| a_call (hd bd : list uint8_t) (h : async_callback_t)
| a_resume (i : nat)
| a_complete (i : nat) (ec : bool) (n : nat).

Definition exec (a : action) (q : queue_state) : option queue_state :=
  match a with
  | a_call hd bd h =>
      let '(q', t) := async_write_enqueue hd bd h q in
      Some (with_threads (threads q' ++ [t]) q')
  | a_resume i =>
      t ← threads q !! i;
      '(q', new) ← resume t (with_threads (delete i (threads q)) q);
      Some (with_threads (threads q' ++ new) q')
  | a_complete i ec n =>
      '(hd, bd) ← in_flight q !! i;
      let sent := if ec then take n (hd ++ bd) else hd ++ bd in
      Some (mkQueueState (max_pending_writes_ q) (write_queue_ q) (delete i (in_flight q))
        (threads q ++ [t_completed ec]) (accepted q) (wire q ++ [(ec, sent)])
        (passed q) (invoked q))
  end.

Fixpoint exec_all (acts : list action) (q : queue_state) : option queue_state :=
  match acts with
  | [] => Some q
  | a :: acts => q ← exec a q; exec_all acts q
  end.

Lemma exec_sound a q q' : exec a q = Some q' -> queue_step q q'.
Proof.
  destruct a as [hd bd h|i|i ec n]; simpl; intros He.
  - destruct (async_write_enqueue hd bd h q) as [q1 t] eqn:E. simplify_eq. by eapply step_call.
  - destruct (threads q !! i) as [t|] eqn:Hi; simplify_eq/=.
    destruct (resume _ _) as [[q1 new]|] eqn:Hr; simplify_eq/=.
    apply step_internal. rewrite delete_take_drop in Hr.
    eapply step_resume; [|exact Hr]. symmetry. by apply take_drop_middle.
  - destruct (in_flight q !! i) as [[hd bd]|] eqn:Hi; simplify_eq/=.
    apply step_internal. rewrite delete_take_drop.
    apply (step_complete q _ hd bd); [symmetry; by apply take_drop_middle|..];
      destruct ec; try done. apply prefix_take.
Qed.

Lemma exec_all_sound acts q q' : exec_all acts q = Some q' -> rtc queue_step q q'.
Proof.
  revert q. induction acts as [|a acts IH]; simpl; intros q He; simplify_eq; [done|].
  destruct (exec a q) as [q1|] eqn:E; simplify_eq/=.
  eapply rtc_l; [by eapply exec_sound|by apply IH].
Qed.

(** ** Properties *)

(** C8 One write at a time, and no undefined behaviour: in every state that any
    interleaving of callers, threads and completions can reach, at most one
    write operation is outstanding on the SSL stream, it is the write of the
    front of the queue, and no thread is about to read the front of an empty
    queue or pop it. *)
Theorem write_queue_single_writer (cap : Z) (q : queue_state) :
  0 <= cap -> reachable cap q ->
  (length (in_flight q) <= 1)%nat /\
  (forall op, op ∈ in_flight q ->
     exists pw rest, write_queue_ q = pw :: rest /\ op = (head pw, body pw)) /\
  (forall ts1 t ts2, threads q = ts1 ++ t :: ts2 ->
     is_Some (resume t (with_threads (ts1 ++ ts2) q))).
Proof.
  intros Hc Hr. pose proof (queue_inv_reachable _ _ Hc Hr) as Hinv. split_and!.
  - pose proof (inv_token _ _ Hinv) as Ht. rewrite length_take in Ht. lia.
  - pose proof (inv_front _ _ Hinv) as Hf. rewrite Forall_forall in Hf. exact Hf.
  - intros ts1 t ts2 Hts. apply (resume_defined cap). apply queue_inv_perm; [|done].
    rewrite Hts. solve_Permutation.
Qed.

(** C9 Messages are written whole and in order: the operations completed so far
    wrote, in order, the first accepted messages, each head followed by its
    body, with nothing of another message in between; an operation without an
    error wrote all of its message, one with an error a prefix of it. *)
Theorem write_queue_fifo (cap : Z) (q : queue_state) :
  0 <= cap -> reachable cap q ->
  exists written, written `prefix_of` accepted q /\ Forall2 wrote (wire q) written.
Proof.
  intros Hc Hr. destruct (inv_wire _ _ (queue_inv_reachable _ _ Hc Hr)) as (wr & Ha & Hw).
  eexists. split; [|exact Hw]. rewrite Ha. apply prefix_app.
  apply prefix_take.
Qed.

(** C10 The cap on pending writes, including the one in flight: with a non-zero
    [max_pending_writes] the queue never holds more than that many messages, and
    a call that would exceed it queues nothing and reports failure to its
    callback instead. *)
Theorem write_queue_bounded (cap : Z) (q : queue_state) :
  0 <= cap -> reachable cap q ->
  (cap <> 0 -> zlen (write_queue_ q) <= cap) /\
  (forall hd bd h q' t, cap <> 0 -> zlen (write_queue_ q) = cap ->
     async_write_enqueue hd bd h q = (q', t) ->
     write_queue_ q' = write_queue_ q /\ accepted q' = accepted q /\ t = t_rejected h /\
     forall c, h = Some c -> exists q'', resume t q' = Some (q'', []) /\
       invoked q'' = invoked q' ++ [(c, false)]).
Proof.
  intros Hc Hr. pose proof (queue_inv_reachable _ _ Hc Hr) as Hinv.
  split; [apply (inv_bound _ _ Hinv)|].
  intros hd bd h q' t Hne Hlen. unfold async_write_enqueue.
  rewrite (inv_cap _ _ Hinv), Hlen.
  rewrite (proj2 (Z.eqb_neq cap 0)), Z.geb_leb, Z.leb_refl by done.
  intros [= <- <-]. split_and!; [done..|]. intros c ->. by eexists.
Qed.

(** C11 Every callback is invoked exactly once: at any time the callbacks passed
    in are those still queued, those owed by a running thread and those invoked,
    without repetition or loss; a callback invoked with [true] belongs to a
    message that is on the wire in full; and when the socket has nothing left to
    do, all of them have been invoked. *)
Theorem write_queue_callbacks (cap : Z) (q : queue_state) :
  0 <= cap -> reachable cap q ->
  passed q ≡ₚ callbacks (write_queue_ q) ++ (threads q ≫= owed) ++ (invoked q).*1 /\
  (forall c, (c, true) ∈ invoked q -> delivered q c) /\
  (quiescent q -> write_queue_ q = [] /\ (invoked q).*1 ≡ₚ passed q).
Proof.
  intros Hc Hr. pose proof (queue_inv_reachable _ _ Hc Hr) as Hinv.
  pose proof (inv_once _ _ Hinv) as Ho. split_and!; [done| |].
  - intros c Hin. pose proof (inv_told _ _ Hinv) as Ht. rewrite Forall_forall in Ht.
    by apply (Ht (c, true)).
  - intros Hq. pose proof (quiescent_empty _ _ Hinv Hq) as Hq0. split; [done|].
    destruct Hq as [Hts _]. rewrite Ho, Hq0, Hts. done.
Qed.

(** C12 The queue drains: from every reachable state, if callers stay away, the
    socket's own steps always lead to a state with nothing left to do, where
    every callback has been invoked; no run of internal steps is longer than
    [work]; and unless it is done, a step is possible. *)
Theorem write_queue_drains (cap : Z) (q : queue_state) :
  0 <= cap -> reachable cap q ->
  (exists q', rtc internal_step q q' /\ quiescent q' /\ write_queue_ q' = [] /\
     (invoked q').*1 ≡ₚ passed q') /\
  (forall n q', nsteps internal_step n q q' -> (n <= work q)%nat) /\
  (quiescent q \/ exists q', internal_step q q').
Proof.
  intros Hc Hr. pose proof (queue_inv_reachable _ _ Hc Hr) as Hinv. split_and!.
  - destruct (drains cap q Hinv) as (q' & Hrun & Hq & Hinv'). exists q'.
    pose proof (quiescent_empty _ _ Hinv' Hq) as Hq0. split_and!; [done..|].
    destruct Hq as [Hts _]. by rewrite (inv_once _ _ Hinv'), Hq0, Hts.
  - intros n q' Hn%bounded_runs. lia.
  - by apply (internal_progress cap).
Qed.
End write_queue.
Arguments pending_write : clear implicits.
Arguments thread : clear implicits.
Arguments queue_state : clear implicits.
Arguments action : clear implicits.

(** ** Witnesses: three calls on a socket with room for two writes *)
Module QueueWitness.

Definition schedule : list (action nat) :=
  [ a_call [Byte.x01] [Byte.x02] (Some 1%nat);   (* first: idle *)
    a_call [Byte.x03] [] (Some 2%nat);           (* second: queued behind it *)
    a_call [Byte.x04] [] (Some 3%nat);           (* third: rejected *)
    a_resume 0; a_resume 2 ].                    (* the first thread enters write_next *)

Definition mid : queue_state nat :=
  default (new_queue 2) (exec_all schedule (new_queue 2)).

(** ... and on to the end, the second write failing after no byte. *)
Definition rest_of_schedule : list (action nat) :=
  [ a_complete 0 false 0; a_resume 1; a_resume 1; a_resume 1; a_resume 0; a_resume 0; a_complete 0 true 0; a_resume 0; a_resume 0 ].

Definition final : queue_state nat :=
  default (new_queue 2) (exec_all (schedule ++ rest_of_schedule) (new_queue 2)).

Lemma mid_reachable : reachable 2 mid.
Proof. apply (exec_all_sound schedule). by vm_compute. Defined.

Lemma final_reachable : reachable 2 final.
Proof. apply (exec_all_sound (schedule ++ rest_of_schedule)). by vm_compute. Defined.

Lemma write_queue_single_writer_witness :
  length (in_flight mid) = 1%nat /\ (length (in_flight mid) <= 1)%nat.
Proof.
  split; [reflexivity|].
  apply (write_queue_single_writer 2 mid); [lia|apply mid_reachable].
Defined.

Lemma write_queue_fifo_witness :
  exists written, written `prefix_of` accepted final /\ Forall2 wrote (wire final) written.
Proof. apply (write_queue_fifo 2 final); [lia|apply final_reachable]. Defined.

Lemma write_queue_bounded_witness : zlen (write_queue_ mid) = 2 /\ zlen (write_queue_ mid) <= 2.
Proof.
  split; [reflexivity|].
  apply (write_queue_bounded 2 mid); [lia|apply mid_reachable|lia].
Defined.

Lemma write_queue_callbacks_witness :
  invoked final = [(3%nat, false); (1%nat, true); (2%nat, false)] /\
  (invoked final).*1 ≡ₚ passed final.
Proof.
  split; [reflexivity|].
  apply (write_queue_callbacks 2 final); [lia|apply final_reachable|split; reflexivity].
Defined.

Lemma write_queue_drains_witness :
  exists q', rtc internal_step mid q' /\ quiescent q' /\ write_queue_ q' = [].
Proof.
  destruct (write_queue_drains 2 mid) as ((q' & Hr & Hq & He & _) & _);
    [lia|apply mid_reachable|]. by exists q'.
Defined.
End QueueWitness.
