(* ===== verification/Session.v ===== *)
(** * The asynchronous session ([src/src/connection/session.hpp], [session.cpp])

    A session reads frame after frame through a chain of completion handlers.
    Its state has the read it is waiting for, as the handler that will run and
    the size of the buffer that handler captured, and the effects it had so far
    on its surroundings: vectors asked for, messages handed to the virtual
    [handle_message], frames given to the socket's [async_write], and the ends a
    session can come to (removed from its manager, or stopped). *)

From S2P Require Import Prelude Endian Serialisation SocketBase Message WireFormat.
From S2P Require Import MessageCorrect.

(** ** State *)

(** The completion handlers of the three reads. *)
Inductive read_handler : Type :=
| k_frame_size
| k_header
| k_body (type : message_id_t) (is_system : bool).

Inductive effect : Type :=
| e_alloc (n : Z)
| e_message (id : message_id_t) (body : list uint8_t)
| e_write (head body : list uint8_t)
| e_removed           (* manager_->remove_session(this) *)
| e_closed.           (* socket_->close() *)

Record session := mkSession {
  ses_cap : Z;                                  (* socket_->max_message_size() *)
  ses_managed : bool;                           (* manager_ != nullptr *)
  ses_pending : option (read_handler * Z);      (* outstanding async_read *)
  ses_effects : list effect
}.

Definition new_session (cap : Z) (managed : bool) : session := mkSession cap managed None [].

Definition emit (e : effect) (s : session) : session :=
  mkSession (ses_cap s) (ses_managed s) (ses_pending s) (ses_effects s ++ [e]).

Definition set_pending (p : option (read_handler * Z)) (s : session) : session :=
  mkSession (ses_cap s) (ses_managed s) p (ses_effects s).

(** The socket's [async_write] as the session sees it: the frame is handed over. *)
#[global] Instance session_writer : AsyncWriter session := {|
  async_write head body _ s := emit (e_write head body) s |}.

(** ** The code *)
Section code.
Context `{Schema} {BE : BoostEndian} `{Allocator}.

(** [session::~session] and [session::stop]. *)
Definition stop (s : session) : session := emit e_closed s.

(** [session::on_error]. *)
Definition on_error (s : session) : session :=
  if ses_managed s then emit e_removed s else stop s.

(** [session::parse_header]: the flag, and the three out-parameters after the
    call. *)
Definition parse_header (header : list uint8_t) (out_type : message_id_t)
    (out_body_size : Z) (out_is_system : bool) : bool * (message_id_t * Z * bool) :=
  if negb (is_valid MessageHeader header)
  then (false, (out_type, out_body_size, out_is_system))
  else
    let message_header := deserialise MessageHeader header in
    (true, (type message_header, body_size message_header, is_system message_header)).

(** [session::read_frame_size]. *)
Definition read_frame_size (s : session) : session :=
  set_pending (Some (k_frame_size, Z.of_nat sizeof_frame_size)) s.

(** [std::make_shared<std::vector<std::uint8_t>>(n)]. *)
Definition make_buffer (n : Z) : M session unit := fun s =>
  (vector_alloc n, emit (e_alloc n) s).

(** [session::read_header]. *)
Definition read_header (header_size : Z) : M session unit :=
  max_message_size ← gets ses_cap;
  if over_cap max_message_size header_size then modify on_error else
  _ ← make_buffer header_size;
  modify (set_pending (Some (k_header, header_size))).

(** [session::read_body]. *)
Definition read_body (type : message_id_t) (body_size : Z) (is_system : bool)
    : M session unit :=
  max_message_size ← gets ses_cap;
  if over_cap max_message_size body_size then modify on_error else
  _ ← make_buffer body_size;
  modify (set_pending (Some (k_body type is_system, body_size))).

(** [session::handle_sys_message]. *)
Definition handle_sys_message (id : message_id_t) (body : list uint8_t) (s : session)
    : session :=
  if decide (id = MessageId_HbPing)
  then async_send true MessageId_HbPong mkHbPongRequest s
  else s.

(** [session::handle_message], the developer's. *)
Definition handle_message (id : message_id_t) (body : list uint8_t) (s : session)
    : session := emit (e_message id body) s.

(** [session::start]. *)
Definition start (s : session) : session := read_frame_size s.

(** The three completion handlers. *)
Definition on_read (k : read_handler) (is_valid : bool) (buffer : list uint8_t)
    : M session unit :=
  match k with
  | k_frame_size =>
      if is_valid
      then read_header (from_little sizeof_frame_size (object_value native_order buffer))
      else modify on_error
  | k_header =>
      if negb is_valid then modify on_error else
      let '(ok, (type, body_size, is_system)) := parse_header buffer Byte.x00 0 false in
      if negb ok then modify on_error else
      read_body type body_size is_system
  | k_body type is_system =>
      if negb is_valid then modify on_error else
      _ ← modify (if is_system : bool then handle_sys_message type buffer
                  else handle_message type buffer);
      modify read_frame_size
  end.

(** Asio completes the outstanding read: the handler runs once. *)
Definition complete_read (k : read_handler) (is_valid : bool) (buffer : list uint8_t)
    : M session unit :=
  _ ← modify (set_pending None);
  on_read k is_valid buffer.

(** A session fed from the bytes of its peer: each read completes with the next
    bytes, or fails at the end of the stream; [None] when the fuel runs out. *)
Fixpoint serve (fuel : nat) (bs : list uint8_t) (s : session)
    : option (outcome unit * session) :=
  match ses_pending s with
  | None => Some (Ret tt, s)
  | Some (k, n) =>
    match fuel with
    | O => None
    | S fuel =>
      let '(r, s') :=
        if zlen bs <? n then complete_read k false bs s
        else complete_read k true (take (Z.to_nat n) bs) s in
      match r with
      | Throw e => Some (Throw e, s')
      | Ret _ => serve fuel (if zlen bs <? n then [] else drop (Z.to_nat n) bs) s'
      end
    end
  end.

(** One completion, of whatever the network brings. *)
Inductive session_step : session -> session -> Prop :=
| ses_step s k n is_valid buffer s' :
    ses_pending s = Some (k, n) -> zlen buffer = n ->
    complete_read k is_valid buffer s = (Ret tt, s') ->
    session_step s s'
| ses_step_throw s k n is_valid buffer e s' :
    ses_pending s = Some (k, n) -> zlen buffer = n ->
    complete_read k is_valid buffer s = (Throw e, s') ->
    session_step s s'.

Definition session_reachable (cap : Z) (managed : bool) (s : session) : Prop :=
  rtc session_step (start (new_session cap managed)) s.

(** ** What a session should do on a stream *)

Definition is_alloc (e : effect) : bool :=
  match e with e_alloc _ => true | _ => false end.

Definition is_end (e : effect) : bool :=
  match e with e_removed | e_closed => true | _ => false end.

(** What others see of a session. *)
Definition observable (s : session) : list effect :=
  filter (fun e => negb (is_alloc e)) (ses_effects s).

Definition pong_message : message_t := make true MessageId_HbPong mkHbPongRequest.

Definition frame_effects (f : frame) : list effect :=
  if f_system f
  then if is_ping f then [e_write (header pong_message) (body pong_message)] else []
  else [e_message (f_id f) (f_body f)].

Definition end_effects (managed : bool) (e : stream_end) : list effect :=
  match e with
  | end_fail _ => [if managed then e_removed else e_closed]
  | _ => []
  end.

Definition end_outcome (e : stream_end) : outcome unit :=
  match e with end_throw e => Throw e | _ => Ret tt end.
End code.

(** ** The handlers, step by step *)
Section handlers.
Context `{SchemaLaws} {BE : BoostEndian} {BEL : BoostEndianLaws} `{Allocator}.

Lemma read_header_run n s :
  read_header n s =
  if over_cap (ses_cap s) n then (Ret tt, on_error s) else
  match vector_alloc n with
  | Throw e => (Throw e, emit (e_alloc n) s)
  | Ret _ => (Ret tt, set_pending (Some (k_header, n)) (emit (e_alloc n) s))
  end.
Proof.
  unfold read_header. erewrite bind_Ret by done. destruct (over_cap _ _); [done|].
  unfold mbind, M_bind, make_buffer. by destruct (vector_alloc n).
Qed.

Lemma read_body_run ty n sys s :
  read_body ty n sys s =
  if over_cap (ses_cap s) n then (Ret tt, on_error s) else
  match vector_alloc n with
  | Throw e => (Throw e, emit (e_alloc n) s)
  | Ret _ => (Ret tt, set_pending (Some (k_body ty sys, n)) (emit (e_alloc n) s))
  end.
Proof.
  unfold read_body. erewrite bind_Ret by done. destruct (over_cap _ _); [done|].
  unfold mbind, M_bind, make_buffer. by destruct (vector_alloc n).
Qed.

Lemma complete_failed k b s :
  complete_read k false b s = (Ret tt, on_error (set_pending None s)).
Proof. by destruct k. Qed.

Lemma complete_frame_size b s :
  length b = 8%nat ->
  complete_read k_frame_size true b s = read_header (le_combine b) (set_pending None s).
Proof.
  intros Hl. unfold complete_read. erewrite bind_Ret by done. simpl.
  unfold sizeof_frame_size. rewrite <-Hl. by rewrite from_little_bytes_eq.
Qed.

Lemma complete_header b s :
  complete_read k_header true b s =
  if is_valid MessageHeader b
  then let h := deserialise MessageHeader b in
       read_body (type h) (body_size h) (is_system h) (set_pending None s)
  else (Ret tt, on_error (set_pending None s)).
Proof.
  unfold complete_read. erewrite bind_Ret by done. simpl. unfold parse_header.
  by destruct (is_valid MessageHeader b).
Qed.

Lemma complete_body ty sys b s :
  complete_read (k_body ty sys) true b s =
  (Ret tt, read_frame_size ((if sys then handle_sys_message ty b else handle_message ty b)
                              (set_pending None s))).
Proof. unfold complete_read. erewrite bind_Ret by done. simpl. by erewrite bind_Ret by done. Qed.

Lemma serve_step fuel bs s k n :
  ses_pending s = Some (k, n) ->
  serve (S fuel) bs s =
  let '(r, s') := if zlen bs <? n then complete_read k false bs s
                  else complete_read k true (take (Z.to_nat n) bs) s in
  match r with
  | Throw e => Some (Throw e, s')
  | Ret _ => serve fuel (if zlen bs <? n then [] else drop (Z.to_nat n) bs) s'
  end.
Proof. intros Hp. cbn [serve]. by rewrite Hp. Qed.

Lemma serve_done fuel bs s : ses_pending s = None -> serve fuel bs s = Some (Ret tt, s).
Proof. intros Hp. destruct fuel; simpl; by rewrite Hp. Qed.

(** A session that ended by [on_error] from a state with nothing pending. *)
Lemma on_error_pending s : ses_pending (on_error s) = ses_pending s.
Proof. unfold on_error. by destruct (ses_managed s). Qed.

Lemma observable_emit e s :
  observable (emit e s) = observable s ++ (if is_alloc e then [] else [e]).
Proof. unfold observable. simpl. rewrite filter_app. by destruct e. Qed.

Lemma observable_on_error s :
  observable (on_error s) = observable s ++ [if ses_managed s then e_removed else e_closed].
Proof. unfold on_error. destruct (ses_managed s); apply observable_emit. Qed.

Lemma observable_handler f s :
  observable ((if f_system f then handle_sys_message (f_id f) (f_body f)
               else handle_message (f_id f) (f_body f)) s) = observable s ++ frame_effects f.
Proof.
  unfold frame_effects, is_ping. destruct (f_system f); [|apply observable_emit].
  unfold handle_sys_message. simpl. case_decide; case_bool_decide; try done.
  - apply observable_emit.
  - by rewrite app_nil_r.
Qed.

(** [s] is [s0] but for the read it waits for and the vectors it asked for. *)
Definition same_base (s0 s : session) : Prop :=
  ses_cap s = ses_cap s0 /\ ses_managed s = ses_managed s0 /\ observable s = observable s0.

Lemma same_base_emit s0 s e : is_alloc e = true -> same_base s0 s -> same_base s0 (emit e s).
Proof.
  intros He (?&?&?). split_and!; [done..|]. by rewrite observable_emit, He, app_nil_r.
Qed.

(** What a session in state [s], [n] reads before the next frame, does on a
    stream [bs]: the effects of a frame since [s0], or the end. *)
Definition stage_rel (n : nat) (bs : list uint8_t) (s0 s : session) (p : parsed) : Prop :=
  match p with
  | PFrame f rest => exists s', (forall fuel, serve (n + fuel) bs s = serve fuel rest s') /\
      ses_pending s' = Some (k_frame_size, 8) /\ ses_cap s' = ses_cap s0 /\
      ses_managed s' = ses_managed s0 /\ observable s' = observable s0 ++ frame_effects f
  | PFail st => exists s', (forall fuel, serve (n + fuel) bs s = Some (Ret tt, s')) /\
      observable s' = observable s0 ++ end_effects (ses_managed s0) (end_fail st)
  | PExn e => exists s', (forall fuel, serve (n + fuel) bs s = Some (Throw e, s')) /\
      observable s' = observable s0
  end.

Lemma stage_next n bs s bs' s' s0 p :
  (forall fuel, serve (S n + fuel) bs s = serve (n + fuel) bs' s') ->
  stage_rel n bs' s0 s' p -> stage_rel (S n) bs s0 s p.
Proof.
  intros Hs. destruct p; unfold stage_rel; intros (s1 & Hr & Hp); exists s1; (split; [|done]);
    intros fuel; by rewrite Hs.
Qed.

Lemma stage_error n bs s s1 bs' s0 st :
  same_base s0 s1 -> ses_pending s1 = None ->
  (forall fuel, serve (S n + fuel) bs s = serve (n + fuel) bs' (on_error s1)) ->
  stage_rel (S n) bs s0 s (PFail st).
Proof.
  intros (_ & Hm & Ho) Hp Hs. exists (on_error s1). split.
  - intros fuel. rewrite Hs. apply serve_done. by rewrite on_error_pending.
  - by rewrite observable_on_error, Hm, Ho.
Qed.

Lemma stage_throw n bs s s1 s0 e :
  same_base s0 s1 -> (forall fuel, serve (S n + fuel) bs s = Some (Throw e, s1)) ->
  stage_rel (S n) bs s0 s (PExn e).
Proof. intros (_ & _ & Ho) Hs. by exists s1. Qed.

(** The pending read fails: the stream ends before [n] bytes. *)
Lemma serve_short k n bs s :
  ses_pending s = Some (k, n) -> zlen bs < n ->
  forall m fuel, serve (S m + fuel) bs s = serve (m + fuel) [] (on_error (set_pending None s)).
Proof.
  intros Hp Hl m fuel. simpl (S m + fuel)%nat. rewrite (serve_step _ _ _ _ _ Hp).
  rewrite (proj2 (Z.ltb_lt _ _)) by done. by rewrite complete_failed.
Qed.

(** The pending read succeeds. *)
Lemma serve_enough k n bs s r s' :
  ses_pending s = Some (k, n) -> n <= zlen bs ->
  complete_read k true (take (Z.to_nat n) bs) s = (r, s') ->
  forall m fuel, serve (S m + fuel) bs s =
    match r with
    | Throw e => Some (Throw e, s')
    | Ret _ => serve (m + fuel) (drop (Z.to_nat n) bs) s'
    end.
Proof.
  intros Hp Hl Hc m fuel. simpl (S m + fuel)%nat. rewrite (serve_step _ _ _ _ _ Hp).
  rewrite (proj2 (Z.ltb_ge _ _)) by done. by rewrite Hc.
Qed.

Lemma stage_body s0 s ty sys n bs :
  ses_pending s = Some (k_body ty sys, n) -> same_base s0 s ->
  stage_rel 1 bs s0 s
    (if zlen bs <? n then PFail short_body
     else PFrame (mkFrame sys ty (take (Z.to_nat n) bs)) (drop (Z.to_nat n) bs)).
Proof.
  intros Hp Hs. destruct (Z.ltb_spec (zlen bs) n) as [Hlt|Hge].
  - eapply (stage_error 0); [..|exact (serve_short _ _ _ _ Hp Hlt 0)]; done.
  - pose proof (serve_enough _ _ _ _ _ _ Hp Hge (complete_body _ _ _ _) 0) as Hr.
    eexists. split; [exact Hr|]. destruct Hs as (Hc & Hm & Ho).
    set (f := mkFrame sys ty (take (Z.to_nat n) bs)).
    pose proof (observable_handler f (set_pending None s)) as Hobs. simpl in Hobs.
    assert (forall s, ses_cap ((if sys then handle_sys_message ty (f_body f)
      else handle_message ty (f_body f)) s) = ses_cap s /\
      ses_managed ((if sys then handle_sys_message ty (f_body f)
      else handle_message ty (f_body f)) s) = ses_managed s) as Hk.
    { intros s1. unfold handle_sys_message. destruct sys; [|done]. by case_decide. }
    destruct (Hk (set_pending None s)) as [Hk1 Hk2].
    split_and!; [done|by rewrite <-Hc|by rewrite <-Hm|]. rewrite <-Ho. exact Hobs.
Qed.

Lemma stage_header s0 s n bs :
  ses_pending s = Some (k_header, n) -> same_base s0 s -> 0 <= n ->
  stage_rel 2 bs s0 s
    (if zlen bs <? n then PFail short_header else
     let hb := take (Z.to_nat n) bs in
     if negb (is_valid MessageHeader hb) then PFail invalid_header
     else parse_tail (ses_cap s0) (deserialise MessageHeader hb) (drop (Z.to_nat n) bs)).
Proof.
  intros Hp Hs Hn. destruct (Z.ltb_spec (zlen bs) n) as [Hlt|Hge].
  { eapply (stage_error 1); [..|exact (serve_short _ _ _ _ Hp Hlt 1)]; done. }
  cbv zeta. set (hb := take (Z.to_nat n) bs).
  pose proof (complete_header hb s) as Hc.
  destruct (is_valid MessageHeader hb); cbn [negb].
  2: { eapply (stage_error 1); [..|exact (serve_enough _ _ _ _ _ _ Hp Hge Hc 1)]; done. }
  cbv zeta in Hc. rewrite read_body_run in Hc. simpl in Hc.
  assert (ses_cap s = ses_cap s0) as Hcap by apply Hs. rewrite Hcap in Hc.
  set (h := deserialise MessageHeader hb) in *. unfold parse_tail.
  destruct (over_cap (ses_cap s0) (body_size h)).
  { eapply (stage_error 1); [..|exact (serve_enough _ _ _ _ _ _ Hp Hge Hc 1)]; done. }
  destruct (vector_alloc (body_size h)) as [[]|e].
  - eapply stage_next; [exact (serve_enough _ _ _ _ _ _ Hp Hge Hc 1)|].
    apply stage_body; [done|]. by apply same_base_emit.
  - eapply (stage_throw 1); [|exact (serve_enough _ _ _ _ _ _ Hp Hge Hc 1)].
    by apply same_base_emit.
Qed.

Lemma serve_frame bs s :
  ses_pending s = Some (k_frame_size, 8) ->
  stage_rel 3 bs s s (parse_frame (ses_cap s) bs).
Proof.
  intros Hp. unfold parse_frame.
  assert (same_base s s) as Hs by done.
  destruct (Nat.ltb_spec (length bs) 8) as [Hlt|Hge].
  { eapply (stage_error 2); [..|apply (serve_short _ _ _ _ Hp)]; [done..|unfold zlen; lia]. }
  assert (8 <= zlen bs) as Hz by (unfold zlen; lia).
  assert (length (take 8 bs) = 8%nat) as Hl by (rewrite length_take; lia).
  pose proof (complete_frame_size _ s Hl) as Hc. rewrite read_header_run in Hc. simpl ses_cap in Hc.
  set (hs := le_combine (take 8 bs)) in *.
  destruct (over_cap (ses_cap s) hs).
  { eapply (stage_error 2); [..|exact (serve_enough _ _ _ _ _ _ Hp Hz Hc 2)]; done. }
  destruct (vector_alloc hs) as [[]|e].
  - eapply stage_next; [exact (serve_enough _ _ _ _ _ _ Hp Hz Hc 2)|].
    apply stage_header; [done| |apply le_combine_bound]. by apply same_base_emit.
  - eapply (stage_throw 2); [|exact (serve_enough _ _ _ _ _ _ Hp Hz Hc 2)].
    by apply same_base_emit.
Qed.

Lemma serve_decode fuel bs s :
  ses_pending s = Some (k_frame_size, 8) -> (length bs < 8 * fuel)%nat ->
  let '(fs, e) := decode (ses_cap s) fuel bs in
  exists s', serve (3 * fuel) bs s = Some (end_outcome e, s') /\
    observable s' = observable s ++ concat (frame_effects <$> fs) ++ end_effects (ses_managed s) e.
Proof.
  revert bs s. induction fuel as [|fuel IH]; intros bs s Hp Hl; [lia|].
  replace (3 * S fuel)%nat with (3 + 3 * fuel)%nat by lia. cbn [decode].
  pose proof (serve_frame bs s Hp) as Hf.
  destruct (parse_frame (ses_cap s) bs) as [f rest|st|e] eqn:Hpf.
  - destruct Hf as (s1 & Hs & Hp1 & Hc1 & Hm1 & Ho1). apply parse_frame_shrinks in Hpf.
    specialize (IH rest s1 Hp1 ltac:(lia)). rewrite Hc1 in IH.
    destruct (decode (ses_cap s) fuel rest) as [fs e]. destruct IH as (s' & Hr & Ho).
    exists s'. rewrite Hs. split; [done|]. rewrite Ho, Ho1, Hm1. cbn.
    by rewrite <-!(assoc_L (++)).
  - destruct Hf as (s' & Hs & Ho). exists s'. by rewrite Hs.
  - destruct Hf as (s' & Hs & Ho). exists s'. rewrite Hs, Ho. simpl. by rewrite app_nil_r.
Qed.
End handlers.

(** ** Any sequence of completions *)
Section steps.
Context `{Schema} {BE : BoostEndian} `{Allocator}.

(** The effects of one completion: allocations within the cap, and at most one
    end, after which no read is outstanding. *)
Definition completion_effects (cap : Z) (pending : option (read_handler * Z))
    (new : list effect) : Prop :=
  (forall n, e_alloc n ∈ new -> over_cap cap n = false) /\
  (length (filter is_end new) <= 1)%nat /\
  (filter is_end new <> [] -> pending = None).

Lemma read_next_effects (k : Z -> M session unit) h s n r s' :
  ses_pending s = None ->
  (forall s, k n s = if over_cap (ses_cap s) n then (Ret tt, on_error s) else
     match vector_alloc n with
     | Throw e => (Throw e, emit (e_alloc n) s)
     | Ret _ => (Ret tt, set_pending (Some (h, n)) (emit (e_alloc n) s))
     end) ->
  k n s = (r, s') ->
  exists new, ses_effects s' = ses_effects s ++ new /\ ses_cap s' = ses_cap s /\
    completion_effects (ses_cap s) (ses_pending s') new.
Proof.
  intros Hp Hk. rewrite Hk. destruct (over_cap (ses_cap s) n) eqn:Hov.
  - intros [= <- <-]. unfold on_error, stop. destruct (ses_managed s); simpl;
      eexists; (split; [done|split; [done|]]); (split_and!; [|done|done]);
      intros m Hm%list_elem_of_singleton; done.
  - assert (completion_effects (ses_cap s) (Some (h, n)) [e_alloc n] /\
      completion_effects (ses_cap s) None [e_alloc n]) as [H1 H2].
    { split; (split_and!; [|simpl; lia|done]); intros m Hm%list_elem_of_singleton; congruence. }
    destruct (vector_alloc n); intros [= <- <-]; eexists; (split; [done|]).
    + done.
    + split; [done|]. simpl. by rewrite Hp.
Qed.

Lemma on_error_effects s :
  ses_pending s = None ->
  exists new, ses_effects (on_error s) = ses_effects s ++ new /\
    ses_cap (on_error s) = ses_cap s /\
    completion_effects (ses_cap s) (ses_pending (on_error s)) new.
Proof.
  intros Hp. unfold on_error, stop. destruct (ses_managed s); simpl;
    eexists; (split; [done|split; [done|]]); (split_and!; [|done|done]);
    intros m Hm%list_elem_of_singleton; done.
Qed.

Lemma complete_read_effects k v b s r s' :
  complete_read k v b s = (r, s') ->
  exists new, ses_effects s' = ses_effects s ++ new /\ ses_cap s' = ses_cap s /\
    completion_effects (ses_cap s) (ses_pending s') new.
Proof.
  unfold complete_read. erewrite bind_Ret by done.
  assert (forall r s', modify on_error (set_pending None s) = (r, s') ->
    exists new, ses_effects s' = ses_effects s ++ new /\ ses_cap s' = ses_cap s /\
      completion_effects (ses_cap s) (ses_pending s') new) as He.
  { intros r1 s1 [= <- <-]. exact (on_error_effects (set_pending None s) eq_refl). }
  destruct k as [| |ty sys]; simpl.
  - destruct v; [|apply He].
    apply (read_next_effects read_header k_header (set_pending None s)); [done|].
    apply read_header_run.
  - destruct v; [|apply He]. unfold parse_header.
    destruct (is_valid MessageHeader b); [|apply He].
    set (h := deserialise MessageHeader b).
    apply (read_next_effects (fun n => read_body (type h) n (is_system h))
             (k_body (type h) (is_system h)) (set_pending None s)); [done|].
    intros s1. apply read_body_run.
  - destruct v; [|apply He]. intros [= <- <-].
    unfold handle_sys_message. destruct sys; [case_decide|]; simpl;
      [eexists [_]|exists []|eexists [_]]; rewrite ?app_nil_r;
      (split; [done|split; [done|]]); (split_and!; [|simpl; lia|done]).
    + by intros n ?%list_elem_of_singleton.
    + by intros n ?%not_elem_of_nil.
    + by intros n ?%list_elem_of_singleton.
Qed.

Record session_inv (cap : Z) (s : session) : Prop := {
  sinv_cap : ses_cap s = cap;
  sinv_alloc n : e_alloc n ∈ ses_effects s -> over_cap cap n = false;
  sinv_ends : (length (filter is_end (ses_effects s)) <= 1)%nat;
  sinv_pending : filter is_end (ses_effects s) <> [] -> ses_pending s = None
}.

Lemma session_inv_step cap s s' : session_step s s' -> session_inv cap s -> session_inv cap s'.
Proof.
  intros Hstep [Hc Ha He Hp].
  assert (exists k n v b r, ses_pending s = Some (k, n) /\ complete_read k v b s = (r, s'))
    as (k & n & v & b & r & Hk & Hr) by (destruct Hstep; eauto 10).
  destruct (complete_read_effects _ _ _ _ _ _ Hr) as (new & Hn & Hc' & Hna & Hne & Hnp).
  assert (filter is_end (ses_effects s) = []) as Hnil.
  { destruct (filter is_end (ses_effects s)); [done|]. by rewrite Hp in Hk. }
  split.
  - congruence.
  - intros m. rewrite Hn. intros [?|?]%elem_of_app; [auto|]. rewrite <-Hc. auto.
  - by rewrite Hn, filter_app, Hnil.
  - by rewrite Hn, filter_app, Hnil.
Qed.

Lemma session_inv_reachable cap managed s :
  session_reachable cap managed s -> session_inv cap s.
Proof.
  apply rtc_ind_r; [|intros; by eapply session_inv_step].
  split; simpl; [done| |lia|done]. by intros n ?%not_elem_of_nil.
Qed.
End steps.

(** ** Properties *)

(** C13 An asynchronous session implements the wire format: fed with any stream
    of bytes, it stops, having handed every application message to
    [handle_message] in order, answered every ping with a pong and dropped the
    other system frames; at the first frame it cannot read it leaves its manager
    (or closes its socket, without one), once; it throws exactly when a vector
    cannot be allocated. *)
Theorem session_refines `{SchemaLaws} {BE : BoostEndian} {BEL : BoostEndianLaws}
    `{Allocator} (cap : Z) (managed : bool) (fuel : nat) (bs : list uint8_t) :
  (length bs < 8 * fuel)%nat ->
  let '(fs, e) := decode cap fuel bs in
  e <> end_fuel /\
  exists s, serve (3 * fuel) bs (start (new_session cap managed)) = Some (end_outcome e, s) /\
    observable s = concat (frame_effects <$> fs) ++ end_effects managed e.
Proof.
  intros Hl.
  pose proof (decode_terminates cap fuel bs Hl) as Ht.
  pose proof (serve_decode fuel bs (start (new_session cap managed)) eq_refl Hl) as Hs.
  simpl in Hs. destruct (decode cap fuel bs) as [fs e]. by split.
Qed.

(** The application messages a session has handed on. *)
Definition messages (es : list effect) : list (message_id_t * list uint8_t) :=
  omap (fun e => match e with e_message id b => Some (id, b) | _ => None end) es.

Lemma messages_system `{Schema} {BE : BoostEndian} fs :
  Forall (fun f => f_system f = true) fs -> messages (concat (frame_effects <$> fs)) = [].
Proof.
  induction 1 as [|f fs Hf _ IH]; [done|]. cbn. unfold messages in *. rewrite omap_app, IH.
  unfold frame_effects. rewrite Hf. by destruct (is_ping f).
Qed.

Lemma messages_end managed e : messages (end_effects managed e) = [].
Proof. destruct e; [by destruct managed|done..]. Qed.

(** C14 The synchronous and the asynchronous receiver agree: on the same bytes
    and the same cap, the message that [recv_buffer] returns is the first one a
    session hands to [handle_message]; when [recv_buffer] reports failure the
    session hands on no message and ends; when it throws the session throws the
    same exception. *)
Theorem session_agrees_with_recv_buffer
    `{SchemaLaws} {BE : BoostEndian} {BEL : BoostEndianLaws} `{StreamSocket Sk, Allocator}
    (managed : bool) (fuel : nat) (w : recv_world Sk) :
  loopback = false -> stream_inv (rw_socket w) ->
  (length (incoming (rw_socket w)) < 8 * fuel)%nat ->
  exists r w' o s,
    recv_buffer fuel w = (r, w') /\
    serve (3 * fuel) (incoming (rw_socket w))
      (start (new_session (max_message_size (rw_socket w)) managed)) = Some (o, s) /\
    match r with
    | Ret (Some (Some id)) => head (messages (observable s)) = Some (id, rw_body w')
    | Ret (Some None) => messages (observable s) = [] /\ o = Ret tt
    | Ret None => False
    | Throw e => messages (observable s) = [] /\ o = Throw e
    end.
Proof.
  intros Hl Hi Hf. set (cap := max_message_size (rw_socket w)).
  set (bs := incoming (rw_socket w)) in *.
  pose proof (recv_loop_refines cap fuel w Hl Hi Hf) as Hr. fold bs in Hr.
  pose proof (serve_decode fuel bs (start (new_session cap managed)) eq_refl Hf) as Hs.
  pose proof (decode_next_message cap fuel bs) as [Hd Hsys]. simpl in Hs.
  destruct (next_message cap fuel bs) as [fs f rest|fs st|fs e|fs]; simpl in Hr, Hd, Hsys.
  - destruct Hr as (w' & Hr & Hb & _). destruct Hd as (fs' & Hd & Hsf).
    destruct (decode cap fuel bs) as [ds de]. simpl in Hd. subst ds.
    destruct Hs as (s & Hs & Ho). do 4 eexists. split_and!; [exact Hr|exact Hs|].
    rewrite Ho, fmap_app, concat_app. unfold messages. rewrite !omap_app.
    fold (messages (concat (frame_effects <$> fs))). rewrite messages_system by done.
    cbn [fmap list_fmap concat app]. unfold frame_effects at 1. rewrite Hsf. cbn.
    by rewrite Hb.
  - destruct Hr as (w' & Hr & _). rewrite Hd in Hs. destruct Hs as (s & Hs & Ho).
    do 4 eexists. split_and!; [exact Hr|exact Hs|]. split; [|done].
    rewrite Ho. unfold messages. rewrite omap_app. fold (messages (concat (frame_effects <$> fs))).
    rewrite messages_system by done. apply (messages_end managed (end_fail st)).
  - destruct Hr as (w' & Hr & _). rewrite Hd in Hs. destruct Hs as (s & Hs & Ho).
    do 4 eexists. split_and!; [exact Hr|exact Hs|]. split; [|done].
    rewrite Ho, app_nil_r. by apply messages_system.
  - done.
Qed.

(** C15 Memory safety of a session against a hostile peer: whatever the network
    delivers, in any sequence of completions, every vector a session asks for is
    at most the cap, when there is one. *)
Theorem session_alloc_bounded `{Schema} {BE : BoostEndian} `{Allocator}
    (cap : Z) (managed : bool) (s : session) (n : Z) :
  session_reachable cap managed s -> e_alloc n ∈ ses_effects s -> cap = 0 \/ n <= cap.
Proof.
  intros Hr Hn. apply over_cap_false. by apply (sinv_alloc _ _ (session_inv_reachable _ _ _ Hr)).
Qed.

(** C16 A session ends at most once: whatever the network delivers, [on_error]
    runs at most once, and afterwards no read is outstanding, so no handler runs
    again. *)
Theorem session_ends_once `{Schema} {BE : BoostEndian} `{Allocator}
    (cap : Z) (managed : bool) (s : session) :
  session_reachable cap managed s ->
  (length (filter is_end (ses_effects s)) <= 1)%nat /\
  (filter is_end (ses_effects s) <> [] ->
   ses_pending s = None /\ forall s', ~ session_step s s').
Proof.
  intros Hr. pose proof (session_inv_reachable _ _ _ Hr) as Hinv.
  split; [apply (sinv_ends _ _ Hinv)|]. intros He.
  pose proof (sinv_pending _ _ Hinv He) as Hp. split; [done|].
  intros s' Hs. destruct Hs; congruence.
Qed.

Section session_witnesses.
Import Witness.

(** A ping, a pong, a message, and one byte that is no frame. *)
Lemma session_refines_witness :
  exists s, serve 60 stream (start (new_session 64 true)) = Some (Ret tt, s) /\
    observable s =
      [e_write (header pong_message) (body pong_message);
       e_message Byte.x2a [Byte.x01; Byte.x02; Byte.x03]; e_removed].
Proof.
  pose proof (session_refines 64 true 20 stream) as R.
  assert (decode 64 20 stream = ([ping; pong; hello], end_fail short_size)) as D
    by (vm_compute; reflexivity).
  rewrite D in R. destruct R as (_ & s & Hs & Ho); [vm_compute; lia|].
  exists s. split; [exact Hs|exact Ho].
Defined.

Lemma session_agrees_with_recv_buffer_witness :
  exists r w' o s,
    recv_buffer 20 world = (r, w') /\
    serve 60 stream (start (new_session 64 false)) = Some (o, s) /\
    match r with
    | Ret (Some (Some id)) => head (messages (observable s)) = Some (id, rw_body w')
    | Ret (Some None) => messages (observable s) = [] /\ o = Ret tt
    | Ret None => False
    | Throw e => messages (observable s) = [] /\ o = Throw e
    end.
Proof.
  exact (session_agrees_with_recv_buffer false 20 world eq_refl I
           ltac:(vm_compute; lia)).
Defined.

(** After the size of a header arrived, and after the connection then broke. *)
Definition waiting_for_header : session :=
  mkSession 64 true (Some (k_header, 11)) [e_alloc 11].
Definition broken : session := mkSession 64 true None [e_alloc 11; e_removed].

Lemma waiting_reachable : session_reachable 64 true waiting_for_header.
Proof.
  apply rtc_once. eapply (ses_step _ k_frame_size 8 true (le_split 8 11));
    vm_compute; reflexivity.
Defined.

Lemma broken_reachable : session_reachable 64 true broken.
Proof.
  eapply rtc_r; [apply waiting_reachable|].
  eapply (ses_step _ k_header 11 false (replicate 11 Byte.x00)); vm_compute; reflexivity.
Defined.

Lemma session_alloc_bounded_witness :
  e_alloc 11 ∈ ses_effects waiting_for_header /\ (64 = 0 \/ 11 <= 64).
Proof.
  assert (e_alloc 11 ∈ ses_effects waiting_for_header) as Hin by constructor.
  split; [exact Hin|].
  exact (session_alloc_bounded 64 true waiting_for_header 11 waiting_reachable Hin).
Defined.

Lemma session_ends_once_witness :
  filter is_end (ses_effects broken) = [e_removed] /\ forall s', ~ session_step broken s'.
Proof.
  split; [reflexivity|].
  apply (session_ends_once 64 true broken broken_reachable). by vm_compute.
Defined.
End session_witnesses.
