(* ===== verification/SocketTimers.v ===== *)
(** * The timers of the TCP socket ([boost_tcp_socket], [src/src/network/socket.cpp])

    The asynchronous side of the socket other than the write queue: the three
    deadline timers and the operations that arm them.  The socket's code is the
    functions of Section [code]; its environment, Asio, is the step relation
    [timed_step], with what Asio documents for a waitable timer:
    - [expires_after] and [cancel] abort an outstanding wait, whose handler runs
      with an error code;
    - a wait whose time has come is queued for invocation with success, and from
      then on can no longer be cancelled;
    and an executor that runs queued handlers promptly: time passes only when no
    handler is queued, and not beyond a deadline that is waited for.  Every
    operation started may complete at any time, with any error code. *)

From stdpp Require Import strings.
From S2P Require Import Prelude Endian Serialisation SocketBase Message.

Inductive timer_kind : Type := idle | heartbeat | handshake_deadline.

#[global] Instance timer_kind_eq_dec : EqDecision timer_kind.
Proof. solve_decision. Defined.

Inductive handshake_type : Type := client | server.

(** [boost::asio::ip::tcp::endpoint]: an IPv4 or an IPv6 address, and a port. *)
Inductive ip_address : Type := address_v4 (bits : Z) | address_v6 (bits : Z).

Record endpoint := mkEndpoint { address : ip_address; endpoint_port : Z }.

(** A default-constructed endpoint is 0.0.0.0:0. *)
Definition default_endpoint : endpoint := mkEndpoint (address_v4 0) 0.

(** The data members of [boost_tcp_socket] that this side uses; a timer member
    is [true] once it is allocated. *)
Record tcp_socket := mkTcpSocket {
  idle_timeout_ : Z;
  heartbeat_timeout_ : Z;
  handshake_timeout_ : Z;
  heartbeat_sent_ : bool;
  tcp_max_message_size_ : Z;
  tcp_max_pending_writes_ : Z;
  idle_timer_ : bool;
  heartbeat_timer_ : bool;
  handshake_timer_ : bool;
  remote_endpoint_ : endpoint
}.

Definition new_tcp_socket : tcp_socket :=
  mkTcpSocket 0 0 0 false 0 0 false false false default_endpoint.

(** ** Setters and getters *)

Definition set_idle_timeout (t : Z) (s : tcp_socket) : tcp_socket :=
  mkTcpSocket t (heartbeat_timeout_ s) (handshake_timeout_ s) (heartbeat_sent_ s)
    (tcp_max_message_size_ s) (tcp_max_pending_writes_ s) (idle_timer_ s) (heartbeat_timer_ s)
    (handshake_timer_ s) (remote_endpoint_ s).

Definition set_heartbeat_timeout (t : Z) (s : tcp_socket) : tcp_socket :=
  mkTcpSocket (idle_timeout_ s) t (handshake_timeout_ s) (heartbeat_sent_ s)
    (tcp_max_message_size_ s) (tcp_max_pending_writes_ s) (idle_timer_ s) (heartbeat_timer_ s)
    (handshake_timer_ s) (remote_endpoint_ s).

Definition set_handshake_timeout (t : Z) (s : tcp_socket) : tcp_socket :=
  mkTcpSocket (idle_timeout_ s) (heartbeat_timeout_ s) t (heartbeat_sent_ s)
    (tcp_max_message_size_ s) (tcp_max_pending_writes_ s) (idle_timer_ s) (heartbeat_timer_ s)
    (handshake_timer_ s) (remote_endpoint_ s).

Definition set_max_message_size (n : Z) (s : tcp_socket) : tcp_socket :=
  mkTcpSocket (idle_timeout_ s) (heartbeat_timeout_ s) (handshake_timeout_ s) (heartbeat_sent_ s)
    n (tcp_max_pending_writes_ s) (idle_timer_ s) (heartbeat_timer_ s)
    (handshake_timer_ s) (remote_endpoint_ s).

Definition set_max_pending_writes (n : Z) (s : tcp_socket) : tcp_socket :=
  mkTcpSocket (idle_timeout_ s) (heartbeat_timeout_ s) (handshake_timeout_ s) (heartbeat_sent_ s)
    (tcp_max_message_size_ s) n (idle_timer_ s) (heartbeat_timer_ s)
    (handshake_timer_ s) (remote_endpoint_ s).

Definition get_max_message_size (s : tcp_socket) : Z := tcp_max_message_size_ s.
Definition get_max_pending_writes (s : tcp_socket) : Z := tcp_max_pending_writes_ s.

Definition set_heartbeat_sent (b : bool) (s : tcp_socket) : tcp_socket :=
  mkTcpSocket (idle_timeout_ s) (heartbeat_timeout_ s) (handshake_timeout_ s) b
    (tcp_max_message_size_ s) (tcp_max_pending_writes_ s) (idle_timer_ s) (heartbeat_timer_ s)
    (handshake_timer_ s) (remote_endpoint_ s).

Definition set_remote_endpoint (e : endpoint) (s : tcp_socket) : tcp_socket :=
  mkTcpSocket (idle_timeout_ s) (heartbeat_timeout_ s) (handshake_timeout_ s) (heartbeat_sent_ s)
    (tcp_max_message_size_ s) (tcp_max_pending_writes_ s) (idle_timer_ s) (heartbeat_timer_ s)
    (handshake_timer_ s) e.

(** [std::make_unique<steady_timer>(executor_)] for the timer member of kind [k]. *)
Definition allocate_timer (k : timer_kind) (s : tcp_socket) : tcp_socket :=
  mkTcpSocket (idle_timeout_ s) (heartbeat_timeout_ s) (handshake_timeout_ s) (heartbeat_sent_ s)
    (tcp_max_message_size_ s) (tcp_max_pending_writes_ s)
    (idle_timer_ s || bool_decide (k = idle))
    (heartbeat_timer_ s || bool_decide (k = heartbeat))
    (handshake_timer_ s || bool_decide (k = handshake_deadline)) (remote_endpoint_ s).

(** ** The world: the socket and what Asio holds for it *)

Section world.
Context {Callback : Type}.

(** Operations started and not completed, with the caller's callback. *)
Inductive async_op : Type :=
| op_resolve (host service : string) (cb : Callback)
| op_connect (cb : Callback)
| op_handshake (type : handshake_type) (cb : Callback)
| op_read (n : Z) (cb : Callback).

(** What happened, with its time. *)
Inductive event : Type :=
| l_connect_start                           (* async_connect is called *)
| l_write (head body : list uint8_t)        (* async_write *)
| l_expired (k : timer_kind)                (* a wait succeeded and its handler is queued *)
| l_timer_close (k : timer_kind)            (* stream_->lowest_layer().close() in k's handler *)
| l_close                                   (* close() *)
| l_handshake_start                         (* async_handshake is called *)
| l_resolved (ok : bool)                    (* Asio completes an operation *)
| l_connected (ok : bool)
| l_handshake_done (ok : bool)
| l_read_done (ok : bool)
| l_called (cb : Callback) (is_valid : bool).

Record world := mkWorld {
  w_sock : tcp_socket;
  w_now : Z;
  w_armed : timer_kind -> option Z;         (* the deadline of an outstanding wait *)
  w_ready : list (timer_kind * bool);       (* queued wait handlers, with their error flag *)
  w_ops : list async_op;
  w_log : list (Z * event)
}.

Definition with_sock (f : tcp_socket -> tcp_socket) (w : world) : world :=
  mkWorld (f (w_sock w)) (w_now w) (w_armed w) (w_ready w) (w_ops w) (w_log w).

Definition note (e : event) (w : world) : world :=
  mkWorld (w_sock w) (w_now w) (w_armed w) (w_ready w) (w_ops w) (w_log w ++ [(w_now w, e)]).

Definition start_op (o : async_op) (w : world) : world :=
  mkWorld (w_sock w) (w_now w) (w_armed w) (w_ready w) (w_ops w ++ [o]) (w_log w).

(** An outstanding wait of [k] is aborted: its handler is queued with an error. *)
Definition aborted (k : timer_kind) (w : world) : list (timer_kind * bool) :=
  match w_armed w k with Some _ => w_ready w ++ [(k, true)] | None => w_ready w end.

(** [timer->expires_after(d); timer->async_wait(...)]. *)
Definition expires_after_wait (k : timer_kind) (d : Z) (w : world) : world :=
  mkWorld (w_sock w) (w_now w)
    (fun k' => if decide (k' = k) then Some (w_now w + d) else w_armed w k')
    (aborted k w) (w_ops w) (w_log w).

(** [timer->cancel()]. *)
Definition cancel (k : timer_kind) (w : world) : world :=
  mkWorld (w_sock w) (w_now w)
    (fun k' => if decide (k' = k) then None else w_armed w k')
    (aborted k w) (w_ops w) (w_log w).
End world.
Arguments async_op : clear implicits.
Arguments event : clear implicits.
Arguments world : clear implicits.

#[global] Instance world_writer {Callback} : AsyncWriter (world Callback) := {|
  async_write head body _ w := note (l_write head body) w |}.

(** ** The code *)
Section code.
Context `{Schema} {BE : BoostEndian} {Callback : Type}.
Implicit Types w : world Callback.

(** [boost_tcp_socket::reset_idle_timer]. *)
Definition reset_idle_timer w : world Callback :=
  if idle_timeout_ (w_sock w) =? 0 then w else
  let w := with_sock (allocate_timer idle) w in
  expires_after_wait idle (idle_timeout_ (w_sock w)) w.

(** [boost_tcp_socket::arm_heartbeat]. *)
Definition arm_heartbeat w : world Callback :=
  expires_after_wait heartbeat (heartbeat_timeout_ (w_sock w)) w.

(** [boost_tcp_socket::reset_heartbeat_timer]. *)
Definition reset_heartbeat_timer w : world Callback :=
  if heartbeat_timeout_ (w_sock w) =? 0 then w else
  let w := with_sock (allocate_timer heartbeat) w in
  arm_heartbeat (with_sock (set_heartbeat_sent false) w).

(** [boost_tcp_socket::reset_handshake_timer]. *)
Definition reset_handshake_timer w : world Callback :=
  if handshake_timeout_ (w_sock w) =? 0 then w else
  let w := with_sock (allocate_timer handshake_deadline) w in
  expires_after_wait handshake_deadline (handshake_timeout_ (w_sock w)) w.

(** [boost_tcp_socket::cancel_handshake_timer]. *)
Definition cancel_handshake_timer w : world Callback :=
  if handshake_timer_ (w_sock w) then cancel handshake_deadline w else w.

(** The handlers of the three waits. *)
Definition on_timer (k : timer_kind) (ec : bool) w : world Callback :=
  match k with
  | idle => if negb ec then note (l_timer_close idle) w else w
  | heartbeat =>
      if ec then w else
      if heartbeat_sent_ (w_sock w) then note (l_timer_close heartbeat) w
      else
        let w := async_send true MessageId_HbPing mkHbPingRequest w in
        let w := with_sock (set_heartbeat_sent true) w in
        arm_heartbeat w
  | handshake_deadline => if negb ec then note (l_timer_close handshake_deadline) w else w
  end.

(** The countdowns restart ([reset_idle_timer]; [reset_heartbeat_timer]). *)
Definition restart_countdowns w : world Callback :=
  reset_heartbeat_timer (reset_idle_timer w).

(** [boost_tcp_socket::async_connect]. *)
Definition async_connect (host service : string) (cb : Callback) w : world Callback :=
  start_op (op_resolve host service cb) (restart_countdowns (note l_connect_start w)).

(** The completion of the resolution, and that of the connection. *)
Definition on_resolved (cb : Callback) (ec : bool) w : world Callback :=
  if ec then note (l_called cb false) w else start_op (op_connect cb) w.

Definition on_connected (cb : Callback) (ec : bool) (e : endpoint) w : world Callback :=
  let w := if negb ec then with_sock (set_remote_endpoint e) w else w in
  note (l_called cb (negb ec)) w.

(** [boost_tcp_socket::async_handshake], and its completion. *)
Definition async_handshake (type : handshake_type) (cb : Callback) w : world Callback :=
  start_op (op_handshake type cb) (reset_handshake_timer (note l_handshake_start w)).

Definition on_handshake (cb : Callback) (ec : bool) w : world Callback :=
  let w := cancel_handshake_timer w in
  let w := if negb ec then restart_countdowns w else w in
  note (l_called cb (negb ec)) w.

(** [boost_tcp_socket::async_read], and its completion. *)
Definition tcp_async_read (n : Z) (cb : Callback) w : world Callback :=
  start_op (op_read n cb) w.

Definition on_read_done (cb : Callback) (ec : bool) w : world Callback :=
  let w := if negb ec then restart_countdowns w else w in
  note (l_called cb (negb ec)) w.

(** [boost_tcp_socket::close]. *)
Definition close w : world Callback := note l_close w.

(** The completion of an operation. *)
Definition on_op (o : async_op Callback) (ec : bool) (e : endpoint) w : world Callback :=
  match o with
  | op_resolve _ _ cb => on_resolved cb ec w
  | op_connect cb => on_connected cb ec e w
  | op_handshake _ cb => on_handshake cb ec w
  | op_read _ cb => on_read_done cb ec w
  end.

(** What Asio reports when an operation completes, whatever its handler does. *)
Definition completed (o : async_op Callback) (ok : bool) : event Callback :=
  match o with
  | op_resolve _ _ _ => l_resolved ok
  | op_connect _ => l_connected ok
  | op_handshake _ _ => l_handshake_done ok
  | op_read _ _ => l_read_done ok
  end.

(** Calls of the socket's users. *)
Inductive api_call : Type :=
| call_connect (host service : string) (cb : Callback)
| call_handshake (type : handshake_type) (cb : Callback)
| call_read (n : Z) (cb : Callback)
| call_close.

Definition api (c : api_call) w : world Callback :=
  match c with
  | call_connect h s cb => async_connect h s cb w
  | call_handshake t cb => async_handshake t cb w
  | call_read n cb => tcp_async_read n cb w
  | call_close => close w
  end.

(** ** The environment *)

Inductive label : Type :=
| lb_tick (d : Z)
| lb_expire (k : timer_kind)
| lb_run (i : nat)
| lb_op (i : nat) (ec : bool) (e : endpoint)
| lb_api (c : api_call).

Definition disarm (k : timer_kind) w : world Callback :=
  mkWorld (w_sock w) (w_now w) (fun k' => if decide (k' = k) then None else w_armed w k')
    (w_ready w ++ [(k, false)]) (w_ops w) (w_log w).

Definition can_wait (now : Z) (o : option Z) : bool :=
  match o with Some dl => now <=? dl | None => true end.

(** One step, if it is possible. *)
Definition timed_step (l : label) w : option (world Callback) :=
  match l with
  | lb_tick d =>
      if bool_decide (0 < d) && bool_decide (w_ready w = []) &&
         forallb (fun k => can_wait (w_now w + d) (w_armed w k)) [idle; heartbeat; handshake_deadline]
      then Some (mkWorld (w_sock w) (w_now w + d) (w_armed w) (w_ready w) (w_ops w) (w_log w))
      else None
  | lb_expire k =>
      match w_armed w k with
      | Some dl => if dl <=? w_now w then Some (note (l_expired k) (disarm k w)) else None
      | None => None
      end
  | lb_run i =>
      '(k, ec) ← w_ready w !! i;
      Some (on_timer k ec (mkWorld (w_sock w) (w_now w) (w_armed w)
                             (delete i (w_ready w)) (w_ops w) (w_log w)))
  | lb_op i ec e =>
      o ← w_ops w !! i;
      Some (on_op o ec e (note (completed o (negb ec))
                            (mkWorld (w_sock w) (w_now w) (w_armed w) (w_ready w)
                               (delete i (w_ops w)) (w_log w))))
  | lb_api c => Some (api c w)
  end.

Fixpoint timed_run (ls : list label) w : option (world Callback) :=
  match ls with
  | [] => Some w
  | l :: ls => w ← timed_step l w; timed_run ls w
  end.

Definition new_world (s : tcp_socket) : world Callback :=
  mkWorld s 0 (fun _ => None) [] [] [].
End code.
Arguments label : clear implicits.
Arguments api_call : clear implicits.

(** ** Generic facts on the world *)
Section world_facts.
Context {Callback : Type}.
Implicit Types w : world Callback.

(** The queued handlers of successful waits of [k]. *)
Definition queued (k : timer_kind) w : list (timer_kind * bool) :=
  filter (fun p => p = (k, false)) (w_ready w).

Definition dequeue (i : nat) w : world Callback :=
  mkWorld (w_sock w) (w_now w) (w_armed w) (delete i (w_ready w)) (w_ops w) (w_log w).

Definition finish_op (i : nat) w : world Callback :=
  mkWorld (w_sock w) (w_now w) (w_armed w) (w_ready w) (delete i (w_ops w)) (w_log w).

Lemma queued_aborted k k' w :
  filter (fun p => p = (k, false)) (aborted k' w) = queued k w.
Proof.
  unfold aborted, queued. destruct (w_armed w k'); [|done].
  by rewrite filter_app, filter_cons_False, filter_nil, app_nil_r.
Qed.

Lemma queued_snoc k k' b w :
  filter (fun p => p = (k, false)) (w_ready w ++ [(k', b)]) =
  queued k w ++ (if decide ((k', b) = (k, false)) then [(k, false)] else []).
Proof.
  rewrite filter_app. f_equal. rewrite filter_cons. by case_decide as E; rewrite ?E.
Qed.

Lemma snoc_split {A} (l l1 l2 : list A) x y :
  l ++ [x] = l1 ++ y :: l2 ->
  (l2 = [] /\ l = l1 /\ x = y) \/ exists l2', l2 = l2' ++ [x] /\ l = l1 ++ y :: l2'.
Proof.
  destruct l2 as [|z l2' _] using rev_ind; intros E.
  - left. apply app_inj_tail in E as [-> ->]. done.
  - right. exists l2'. rewrite app_comm_cons, app_assoc in E.
    apply app_inj_tail in E as [-> ->]. done.
Qed.

Lemma filter_delete_le {A} (P : A -> Prop) `{!forall x, Decision (P x)} (l : list A) i :
  (length (filter P (delete i l)) <= length (filter P l))%nat.
Proof.
  revert i; induction l as [|x l IH]; intros [|i]; simpl; [lia..| |];
    rewrite !filter_cons; try specialize (IH i); destruct (decide (P x)); simpl; lia.
Qed.

Lemma filter_delete_hit {A} (P : A -> Prop) `{!forall x, Decision (P x)} (l : list A) i x :
  l !! i = Some x -> P x -> length (filter P l) = S (length (filter P (delete i l))).
Proof.
  revert i; induction l as [|y l IH]; intros [|i] Hi Hx; simplify_eq/=.
  - by rewrite filter_cons_True.
  - rewrite !filter_cons. pose proof (IH i Hi Hx). destruct (decide (P y)); simpl; lia.
Qed.

Lemma queued_dequeue k w i : queued k w = [] -> queued k (dequeue i w) = [].
Proof.
  intros E. pose proof (filter_delete_le (fun p => p = (k, false)) (w_ready w) i) as Hl.
  change (length (queued k (dequeue i w)) <= length (queued k w))%nat in Hl.
  rewrite E in Hl. by apply nil_length_inv; simpl in *; lia.
Qed.

Lemma queued_hit k w i :
  w_ready w !! i = Some (k, false) -> length (queued k w) = S (length (queued k (dequeue i w))).
Proof. intros Hi. by apply (filter_delete_hit _ _ _ _ Hi). Qed.

Lemma tick_inv `{Schema} {BE : BoostEndian} d w w' :
  timed_step (lb_tick d) w = Some w' ->
  0 < d /\ w_ready w = [] /\
  (forall k dl, w_armed w k = Some dl -> w_now w + d <= dl) /\
  w' = mkWorld (w_sock w) (w_now w + d) (w_armed w) (w_ready w) (w_ops w) (w_log w).
Proof.
  unfold timed_step. destruct (_ && _ && _) eqn:E; [|done]. intros [= <-].
  apply andb_true_iff in E as [[Hd Hr]%andb_true_iff Hf].
  apply bool_decide_eq_true in Hd, Hr. split_and!; [done..| |done].
  rewrite forallb_forall in Hf. intros k dl Hk.
  assert (In k [idle; heartbeat; handshake_deadline]) as Hin by (destruct k; simpl; auto).
  specialize (Hf k Hin). rewrite Hk in Hf. simpl in Hf. lia.
Qed.
End world_facts.

(** ** The heartbeat *)
Section heartbeat_proofs.
Context `{Schema} {BE : BoostEndian} {Callback : Type}.
Implicit Types w : world Callback.
Implicit Types log : list (Z * event Callback).

Definition ping_event : event Callback :=
  let m := make true MessageId_HbPing mkHbPingRequest in l_write (header m) (body m).

(** Signs of life: a connection is begun, a handshake succeeds, or a read does. *)
Definition is_activity (e : event Callback) : bool :=
  match e with
  | l_connect_start | l_handshake_done true | l_read_done true => true
  | _ => false
  end.

Definition no_activity log : Prop := Forall (fun p => is_activity p.2 = false) log.

(** A ping at least [T] ago, and no traffic since. *)
Definition unanswered_ping (T t : Z) log : Prop :=
  exists before tp since,
    log = before ++ (tp, ping_event) :: since /\ tp + T <= t /\ no_activity since.

Definition closes_justified (T : Z) log : Prop :=
  forall before t after,
    log = before ++ (t, l_timer_close heartbeat) :: after -> unanswered_ping T t before.

Record hb_inv (T : Z) w : Prop := {
  hb_timeout : heartbeat_timeout_ (w_sock w) = T;
  hb_one : (length (queued heartbeat w) <= 1)%nat;
  hb_ready : queued heartbeat w <> [] ->
    forall dl, w_armed w heartbeat = Some dl -> w_now w < dl;
  hb_sent : heartbeat_sent_ (w_sock w) = true ->
    (forall dl, w_armed w heartbeat = Some dl -> unanswered_ping T dl (w_log w)) /\
    (queued heartbeat w <> [] -> unanswered_ping T (w_now w) (w_log w));
  hb_closes : closes_justified T (w_log w)
}.

(** All that the invariant looks at. *)
Definition hb_view w :=
  (heartbeat_timeout_ (w_sock w), heartbeat_sent_ (w_sock w), queued heartbeat w,
   w_armed w heartbeat, w_now w, w_log w).

Lemma hb_inv_ext T w w' : hb_view w' = hb_view w -> hb_inv T w -> hb_inv T w'.
Proof.
  intros [= E1 E2 E3 E4 E5 E6] [H1 H2 H3 H4 H5].
  split; rewrite ?E1, ?E2, ?E3, ?E4, ?E5, ?E6; done.
Qed.

Lemma unanswered_snoc T t log t' e :
  is_activity e = false -> unanswered_ping T t log -> unanswered_ping T t (log ++ [(t', e)]).
Proof.
  intros He (b & tp & s & -> & Ht & Hs). exists b, tp, (s ++ [(t', e)]).
  rewrite <-app_assoc. split_and!; [done..|].
  apply Forall_app; split; [done|]. by apply Forall_singleton.
Qed.

Lemma unanswered_le T t t' log : t <= t' -> unanswered_ping T t log -> unanswered_ping T t' log.
Proof. intros Ht (b & tp & s & -> & Hp & Hs). exists b, tp, s. split_and!; [done|lia|done]. Qed.

Lemma closes_justified_snoc T log t e :
  closes_justified T log ->
  (e = l_timer_close heartbeat -> unanswered_ping T t log) ->
  closes_justified T (log ++ [(t, e)]).
Proof.
  intros Hc He before t' after E. apply snoc_split in E as [(-> & -> & E)|(after' & -> & ->)].
  - injection E as -> ->. by apply He.
  - by eapply Hc.
Qed.

Lemma hb_note T w e :
  is_activity e = false -> (e = l_timer_close heartbeat -> unanswered_ping T (w_now w) (w_log w)) ->
  hb_inv T w -> hb_inv T (note e w).
Proof.
  intros Ha Hc [H1 H2 H3 H4 H5]. split; try done.
  - intros Hs. destruct (H4 Hs) as [Hd Hr].
    split; intros; apply unanswered_snoc; auto.
  - by apply closes_justified_snoc.
Qed.

Lemma hb_start_op T w o : hb_inv T w -> hb_inv T (start_op o w).
Proof. by apply hb_inv_ext. Qed.

Lemma hb_expires_after_other T w k d :
  k <> heartbeat -> hb_inv T w -> hb_inv T (expires_after_wait k d w).
Proof.
  intros Hk. apply hb_inv_ext. unfold hb_view, queued. simpl.
  by rewrite queued_aborted, decide_False by done.
Qed.

Lemma hb_cancel_other T w k : k <> heartbeat -> hb_inv T w -> hb_inv T (cancel k w).
Proof.
  intros Hk. apply hb_inv_ext. unfold hb_view, queued. simpl.
  by rewrite queued_aborted, decide_False by done.
Qed.

Lemma hb_reset_handshake T w : hb_inv T w -> hb_inv T (reset_handshake_timer w).
Proof.
  intros Hi. unfold reset_handshake_timer. split_match; [done|].
  apply hb_expires_after_other; [done|]. by apply (hb_inv_ext T w).
Qed.

Lemma hb_cancel_handshake T w : hb_inv T w -> hb_inv T (cancel_handshake_timer w).
Proof. intros Hi. unfold cancel_handshake_timer. split_match; [|done]. by apply hb_cancel_other. Qed.

(** What is left of the invariant while the countdowns restart. *)
Record hb_base (T : Z) w : Prop := {
  hbb_timeout : heartbeat_timeout_ (w_sock w) = T;
  hbb_one : (length (queued heartbeat w) <= 1)%nat;
  hbb_closes : closes_justified T (w_log w)
}.

Lemma hb_base_idle T w : hb_base T w -> hb_base T (reset_idle_timer w).
Proof.
  intros [H1 H2 H3]. unfold reset_idle_timer. split_match; [by split|].
  split; [done| |done]. unfold queued. simpl. by rewrite queued_aborted.
Qed.

Lemma hb_reset_heartbeat T w : 0 < T -> hb_base T w -> hb_inv T (reset_heartbeat_timer w).
Proof.
  intros HT [H1 H2 H3]. unfold reset_heartbeat_timer. rewrite H1, (proj2 (Z.eqb_neq T 0)) by lia.
  split; unfold queued; simpl; rewrite ?queued_aborted; try done.
  intros _ dl [= <-]. lia.
Qed.

Lemma hb_base_note T w e : is_activity e = true -> hb_inv T w -> hb_base T (note e w).
Proof.
  intros He [H1 H2 H3 H4 H5]. split; [done..|]. apply closes_justified_snoc; [done|].
  by intros ->.
Qed.

Lemma hb_base_cancel_handshake T w : hb_base T w -> hb_base T (cancel_handshake_timer w).
Proof.
  intros [H1 H2 H3]. unfold cancel_handshake_timer. split_match; [|by split].
  split; [done| |done]. unfold queued. simpl. by rewrite queued_aborted.
Qed.

Lemma hb_restart T w : 0 < T -> hb_base T w -> hb_inv T (restart_countdowns w).
Proof. intros HT Hb. by apply hb_reset_heartbeat, hb_base_idle. Qed.

Lemma hb_dequeue T w i : hb_inv T w -> hb_inv T (dequeue i w).
Proof.
  intros [H1 H2 H3 H4 H5].
  assert (queued heartbeat (dequeue i w) <> [] -> queued heartbeat w <> []) as Hq
    by (intros Hn E; by apply Hn, queued_dequeue).
  split; [done| |auto| |done].
  - pose proof (filter_delete_le (fun p => p = (heartbeat, false)) (w_ready w) i).
    unfold queued in *. simpl. lia.
  - intros Hs. destruct (H4 Hs). auto.
Qed.

Lemma send_ping_event w :
  async_send true MessageId_HbPing mkHbPingRequest w = note ping_event w.
Proof. reflexivity. Qed.

(** The handler of an expired heartbeat runs. *)
Lemma hb_run_heartbeat T w i :
  0 < T -> hb_inv T w -> w_ready w !! i = Some (heartbeat, false) ->
  hb_inv T (on_timer heartbeat false (dequeue i w)).
Proof.
  intros HT Hw Hi. pose proof (hb_dequeue T w i Hw) as Hd.
  pose proof (queued_hit _ _ _ Hi) as Hq. pose proof (hb_one _ _ Hw) as H1.
  assert (queued heartbeat (dequeue i w) = []) as Hnil by (apply nil_length_inv; lia).
  assert (queued heartbeat w <> []) as Hne by (by intros E; rewrite E in Hq).
  unfold on_timer. destruct (heartbeat_sent_ (w_sock (dequeue i w))) eqn:Es.
  - apply hb_note; [done| |done]. intros _. by apply (hb_sent _ _ Hw Es).
  - rewrite send_ping_event. destruct Hd as [G1 G2 G3 G4 G5].
    split; unfold queued; simpl; rewrite ?queued_aborted.
    + exact G1.
    + exact G2.
    + intros _ dl [= <-]. simpl in G1. lia.
    + intros _. split; [|by intros Hn; exfalso; apply Hn]. intros dl [= <-].
      eexists (w_log w), (w_now w), []. simpl in G1.
      split_and!; [done|lia|by constructor].
    + by apply closes_justified_snoc.
Qed.

Lemma hb_expire T w k dl :
  hb_inv T w -> w_armed w k = Some dl -> dl <= w_now w -> hb_inv T (disarm k w).
Proof.
  intros Hw Ek El. destruct (decide (k = heartbeat)) as [->|Hk].
  - assert (queued heartbeat w = []) as Hq.
    { destruct (queued heartbeat w) eqn:E; [done|].
      pose proof (hb_ready _ _ Hw ltac:(by rewrite E) _ Ek). lia. }
    destruct Hw as [H1 H2 H3 H4 H5].
    split; unfold queued; simpl; rewrite ?queued_snoc, ?Hq; simpl; try done; try lia.
    intros Hs. split; [done|]. intros _. apply (unanswered_le T dl); [done|]. by apply H4.
  - apply (hb_inv_ext T w); [|done]. unfold hb_view, queued; simpl.
    rewrite queued_snoc, !decide_False by naive_solver. by rewrite app_nil_r.
Qed.

Lemma hb_on_op T w o ec e :
  0 < T -> hb_inv T w -> hb_inv T (on_op o ec e (note (completed o (negb ec)) w)).
Proof.
  intros HT Hw. destruct (is_activity (completed o (negb ec))) eqn:Ea.
  - pose proof (hb_base_note _ _ _ Ea Hw) as Hb.
    destruct o, ec; try discriminate Ea; simpl in *; unfold on_handshake, on_read_done; simpl;
      (apply hb_note; [done..|]); apply hb_restart; try done.
    by apply hb_base_cancel_handshake.
  - assert (hb_inv T (note (completed o (negb ec)) w)) as Hn by (by apply hb_note; [|destruct o|]).
    destruct o, ec; try discriminate Ea; simpl in *;
      repeat first [by apply hb_start_op | apply hb_note; [done..|] | by apply hb_cancel_handshake
                   | by refine (hb_inv_ext T _ _ _ Hn) | done].
Qed.

Lemma hb_api T w c : 0 < T -> hb_inv T w -> hb_inv T (api c w).
Proof.
  intros HT Hw.
  destruct c; simpl;
    repeat first [apply hb_start_op | apply hb_note; [done..|] | apply hb_reset_handshake
                 | apply hb_restart; [done|] | by apply hb_base_note | done].
Qed.

Lemma hb_step T w l w' : 0 < T -> hb_inv T w -> timed_step l w = Some w' -> hb_inv T w'.
Proof.
  intros HT Hw Hs. destruct l as [d|k|i|i ec e|c].
  - apply tick_inv in Hs as (Hd & Hr & Ha & ->).
    assert (queued heartbeat w = []) as Hq by (unfold queued; by rewrite Hr).
    destruct Hw as [H1 H2 H3 H4 H5]. split; try done; unfold queued in *; simpl.
    intros Hs. by destruct (H4 Hs).
  - simpl in Hs. destruct (w_armed w k) as [dl|] eqn:Ek; [|done].
    destruct (dl <=? w_now w) eqn:El; [|done]. injection Hs as <-. apply Z.leb_le in El.
    apply hb_note; [done..|]. by eapply hb_expire.
  - simpl in Hs. destruct (w_ready w !! i) as [[k ec]|] eqn:Ei; [|done]. injection Hs as <-.
    destruct k, ec; try (by apply hb_dequeue); try (by apply hb_note; [..|apply hb_dequeue]).
    by apply hb_run_heartbeat.
  - simpl in Hs. destruct (w_ops w !! i) as [o|] eqn:Ei; [|done]. injection Hs as <-.
    apply hb_on_op; [done|]. by apply (hb_inv_ext T w).
  - injection Hs as <-. by apply hb_api.
Qed.

Lemma hb_run T ls w w' : 0 < T -> hb_inv T w -> timed_run ls w = Some w' -> hb_inv T w'.
Proof.
  intros HT. revert w. induction ls as [|l ls IH]; simpl; intros w Hw Hr; [by simplify_eq|].
  destruct (timed_step l w) as [w1|] eqn:E; [|done]. simpl in Hr.
  apply (IH w1); [|done]. by eapply hb_step.
Qed.

Lemma hb_new s : hb_inv (heartbeat_timeout_ s) (new_world (Callback := Callback) s).
Proof.
  split; simpl; try done; [unfold queued; simpl; lia|].
  intros before t after E. by destruct before.
Qed.
End heartbeat_proofs.

(** ** Deadlines: a timer that is armed fires in time *)
Section deadlines.
Context `{Schema} {BE : BoostEndian} {Callback : Type}.
Implicit Types w : world Callback.

(** The timer [k] will have closed the connection, or run its handler, by [b]. *)
Definition pending_by (k : timer_kind) (b : Z) w : Prop :=
  w_now w <= b /\
  (queued k w <> [] \/ exists dl, w_armed w k = Some dl /\ w_now w <= dl <= b).

Definition timer_view (k : timer_kind) w := (queued k w, w_armed w k, w_now w).

Lemma pending_ext k b w w' :
  timer_view k w' = timer_view k w -> pending_by k b w -> pending_by k b w'.
Proof. intros [= E1 E2 E3]. unfold pending_by. by rewrite E1, E2, E3. Qed.

Lemma pending_tick k b d w w' :
  timed_step (lb_tick d) w = Some w' -> pending_by k b w -> pending_by k b w'.
Proof.
  intros (Hd & Hr & Ha & ->)%tick_inv [Hb [Hq|(dl & Hk & Hdl)]].
  - by unfold queued in Hq; rewrite Hr in Hq.
  - pose proof (Ha _ _ Hk). split; simpl; [lia|]. right. exists dl. split; [done|lia].
Qed.

Lemma pending_expire k k' b w e :
  pending_by k b w -> pending_by k b (note e (disarm k' w)).
Proof.
  intros [Hb Hp]. split; [done|]. unfold queued. simpl. rewrite queued_snoc.
  destruct (decide (k' = k)) as [->|Hk].
  - left. rewrite decide_True by done. by intros [_ ?]%app_eq_nil.
  - rewrite !decide_False by naive_solver. by rewrite app_nil_r.
Qed.

Lemma view_expires_after k k' d w :
  k <> k' -> timer_view k (expires_after_wait k' d w) = timer_view k w.
Proof.
  intros Hk. unfold timer_view, queued. simpl. by rewrite queued_aborted, decide_False by done.
Qed.

Lemma view_cancel k k' w : k <> k' -> timer_view k (cancel k' w) = timer_view k w.
Proof.
  intros Hk. unfold timer_view, queued. simpl. by rewrite queued_aborted, decide_False by done.
Qed.

Lemma view_dequeue k p w i :
  w_ready w !! i = Some p -> p <> (k, false) -> timer_view k (dequeue i w) = timer_view k w.
Proof.
  intros Hi Hp. unfold timer_view, queued. simpl. do 2 f_equal.
  revert i Hi. induction (w_ready w) as [|x l IH]; intros [|i] Hi; simplify_eq/=.
  - by rewrite filter_cons_False.
  - rewrite !filter_cons. by rewrite (IH i).
Qed.

Lemma pending_rearm k d w : 0 < d -> pending_by k (w_now w + d) (expires_after_wait k d w).
Proof.
  intros Hd. split; simpl; [lia|]. right. exists (w_now w + d). rewrite decide_True by done.
  split; [done|lia].
Qed.

(** *** The log only grows *)

Lemma log_restart w : w_log (restart_countdowns w) = w_log w.
Proof. unfold restart_countdowns, reset_heartbeat_timer, reset_idle_timer. by repeat split_match. Qed.

Lemma log_reset_handshake w : w_log (reset_handshake_timer w) = w_log w.
Proof. unfold reset_handshake_timer. by split_match. Qed.

Lemma log_cancel_handshake w : w_log (cancel_handshake_timer w) = w_log w.
Proof. unfold cancel_handshake_timer. by split_match. Qed.

Lemma on_timer_log k ec w : w_log w `prefix_of` w_log (on_timer k ec w).
Proof. unfold on_timer. repeat split_match; simpl; try done; by eexists. Qed.

Lemma on_op_log o ec e w : w_log w `prefix_of` w_log (on_op o ec e w).
Proof.
  destruct o, ec; simpl; rewrite ?log_restart; simpl; rewrite ?log_cancel_handshake, <-?app_assoc;
    try done; by eexists.
Qed.

Lemma api_log c w : w_log w `prefix_of` w_log (api c w).
Proof. destruct c; simpl; rewrite ?log_restart, ?log_reset_handshake; try done; by eexists. Qed.

Lemma step_log l w w' : timed_step l w = Some w' -> w_log w `prefix_of` w_log w'.
Proof.
  destruct l as [d|k|i|i ec e|c]; intros Hs.
  - by apply tick_inv in Hs as (_ & _ & _ & ->).
  - simpl in Hs. repeat case_match; simplify_eq. by eexists.
  - simpl in Hs. destruct (w_ready w !! i) as [[k ec]|]; simplify_eq/=. apply (on_timer_log k ec (dequeue i w)).
  - simpl in Hs. destruct (w_ops w !! i) as [o|]; simplify_eq/=.
    etrans; [|apply (on_op_log _ _ _ (note (completed o (negb ec)) (finish_op i w)))]. by eexists.
  - injection Hs as <-. apply api_log.
Qed.

Lemma run_log ls w w' : timed_run ls w = Some w' -> w_log w `prefix_of` w_log w'.
Proof.
  revert w. induction ls as [|l ls IH]; simpl; intros w Hr; [by simplify_eq|].
  destruct (timed_step l w) as [w1|] eqn:E; [|done]. etrans; [by eapply step_log|by apply IH].
Qed.

(** The events after the first [n]. *)
Definition since (n : nat) w : list (Z * event Callback) := drop n (w_log w).

Lemma since_prefix n w w' :
  w_log w `prefix_of` w_log w' -> since n w `prefix_of` since n w'.
Proof. intros [l E]. unfold since. rewrite E, drop_app. by eexists. Qed.

(** An invariant of the steps whose events satisfy [P] holds after a run. *)
Lemma run_invariant (I : world Callback -> Prop) (P : Z * event Callback -> Prop) n ls w w' :
  (forall l w w', I w -> (n <= length (w_log w))%nat -> timed_step l w = Some w' ->
     Forall P (since n w') -> I w') ->
  I w -> (n <= length (w_log w))%nat -> timed_run ls w = Some w' -> Forall P (since n w') -> I w'.
Proof.
  intros Hstep. revert w. induction ls as [|l ls IH]; simpl; intros w Hw Hn Hr HP; [by simplify_eq|].
  destruct (timed_step l w) as [w1|] eqn:E; [|done]. simpl in Hr.
  pose proof (prefix_length _ _ (step_log _ _ _ E)).
  apply (IH w1); [|lia|done..]. eapply Hstep; [done..|].
  destruct (since_prefix n _ _ (run_log _ _ _ Hr)) as [x Hx]. rewrite Hx in HP.
  by apply Forall_app in HP as [HP _].
Qed.

Lemma since_snoc n e w :
  (n <= length (w_log w))%nat -> since n (note e w) = since n w ++ [(w_now w, e)].
Proof. intros Hn. unfold since. simpl. rewrite drop_app_le by done. done. Qed.
End deadlines.

Section watchdogs.
Context `{Schema} {BE : BoostEndian} {Callback : Type}.
Implicit Types w : world Callback.

(** The configuration of a socket in use does not change. *)
Definition config w : Z * Z * Z :=
  (idle_timeout_ (w_sock w), heartbeat_timeout_ (w_sock w), handshake_timeout_ (w_sock w)).

Lemma config_restart w : config (restart_countdowns w) = config w.
Proof. unfold restart_countdowns, reset_heartbeat_timer, reset_idle_timer. by repeat split_match. Qed.

Lemma config_reset_handshake w : config (reset_handshake_timer w) = config w.
Proof. unfold reset_handshake_timer. by split_match. Qed.

Lemma config_cancel_handshake w : config (cancel_handshake_timer w) = config w.
Proof. unfold cancel_handshake_timer. by split_match. Qed.

Lemma config_op o ec e w : config (on_op o ec e w) = config w.
Proof.
  destruct o as [h s cb|cb|ty cb|n cb], ec; try done.
  - apply (config_cancel_handshake w).
  - etrans; [apply (config_restart (cancel_handshake_timer w))|].
    apply config_cancel_handshake.
  - apply config_restart.
Qed.

Lemma config_api c w : config (api c w) = config w.
Proof.
  destruct c; try done; [apply (config_restart (note l_connect_start w))|].
  apply (config_reset_handshake (note l_handshake_start w)).
Qed.

Lemma config_step l w w' : timed_step l w = Some w' -> config w' = config w.
Proof.
  destruct l as [d|k|i|i ec e|c]; intros Hs.
  - by apply tick_inv in Hs as (_ & _ & _ & ->).
  - simpl in Hs. repeat case_match; by simplify_eq.
  - simpl in Hs. destruct (w_ready w !! i) as [[k ec]|]; simplify_eq/=.
    unfold on_timer. by repeat split_match.
  - simpl in Hs. destruct (w_ops w !! i); simplify_eq/=.
    apply (config_op _ _ _ (note _ (finish_op i w))).
  - injection Hs as <-. apply config_api.
Qed.

Lemma config_run ls w w' : timed_run ls w = Some w' -> config w' = config w.
Proof.
  revert w. induction ls as [|l ls IH]; simpl; intros w Hr; [by simplify_eq|].
  destruct (timed_step l w) as [w1|] eqn:E; [|done]. simpl in Hr.
  rewrite <-(config_step _ _ _ E). by apply IH.
Qed.

(** *** A silent peer *)

Definition hb_watch (T t0 : Z) (n : nat) w : Prop :=
  heartbeat_timeout_ (w_sock w) = T /\
  ((exists t, (t, l_timer_close heartbeat) ∈ since n w /\ t <= t0 + 2 * T) \/
   pending_by heartbeat (t0 + if heartbeat_sent_ (w_sock w) then 2 * T else T) w).

Definition silent : Z * event Callback -> Prop := fun p => is_activity p.2 = false.

(** An operation that completes without activity leaves the heartbeat alone. *)
Lemma hb_quiet_op o ec e w :
  is_activity (completed o (negb ec)) = false ->
  timer_view heartbeat (on_op o ec e w) = timer_view heartbeat w /\
  heartbeat_sent_ (w_sock (on_op o ec e w)) = heartbeat_sent_ (w_sock w).
Proof.
  intros Hq. destruct o as [h s cb|cb|ty cb|m cb], ec; try done.
  simpl. unfold on_handshake, cancel_handshake_timer. simpl. split_match; [|done].
  split; [|done]. by apply (view_cancel heartbeat handshake_deadline).
Qed.

(** What a step that ends in [w'] logged first, if it is silent. *)
Lemma silent_first n e w w' :
  (n <= length (w_log w))%nat -> w_log (note e w) `prefix_of` w_log w' ->
  Forall silent (since n w') -> is_activity e = false.
Proof.
  intros Hn Hp HF. destruct (since_prefix n _ _ Hp) as [x Hx].
  rewrite Hx, since_snoc, <-app_assoc in HF by done. apply Forall_app in HF as [_ HF].
  by apply Forall_cons in HF as [HF _].
Qed.

Lemma hb_quiet_api n c w :
  (n <= length (w_log w))%nat -> Forall silent (since n (api c w)) ->
  timer_view heartbeat (api c w) = timer_view heartbeat w /\
  heartbeat_sent_ (w_sock (api c w)) = heartbeat_sent_ (w_sock w).
Proof.
  intros Hn HF. destruct c as [h s cb|ty cb|m cb|]; try done.
  - exfalso. enough (is_activity (l_connect_start : event Callback) = false) by done.
    refine (silent_first n _ w _ Hn _ HF). simpl. by rewrite log_restart.
  - simpl. unfold async_handshake, reset_handshake_timer. simpl. split_match; [done|].
    split; [|done].
    by apply (view_expires_after heartbeat handshake_deadline (handshake_timeout_ (w_sock w))
                (with_sock (allocate_timer handshake_deadline) (note l_handshake_start w))).
Qed.

Lemma hb_watch_run T t0 n w i :
  0 < T -> w_ready w !! i = Some (heartbeat, false) -> (n <= length (w_log w))%nat ->
  hb_watch T t0 n w -> hb_watch T t0 n (on_timer heartbeat false (dequeue i w)).
Proof.
  intros HT Hi Hn [Hc Hw].
  destruct Hw as [(t & Ht & Hle)|[Hb _]].
  { split; [unfold on_timer; by repeat split_match|]. left. exists t. split; [|done].
    destruct (since_prefix n _ _ (on_timer_log heartbeat false (dequeue i w))) as [x Hx].
    rewrite Hx. apply elem_of_app. by left. }
  unfold on_timer. destruct (heartbeat_sent_ (w_sock (dequeue i w))) eqn:Es; simpl in Es;
    rewrite Es in Hb.
  - split; [done|]. left. exists (w_now w). rewrite since_snoc by done.
    split; [set_solver|done].
  - split; [done|]. right. simpl.
    match goal with |- pending_by _ _ (arm_heartbeat ?x) => set (w1 := x) end.
    destruct (pending_rearm heartbeat T w1 HT) as [Hb1 Hp1].
    assert (arm_heartbeat w1 = expires_after_wait heartbeat T w1) as Ea
      by (unfold arm_heartbeat; by rewrite <-Hc).
    rewrite Ea. split; simpl in *; [lia|]. destruct Hp1 as [Hq|(dl & Hdl & Hle)]; [by left|].
    right. exists dl. split; [done|]. simpl in *. lia.
Qed.

Lemma hb_watch_step T t0 n l w w' :
  0 < T -> hb_watch T t0 n w -> (n <= length (w_log w))%nat ->
  timed_step l w = Some w' -> Forall silent (since n w') -> hb_watch T t0 n w'.
Proof.
  intros HT [Hc Hw] Hn Hs HF.
  assert (heartbeat_timeout_ (w_sock w') = T) as Hc'.
  { rewrite <-Hc. by injection (config_step _ _ _ Hs). }
  destruct Hw as [(t & Ht & Hle)|Hp].
  { split; [done|]. left. exists t. split; [|done].
    destruct (since_prefix n _ _ (step_log _ _ _ Hs)) as [x Hx]. rewrite Hx. set_solver. }
  destruct l as [d|k|i|i ec e|c].
  - split; [done|]. right. pose proof (pending_tick _ _ _ _ _ Hs Hp) as Hp'.
    by apply tick_inv in Hs as (_ & _ & _ & ->).
  - split; [done|]. right. simpl in Hs. destruct (w_armed w k); [|done].
    destruct (_ <=? _); simplify_eq. by apply pending_expire.
  - simpl in Hs. destruct (w_ready w !! i) as [[k ec]|] eqn:Ei; simplify_eq/=.
    fold (dequeue i w) in *. destruct (decide ((k, ec) = (heartbeat, false))) as [[= -> ->]|Hk].
    + apply hb_watch_run; [done..|]. split; [done|]. by right.
    + split; [done|]. right. pose proof (view_dequeue heartbeat _ _ _ Ei Hk) as Ev.
      destruct k, ec; try done; by apply (pending_ext _ _ w).
  - simpl in Hs. destruct (w_ops w !! i) as [o|] eqn:Ei; simplify_eq/=.
    fold (finish_op i w) in *. set (w1 := note _ (finish_op i w)) in *.
    assert (is_activity (completed o (negb ec)) = false) as Hq
      by (apply (silent_first n _ (finish_op i w) _ Hn (on_op_log o ec e w1) HF)).
    destruct (hb_quiet_op o ec e w1 Hq) as [Ev Es].
    split; [done|]. right. rewrite Es. by apply (pending_ext _ _ w1).
  - injection Hs as <-. destruct (hb_quiet_api n c w Hn HF) as [Ev Es].
    split; [done|]. right. rewrite Es. by apply (pending_ext _ _ w).
Qed.

Lemma hb_watch_start T w :
  0 < T -> heartbeat_timeout_ (w_sock w) = T ->
  hb_watch T (w_now w) (length (w_log (restart_countdowns w))) (restart_countdowns w).
Proof.
  intros HT Hc. split; [by injection (config_restart w); rewrite Hc|]. right.
  unfold restart_countdowns, reset_heartbeat_timer.
  assert (heartbeat_timeout_ (w_sock (reset_idle_timer w)) = T) as Hc1
    by (unfold reset_idle_timer; by split_match).
  rewrite Hc1, (proj2 (Z.eqb_neq T 0)) by lia.
  set (w1 := with_sock _ _).
  assert (w_now w1 = w_now w) as En by (unfold w1, reset_idle_timer; simpl; by split_match).
  unfold arm_heartbeat. simpl. rewrite Hc1, <-En. by apply pending_rearm.
Qed.
(** A handshake that succeeds sets the heartbeat going. *)
Lemma hb_watch_handshake T ty cb i e w w' :
  0 < T -> heartbeat_timeout_ (w_sock w) = T -> w_ops w !! i = Some (op_handshake ty cb) ->
  timed_step (lb_op i false e) w = Some w' -> hb_watch T (w_now w) (length (w_log w')) w'.
Proof.
  intros HT Hc Ho Hs. simpl in Hs. rewrite Ho in Hs. simplify_eq/=. fold (finish_op i w).
  unfold on_handshake. cbn [negb]. set (w1 := cancel_handshake_timer _).
  assert (heartbeat_timeout_ (w_sock w1) = heartbeat_timeout_ (w_sock w) /\ w_now w1 = w_now w) as [HT1 Hn1]
    by (unfold w1, cancel_handshake_timer; by split_match).
  destruct (hb_watch_start _ w1 HT HT1) as [Hc1 [(t & Ht & _)|Hp]].
  { unfold since in Ht. rewrite drop_all in Ht. by apply not_elem_of_nil in Ht. }
  split; [done|]. right. rewrite <-Hn1. by apply (pending_ext _ _ (restart_countdowns w1)).
Qed.
End watchdogs.
