(* ===== verification/TimerProperties.v ===== *)
(** * What the socket's timers promise

    The idle and the handshake timer, on top of the lemmas of [SocketTimers], and
    the properties of the three timers: a connection is closed by a timer only
    after the silence the timer watches for, and a silent peer is closed in
    time. *)

From stdpp Require Import strings.
From S2P Require Import Prelude Endian Serialisation SocketBase Message SocketTimers.

(** ** The idle timer *)
Section idle_proofs.
Context `{Schema} {BE : BoostEndian} {Callback : Type}.
Implicit Types w : world Callback.
Implicit Types log : list (Z * event Callback).

(** Every activity in the log is at least [Ti] before [t]. *)
Definition quiet_for (Ti t : Z) log : Prop :=
  Forall (fun p => is_activity p.2 = true -> p.1 + Ti <= t) log.

(** The timer expired at [t], after [Ti] without activity; what happened after
    that happened at the same instant. *)
Definition idle_expired (Ti t : Z) log : Prop :=
  exists before since,
    log = before ++ (t, l_expired idle) :: since /\ quiet_for Ti t before /\
    Forall (fun p => p.1 = t) since.

Definition idle_closes (Ti : Z) log : Prop :=
  forall before t after,
    log = before ++ (t, l_timer_close idle) :: after -> idle_expired Ti t before.

Record idle_base (Ti : Z) w : Prop := {
  ib_timeout : idle_timeout_ (w_sock w) = Ti;
  ib_times : Forall (fun p => p.1 <= w_now w) (w_log w);
  ib_queued : queued idle w <> [] -> idle_expired Ti (w_now w) (w_log w);
  ib_closes : idle_closes Ti (w_log w)
}.

Definition idle_inv (Ti : Z) w : Prop :=
  idle_base Ti w /\ forall dl, w_armed w idle = Some dl -> quiet_for Ti dl (w_log w).

Definition idle_view w :=
  (idle_timeout_ (w_sock w), queued idle w, w_armed w idle, w_now w, w_log w).

Lemma idle_base_ext Ti w w' :
  (idle_timeout_ (w_sock w'), queued idle w', w_now w', w_log w') =
  (idle_timeout_ (w_sock w), queued idle w, w_now w, w_log w) ->
  idle_base Ti w -> idle_base Ti w'.
Proof. intros [= E1 E2 E3 E4] [H1 H2 H3 H4]. split; rewrite ?E1, ?E2, ?E3, ?E4; done. Qed.

Lemma idle_inv_ext Ti w w' : idle_view w' = idle_view w -> idle_inv Ti w -> idle_inv Ti w'.
Proof.
  intros [= E1 E2 E3 E4 E5] [Hb Ha]. split; [|by rewrite E3, E5].
  apply (idle_base_ext Ti w); congruence.
Qed.

Lemma idle_base_note Ti w e :
  (e = l_timer_close idle -> idle_expired Ti (w_now w) (w_log w)) ->
  idle_base Ti w -> idle_base Ti (note e w).
Proof.
  intros He [H1 H2 H3 H4]. split; simpl; [done|..].
  - apply Forall_app; split; [done|]. apply Forall_singleton. simpl. lia.
  - intros Hq. destruct (H3 Hq) as (b & s & -> & Hb & Hs).
    exists b, (s ++ [(w_now w, e)]). rewrite <-app_assoc. split_and!; [done..|].
    apply Forall_app; split; [done|]. by apply Forall_singleton.
  - intros before t after E. apply snoc_split in E as [(-> & <- & E)|(after' & -> & El)].
    + injection E as <- ->. by apply He.
    + by eapply H4.
Qed.

Lemma idle_note Ti w e :
  is_activity e = false -> (e = l_timer_close idle -> idle_expired Ti (w_now w) (w_log w)) ->
  idle_inv Ti w -> idle_inv Ti (note e w).
Proof.
  intros Ha He [Hb Hq]. split; [by apply idle_base_note|]. intros dl Hdl. simpl.
  apply Forall_app; split; [by apply Hq|]. apply Forall_singleton. simpl. by rewrite Ha.
Qed.

Lemma idle_other_timer Ti k d w :
  k <> idle -> idle_inv Ti w -> idle_inv Ti (expires_after_wait k d w).
Proof.
  intros Hk. apply idle_inv_ext. unfold idle_view, queued. simpl.
  by rewrite queued_aborted, decide_False by congruence.
Qed.

Lemma idle_other_cancel Ti k w : k <> idle -> idle_inv Ti w -> idle_inv Ti (cancel k w).
Proof.
  intros Hk. apply idle_inv_ext. unfold idle_view, queued. simpl.
  by rewrite queued_aborted, decide_False by congruence.
Qed.

Lemma idle_reset_handshake Ti w : idle_inv Ti w -> idle_inv Ti (reset_handshake_timer w).
Proof.
  intros Hi. unfold reset_handshake_timer. split_match; [done|].
  apply idle_other_timer; [done|]. by apply (idle_inv_ext Ti w).
Qed.

Lemma idle_cancel_handshake Ti w : idle_inv Ti w -> idle_inv Ti (cancel_handshake_timer w).
Proof. intros Hi. unfold cancel_handshake_timer. split_match; [|done]. by apply idle_other_cancel. Qed.

Lemma idle_reset_heartbeat Ti w : idle_inv Ti w -> idle_inv Ti (reset_heartbeat_timer w).
Proof.
  intros Hi. unfold reset_heartbeat_timer. split_match; [done|].
  apply idle_other_timer; [done|]. by apply (idle_inv_ext Ti w).
Qed.

Lemma idle_reset_idle Ti w : 0 < Ti -> idle_base Ti w -> idle_inv Ti (reset_idle_timer w).
Proof.
  intros HT Hb. pose proof (ib_timeout _ _ Hb) as Hc. unfold reset_idle_timer.
  rewrite Hc, (proj2 (Z.eqb_neq Ti 0)) by lia. split.
  - apply (idle_base_ext Ti w); [|done]. unfold queued. simpl. by rewrite queued_aborted.
  - simpl. intros dl [= <-]. apply (Forall_impl _ _ _ (ib_times _ _ Hb)). simpl. intros p Hp _. lia.
Qed.

Lemma idle_restart Ti w : 0 < Ti -> idle_base Ti w -> idle_inv Ti (restart_countdowns w).
Proof. intros HT Hb. by apply idle_reset_heartbeat, idle_reset_idle. Qed.

Lemma idle_base_cancel_handshake Ti w : idle_base Ti w -> idle_base Ti (cancel_handshake_timer w).
Proof.
  intros Hb. unfold cancel_handshake_timer. split_match; [|done].
  apply (idle_base_ext Ti w); [|done]. unfold queued. simpl. by rewrite queued_aborted.
Qed.

Lemma idle_on_op Ti w o ec e :
  0 < Ti -> idle_inv Ti w -> idle_inv Ti (on_op o ec e (note (completed o (negb ec)) w)).
Proof.
  intros HT Hw. destruct (is_activity (completed o (negb ec))) eqn:Ea.
  - assert (idle_base Ti (note (completed o (negb ec)) w)) as Hb
      by (apply idle_base_note; [by destruct o|by destruct Hw]).
    destruct o, ec; try discriminate Ea; simpl in *; unfold on_handshake, on_read_done; simpl;
      (apply idle_note; [done..|]); apply idle_restart; try done.
    by apply idle_base_cancel_handshake.
  - assert (idle_inv Ti (note (completed o (negb ec)) w)) as Hn
      by (apply idle_note; [done|by destruct o|done]).
    destruct o, ec; try discriminate Ea;
      unfold on_op, on_resolved, on_connected, on_handshake, on_read_done, negb in *;
      repeat first [exact Hn | by refine (idle_inv_ext Ti _ _ _ Hn) | apply idle_note; [done..|]
                   | apply idle_cancel_handshake].
Qed.

Lemma idle_dequeue Ti w i : idle_inv Ti w -> idle_inv Ti (dequeue i w).
Proof.
  intros [[H1 H2 H3 H4] Ha]. split; [|done]. split; try done.
  intros Hq. apply H3. intros E. by apply Hq, queued_dequeue.
Qed.

Lemma idle_expire Ti w k dl :
  idle_inv Ti w -> w_armed w k = Some dl -> dl <= w_now w ->
  idle_inv Ti (note (l_expired k) (disarm k w)).
Proof.
  intros Hw Ek Hle. destruct (decide (k = idle)) as [->|Hk].
  - pose proof Hw as [[H1 H2 H3 H4] Ha]. split; [|done].
    split; simpl; [done|..].
    + apply Forall_app; split; [done|]. apply Forall_singleton. simpl. lia.
    + intros _. exists (w_log w), []. split_and!; [done| |constructor].
      apply (Forall_impl _ _ _ (Ha _ Ek)). intros p Hp Hact. specialize (Hp Hact). lia.
    + intros before t after E. apply snoc_split in E as [(-> & <- & E)|(after' & -> & El)]; [done|].
      by eapply H4.
  - apply idle_note; [done..|]. apply (idle_inv_ext Ti w); [|done]. unfold idle_view, queued; simpl.
    rewrite queued_snoc, !decide_False by naive_solver. by rewrite app_nil_r.
Qed.

Lemma idle_run_timer Ti w i k ec :
  idle_inv Ti w -> w_ready w !! i = Some (k, ec) -> idle_inv Ti (on_timer k ec (dequeue i w)).
Proof.
  intros Hw Hi. pose proof (idle_dequeue Ti w i Hw) as Hd.
  destruct k, ec; try done; unfold on_timer, negb; try (by apply idle_note).
  - apply idle_note; [done| |done]. intros _. apply (ib_queued _ _ (proj1 Hw)).
    intros E. pose proof (queued_hit _ _ _ Hi) as Hq. by rewrite E in Hq.
  - destruct (heartbeat_sent_ _); [by apply idle_note|].
    rewrite send_ping_event. apply idle_other_timer; [done|].
    apply (idle_inv_ext Ti (note ping_event (dequeue i w))); [done|]. by apply idle_note.
Qed.

Lemma idle_step Ti w l w' : 0 < Ti -> idle_inv Ti w -> timed_step l w = Some w' -> idle_inv Ti w'.
Proof.
  intros HT Hw Hs. destruct l as [d|k|i|i ec e|c].
  - apply tick_inv in Hs as (Hd & Hr & _ & ->). destruct Hw as [[H1 H2 H3 H4] Ha].
    split; [|done]. split; try done; simpl.
    + apply (Forall_impl _ _ _ H2). intros p Hp. lia.
    + unfold queued. simpl. by rewrite Hr.
  - simpl in Hs. destruct (w_armed w k) as [dl|] eqn:Ek; [|done].
    destruct (dl <=? w_now w) eqn:El; [|done]. injection Hs as <-. apply Z.leb_le in El.
    by eapply idle_expire.
  - simpl in Hs. destruct (w_ready w !! i) as [[k ec]|] eqn:Ei; [|done]. injection Hs as <-.
    by apply idle_run_timer.
  - simpl in Hs. destruct (w_ops w !! i) as [o|] eqn:Ei; [|done]. injection Hs as <-.
    fold (finish_op i w). apply idle_on_op; [done|]. by apply (idle_inv_ext Ti w).
  - injection Hs as <-.
    destruct c; unfold api, async_connect, async_handshake, close, tcp_async_read.
    + apply (idle_inv_ext Ti (restart_countdowns (note l_connect_start w))); [done|].
      apply idle_restart; [done|]. apply idle_base_note; [done|]. by destruct Hw.
    + apply (idle_inv_ext Ti (reset_handshake_timer (note l_handshake_start w))); [done|].
      by apply idle_reset_handshake, idle_note.
    + by apply (idle_inv_ext Ti w).
    + by apply idle_note.
Qed.

Lemma idle_run Ti ls w w' : 0 < Ti -> idle_inv Ti w -> timed_run ls w = Some w' -> idle_inv Ti w'.
Proof.
  intros HT. revert w. induction ls as [|l ls IH]; simpl; intros w Hw Hr; [by simplify_eq|].
  destruct (timed_step l w) as [w1|] eqn:E; [|done]. simpl in Hr.
  apply (IH w1); [|done]. by eapply idle_step.
Qed.

Lemma idle_new s : idle_inv (idle_timeout_ s) (new_world (Callback := Callback) s).
Proof.
  split; [split|]; simpl; try done.
  intros before t after E. by destruct before.
Qed.
End idle_proofs.

(** ** The handshake timer *)
Section handshake_proofs.
Context `{Schema} {BE : BoostEndian} {Callback : Type}.
Implicit Types w : world Callback.

Definition hs_watch (b : Z) (n : nat) w : Prop :=
  (exists t, (t, l_timer_close handshake_deadline) ∈ since n w /\ t <= b) \/
  pending_by handshake_deadline b w.

(** No handshake starts and none completes. *)
Definition handshaking : Z * event Callback -> Prop :=
  fun p => p.2 <> l_handshake_start /\ forall ok, p.2 <> l_handshake_done ok.

Lemma view_restart w :
  timer_view handshake_deadline (restart_countdowns w) = timer_view handshake_deadline w.
Proof.
  unfold restart_countdowns, reset_heartbeat_timer, arm_heartbeat.
  assert (timer_view handshake_deadline (reset_idle_timer w) =
          timer_view handshake_deadline w) as E.
  { unfold reset_idle_timer. split_match; [done|]. by rewrite view_expires_after. }
  split_match; [done|]. by rewrite view_expires_after.
Qed.

Lemma hs_quiet_op o ec e w :
  (forall ok, completed o (negb ec) <> l_handshake_done ok) ->
  timer_view handshake_deadline (on_op o ec e w) = timer_view handshake_deadline w.
Proof.
  intros Hq. destruct o as [h s cb|cb|ty cb|m cb]; simpl.
  - by destruct ec.
  - by destruct ec.
  - by destruct (Hq (negb ec)).
  - unfold on_read_done. destruct ec; [done|]. apply view_restart.
Qed.

Lemma hs_quiet_api n c w :
  (n <= length (w_log w))%nat -> Forall handshaking (since n (api c w)) ->
  timer_view handshake_deadline (api c w) = timer_view handshake_deadline w.
Proof.
  intros Hn HF. destruct c as [h s cb|ty cb|m cb|]; simpl; try done.
  - apply (view_restart (note l_connect_start w)).
  - exfalso. simpl in HF. unfold since, async_handshake in HF. simpl in HF.
    rewrite log_reset_handshake in HF. simpl in HF. rewrite drop_app_le in HF by done.
    apply Forall_app in HF as [_ HF]. apply Forall_cons in HF as [[HF _] _]. done.
Qed.

Lemma hs_watch_step b n l w w' :
  hs_watch b n w -> (n <= length (w_log w))%nat ->
  timed_step l w = Some w' -> Forall handshaking (since n w') -> hs_watch b n w'.
Proof.
  intros [(t & Ht & Hle)|Hp] Hn Hs HF.
  { left. exists t. split; [|done].
    destruct (since_prefix n _ _ (step_log _ _ _ Hs)) as [x Hx]. rewrite Hx. set_solver. }
  destruct l as [d|k|i|i ec e|c].
  - right. by eapply pending_tick.
  - right. simpl in Hs. destruct (w_armed w k); [|done]. destruct (_ <=? _); simplify_eq.
    by apply pending_expire.
  - simpl in Hs. destruct (w_ready w !! i) as [[k ec]|] eqn:Ei; simplify_eq/=.
    fold (dequeue i w) in *.
    destruct (decide ((k, ec) = (handshake_deadline, false))) as [[= -> ->]|Hk].
    + left. exists (w_now w). destruct Hp as [Hb _]. unfold on_timer, negb.
      rewrite since_snoc by done.
      split; [set_solver|done].
    + right. pose proof (view_dequeue handshake_deadline _ _ _ Ei Hk) as Ev.
      destruct k, ec; try done; try (by apply (pending_ext _ _ w)).
      unfold on_timer. destruct (heartbeat_sent_ _); [by apply (pending_ext _ _ w)|].
      apply (pending_ext _ _ w); [|done]. unfold arm_heartbeat. by rewrite view_expires_after.
  - simpl in Hs. destruct (w_ops w !! i) as [o|] eqn:Ei; simplify_eq/=.
    right. fold (finish_op i w) in *. set (w1 := note _ (finish_op i w)) in *.
    apply (pending_ext _ _ w1); [|done]. apply hs_quiet_op.
    destruct (since_prefix n _ _ (on_op_log o ec e w1)) as [x Hx].
    unfold w1 in Hx at 2. rewrite Hx, since_snoc, <-app_assoc in HF by done.
    apply Forall_app in HF as [_ HF]. by apply Forall_cons in HF as [[_ HF] _].
  - injection Hs as <-. right. apply (pending_ext _ _ w); [|done]. by apply (hs_quiet_api n).
Qed.

Lemma hs_watch_start ty cb n w :
  0 < handshake_timeout_ (w_sock w) ->
  hs_watch (w_now w + handshake_timeout_ (w_sock w)) n (async_handshake ty cb w).
Proof.
  intros HT. right. unfold async_handshake, reset_handshake_timer. simpl.
  rewrite (proj2 (Z.eqb_neq _ 0)) by lia.
  apply (pending_rearm handshake_deadline (handshake_timeout_ (w_sock w))
           (with_sock (allocate_timer handshake_deadline) (note l_handshake_start w))). done.
Qed.
End handshake_proofs.

(** ** Properties *)

(** C18 The heartbeat closes a connection only when a ping went unanswered: in
    every run of a socket with a heartbeat, before each close by the heartbeat
    timer at [t] there is a ping written at least one timeout before [t], and
    between the two no connection was begun, no handshake succeeded and no read
    completed. *)
Theorem heartbeat_close_justified `{Schema} {BE : BoostEndian} {Callback : Type}
    (s : tcp_socket) (ls : list (label Callback)) (w : world Callback) before t after :
  0 < heartbeat_timeout_ s -> timed_run ls (new_world s) = Some w ->
  w_log w = before ++ (t, l_timer_close heartbeat) :: after ->
  exists before' tp since,
    before = before' ++ (tp, ping_event) :: since /\
    tp + heartbeat_timeout_ s <= t /\ no_activity since.
Proof.
  intros HT Hr Hl. pose proof (hb_run _ _ _ _ HT (hb_new s) Hr) as Hi.
  by apply (hb_closes _ _ Hi _ _ _ Hl).
Qed.

(** C19 The heartbeat finds a dead peer: from a restart of the countdowns at [t0]
    on, as long as no connection is begun, no handshake succeeds and no read
    completes, time does not pass [t0 + 2 * heartbeat_timeout] before
    the heartbeat timer has closed the connection. *)
Theorem silent_peer_closed `{Schema} {BE : BoostEndian} {Callback : Type}
    (w w' : world Callback) (ls : list (label Callback)) :
  let T := heartbeat_timeout_ (w_sock w) in
  let n := length (w_log (restart_countdowns w)) in
  0 < T -> timed_run ls (restart_countdowns w) = Some w' ->
  Forall (fun p => is_activity p.2 = false) (since n w') ->
  w_now w' <= w_now w + 2 * T \/
  exists t, (t, l_timer_close heartbeat) ∈ since n w' /\ t <= w_now w + 2 * T.
Proof.
  intros T n HT Hr HF.
  assert (hb_watch T (w_now w) n w') as [_ [Hc|[Hb _]]]; [|by right|].
  - eapply (run_invariant (hb_watch T (w_now w) n) silent n); [|..|exact Hr|exact HF].
    + intros l w1 w2 Hw Hn Hs HF'. by eapply hb_watch_step.
    + by apply hb_watch_start.
    + done.
  - left. destruct (heartbeat_sent_ _); lia.
Qed.

(** C20 The idle timer closes only idle connections: before each close by the
    idle timer at [t] the timer expired at [t], and every read that completed,
    every handshake that succeeded and every connection begun before that expiry
    is at least one timeout older; what came between the expiry and the
    close came at the same instant. *)
Theorem idle_close_justified `{Schema} {BE : BoostEndian} {Callback : Type}
    (s : tcp_socket) (ls : list (label Callback)) (w : world Callback) before t after :
  0 < idle_timeout_ s -> timed_run ls (new_world s) = Some w ->
  w_log w = before ++ (t, l_timer_close idle) :: after ->
  exists before' since,
    before = before' ++ (t, l_expired idle) :: since /\
    Forall (fun p => is_activity p.2 = true -> p.1 + idle_timeout_ s <= t) before' /\
    Forall (fun p => p.1 = t) since.
Proof.
  intros HT Hr Hl. pose proof (idle_run _ _ _ _ HT (idle_new s) Hr) as [Hb _].
  by apply (ib_closes _ _ Hb _ _ _ Hl).
Qed.

(** C21 A stalled handshake is cut off: after [async_handshake] at [t0], as long
    as no handshake completes and no other one is started, time does not pass
    [t0 + handshake_timeout] before the handshake timer has closed the
    connection. *)
Theorem handshake_deadline_enforced `{Schema} {BE : BoostEndian} {Callback : Type}
    (w w' : world Callback) (ty : handshake_type) (cb : Callback) (ls : list (label Callback)) :
  let T := handshake_timeout_ (w_sock w) in
  let w0 := async_handshake ty cb w in
  let n := length (w_log w0) in
  0 < T -> timed_run ls w0 = Some w' ->
  Forall (fun p => p.2 <> l_handshake_start /\ forall ok, p.2 <> l_handshake_done ok) (since n w') ->
  w_now w' <= w_now w + T \/
  exists t, (t, l_timer_close handshake_deadline) ∈ since n w' /\ t <= w_now w + T.
Proof.
  intros T w0 n HT Hr HF.
  assert (hs_watch (w_now w + T) n w') as [Hc|[Hb _]]; [|by right|by left].
  eapply (run_invariant (hs_watch (w_now w + T) n) handshaking n); [|..|exact Hr|exact HF].
  - intros l w1 w2 Hw Hn Hs HF'. by eapply hs_watch_step.
  - by apply hs_watch_start.
  - done.
Qed.

Module TimerWitness.
Export ToyCodec.
#[export] Instance little : BoostEndian := boost_endian_on order_little.

(** Idle after 10, ping after 3, at most 5 for the handshake. *)
Definition configured : tcp_socket :=
  set_handshake_timeout 5 (set_heartbeat_timeout 3 (set_idle_timeout 10 new_tcp_socket)).

(** A peer that reads nothing: the ping at 3, the close at 6. *)
Definition silent_run : list (label nat) :=
  [lb_tick 3; lb_expire heartbeat; lb_run 0; lb_tick 3; lb_expire heartbeat; lb_run 0].

Definition start_world : world nat := new_world configured.

(** A read outstanding while the countdown ends: it completes at the same
    instant. *)
Definition racing_run : list (label nat) :=
  [lb_api (call_read 8 7%nat); lb_api (call_read 8 7%nat); lb_op 0 false default_endpoint;
   lb_tick 10; lb_expire idle; lb_op 0 false default_endpoint; lb_run 0].

Definition idle_only : tcp_socket := set_idle_timeout 10 new_tcp_socket.
End TimerWitness.

Section timer_witnesses.
Import TimerWitness.

Lemma heartbeat_close_justified_witness :
  exists w before after,
    timed_run (lb_api (call_connect "h" "s" 0%nat) :: silent_run) start_world = Some w /\
    w_log w = before ++ (6, l_timer_close heartbeat) :: after /\
    exists before' tp since,
      before = before' ++ (tp, ping_event) :: since /\ tp + 3 <= 6 /\ no_activity since.
Proof.
  eexists _, [_; _; _; _], []. split; [vm_compute; reflexivity|]. split; [reflexivity|].
  eapply (heartbeat_close_justified configured
            (lb_api (call_connect "h" "s" 0%nat) :: silent_run)); [done|vm_compute; reflexivity|].
  reflexivity.
Defined.

Lemma silent_peer_closed_witness :
  exists w', timed_run silent_run (restart_countdowns start_world) = Some w' /\
    (w_now w' <= 0 + 2 * 3 \/
     exists t, (t, l_timer_close heartbeat) ∈ since 0 w' /\ t <= 0 + 2 * 3).
Proof.
  eexists. split; [vm_compute; reflexivity|].
  eapply (silent_peer_closed start_world _ silent_run); [done|vm_compute; reflexivity|].
  repeat constructor; done.
Defined.

Lemma idle_close_justified_witness :
  exists w before after,
    timed_run [lb_api (call_connect "h" "s" 0%nat); lb_tick 10; lb_expire idle; lb_run 0]
      (new_world idle_only) = Some w /\
    w_log w = before ++ (10, l_timer_close idle) :: after /\
    exists before' since,
      before = before' ++ (10, l_expired idle) :: since /\
      Forall (fun p => is_activity p.2 = true -> p.1 + 10 <= 10) before' /\
      Forall (fun p => p.1 = 10) since.
Proof.
  eexists _, [_; _], []. split; [vm_compute; reflexivity|]. split; [reflexivity|].
  eapply (idle_close_justified idle_only
    [lb_api (call_connect "h" "s" 0%nat); lb_tick 10; lb_expire idle; lb_run 0]);
    [done|vm_compute; reflexivity|]. reflexivity.
Defined.

Lemma handshake_deadline_enforced_witness :
  exists w',
    timed_run [lb_tick 5; lb_expire handshake_deadline; lb_run 0; lb_tick 1]
      (async_handshake server 0%nat start_world) = Some w' /\ w_now w' = 6 /\
    (w_now w' <= 0 + 5 \/
     exists t, (t, l_timer_close handshake_deadline) ∈ since 1 w' /\ t <= 0 + 5).
Proof.
  eexists. split; [vm_compute; reflexivity|]. split; [reflexivity|].
  eapply (handshake_deadline_enforced start_world _ server 0%nat
            [lb_tick 5; lb_expire handshake_deadline; lb_run 0; lb_tick 1]);
    [done|vm_compute; reflexivity|].
  repeat constructor; done.
Defined.

(** The window left between an expiry and its handler: there is a run in
    which a read completes, its callback is called and the idle countdown is
    restarted, and the idle timer closes the connection at that same instant,
    because a wait that has already expired is not cancelled by
    [expires_after]. *)
Theorem idle_timer_race :
  exists w before,
    timed_run racing_run (new_world idle_only) = Some w /\
    w_log w = before ++ [(10, l_read_done true); (10, l_called 7%nat true); (10, l_timer_close idle)] /\
    w_armed w idle = Some 20.
Proof.
  eexists _, _. split; [vm_compute; reflexivity|]. split; [|reflexivity].
  exact (eq_refl ([_; _; _] ++ _)).
Qed.

(** The heartbeat runs before the handshake: [async_connect] arms it, so
    there is a run in which a ping is written to the connection although no
    handshake was started. *)
Theorem heartbeat_before_handshake :
  exists ls (w : world nat),
    timed_run ls start_world = Some w /\
    (3, ping_event) ∈ w_log w /\
    Forall (fun p => p.2 <> l_handshake_start /\ p.2 <> l_handshake_done true) (w_log w).
Proof.
  eexists [lb_api (call_connect "h" "s" 0%nat); lb_tick 3; lb_expire heartbeat; lb_run 0], _.
  split; [vm_compute; reflexivity|]. split; [apply list_elem_of_In; simpl; auto|].
  repeat constructor; done.
Qed.
End timer_witnesses.
