(* ===== verification/Lifetime.v ===== *)
(** * The lifetime of a session ([shared_ptr], captures and destructors)

    A [session] lives as long as a [shared_ptr] to it exists: the manager's
    registry holds one, users may, and a lambda that captured one does until it has
    run.  Which lambda captures what is read off the sources: [captures] for the
    callbacks of the managers and of the session, [op_captures], [timer_captures]
    and [write_captures] for the socket's own completion handlers, which hold a
    plain [this] and, for a connect, a handshake or a read, the callback they were
    given.  [owned] looks for a [shared_ptr] in the lambdas that Asio holds.  The
    destructor of the session closes the socket and destroys it with its timers
    and its stream.

    The socket is the world of SocketTimers.v; of the write queue only its length
    matters here.  Each run of a handler is recorded as a use of the object,
    together with whether the object was still alive.  The callbacks that a user
    gives to [session::async_connect] of a session without a manager are not
    modelled: what they capture is the user's choice. *)

From stdpp Require Import strings.
From S2P Require Import Prelude Endian Serialisation SocketBase Message SocketTimers.

(** The callbacks given to the socket.  Those of [do_connect] carry an optional
    reconnect state ([policy]); [session_manager::connect] gives the same ones,
    without. *)
Inductive session_cb : Type :=
| cb_connected (policy : bool)
| cb_handshaken (policy : bool)
| cb_accepted                       (* add_session *)
| cb_frame_size                     (* read_frame_size, read_header, read_body *)
| cb_header
| cb_body.

(** ** What the lambdas capture *)

Inductive pointer : Type :=
| raw_socket                        (* [this] of boost_tcp_socket *)
| raw_manager                       (* [this] of a session_manager *)
| shared_session                    (* sess, or shared_from_this() *)
| shared_buffer                     (* the frame size, header or body that is read *)
| shared_resolver.

(** [do_connect] and [connect]: [this, sess]; [add_session]: [this, sess]; the reads
    of the session: [self = shared_from_this()] and what is read into. *)
Definition dial_captures : list pointer := [raw_manager; shared_session].
Definition accept_captures : list pointer := [raw_manager; shared_session].
Definition read_captures : list pointer := [shared_session; shared_buffer].

Definition captures (cb : session_cb) : list pointer :=
  match cb with
  | cb_connected _ | cb_handshaken _ => dial_captures
  | cb_accepted => accept_captures
  | cb_frame_size | cb_header | cb_body => read_captures
  end.

(** The completion handlers of [boost_tcp_socket]: [this] and the callback given. *)
Definition op_captures (o : async_op session_cb) : list pointer :=
  match o with
  | op_resolve _ _ cb => [raw_socket] ++ captures cb ++ [shared_resolver]
  | op_connect cb | op_handshake _ cb | op_read _ cb => [raw_socket] ++ captures cb
  end.

Definition timer_captures (k : timer_kind) : list pointer :=
  match k with idle | heartbeat | handshake_deadline => [raw_socket] end.

Definition write_captures : list pointer := [raw_socket].

(** The handlers that use the object behind [this]. *)
Inductive user_of : Type :=
| u_op (o : async_op session_cb)
| u_timer (k : timer_kind)
| u_write.

Record life := mkLife {
  lf_world : world session_cb;
  lf_managed : bool;               (* manager_ != nullptr *)
  lf_stopped : bool;               (* reconnect_stopped_ *)
  lf_registered : bool;            (* sessions_ has a shared_ptr *)
  lf_handles : nat;                (* shared_ptrs of users *)
  lf_writes : nat;                 (* write_queue_.size(); the front is with Asio *)
  lf_thrown : bool;                (* register_and_start threw *)
  lf_alive : bool;
  lf_uses : list (user_of * bool)
}.

Definition upd_world (w : world session_cb) (l : life) : life :=
  mkLife w (lf_managed l) (lf_stopped l) (lf_registered l) (lf_handles l) (lf_writes l) (lf_thrown l)
    (lf_alive l) (lf_uses l).
Definition set_stopped (l : life) : life :=
  mkLife (lf_world l) (lf_managed l) true (lf_registered l) (lf_handles l) (lf_writes l) (lf_thrown l)
    (lf_alive l) (lf_uses l).
Definition set_registered (b : bool) (l : life) : life :=
  mkLife (lf_world l) (lf_managed l) (lf_stopped l) b (lf_handles l) (lf_writes l) (lf_thrown l)
    (lf_alive l) (lf_uses l).
Definition set_handles (n : nat) (l : life) : life :=
  mkLife (lf_world l) (lf_managed l) (lf_stopped l) (lf_registered l) n (lf_writes l) (lf_thrown l)
    (lf_alive l) (lf_uses l).
Definition set_writes (n : nat) (l : life) : life :=
  mkLife (lf_world l) (lf_managed l) (lf_stopped l) (lf_registered l) (lf_handles l) n (lf_thrown l)
    (lf_alive l) (lf_uses l).
Definition set_thrown (l : life) : life :=
  mkLife (lf_world l) (lf_managed l) (lf_stopped l) (lf_registered l) (lf_handles l) (lf_writes l) true
    (lf_alive l) (lf_uses l).
Definition use (u : user_of) (l : life) : life :=
  mkLife (lf_world l) (lf_managed l) (lf_stopped l) (lf_registered l) (lf_handles l) (lf_writes l)
    (lf_thrown l) (lf_alive l) (lf_uses l ++ [(u, lf_alive l)]).

(** Timers whose wait is outstanding, or whose handler is queued. *)
Definition waited (w : world session_cb) : list timer_kind :=
  filter (fun k => is_Some (w_armed w k)) [idle; heartbeat; handshake_deadline] ++ (w_ready w).*1.

(** All that the lambdas held by Asio have captured. *)
Definition pointers (l : life) : list pointer :=
  concat (op_captures <$> w_ops (lf_world l)) ++
  concat (timer_captures <$> waited (lf_world l)) ++
  (if (0 <? lf_writes l)%nat then write_captures else []).

Definition is_shared_session (p : pointer) : bool :=
  match p with shared_session => true | _ => false end.

(** Whether some [shared_ptr] to the session exists. *)
Definition owned (l : life) : bool :=
  lf_registered l || existsb is_shared_session (pointers l) || (0 <? lf_handles l)%nat.

Section code.
Context `{Schema} {BE : BoostEndian}.

(** Destroying a timer cancels its wait. *)
Definition destroy_timer (k : timer_kind) (w : world session_cb) : world session_cb :=
  SocketTimers.cancel k w.

(** [session::~session], and the destructor of the socket it owns: the queue goes
    with it, an operation of [write_next] stays with Asio until it has completed. *)
Definition destroy (l : life) : life :=
  let w := close (lf_world l) in
  let w := destroy_timer handshake_deadline (destroy_timer heartbeat (destroy_timer idle w)) in
  mkLife w (lf_managed l) (lf_stopped l) (lf_registered l) (lf_handles l) (lf_writes l) (lf_thrown l)
    false (lf_uses l).

(** A [shared_ptr] was given up: the last one destroys the object. *)
Definition release (l : life) : life := if lf_alive l && negb (owned l) then destroy l else l.

(** [boost_tcp_socket::async_write]: the bound on the queue. *)
Definition enqueue (l : life) : life :=
  let cap := tcp_max_pending_writes_ (w_sock (lf_world l)) in
  if negb (cap =? 0) && (Z.of_nat (lf_writes l) >=? cap) then l else set_writes (S (lf_writes l)) l.

(** The writes that a handler of a timer started. *)
Definition is_write (p : Z * event session_cb) : bool :=
  match p.2 with l_write _ _ => true | _ => false end.

Definition writes_since (n : nat) (w : world session_cb) : nat :=
  length (filter (fun p => is_write p = true) (drop n (w_log w))).

(** [session::on_error]: [remove_session], or [stop]. *)
Definition life_on_error (l : life) : life :=
  if lf_managed l then set_registered false l else upd_world (close (lf_world l)) l.

(** [register_and_start]: [ipv4_address] throws for an IPv6 peer, after the
    [push_back]. *)
Definition life_register_and_start (l : life) : life :=
  let l := set_registered true l in
  match address (remote_endpoint_ (w_sock (lf_world l))) with
  | address_v4 _ => upd_world (tcp_async_read 8 cb_frame_size (lf_world l)) l
  | address_v6 _ => set_thrown l
  end.

(** The handler of [async_connect], and that of [async_handshake], of a dial. *)
Definition life_connected (policy connected : bool) (l : life) : life :=
  if policy && lf_stopped l then l else
  if negb connected then l else
  upd_world (async_handshake client (cb_handshaken policy) (lf_world l)) l.

Definition life_handshaken (policy is_valid : bool) (l : life) : life :=
  if policy && lf_stopped l then l else
  if negb is_valid then l else
  life_register_and_start l.

(** The handler of [add_session]. *)
Definition life_accepted (is_valid : bool) (l : life) : life :=
  if is_valid then life_register_and_start l else l.

(** The handlers of the reads; [next] is the size that the session reads next, or
    [None] when the header is too large, is no header or announces too large a
    body. *)
Definition life_read (cb : session_cb) (is_valid : bool) (next : option Z) (l : life) : life :=
  if negb is_valid then life_on_error l else
  match cb, next with
  | cb_frame_size, Some n => upd_world (tcp_async_read n cb_header (lf_world l)) l
  | cb_header, Some n => upd_world (tcp_async_read n cb_body (lf_world l)) l
  | cb_body, _ => upd_world (tcp_async_read 8 cb_frame_size (lf_world l)) l
  | _, _ => life_on_error l
  end.

Definition run_callback (cb : session_cb) (is_valid : bool) (next : option Z) (l : life) : life :=
  match cb with
  | cb_connected policy => life_connected policy is_valid l
  | cb_handshaken policy => life_handshaken policy is_valid l
  | cb_accepted => life_accepted is_valid l
  | cb_frame_size | cb_header | cb_body => life_read cb is_valid next l
  end.

(** The callback that the completion of an operation invokes, and its argument. *)
Definition invoked_callback (o : async_op session_cb) (ec : bool) : option (session_cb * bool) :=
  match o with
  | op_resolve _ _ cb => if ec then Some (cb, false) else None
  | op_connect cb | op_handshake _ cb | op_read _ cb => Some (cb, negb ec)
  end.

Inductive life_label : Type :=
| lf_tick (d : Z)
| lf_expire (k : timer_kind)
| lf_timer (i : nat)                                          (* a wait handler runs *)
| lf_complete (i : nat) (ec : bool) (e : endpoint) (next : option Z)
| lf_written                                                  (* the write with Asio ends *)
| lf_write                                                    (* someone sends a message *)
| lf_connect (policy : bool) (host service : string)          (* a manager's connect *)
| lf_accept                                                   (* add_session, admitted *)
| lf_start                                                    (* session::start *)
| lf_copy                                                     (* a user copies a shared_ptr *)
| lf_drop                                                     (* and gives it up *)
| lf_remove                                                   (* remove_session *)
| lf_stop.                                                    (* the manager's stop *)

(** Calls on the session need a [shared_ptr] to it. *)
Definition held (l : life) (k : life) : option life := if owned l then Some k else None.

Definition life_step (a : life_label) (l : life) : option life :=
  match a with
  | lf_tick d => w ← timed_step (lb_tick d) (lf_world l); Some (upd_world w l)
  | lf_expire k => w ← timed_step (lb_expire k) (lf_world l); Some (upd_world w l)
  | lf_timer i =>
      '(k, ec) ← w_ready (lf_world l) !! i;
      if ec : bool then Some (upd_world (dequeue i (lf_world l)) l) else
      let l' := use (u_timer k) l in
      if lf_alive l
      then w ← timed_step (lb_run i) (lf_world l);
           Some (Nat.iter (writes_since (length (w_log (lf_world l))) w) enqueue (upd_world w l'))
      else Some (upd_world (dequeue i (lf_world l)) l')
  | lf_complete i ec e next =>
      o ← w_ops (lf_world l) !! i;
      w ← timed_step (lb_op i ec e) (lf_world l);
      let l' := upd_world w (use (u_op o) l) in
      Some (release (match invoked_callback o ec with
                     | Some (cb, is_valid) => run_callback cb is_valid next l'
                     | None => l'
                     end))
  | lf_written =>
      if (0 <? lf_writes l)%nat
      then Some (set_writes (if lf_alive l then pred (lf_writes l) else 0%nat) (use u_write l))
      else None
  | lf_write => held l (enqueue l)
  | lf_connect policy h sv => held l (upd_world (async_connect h sv (cb_connected policy) (lf_world l)) l)
  | lf_accept => held l (upd_world (async_handshake server cb_accepted (lf_world l)) l)
  | lf_start => held l (upd_world (tcp_async_read 8 cb_frame_size (lf_world l)) l)
  | lf_copy => held l (set_handles (S (lf_handles l)) l)
  | lf_drop =>
      match lf_handles l with O => None | S n => Some (release (set_handles n l)) end
  | lf_remove => Some (release (set_registered false l))
  | lf_stop =>
      let l := set_stopped l in
      if lf_registered l
      then Some (release (set_registered false (upd_world (close (lf_world l)) l)))
      else Some l
  end.

Fixpoint life_run (ls : list life_label) (l : life) : option life :=
  match ls with
  | [] => Some l
  | a :: ls => l ← life_step a l; life_run ls l
  end.

(** [std::make_shared<SessionT>(std::move(socket), manager)]. *)
Definition new_life (managed : bool) (sock : tcp_socket) : life :=
  mkLife (new_world sock) managed false false 1 0 false true [].
End code.

(** ** Ownership *)
Section ownership.

(** Every lambda that is given to an operation holds the session. *)
Lemma captures_session cb : existsb is_shared_session (captures cb) = true.
Proof. by destruct cb. Qed.

Lemma op_captures_session o : existsb is_shared_session (op_captures o) = true.
Proof. destruct o as [? ? []|[]|? []|? []]; done. Qed.

(** Those of the timers and of the writes do not. *)
Lemma timers_hold_nothing ks : existsb is_shared_session (concat (timer_captures <$> ks)) = false.
Proof. induction ks as [|[] ks IH]; done. Qed.

(** So the [shared_ptr]s are the registry's, the users' and those of the
    operations in progress. *)
Lemma owned_eq l :
  owned l = lf_registered l || negb (bool_decide (w_ops (lf_world l) = [])) || (0 <? lf_handles l)%nat.
Proof.
  unfold owned, pointers. do 2 f_equal. rewrite !existsb_app, timers_hold_nothing.
  assert (existsb is_shared_session (if (0 <? lf_writes l)%nat then write_captures else []) = false) as ->
    by (by split_match).
  rewrite !orb_false_r. destruct (w_ops (lf_world l)) as [|o os]; [done|].
  simpl. by rewrite existsb_app, op_captures_session.
Qed.

Lemma owned_ext l l' :
  w_ops (lf_world l') = w_ops (lf_world l) -> lf_registered l' = lf_registered l ->
  lf_handles l' = lf_handles l -> owned l' = owned l.
Proof. intros E1 E2 E3. by rewrite !owned_eq, E1, E2, E3. Qed.

Lemma owned_op o l : o ∈ w_ops (lf_world l) -> owned l = true.
Proof.
  intros Ho. rewrite owned_eq, bool_decide_eq_false_2; [by rewrite orb_true_r|].
  intros E. rewrite E in Ho. by apply not_elem_of_nil in Ho.
Qed.

Lemma not_owned l :
  owned l = false -> lf_registered l = false /\ w_ops (lf_world l) = [] /\ lf_handles l = 0%nat.
Proof.
  rewrite owned_eq. intros [[Hr Ho]%orb_false_iff Hh]%orb_false_iff.
  apply negb_false_iff, bool_decide_eq_true in Ho. apply Nat.ltb_ge in Hh. split_and!; [done..|lia].
Qed.
End ownership.

(** ** Alive as long as owned *)
Section lifetime.
Context `{Schema} {BE : BoostEndian}.

Lemma ops_timer k ec (w : world session_cb) : w_ops (on_timer k ec w) = w_ops w.
Proof. destruct k; simpl; repeat split_match; done. Qed.

Lemma ops_restart (w : world session_cb) : w_ops (restart_countdowns w) = w_ops w.
Proof. unfold restart_countdowns, reset_heartbeat_timer, reset_idle_timer. by repeat split_match. Qed.

Lemma ops_reset_handshake (w : world session_cb) : w_ops (reset_handshake_timer w) = w_ops w.
Proof. unfold reset_handshake_timer. by split_match. Qed.

Lemma ops_cancel_handshake (w : world session_cb) : w_ops (cancel_handshake_timer w) = w_ops w.
Proof. unfold cancel_handshake_timer. by split_match. Qed.

(** What the completion of [o] itself starts. *)
Definition resolved_op (o : async_op session_cb) (ec : bool) : list (async_op session_cb) :=
  match o with op_resolve _ _ cb => if ec then [] else [op_connect cb] | _ => [] end.

Lemma ops_on_op o ec e (w : world session_cb) : w_ops (on_op o ec e w) = w_ops w ++ resolved_op o ec.
Proof.
  destruct o, ec; simpl; rewrite ?ops_restart, ?ops_cancel_handshake, ?app_nil_r; done.
Qed.

(** Operations carry the callbacks that belong to them. *)
Definition op_typed (o : async_op session_cb) : bool :=
  match o with
  | op_resolve _ _ (cb_connected _) | op_connect (cb_connected _) => true
  | op_handshake _ (cb_handshaken _ | cb_accepted) => true
  | op_read _ (cb_frame_size | cb_header | cb_body) => true
  | _ => false
  end.

Definition is_read (o : async_op session_cb) : bool :=
  match o with op_read _ _ => true | _ => false end.

Definition reading (l : life) : Prop := exists o, o ∈ w_ops (lf_world l) /\ is_read o = true.

Definition disarmed (w : world session_cb) : Prop := forall k, w_armed w k = None.

Definition op_use_alive (p : user_of * bool) : Prop :=
  match p.1 with u_op _ => p.2 = true | _ => True end.

(** What holds at every moment, but for whether the object is alive. *)
Record lbase (l : life) : Prop := {
  lb_ops : Forall op_use_alive (lf_uses l);
  lb_typed : Forall (fun o => op_typed o = true) (w_ops (lf_world l));
  lb_reading : lf_managed l = true -> lf_registered l = true -> lf_thrown l = true \/ reading l
}.

Record linv (l : life) : Prop := {
  li_consistent : lf_alive l = owned l;
  li_base : lbase l;
  li_dead : lf_alive l = false -> disarmed (lf_world l)
}.

Lemma disarmed_destroy l : disarmed (lf_world (destroy l)).
Proof. intros k. simpl. by destruct k. Qed.

Lemma linv_release l : lf_alive l = true -> lbase l -> linv (release l).
Proof.
  intros Ha Hb. unfold release. rewrite Ha. destruct (owned l) eqn:E; simpl.
  - split; [congruence|done|congruence].
  - split; [|by destruct Hb|intros _; apply disarmed_destroy].
    simpl. symmetry. rewrite <-E. by apply owned_ext.
Qed.

(** A step of a live object that stays owned. *)
Lemma linv_keep l : lf_alive l = true -> owned l = true -> lbase l -> linv l.
Proof. intros Ha Ho Hb. split; [congruence|done|congruence]. Qed.

Lemma lbase_same l l' :
  w_ops (lf_world l') = w_ops (lf_world l) -> lf_registered l' = lf_registered l ->
  lf_managed l' = lf_managed l -> lf_thrown l' = lf_thrown l ->
  Forall op_use_alive (lf_uses l') -> lbase l -> lbase l'.
Proof. intros E1 E2 E3 E4 Hu [_ H2 H3]. split; unfold reading in *; rewrite ?E1, ?E2, ?E3, ?E4; done. Qed.

Lemma other_use l u b :
  lbase l -> (forall o, u <> u_op o) -> Forall op_use_alive (lf_uses l ++ [(u, b)]).
Proof.
  intros [H1 _ _] Hu. apply Forall_app. split; [done|]. apply Forall_singleton.
  destruct u as [o|k|]; [by destruct (Hu o)|done..].
Qed.

Lemma lbase_unregister l : lbase l -> lbase (set_registered false l).
Proof. intros [H1 H2 _]. by split. Qed.

(** An operation is started. *)
Lemma lbase_start l w o :
  w_ops w = w_ops (lf_world l) ++ [o] -> op_typed o = true -> lbase l -> lbase (upd_world w l).
Proof.
  intros Ew Ho [H1 H2 H3]. split; simpl; [done|rewrite Ew; apply Forall_app; by split; [|constructor]|].
  intros Hm Hr. destruct (H3 Hm Hr) as [?|(o' & Ho' & Er)]; [by left|]. right. exists o'.
  simpl. rewrite Ew. split; [set_solver|done].
Qed.

Lemma owned_start l w o : w_ops w = w_ops (lf_world l) ++ [o] -> owned (upd_world w l) = true.
Proof. intros Ew. apply (owned_op o). simpl. rewrite Ew. set_solver. Qed.

Lemma enqueue_eq l : exists n, enqueue l = set_writes n l.
Proof.
  unfold enqueue. destruct (_ && _); [exists (lf_writes l)|by eexists]. by destruct l.
Qed.

Lemma enqueue_iter k l : exists n, Nat.iter k enqueue l = set_writes n l.
Proof.
  induction k as [|k [n IH]]; simpl; [exists (lf_writes l); by destruct l|]. rewrite IH.
  destruct (enqueue_eq (set_writes n l)) as [m ->]. by exists m.
Qed.

(** *** Callbacks *)

(** [lbase] without a read that has just completed: the registry may hold a
    session that does not read. *)
Record lmid (l : life) : Prop := {
  lm_ops : Forall op_use_alive (lf_uses l);
  lm_typed : Forall (fun o => op_typed o = true) (w_ops (lf_world l))
}.

Lemma lbase_read l n cb :
  lmid l -> op_typed (op_read n cb) = true -> lbase (upd_world (tcp_async_read n cb (lf_world l)) l).
Proof.
  intros [H1 H2] Ho. split; simpl; [done|apply Forall_app; by split; [|constructor]|].
  intros _ _. right. exists (op_read n cb). simpl. split; [set_solver|done].
Qed.

Lemma lbase_on_error l : lmid l -> lbase (life_on_error l).
Proof.
  intros [H1 H2]. unfold life_on_error. destruct (lf_managed l) eqn:Em; split; simpl; try done; congruence.
Qed.

Lemma lbase_register l : lmid l -> lbase (life_register_and_start l).
Proof.
  intros Hm. unfold life_register_and_start. cbv zeta. split_match.
  - apply lbase_read; [|done]. by destruct Hm.
  - destruct Hm as [H1 H2]. split; simpl; [done..|]. by left.
Qed.

Lemma base_mid l : lbase l -> lmid l.
Proof. by intros [H1 H2 _]. Qed.

(** A callback of an operation other than a read. *)
Lemma lbase_dial_callback cb v next l :
  match cb with cb_connected _ | cb_handshaken _ | cb_accepted => True | _ => False end ->
  lbase l -> lbase (run_callback cb v next l).
Proof.
  intros Hcb Hl. destruct cb as [p|p| | | |]; try done; unfold run_callback, life_connected, life_handshaken, life_accepted;
    repeat split_match; try done.
  - eapply (lbase_start _ _ (op_handshake client (cb_handshaken p))); [|done..].
    simpl. by rewrite ops_reset_handshake.
  - by apply lbase_register, base_mid.
  - by apply lbase_register, base_mid.
Qed.

(** A callback of a read. *)
Lemma lbase_read_callback cb v next l :
  match cb with cb_frame_size | cb_header | cb_body => True | _ => False end ->
  lmid l -> lbase (run_callback cb v next l).
Proof.
  intros Hcb Hl. destruct cb as [p|p| | | |]; try done; unfold run_callback, life_read; destruct v, next; simpl;
    by first [apply lbase_on_error | apply lbase_read].
Qed.

Lemma run_callback_same cb v next l :
  lf_alive (run_callback cb v next l) = lf_alive l /\ lf_uses (run_callback cb v next l) = lf_uses l.
Proof.
  destruct cb as [p|p| | | |]; unfold run_callback, life_connected, life_handshaken, life_accepted, life_read,
    life_on_error, life_register_and_start; cbv zeta; repeat split_match; done.
Qed.

Lemma release_uses l : lf_uses (release l) = lf_uses l.
Proof. unfold release. by split_match. Qed.

(** *** Steps *)

(** The object right after the socket's handler of [o], before its callback. *)
Definition completing (i : nat) (o : async_op session_cb) (ec : bool) (e : endpoint) (l : life) : life :=
  upd_world (on_op o ec e (note (completed o (negb ec)) (finish_op i (lf_world l)))) (use (u_op o) l).

Lemma complete_inv i ec e next l l' :
  life_step (lf_complete i ec e next) l = Some l' ->
  exists o, w_ops (lf_world l) !! i = Some o /\
    l' = release (match invoked_callback o ec with
                  | Some (cb, is_valid) => run_callback cb is_valid next (completing i o ec e l)
                  | None => completing i o ec e l
                  end).
Proof.
  cbn [life_step]. destruct (w_ops (lf_world l) !! i) as [o|] eqn:Ei; [|done]. simpl.
  rewrite Ei. simpl. intros [= <-]. by exists o.
Qed.

Lemma ops_completing i o ec e l :
  w_ops (lf_world (completing i o ec e l)) = delete i (w_ops (lf_world l)) ++ resolved_op o ec.
Proof. unfold completing. cbn [lf_world upd_world]. by rewrite ops_on_op. Qed.

Lemma lmid_completing i o ec e l :
  w_ops (lf_world l) !! i = Some o -> lf_alive l = true -> lbase l -> lmid (completing i o ec e l).
Proof.
  intros Hi Ha [H1 H2 _]. pose proof (Forall_lookup_1 _ _ _ _ H2 Hi) as Ho. split.
  - simpl. apply Forall_app. split; [done|]. by apply Forall_singleton.
  - rewrite ops_completing. apply Forall_app. split; [by apply Forall_delete|].
    destruct o as [h sv cb|cb|ty cb|n cb], ec; repeat constructor; done.
Qed.

Lemma lbase_completing i o ec e l :
  w_ops (lf_world l) !! i = Some o -> lf_alive l = true -> is_read o = false ->
  lbase l -> lbase (completing i o ec e l).
Proof.
  intros Hi Ha Hr Hb. pose proof (lmid_completing i o ec e l Hi Ha Hb) as [Hm1 Hm2].
  split; [done..|]. intros Hm Hg. destruct (lb_reading _ Hb Hm Hg) as [?|(o' & Ho' & Er)]; [by left|].
  right. exists o'. split; [|done]. rewrite ops_completing, elem_of_app. left.
  rewrite (delete_Permutation _ _ _ Hi) in Ho'. apply elem_of_cons in Ho' as [->|Ho']; [|done].
  congruence.
Qed.

Lemma linv_op_alive o l : linv l -> o ∈ w_ops (lf_world l) -> lf_alive l = true.
Proof. intros Hl Ho. rewrite (li_consistent _ Hl). by apply (owned_op o). Qed.

Lemma linv_complete i ec e next l l' :
  linv l -> life_step (lf_complete i ec e next) l = Some l' -> linv l'.
Proof.
  intros Hl (o & Hi & ->)%complete_inv. pose proof (li_base _ Hl) as Hb.
  assert (lf_alive l = true) as Ha by (eapply linv_op_alive, list_elem_of_lookup_2; done).
  pose proof (Forall_lookup_1 _ _ _ _ (lb_typed _ Hb) Hi) as Ht. simpl in Ht.
  pose proof (lmid_completing i o ec e l Hi Ha Hb) as Hm.
  pose proof (lbase_completing i o ec e l Hi Ha) as Hc.
  assert (lf_alive (completing i o ec e l) = true) as Hca by done.
  destruct (invoked_callback o ec) as [[cb v]|] eqn:Ec.
  - apply linv_release; [by rewrite (proj1 (run_callback_same _ _ _ _))|].
    destruct o as [h sv c|c|ty c|n c]; simpl in Ec; [destruct ec|..]; simplify_eq.
    all: first [apply lbase_dial_callback; [by destruct cb|by apply Hc]
               |apply lbase_read_callback; [by destruct cb|done]].
  - apply linv_release; [done|]. by destruct o, ec; simplify_eq/=; apply Hc.
Qed.

Lemma linv_timer i l l' : linv l -> life_step (lf_timer i) l = Some l' -> linv l'.
Proof.
  intros Hl. cbn [life_step]. destruct (w_ready (lf_world l) !! i) as [[k []]|] eqn:Ei; simpl; [|..|done].
  - intros [= <-]. destruct Hl as [Hc Hb Hd]. split; [by rewrite (owned_ext l)|by apply (lbase_same l); destruct Hb|done].
  - destruct Hl as [Hc Hb Hd].
    assert (forall b, Forall op_use_alive (lf_uses l ++ [(u_timer k, b)])) as Hu by (intros b; by apply other_use).
    destruct (lf_alive l) eqn:Ea.
    + simpl. rewrite Ei. simpl. intros [= <-].
      match goal with |- linv (Nat.iter ?m enqueue ?x) => destruct (enqueue_iter m x) as [n ->] end.
      apply linv_keep; [done| |].
      * rewrite Hc. apply owned_ext; [|done..]. simpl. by rewrite ops_timer.
      * apply (lbase_same l); [|done..|by simpl; rewrite Ea|done]. simpl. by rewrite ops_timer.
    + intros [= <-]. split.
      * etrans; [exact Ea|]. etrans; [exact Hc|]. symmetry. by apply owned_ext.
      * apply (lbase_same l); [done..|by simpl; rewrite Ea|done].
      * intros _. exact (Hd eq_refl).
Qed.

(** A call on an owned object, which stays owned. *)
Lemma linv_held l k l' :
  linv l -> held l k = Some l' -> lf_alive k = lf_alive l -> (owned l = true -> owned k = true) ->
  (lbase l -> lbase k) -> linv l'.
Proof.
  intros [Hc Hb _]. unfold held. destruct (owned l) eqn:E; [|done]. intros [= <-] Ea Ho Hk.
  apply linv_keep; [congruence|by apply Ho|by apply Hk].
Qed.

Lemma linv_start l o w l' :
  linv l -> held l (upd_world w l) = Some l' -> w_ops w = w_ops (lf_world l) ++ [o] ->
  op_typed o = true -> linv l'.
Proof.
  intros Hl Hs Ew Ho. eapply linv_held; [done|exact Hs|done| |].
  - intros _. by eapply owned_start.
  - by eapply lbase_start.
Qed.

(** A [shared_ptr] that is not the last owner's reason to live may go. *)
Lemma linv_give_up l l' :
  linv l -> lf_alive l' = lf_alive l -> lbase l' -> (owned l = false -> owned l' = false) ->
  lf_world l' = lf_world l -> linv (release l').
Proof.
  intros [Hc Hb Hd] Ea Hb' Ho Ew. destruct (lf_alive l) eqn:El.
  - apply linv_release; congruence.
  - unfold release. rewrite Ea. simpl. split; [rewrite Ea, Ho; done|done|]. intros _. rewrite Ew. by apply Hd.
Qed.

Lemma linv_step a l l' : linv l -> life_step a l = Some l' -> linv l'.
Proof.
  intros Hl Hs. destruct a as [d|k|i|i ec e next| | |p h sv| | | | | |].
  - cbn [life_step] in Hs. destruct (timed_step _ _) as [w|] eqn:E; [|done]. injection Hs as <-.
    apply tick_inv in E as (_ & _ & _ & ->). destruct Hl as [Hc Hb Hd].
    split; [by rewrite (owned_ext l)|by apply (lbase_same l); destruct Hb|done].
  - cbn [life_step] in Hs. destruct (timed_step _ _) as [w|] eqn:E; [|done]. injection Hs as <-.
    simpl in E. destruct (w_armed _ k) as [dl|] eqn:Ek; [|done]. destruct (dl <=? _); [|done].
    injection E as <-. destruct Hl as [Hc Hb Hd].
    split; [by rewrite (owned_ext l)|by apply (lbase_same l); destruct Hb|].
    intros Ha. specialize (Hd Ha k). congruence.
  - by eapply linv_timer.
  - by eapply linv_complete.
  - simpl in Hs. destruct (_ <? _)%nat; [|done]. injection Hs as <-. destruct Hl as [Hc Hb Hd].
    split; [by rewrite (owned_ext l)|by apply (lbase_same l); [..|apply other_use|]|done].
  - eapply linv_held; [done|exact Hs|..]; destruct (enqueue_eq l) as [n ->]; [done|intros <-; by apply owned_ext|].
    intros Hb. by apply (lbase_same l); destruct Hb.
  - eapply (linv_start l (op_resolve h sv (cb_connected p))); [done|exact Hs| |done].
    simpl. by rewrite ops_restart.
  - eapply (linv_start l (op_handshake server cb_accepted)); [done|exact Hs| |done].
    simpl. by rewrite ops_reset_handshake.
  - by eapply (linv_start l (op_read 8 cb_frame_size)).
  - eapply linv_held; [done|exact Hs|done| |]; [|by intros [H1 H2 H3]].
    intros _. rewrite owned_eq. simpl. by rewrite orb_true_r.
  - simpl in Hs. destruct (lf_handles l) as [|n] eqn:En; [done|]. injection Hs as <-.
    apply (linv_give_up l); [done..|by destruct (li_base _ Hl)| |done].
    rewrite owned_eq, En. simpl. by rewrite orb_true_r.
  - injection Hs as <-. apply (linv_give_up l); [done..|by apply lbase_unregister, li_base| |done].
    intros (Hr & Ho & Hh)%not_owned. rewrite owned_eq. simpl. by rewrite Ho, Hh.
  - simpl in Hs. destruct Hl as [Hc Hb Hd]. destruct (lf_registered l) eqn:Er; injection Hs as <-.
    + apply linv_release; [simpl; rewrite Hc, owned_eq, Er; done|].
      destruct Hb. by split.
    + split; [by rewrite (owned_ext l)|by apply (lbase_same l); destruct Hb|done].
Qed.

Lemma linv_run ls l l' : linv l -> life_run ls l = Some l' -> linv l'.
Proof.
  revert l. induction ls as [|a ls IH]; simpl; intros l Hl Hr; [by simplify_eq|].
  destruct (life_step a l) as [l1|] eqn:E; [|done]. apply (IH l1); [|done]. by eapply linv_step.
Qed.

Lemma linv_new managed sock : linv (new_life managed sock).
Proof. split; [done| |done]. by repeat split. Qed.
End lifetime.

(** ** After the destruction *)
Section afterwards.
Context `{Schema} {BE : BoostEndian}.

(** No write is with Asio, and no handler of an expired wait is queued. *)
Definition nothing_left (l : life) : Prop :=
  lf_writes l = 0%nat /\ Forall (fun p => p.2 = true) (w_ready (lf_world l)).

(** Destroyed, with nothing that would use the object again. *)
Definition gone (l : life) : Prop := linv l /\ lf_alive l = false /\ nothing_left l.

Lemma gone_step a l l' :
  gone l -> life_step a l = Some l' -> gone l' /\ lf_uses l' = lf_uses l.
Proof.
  intros (Hl & Ha & [Hw Hr]) Hs. pose proof (linv_step _ _ _ Hl Hs) as Hl'.
  pose proof (li_consistent _ Hl) as Ho. rewrite Ha in Ho. symmetry in Ho.
  pose proof (li_dead _ Hl Ha) as Hd. destruct (not_owned l Ho) as (Hreg & Hops & Hh).
  unfold gone, nothing_left.
  destruct a as [d|k|i|i ec e next| | |p h sv| | | | | |]; cbn [life_step] in Hs;
    unfold held in Hs; rewrite ?Ho in Hs; try done.
  - destruct (timed_step _ _) as [w|] eqn:E; [|done]. injection Hs as <-.
    by apply tick_inv in E as (_ & _ & _ & ->).
  - simpl in Hs. by rewrite (Hd k) in Hs.
  - destruct (w_ready _ !! i) as [[k ec]|] eqn:Ei; [|done]. simpl in Hs.
    pose proof (Forall_lookup_1 _ _ _ _ Hr Ei) as Hec. simpl in Hec. subst ec. injection Hs as <-.
    split_and!; [done..| |done]. by apply Forall_delete.
  - by rewrite Hops in Hs.
  - by rewrite Hw in Hs.
  - by rewrite Hh in Hs.
  - injection Hs as <-. unfold release in *. simpl in *. by rewrite Ha in *.
  - simpl in Hs. rewrite Hreg in Hs. by injection Hs as <-.
Qed.

Lemma gone_run ls l l' :
  gone l -> life_run ls l = Some l' -> gone l' /\ lf_uses l' = lf_uses l.
Proof.
  revert l. induction ls as [|a ls IH]; simpl; intros l Hg Hr; [by simplify_eq|].
  destruct (life_step a l) as [l1|] eqn:E; [|done]. simpl in Hr.
  destruct (gone_step _ _ _ Hg E) as [Hg1 <-]. by apply IH.
Qed.

(** What may still use a destroyed object. *)
Definition dangling (l : life) : Prop :=
  (0 < lf_writes l)%nat \/ exists k, (k, false) ∈ w_ready (lf_world l).

Lemma dangling_or_nothing l : dangling l \/ nothing_left l.
Proof.
  destruct (decide (0 < lf_writes l)%nat) as [Hw|Hw]; [by left; left|].
  destruct (decide (Forall (fun p => p.2 = true) (w_ready (lf_world l)))) as [Hr|Hr].
  - right. split; [lia|done].
  - left. right. apply not_Forall_Exists in Hr; [|apply _].
    apply Exists_exists in Hr as ([k []] & Hk & Hne); [by destruct (Hne eq_refl)|by exists k].
Qed.

(** One step is enough for it to do so. *)
Lemma dangling_used l :
  lf_alive l = false -> dangling l ->
  exists a l' u, life_step a l = Some l' /\ lf_uses l' = lf_uses l ++ [(u, false)].
Proof.
  intros Ha [Hw|(k & [i Hi]%list_elem_of_lookup)].
  - eexists lf_written, _, u_write. cbn [life_step].
    rewrite (proj2 (Nat.ltb_lt 0 _)) by done. split; [reflexivity|]. simpl. by rewrite Ha.
  - eexists (lf_timer i), _, (u_timer k). cbn [life_step]. rewrite Hi. cbn [mbind option_bind].
    rewrite Ha. split; [reflexivity|]. simpl. by rewrite Ha.
Qed.
End afterwards.

(** ** The chain of operations *)

(** What follows the success of an operation: connecting, the handshake, the
    frame size, the header, the body, and the next frame size. *)
Definition follow_up (o : async_op session_cb) (next : option Z) (l : life) : option (async_op session_cb) :=
  let is_v4 := match address (remote_endpoint_ (w_sock (lf_world l))) with
               | address_v4 _ => true | address_v6 _ => false end in
  match o with
  | op_resolve _ _ cb => Some (op_connect cb)
  | op_connect (cb_connected policy) =>
      if policy && lf_stopped l then None else Some (op_handshake client (cb_handshaken policy))
  | op_handshake _ (cb_handshaken policy) =>
      if policy && lf_stopped l then None else
      if is_v4 then Some (op_read 8 cb_frame_size) else None
  | op_handshake _ cb_accepted => if is_v4 then Some (op_read 8 cb_frame_size) else None
  | op_read _ cb_frame_size => n ← next; Some (op_read n cb_header)
  | op_read _ cb_header => n ← next; Some (op_read n cb_body)
  | op_read _ cb_body => Some (op_read 8 cb_frame_size)
  | _ => None
  end.

Section chain.
Context `{Schema} {BE : BoostEndian}.

Lemma release_owned l : owned l = true -> release l = l.
Proof. intros Ho. unfold release. by rewrite Ho, andb_false_r. Qed.

Lemma sock_completing_handshake i ty cb e l :
  remote_endpoint_ (w_sock (lf_world (completing i (op_handshake ty cb) false e l))) =
  remote_endpoint_ (w_sock (lf_world l)).
Proof.
  simpl. unfold restart_countdowns, reset_heartbeat_timer, reset_idle_timer, cancel_handshake_timer.
  by repeat split_match.
Qed.

Lemma register_reads l :
  match address (remote_endpoint_ (w_sock (lf_world l))) with address_v4 _ => True | _ => False end ->
  op_read 8 cb_frame_size ∈ w_ops (lf_world (life_register_and_start l)).
Proof.
  intros H4. unfold life_register_and_start. cbv zeta. simpl. destruct (address _); [|done]. simpl. set_solver.
Qed.

(** The callback of a success starts the operation that follows. *)
Lemma follow_up_started i e next o o' l l' :
  w_ops (lf_world l) !! i = Some o -> follow_up o next l = Some o' ->
  life_step (lf_complete i false e next) l = Some l' ->
  o' ∈ w_ops (lf_world l') /\ (lf_alive l = true -> lf_alive l' = true).
Proof.
  intros Hi Hf (o1 & Hi1 & ->)%complete_inv. rewrite Hi in Hi1. injection Hi1 as <-.
  set (c := completing i o false e l).
  assert (lf_stopped c = lf_stopped l) as Es by done.
  enough (forall x, o' ∈ w_ops (lf_world x) -> lf_alive x = lf_alive l ->
    o' ∈ w_ops (lf_world (release x)) /\ (lf_alive l = true -> lf_alive (release x) = true)) as Hx.
  { destruct o as [h sv cb|cb|ty cb|n cb]; simpl in Hf |- *.
    - injection Hf as <-. apply Hx; [|done]. unfold c. rewrite ops_completing. simpl. set_solver.
    - apply Hx; [|exact (proj1 (run_callback_same _ _ _ _))]. destruct cb as [p|p| | | |]; try done.
      unfold run_callback, life_connected. rewrite Es.
      destruct (p && lf_stopped l); [done|]. injection Hf as <-. simpl. rewrite ops_reset_handshake. set_solver.
    - apply Hx; [|exact (proj1 (run_callback_same _ _ _ _))].
      pose proof (sock_completing_handshake i ty cb e l) as Ee. fold c in Ee.
      destruct cb as [p|p| | | |]; try done; unfold run_callback, life_handshaken, life_accepted; rewrite ?Es.
      + destruct (p && lf_stopped l); [done|]. destruct (address _) eqn:E4; [|done]. injection Hf as <-.
        apply register_reads. by rewrite Ee, E4.
      + destruct (address _) eqn:E4; [|done]. injection Hf as <-. apply register_reads. by rewrite Ee, E4.
    - apply Hx; [|exact (proj1 (run_callback_same _ _ _ _))].
      destruct cb as [p|p| | | |]; try done; unfold run_callback, life_read; cbn [negb];
        try (destruct next; [|done]); injection Hf as <-; simpl; set_solver. }
  intros x Ho Ea. rewrite release_owned by (by apply (owned_op o')). split; [done|congruence].
Qed.
End chain.


(** ** What is left behind *)
Module LifetimeWitness.

(** A managed session, dialled and established; the user keeps no pointer. *)
Definition established_session : list life_label :=
  [lf_connect true "h" "s"; lf_drop; lf_complete 0 false default_endpoint None;
   lf_complete 0 false default_endpoint None; lf_complete 0 false default_endpoint None].

(** The peer goes away while a message is being written: the read fails, the
    session leaves its manager and is destroyed, and then the write completes. *)
Definition write_outstanding : list life_label :=
  established_session ++ [lf_write; lf_complete 0 true default_endpoint None; lf_written].

(** The idle countdown ends, and before its handler runs the read fails. *)
Definition expired_wait : list life_label :=
  established_session ++
  [lf_timer 0; lf_tick 10; lf_expire idle; lf_complete 0 true default_endpoint None; lf_timer 0].

(** A frame arrives, the write ends, and then the read fails. *)
Definition orderly : list life_label :=
  established_session ++
  [lf_complete 0 false default_endpoint (Some 24); lf_write; lf_written;
   lf_complete 0 true default_endpoint None].

Definition idle_socket : tcp_socket := set_idle_timeout 10 new_tcp_socket.

#[export] Instance host : BoostEndian := boost_endian_on order_little.
End LifetimeWitness.

Section lifetime_witnesses.
Import LifetimeWitness ToyCodec.


(** A handler may use a destroyed session: the completion of a write, or the
    handler of a timer that expired just before. *)
Theorem use_after_destruction :
  (exists l, life_run write_outstanding (new_life true idle_socket) = Some l /\
     (u_write, false) ∈ lf_uses l) /\
  (exists l, life_run expired_wait (new_life true idle_socket) = Some l /\
     (u_timer idle, false) ∈ lf_uses l).
Proof.
  split; eexists; (split; [vm_compute; reflexivity|]); vm_compute; set_solver.
Qed.
End lifetime_witnesses.
