(* ===== verification/BoostSocket.v ===== *)
(** * The synchronous side of the TCP socket ([boost_tcp_socket])

    Constructors, [connect], [handshake], [read], [write], [close] and the
    accessors of the remote endpoint, [src/src/network/socket.hpp] and
    [socket.cpp].  The SSL stream and the resolver are Asio's: a parameter, with
    the overload of each call the code picks, the one that reports through an
    [error_code] or the one that throws. *)

From stdpp Require Import strings.
From S2P Require Import Prelude Endian Serialisation SocketBase Message WireFormat.
From S2P Require Import MessageCorrect SocketTimers.

(** [boost::asio::ssl::stream_base::handshake_type]. *)
Inductive asio_handshake_type : Type := asio_client | asio_server.

(** The calls on Asio.  A [bool] is the [error_code] that was passed in, [true]
    when it reports a failure afterwards. *)
Class AsioStream (St : Type) := {
  (* resolver.resolve(host, service), which throws *)
  asio_resolve : string -> string -> St -> outcome (list endpoint) * St;
  (* boost::asio::connect(lowest_layer, endpoints, error_code) *)
  asio_connect : list endpoint -> St -> bool * St;
  (* lowest_layer.connect(endpoint, error_code) *)
  asio_connect_endpoint : endpoint -> St -> bool * St;
  (* stream.handshake(type, error_code) *)
  asio_handshake : asio_handshake_type -> St -> bool * St;
  (* boost::asio::read(stream, buffer, error_code) *)
  asio_read : list uint8_t -> St -> bool * list uint8_t * St;
  (* boost::asio::write(stream, buffer, error_code) *)
  asio_write : list uint8_t -> St -> bool * St;
  (* lowest_layer.shutdown(shutdown_both, error_code); lowest_layer.close(error_code) *)
  asio_shutdown : St -> bool * St;
  asio_close : St -> bool * St;
  (* lowest_layer.remote_endpoint(error_code) *)
  asio_remote_endpoint : St -> bool * endpoint;
  (* address.to_string() *)
  address_to_string : ip_address -> string
}.

Record boost_tcp_socket (St : Type) := mkBoostSocket { members : tcp_socket; stream_ : St }.
Arguments mkBoostSocket {St} _ _.
Arguments members {St} _.
Arguments stream_ {St} _.

Section code.
Context `{AsioStream St}.
Implicit Types s : boost_tcp_socket St.

Definition with_members (f : tcp_socket -> tcp_socket) s : boost_tcp_socket St :=
  mkBoostSocket (f (members s)) (stream_ s).

(** Run a call on the stream. *)
Definition on_stream {A} (call : St -> A * St) : M (boost_tcp_socket St) A := fun s =>
  let '(a, st) := call (stream_ s) in (Ret a, mkBoostSocket (members s) st).

Definition on_stream_throwing {A} (call : St -> outcome A * St) : M (boost_tcp_socket St) A := fun s =>
  let '(a, st) := call (stream_ s) in (a, mkBoostSocket (members s) st).

(** [boost_tcp_socket::capture_remote_endpoint]. *)
Definition capture_remote_endpoint s : boost_tcp_socket St :=
  let '(error_code, endpoint) := asio_remote_endpoint (stream_ s) in
  if negb error_code then with_members (set_remote_endpoint endpoint) s else s.

(** The two constructors: to dial, and over an accepted connection. *)
Definition dialling_socket (st : St) : boost_tcp_socket St := mkBoostSocket new_tcp_socket st.

Definition accepted_socket (st : St) : boost_tcp_socket St :=
  capture_remote_endpoint (mkBoostSocket new_tcp_socket st).

(** [boost_tcp_socket::resolve_host]: the [error_code] is never passed on. *)
Definition resolve_host (host service : string)
    : M (boost_tcp_socket St) (option (list endpoint)) :=
  let error_code := false in
  endpoints ← on_stream_throwing (asio_resolve host service);
  if error_code : bool then mret None else mret (Some endpoints).

(** [boost_tcp_socket::connect(host, service)]. *)
Definition connect_host (host service : string) : M (boost_tcp_socket St) bool :=
  endpoints ← resolve_host host service;
  match endpoints with
  | None => mret false
  | Some endpoints =>
      error_code ← on_stream (asio_connect endpoints);
      mret (negb error_code)
  end.

(** [boost_tcp_socket::connect(ipv4_address, port)]. *)
Definition connect_ipv4 (ipv4_address port : Z) : M (boost_tcp_socket St) bool :=
  let endpoint := mkEndpoint (address_v4 ipv4_address) port in
  error_code ← on_stream (asio_connect_endpoint endpoint);
  mret (negb error_code).

(** [boost_tcp_socket::close]. *)
Definition close_socket : M (boost_tcp_socket St) unit :=
  _ ← on_stream asio_shutdown;
  _ ← on_stream asio_close;
  mret tt.

(** [boost_tcp_socket::to_asio_handshake_type]. *)
Definition to_asio_handshake_type (type : handshake_type) : asio_handshake_type :=
  match type with client => asio_client | server => asio_server end.

(** [boost_tcp_socket::handshake]. *)
Definition handshake (type : handshake_type) : M (boost_tcp_socket St) bool :=
  error_code ← on_stream (asio_handshake (to_asio_handshake_type type));
  mret (negb error_code).

(** [boost_tcp_socket::read]. *)
Definition read (buffer : list uint8_t) s : bool * list uint8_t * boost_tcp_socket St :=
  let '(error_code, buffer, st) := asio_read buffer (stream_ s) in
  (negb error_code, buffer, mkBoostSocket (members s) st).

(** [boost_tcp_socket::write]. *)
Definition write (buffer : list uint8_t) s : bool * boost_tcp_socket St :=
  let '(error_code, st) := asio_write buffer (stream_ s) in
  (negb error_code, mkBoostSocket (members s) st).

#[global] Instance boost_sync : SyncSocket (boost_tcp_socket St) := {|
  max_message_size s := get_max_message_size (members s);
  socket_read := read;
  socket_write := write
|}.
End code.

(** [boost_tcp_socket::ipv4_address]: [to_v4] throws on an IPv6 address. *)
Definition ipv4_address (s : tcp_socket) : outcome Z :=
  match address (remote_endpoint_ s) with
  | address_v4 bits => Ret bits
  | address_v6 _ => Throw bad_address_cast
  end.

(** [boost_tcp_socket::port]. *)
Definition port (s : tcp_socket) : Z := endpoint_port (remote_endpoint_ s).

(** [boost_tcp_socket::remote_address]. *)
Definition remote_address `{AsioStream St} (s : tcp_socket) : string :=
  address_to_string (address (remote_endpoint_ s)).

(** ** The session's synchronous calls ([session.cpp]) *)
Section session_calls.
Context `{AsioStream St}.

(** [session::connect] and [session::handshake], on the socket the session owns. *)
Definition session_connect (host service : string) : M (boost_tcp_socket St) bool :=
  connect_host host service.
Definition session_handshake (type : handshake_type) : M (boost_tcp_socket St) bool :=
  handshake type.
End session_calls.

(** ** The stream that Asio documents

    [as_incoming] and [as_outgoing] are the plaintext bytes still to be read and
    written so far.  [boost::asio::read] returns when the buffer is full or an
    error occurred, and [boost::asio::write] when all was written or an error
    occurred; a resolution that fails throws [system_error]; what a call does to
    the stream does not depend on the members of the socket class. *)
Class AsioStreamLaws (St : Type) `{AsioStream St} := {
  as_incoming : St -> list uint8_t;
  as_outgoing : St -> list uint8_t;
  asio_read_full buf st : (length buf <= length (as_incoming st))%nat ->
    exists st', asio_read buf st = (false, take (length buf) (as_incoming st), st') /\
      as_incoming st' = drop (length buf) (as_incoming st) /\ as_outgoing st' = as_outgoing st;
  asio_read_eof buf st : (length (as_incoming st) < length buf)%nat ->
    exists buf' st', asio_read buf st = (true, buf', st') /\ length buf' = length buf /\
      as_outgoing st' = as_outgoing st;
  asio_write_all bs st st' : asio_write bs st = (false, st') ->
    as_incoming st' = as_incoming st /\ as_outgoing st' = as_outgoing st ++ bs;
  asio_write_error bs st st' : asio_write bs st = (true, st') ->
    as_incoming st' = as_incoming st /\ exists sent, as_outgoing st' = as_outgoing st ++ sent;
  asio_resolve_throws h sv st e st' : asio_resolve h sv st = (Throw e, st') -> e = system_error
}.

(** The TCP socket keeps the contract the framing theorems assume of a socket. *)
#[global, refine] Instance boost_stream `{AsioStreamLaws St} : StreamSocket (boost_tcp_socket St) := {|
  incoming s := as_incoming (stream_ s);
  outgoing s := as_outgoing (stream_ s);
  loopback := false;
  stream_inv _ := True
|}.
Proof.
  - intros buf s _ Hl. destruct (asio_read_full buf (stream_ s) Hl) as (st' & E & Hi & Ho).
    exists (mkBoostSocket (members s) st'). simpl. unfold read. rewrite E. done.
  - intros buf s _ Hl. destruct (asio_read_eof buf (stream_ s) Hl) as (buf' & st' & E & Hb & Ho).
    exists buf', (mkBoostSocket (members s) st'). simpl. unfold read. rewrite E. done.
  - done.
  - intros bs s. simpl. unfold write. by destruct (asio_write bs (stream_ s)).
  - intros bs s s' _. simpl. unfold write. destruct (asio_write bs (stream_ s)) as [[] st'] eqn:E; [done|].
    intros [= <-]. simpl. rewrite app_nil_r. by apply asio_write_all.
  - intros bs s s' _. simpl. unfold write. destruct (asio_write bs (stream_ s)) as [[] st'] eqn:E; [|done].
    intros [= <-]. split; [done|]. by apply asio_write_error in E.
Defined.

(** ** Properties *)

(** C22 A failed resolution is not reported as [false]: when the resolver fails,
    [connect(host, service)] throws [system_error] and leaves the socket's members
    as they were; the branch of [resolve_host] that returns [nullopt] is never
    taken. *)
Theorem connect_resolution_failure_throws `{AsioStreamLaws St}
    (host service : string) (s : boost_tcp_socket St) (e : exn) (st' : St) :
  asio_resolve host service (stream_ s) = (Throw e, st') ->
  connect_host host service s = (Throw system_error, mkBoostSocket (members s) st') /\
  (forall s1 s2, resolve_host host service s1 <> (Ret None, s2)).
Proof.
  intros E. pose proof (asio_resolve_throws _ _ _ _ _ E) as ->. split.
  - unfold connect_host, resolve_host. erewrite bind_Throw; [reflexivity|].
    erewrite bind_Throw; [reflexivity|]. unfold on_stream_throwing. by rewrite E.
  - intros s1 s2 (eps & s' & _ & Hr)%bind_inv_Ret. done.
Qed.

(** A synchronous [connect] that succeeds does not record whom it connected
    to: [ipv4_address] and [port] of a dialling socket are 0.0.0.0 and 0 after
    [connect], in both overloads, while the asynchronous one records the endpoint
    it reached. *)
Theorem sync_connect_forgets_peer `{AsioStream St} {Callback} (st : St)
    (s' : boost_tcp_socket St) (how : string * string + Z * Z) :
  (match how with inl (h, sv) => connect_host h sv | inr (ip, p) => connect_ipv4 ip p end)
    (dialling_socket st) = (Ret true, s') ->
  ipv4_address (members s') = Ret 0 /\ port (members s') = 0 /\
  forall (cb : Callback) e w, remote_endpoint_ (w_sock (on_connected cb false e w)) = e.
Proof.
  destruct how as [[h sv]|[ip p]]; intros Hc.
  - apply bind_inv_Ret in Hc as (eps & s1 & (e1 & s2 & H1 & H2)%bind_inv_Ret & Hc).
    unfold on_stream_throwing in H1. simpl in H1. destruct (asio_resolve h sv st) as [[]?]; simplify_eq/=.
    injection H2 as <- <-. apply bind_inv_Ret in Hc as (b & s3 & H3 & [= _ <-]).
    unfold on_stream in H3. simpl in H3. destruct (asio_connect _ _); simplify_eq/=. done.
  - apply bind_inv_Ret in Hc as (b & s3 & H3 & [= _ <-]).
    unfold on_stream in H3. simpl in H3. destruct (asio_connect_endpoint _ _); simplify_eq/=. done.
Qed.

(** ** A concrete stream

    A connection to an echo-free pipe, and a resolver that knows one name; the
    witnesses run on it. *)
Module PipeStream.
Import PipeSocket.

#[export] Instance pipe_asio : AsioStream pipe := {|
  asio_resolve h _ st :=
    if String.eqb h "localhost" then (Ret [mkEndpoint (address_v4 2130706433) 80], st)
    else (Throw system_error, st);
  asio_connect eps st := (bool_decide (eps = []), st);
  asio_connect_endpoint _ st := (false, st);
  asio_handshake _ st := (false, st);
  asio_read buf st := let '(ok, buf, st) := pipe_read buf st in (negb ok, buf, st);
  asio_write bs st := let '(ok, st) := pipe_write bs st in (negb ok, st);
  asio_shutdown st := (false, st);
  asio_close st := (false, mkPipe [] (tx st) (pipe_cap st) false);
  asio_remote_endpoint _ := (false, mkEndpoint (address_v4 2130706433) 50000);
  address_to_string _ := "127.0.0.1"
|}.

#[export, refine] Instance pipe_asio_laws : AsioStreamLaws pipe := {|
  as_incoming := rx; as_outgoing := tx |}.
Proof.
  - intros buf st Hl. simpl. unfold pipe_read. rewrite (proj2 (Nat.ltb_ge _ _)) by done.
    by eexists.
  - intros buf st Hl. simpl. unfold pipe_read. rewrite (proj2 (Nat.ltb_lt _ _)) by done.
    do 2 eexists. split; [done|]. rewrite length_app, length_drop. split; [lia|done].
  - intros bs st st'. simpl. unfold pipe_write. destruct (writable st); [|done].
    by intros [= <-].
  - intros bs st st'. simpl. unfold pipe_write. destruct (writable st); [done|].
    intros [= <-]. split; [done|]. exists []. by rewrite app_nil_r.
  - intros h sv st e st'. simpl. destruct (String.eqb h "localhost"); by intros [= <- _].
Defined.

Definition line : pipe := mkPipe [] [] 0 true.
End PipeStream.

Section boost_witnesses.
Import PipeStream.

Lemma connect_resolution_failure_throws_witness :
  connect_host "nowhere" "80" (dialling_socket line) = (Throw system_error, dialling_socket line).
Proof.
  exact (proj1 (connect_resolution_failure_throws "nowhere" "80" (dialling_socket line)
                  system_error line eq_refl)).
Defined.

Lemma sync_connect_forgets_peer_witness :
  connect_host "localhost" "80" (dialling_socket line) = (Ret true, dialling_socket line) /\
  ipv4_address (members (dialling_socket line)) = Ret 0.
Proof.
  split; [reflexivity|].
  exact (proj1 (sync_connect_forgets_peer (Callback := unit) line (dialling_socket line)
                  (inl ("localhost", "80")) eq_refl)).
Defined.
End boost_witnesses.

(** A connection that stays up, with a resolver that knows every name. *)
Module LiveStream.

Record live := mkLive { live_in : list uint8_t; live_out : list uint8_t }.

#[export] Instance live_asio : AsioStream live := {|
  asio_resolve _ _ st := (Ret [mkEndpoint (address_v4 2130706433) 2457], st);
  asio_connect eps st := (bool_decide (eps = []), st);
  asio_connect_endpoint _ st := (false, st);
  asio_handshake _ st := (false, st);
  asio_read buf st :=
    if (length (live_in st) <? length buf)%nat then (true, buf, mkLive [] (live_out st))
    else (false, take (length buf) (live_in st), mkLive (drop (length buf) (live_in st)) (live_out st));
  asio_write bs st := (false, mkLive (live_in st) (live_out st ++ bs));
  asio_shutdown st := (false, st);
  asio_close st := (false, st);
  asio_remote_endpoint _ := (false, mkEndpoint (address_v4 2130706433) 2457);
  address_to_string _ := "127.0.0.1"
|}.

#[export, refine] Instance live_asio_laws : AsioStreamLaws live := {|
  as_incoming := live_in; as_outgoing := live_out |}.
Proof.
  - intros buf st Hl. simpl. rewrite (proj2 (Nat.ltb_ge _ _)) by done. by eexists.
  - intros buf st Hl. simpl. rewrite (proj2 (Nat.ltb_lt _ _)) by done. by do 2 eexists.
  - by intros bs st st' [= <-].
  - by intros bs st st' [=].
  - by intros h sv st e st' [=].
Defined.
End LiveStream.
