(* ===== verification/Ssl.v ===== *)
(** * SSL contexts ([src/src/network/ssl.hpp], [ssl.cpp])

    [boost_ssl_context] configures a [boost::asio::ssl::context]: the native
    context is a parameter, with the throwing overloads the code calls.  What the
    calls do to it is said through an observation, its configuration: a call
    whose material is usable makes its setting, any other throws and leaves a
    context of which nothing is known.  The contexts of the example programs are set up here too. *)

From stdpp Require Import strings.
From S2P Require Import Prelude.

Inductive crypto_file_format : Type := asn1 | pem.

(** [boost::asio::ssl::context::file_format] and [::method]. *)
Inductive ssl_file_format_type : Type := native_asn1 | native_pem.
Inductive ssl_method_type : Type := tlsv12_client | tlsv12_server.

(** Where key material comes from. *)
Inductive material : Type := from_file (path : string) | from_buffer (bytes : list uint8_t).

(** The native context: the calls the code makes; each throws when it fails. *)
Class NativeContext (C : Type) := {
  verify_none : Z;
  verify_peer : Z;
  verify_fail_if_no_peer_cert : Z;
  native_set_verify_mode : Z -> M C unit;
  native_load_verify_file : string -> M C unit;
  native_add_certificate_authority : list uint8_t -> M C unit;
  native_use_tmp_dh_file : string -> M C unit;
  native_use_tmp_dh : list uint8_t -> M C unit;
  native_use_certificate_file : string -> ssl_file_format_type -> M C unit;
  native_use_certificate : list uint8_t -> ssl_file_format_type -> M C unit;
  native_use_private_key_file : string -> ssl_file_format_type -> M C unit;
  native_use_private_key : list uint8_t -> ssl_file_format_type -> M C unit;
  native_set_options : Z -> M C unit;
  native_clear_options : Z -> M C unit
}.

Section code.
Context `{NativeContext C}.

(** [boost_ssl_context::disable_peer_verification] and [require_peer_verification]. *)
Definition disable_peer_verification : M C unit := native_set_verify_mode verify_none.

Definition require_peer_verification : M C unit :=
  native_set_verify_mode (Z.lor verify_peer verify_fail_if_no_peer_cert).

(** [boost_ssl_context::load_verify_file] and [add_certificate_authority]. *)
Definition load_verify_file (path_to_file : string) : M C unit := native_load_verify_file path_to_file.

Definition add_certificate_authority (buffer : list uint8_t) : M C unit :=
  native_add_certificate_authority buffer.

(** [boost_ssl_context::use_tmp_dh_file] and [use_tmp_dh]. *)
Definition use_tmp_dh_file (path_to_file : string) : M C unit := native_use_tmp_dh_file path_to_file.

Definition use_tmp_dh (buffer : list uint8_t) : M C unit := native_use_tmp_dh buffer.

(** [boost_ssl_context::ssl_file_format]. *)
Definition ssl_file_format (file_format : crypto_file_format) : ssl_file_format_type :=
  match file_format with asn1 => native_asn1 | pem => native_pem end.

(** [boost_ssl_context::use_certificate], from a file and from a buffer. *)
Definition use_certificate_file (path : string) (file_format : crypto_file_format) : M C unit :=
  let ssl_ff := ssl_file_format file_format in native_use_certificate_file path ssl_ff.

Definition use_certificate (buffer : list uint8_t) (file_format : crypto_file_format) : M C unit :=
  let ssl_ff := ssl_file_format file_format in native_use_certificate buffer ssl_ff.

(** [boost_ssl_context::use_private_key], from a file and from a buffer. *)
Definition use_private_key_file (path : string) (file_format : crypto_file_format) : M C unit :=
  let ssl_ff := ssl_file_format file_format in native_use_private_key_file path ssl_ff.

Definition use_private_key (buffer : list uint8_t) (file_format : crypto_file_format) : M C unit :=
  let ssl_ff := ssl_file_format file_format in native_use_private_key buffer ssl_ff.

(** [boost_ssl_context::set_options] and [clear_options]. *)
Definition set_options (options : Z) : M C unit := native_set_options options.
Definition clear_options (options : Z) : M C unit := native_clear_options options.

(** [set_up_ssl_context] of the peer example. *)
Definition set_up_ssl_context (certificate private_key : string) : M C unit :=
  _ ← require_peer_verification;
  _ ← load_verify_file "certificate_authority.pem";
  _ ← use_certificate_file certificate pem;
  _ ← use_private_key_file private_key pem;
  use_tmp_dh_file "dhparams.pem".

(** [set_up_ssl_context] of the client, and of the server. *)
Definition set_up_client_context : M C unit :=
  _ ← require_peer_verification;
  _ ← load_verify_file "certificate_authority.pem";
  _ ← use_certificate_file "client_certificate.pem" pem;
  _ ← use_private_key_file "client_private_key.pem" pem;
  use_tmp_dh_file "dhparams.pem".

Definition set_up_server_context : M C unit :=
  _ ← require_peer_verification;
  _ ← load_verify_file "certificate_authority.pem";
  _ ← use_certificate_file "server_certificate.pem" pem;
  _ ← use_private_key_file "server_private_key.pem" pem;
  use_tmp_dh_file "dhparams.pem".
End code.

(** ** The configuration of a context *)

Record ctx_config := mkConfig {
  cfg_verify : Z;
  cfg_authorities : list material;
  cfg_certificate : option (material * ssl_file_format_type);
  cfg_key : option (material * ssl_file_format_type);
  cfg_dh : option material
}.

(** What one call changes. *)
Definition with_verify (m : Z) (c : ctx_config) : ctx_config :=
  mkConfig m (cfg_authorities c) (cfg_certificate c) (cfg_key c) (cfg_dh c).
Definition with_authority (a : material) (c : ctx_config) : ctx_config :=
  mkConfig (cfg_verify c) (cfg_authorities c ++ [a]) (cfg_certificate c) (cfg_key c) (cfg_dh c).
Definition with_certificate (a : material) (f : ssl_file_format_type) (c : ctx_config) : ctx_config :=
  mkConfig (cfg_verify c) (cfg_authorities c) (Some (a, f)) (cfg_key c) (cfg_dh c).
Definition with_key (a : material) (f : ssl_file_format_type) (c : ctx_config) : ctx_config :=
  mkConfig (cfg_verify c) (cfg_authorities c) (cfg_certificate c) (Some (a, f)) (cfg_dh c).
Definition with_dh (a : material) (c : ctx_config) : ctx_config :=
  mkConfig (cfg_verify c) (cfg_authorities c) (cfg_certificate c) (cfg_key c) (Some a).

(** A call whose file or buffer is usable ([ok]) returns with the change [f] made;
    any other throws [system_error], and nothing is said of the context it leaves. *)
Definition performs {C} (observe : C -> ctx_config) (ok : ctx_config -> bool)
    (f : ctx_config -> ctx_config -> Prop) (m : M C unit) : Prop :=
  forall c, if ok (observe c)
            then exists c', m c = (Ret tt, c') /\ f (observe c) (observe c')
            else exists c', m c = (Throw system_error, c').

(** A new certificate may cost a key that does not belong to it. *)
Definition certified (a : material) (f : ssl_file_format_type) (c c' : ctx_config) : Prop :=
  cfg_verify c' = cfg_verify c /\ cfg_authorities c' = cfg_authorities c /\
  cfg_certificate c' = Some (a, f) /\ (cfg_key c' = cfg_key c \/ cfg_key c' = None) /\ cfg_dh c' = cfg_dh c.

(** What Asio and OpenSSL document of the calls: what is usable as what, where a
    key must belong to the certificate in place, and the setting each call makes. *)
Class NativeContextLaws (C : Type) `{NativeContext C} := {
  observe : C -> ctx_config;
  verify_mode_ok : Z -> bool;
  authority_ok : material -> bool;
  certificate_ok : material -> ssl_file_format_type -> bool;
  key_ok : option (material * ssl_file_format_type) -> material -> ssl_file_format_type -> bool;
  dh_ok : material -> bool;
  law_set_verify_mode m :
    performs observe (fun _ => verify_mode_ok m) (fun c c' => c' = with_verify m c) (native_set_verify_mode m);
  law_load_verify_file p :
    performs observe (fun _ => authority_ok (from_file p)) (fun c c' => c' = with_authority (from_file p) c)
      (native_load_verify_file p);
  law_add_authority b :
    performs observe (fun _ => authority_ok (from_buffer b)) (fun c c' => c' = with_authority (from_buffer b) c)
      (native_add_certificate_authority b);
  law_use_dh_file p :
    performs observe (fun _ => dh_ok (from_file p)) (fun c c' => c' = with_dh (from_file p) c)
      (native_use_tmp_dh_file p);
  law_use_dh b :
    performs observe (fun _ => dh_ok (from_buffer b)) (fun c c' => c' = with_dh (from_buffer b) c)
      (native_use_tmp_dh b);
  law_use_certificate_file p f :
    performs observe (fun _ => certificate_ok (from_file p) f) (certified (from_file p) f)
      (native_use_certificate_file p f);
  law_use_certificate b f :
    performs observe (fun _ => certificate_ok (from_buffer b) f) (certified (from_buffer b) f)
      (native_use_certificate b f);
  law_use_key_file p f :
    performs observe (fun c => key_ok (cfg_certificate c) (from_file p) f)
      (fun c c' => c' = with_key (from_file p) f c) (native_use_private_key_file p f);
  law_use_key b f :
    performs observe (fun c => key_ok (cfg_certificate c) (from_buffer b) f)
      (fun c c' => c' = with_key (from_buffer b) f c) (native_use_private_key b f)
}.

(** Mutual TLS with this certificate and key. *)
Definition mutual_tls `{NativeContext C} (certificate key : string) (c : ctx_config) : ctx_config :=
  mkConfig (Z.lor verify_peer verify_fail_if_no_peer_cert)
    (cfg_authorities c ++ [from_file "certificate_authority.pem"])
    (Some (from_file certificate, native_pem)) (Some (from_file key, native_pem))
    (Some (from_file "dhparams.pem")).

(** All the files that a set-up needs are there and are what they should be. *)
Definition files_usable `{NativeContextLaws C} (certificate key : string) : bool :=
  verify_mode_ok (Z.lor verify_peer verify_fail_if_no_peer_cert) &&
  authority_ok (from_file "certificate_authority.pem") &&
  certificate_ok (from_file certificate) native_pem &&
  key_ok (Some (from_file certificate, native_pem)) (from_file key) native_pem &&
  dh_ok (from_file "dhparams.pem").

(** A sequence of calls goes on, or throws with the first that fails. *)
Lemma performs_bind {C} (observe : C -> ctx_config) ok f (m : M C unit) (k : unit -> M C unit)
    (c : C) (rest : bool) (Q : C -> Prop) :
  performs observe ok f m ->
  (forall c', f (observe c) (observe c') ->
    if rest then exists c'', k tt c' = (Ret tt, c'') /\ Q c'' else exists c'', k tt c' = (Throw system_error, c'')) ->
  if ok (observe c) && rest
  then exists c', (m ≫= k) c = (Ret tt, c') /\ Q c'
  else exists c', (m ≫= k) c = (Throw system_error, c').
Proof.
  intros Hm Hk. specialize (Hm c). unfold mbind, M_bind. destruct (ok (observe c)); simpl.
  - destruct Hm as (c1 & -> & Hf). exact (Hk c1 Hf).
  - destruct Hm as (c1 & ->). by eexists.
Qed.

Lemma set_up_outcome `{NativeContextLaws C} (certificate key : string) (c : C) :
  if files_usable certificate key
  then exists c', set_up_ssl_context certificate key c = (Ret tt, c') /\
         observe c' = mutual_tls certificate key (observe c)
  else exists c', set_up_ssl_context certificate key c = (Throw system_error, c').
Proof.
  unfold files_usable. rewrite <-!andb_assoc.
  apply (performs_bind observe (fun _ => verify_mode_ok _) _ _ _ _ _ _ (law_set_verify_mode _)).
  intros c1 H1. apply (performs_bind observe (fun _ => authority_ok _) _ _ _ _ _ _ (law_load_verify_file _)).
  intros c2 H2. apply (performs_bind observe (fun _ => certificate_ok _ _) _ _ _ _ _ _ (law_use_certificate_file _ _)).
  intros c3 (E1 & E2 & E3 & _ & E5). rewrite <-E3.
  apply (performs_bind observe (fun c => key_ok (cfg_certificate c) _ _) _ _ _ _ _ _ (law_use_key_file _ _)).
  intros c4 H4. pose proof (law_use_dh_file "dhparams.pem" c4) as H5.
  unfold use_tmp_dh_file. destruct (dh_ok _); [|exact H5]. destruct H5 as (c5 & -> & H5).
  exists c5. split; [done|]. rewrite H5, H4. unfold with_dh, with_key, mutual_tls. simpl.
  by rewrite E1, E2, E3, H2, H1.
Qed.

(** C36 The examples' contexts are set up for mutual TLS or not at all: the set-up
    returns exactly when the certificate authority, the certificate, the key that
    belongs to it and the Diffie-Hellman parameters can all be used, and then the
    context requires a verified certificate of the peer and has the authority, the
    certificate, the key (both read as PEM) and the parameters it should; when any
    of them cannot be used, the set-up throws [system_error]. *)
Theorem set_up_mutual_tls `{NativeContextLaws C} (certificate key : string) (c : C) :
  (files_usable certificate key = true ->
   exists c', set_up_ssl_context certificate key c = (Ret tt, c') /\
     observe c' = mutual_tls certificate key (observe c)) /\
  (files_usable certificate key = false ->
   exists c', set_up_ssl_context certificate key c = (Throw system_error, c')).
Proof.
  pose proof (set_up_outcome certificate key c) as Hs. by split; intros E; rewrite E in Hs.
Qed.

(** ** A concrete context *)
Module ToyContext.

(** The configuration itself.  A file whose name is empty is not usable, and a
    failed call leaves the context without a certificate and a key. *)
Definition toy_change (ok : ctx_config -> bool) (f : ctx_config -> ctx_config) : M ctx_config unit := fun c =>
  if ok c then (Ret tt, f c)
  else (Throw system_error, mkConfig (cfg_verify c) (cfg_authorities c) None None (cfg_dh c)).

Definition usable (a : material) : bool :=
  match a with from_file p => negb (String.eqb p "") | from_buffer b => negb (bool_decide (b = [])) end.

(** A key is usable with a certificate. *)
Definition usable_key (certificate : option (material * ssl_file_format_type)) (a : material)
    (_ : ssl_file_format_type) : bool :=
  usable a && match certificate with Some _ => true | None => false end.

(** The key is dropped with the certificate it belonged to. *)
Definition toy_certificate (a : material) (f : ssl_file_format_type) (c : ctx_config) : ctx_config :=
  mkConfig (cfg_verify c) (cfg_authorities c) (Some (a, f)) None (cfg_dh c).

#[export] Instance toy_context : NativeContext ctx_config := {|
  verify_none := 0; verify_peer := 1; verify_fail_if_no_peer_cert := 2;
  native_set_verify_mode m := toy_change (fun _ => true) (with_verify m);
  native_load_verify_file p := toy_change (fun _ => usable (from_file p)) (with_authority (from_file p));
  native_add_certificate_authority b := toy_change (fun _ => usable (from_buffer b)) (with_authority (from_buffer b));
  native_use_tmp_dh_file p := toy_change (fun _ => usable (from_file p)) (with_dh (from_file p));
  native_use_tmp_dh b := toy_change (fun _ => usable (from_buffer b)) (with_dh (from_buffer b));
  native_use_certificate_file p f := toy_change (fun _ => usable (from_file p)) (toy_certificate (from_file p) f);
  native_use_certificate b f := toy_change (fun _ => usable (from_buffer b)) (toy_certificate (from_buffer b) f);
  native_use_private_key_file p f :=
    toy_change (fun c => usable_key (cfg_certificate c) (from_file p) f) (with_key (from_file p) f);
  native_use_private_key b f :=
    toy_change (fun c => usable_key (cfg_certificate c) (from_buffer b) f) (with_key (from_buffer b) f);
  native_set_options _ := toy_change (fun _ => true) id;
  native_clear_options _ := toy_change (fun _ => true) id
|}.

Lemma toy_performs ok g (f : ctx_config -> ctx_config -> Prop) :
  (forall c, f c (g c)) -> performs id ok f (toy_change ok g).
Proof. intros Hf c. unfold toy_change, id. destruct (ok c); eexists; [split; [done|apply Hf]|done]. Qed.

#[export, refine] Instance toy_context_laws : NativeContextLaws ctx_config := {|
  observe := id; verify_mode_ok _ := true; authority_ok := usable; certificate_ok a _ := usable a;
  key_ok := usable_key; dh_ok := usable |}.
Proof. all: intros; apply toy_performs; intros c; first [done | split_and!; try done; by right]. Defined.

Definition blank : ctx_config := mkConfig 0 [] None None None.
End ToyContext.

(** The client's and the server's set-up are the peer's at their file names. *)
Lemma set_up_client_eq `{NativeContext C} :
  set_up_client_context = set_up_ssl_context "client_certificate.pem" "client_private_key.pem".
Proof. reflexivity. Qed.

Lemma set_up_server_eq `{NativeContext C} :
  set_up_server_context = set_up_ssl_context "server_certificate.pem" "server_private_key.pem".
Proof. reflexivity. Qed.

Section ssl_witnesses.
Import ToyContext.

Lemma set_up_mutual_tls_witness :
  (exists c', set_up_server_context blank = (Ret tt, c') /\ cfg_verify c' = 3 /\
     cfg_key c' = Some (from_file "server_private_key.pem", native_pem)) /\
  (exists c', set_up_ssl_context "a.pem" "" blank = (Throw system_error, c') /\ cfg_certificate c' = None).
Proof.
  destruct (set_up_mutual_tls "server_certificate.pem" "server_private_key.pem" blank) as [R1 _].
  destruct (set_up_mutual_tls "a.pem" "" blank) as [_ R2].
  destruct (R1 eq_refl) as (c1 & E1 & O1). destruct (R2 eq_refl) as (c2 & E2).
  split.
  - exists c1. rewrite set_up_server_eq. split; [exact E1|]. by rewrite (O1 : c1 = _).
  - exists c2. split; [exact E2|]. vm_compute in E2. by injection E2 as <-.
Defined.
End ssl_witnesses.
