(* ===== verification/SessionManager.v ===== *)
(** * The session managers ([src/src/connection/session_manager.hpp], [.cpp])

    [session_manager] and [boost_session_manager] as one state: the settings, the
    registered sessions and their number per address, and, for the latter, what
    it needs to dial again.  Sessions are objects of a heap, named by their
    address; of a session the manager uses the socket's settings and its remote
    endpoint.  The completion handlers the managers hand to Asio are the
    constructors of [mgr_op], with what they captured.  Each operation and each
    handler is one step here; ManagerThreads.v takes them apart at the mutexes and
    at the tests of [reconnect_stopped_].

    Code the user supplies ([on_connect_], [on_disconnect_]) is an event of the
    log, as are the calls on the sessions ([start], [close]). *)

From stdpp Require Import strings.
From Stdlib Require Import Floats.SpecFloat.
From S2P Require Import Prelude SocketTimers BoostSocket.

(** A [session*]. *)
Abbreviation sid := nat.

(** ** Data *)

Record settings := mkSettings {
  mgr_idle_timeout_ : Z;
  mgr_heartbeat_timeout_ : Z;
  mgr_handshake_timeout_ : Z;
  mgr_max_message_size_ : Z;
  mgr_max_pending_writes_ : Z;
  max_sessions_ : Z;
  max_connections_per_ip_ : Z;
  on_connect_ : bool;                (* whether the callbacks are set *)
  on_disconnect_ : bool
}.

Definition default_settings : settings := mkSettings 0 0 0 0 0 0 0 false false.

(** The setters of [session_manager]. *)
Inductive setter : Type :=
| set_mgr_idle_timeout (timeout : Z)
| set_mgr_heartbeat_timeout (timeout : Z)
| set_mgr_handshake_timeout (timeout : Z)
| set_mgr_max_message_size (max_size : Z)
| set_mgr_max_pending_writes (max_pending : Z)
| set_max_sessions (max : Z)
| set_max_connections_per_ip (max : Z)
| set_on_connect (callback : bool)
| set_on_disconnect (callback : bool).

Definition apply_setter (f : setter) (c : settings) : settings :=
  let 'mkSettings it ht st mm mp ms mi oc od := c in
  match f with
  | set_mgr_idle_timeout v => mkSettings v ht st mm mp ms mi oc od
  | set_mgr_heartbeat_timeout v => mkSettings it v st mm mp ms mi oc od
  | set_mgr_handshake_timeout v => mkSettings it ht v mm mp ms mi oc od
  | set_mgr_max_message_size v => mkSettings it ht st v mp ms mi oc od
  | set_mgr_max_pending_writes v => mkSettings it ht st mm v ms mi oc od
  | set_max_sessions v => mkSettings it ht st mm mp v mi oc od
  | set_max_connections_per_ip v => mkSettings it ht st mm mp ms v oc od
  | set_on_connect v => mkSettings it ht st mm mp ms mi v od
  | set_on_disconnect v => mkSettings it ht st mm mp ms mi oc v
  end.

(** [reconnect_policy], durations in nanoseconds, [multiplier] a double. *)
Record reconnect_policy := mkPolicy {
  initial_delay : Z;
  max_delay : Z;
  policy_idle_timeout : Z;
  multiplier : spec_float;
  max_attempts : Z
}.

(** [boost_session_manager::reconnect_state]; [ssl_context] is a pointer. *)
Record reconnect_state := mkReconnectState {
  rs_host : string;
  rs_service : string;
  rs_ssl_context : nat;
  rs_policy : reconnect_policy;
  rs_attempts : Z;
  rs_current_delay : Z
}.

(** The handlers of the operations in progress. *)
Inductive mgr_op : Type :=
| m_accept_handshake (s : sid)
| m_connect (s : sid)
| m_connect_handshake (s : sid)
| m_dial (s : sid) (state : option reconnect_state)
| m_dial_handshake (s : sid) (state : option reconnect_state)
| m_backoff (state : reconnect_state).

Inductive mevent : Type :=
| ev_connected (s : sid)                       (* on_connect_(sess) *)
| ev_disconnected (s : sid)                    (* on_disconnect_(sess) *)
| ev_started (s : sid)                         (* sess->start() *)
| ev_closed (s : sid)                          (* sess->socket().close() *)
| ev_dial (s : sid) (host service : string)    (* sess->async_connect(...) *)
| ev_wait (delay : Z).                         (* a backoff timer is started *)

Record mworld := mkMWorld {
  cfg : settings;
  sessions_ : list sid;
  connections_per_ip_ : gmap Z Z;
  reconnect_map_ : gmap sid reconnect_state;
  reconnect_stopped_ : bool;
  acceptor_open : bool;
  accepting : nat;                             (* the async_accepts outstanding *)
  heap : gmap sid tcp_socket;                  (* the sockets of the sessions *)
  next_sid : sid;
  mops : list mgr_op;
  mlog : list mevent
}.

Definition new_manager : mworld :=
  mkMWorld default_settings [] ∅ ∅ false true 0 ∅ 0 [] [].

(** ** Elementary updates *)

Definition upd_cfg (f : settings -> settings) (w : mworld) : mworld :=
  mkMWorld (f (cfg w)) (sessions_ w) (connections_per_ip_ w) (reconnect_map_ w)
    (reconnect_stopped_ w) (acceptor_open w) (accepting w) (heap w) (next_sid w) (mops w) (mlog w).

Definition upd_sessions (f : list sid -> list sid) (w : mworld) : mworld :=
  mkMWorld (cfg w) (f (sessions_ w)) (connections_per_ip_ w) (reconnect_map_ w)
    (reconnect_stopped_ w) (acceptor_open w) (accepting w) (heap w) (next_sid w) (mops w) (mlog w).

Definition upd_counts (f : gmap Z Z -> gmap Z Z) (w : mworld) : mworld :=
  mkMWorld (cfg w) (sessions_ w) (f (connections_per_ip_ w)) (reconnect_map_ w)
    (reconnect_stopped_ w) (acceptor_open w) (accepting w) (heap w) (next_sid w) (mops w) (mlog w).

Definition upd_reconnect_map (f : gmap sid reconnect_state -> gmap sid reconnect_state)
    (w : mworld) : mworld :=
  mkMWorld (cfg w) (sessions_ w) (connections_per_ip_ w) (f (reconnect_map_ w))
    (reconnect_stopped_ w) (acceptor_open w) (accepting w) (heap w) (next_sid w) (mops w) (mlog w).

Definition set_reconnect_stopped (w : mworld) : mworld :=
  mkMWorld (cfg w) (sessions_ w) (connections_per_ip_ w) (reconnect_map_ w)
    true (acceptor_open w) (accepting w) (heap w) (next_sid w) (mops w) (mlog w).

Definition close_acceptor (w : mworld) : mworld :=
  mkMWorld (cfg w) (sessions_ w) (connections_per_ip_ w) (reconnect_map_ w)
    (reconnect_stopped_ w) false (accepting w) (heap w) (next_sid w) (mops w) (mlog w).

Definition upd_accepting (f : nat -> nat) (w : mworld) : mworld :=
  mkMWorld (cfg w) (sessions_ w) (connections_per_ip_ w) (reconnect_map_ w)
    (reconnect_stopped_ w) (acceptor_open w) (f (accepting w)) (heap w) (next_sid w) (mops w) (mlog w).

Definition upd_socket (s : sid) (f : tcp_socket -> tcp_socket) (w : mworld) : mworld :=
  mkMWorld (cfg w) (sessions_ w) (connections_per_ip_ w) (reconnect_map_ w)
    (reconnect_stopped_ w) (acceptor_open w) (accepting w) (alter f s (heap w)) (next_sid w)
    (mops w) (mlog w).

Definition start_mop (o : mgr_op) (w : mworld) : mworld :=
  mkMWorld (cfg w) (sessions_ w) (connections_per_ip_ w) (reconnect_map_ w)
    (reconnect_stopped_ w) (acceptor_open w) (accepting w) (heap w) (next_sid w)
    (mops w ++ [o]) (mlog w).

Definition finish_mop (i : nat) (w : mworld) : mworld :=
  mkMWorld (cfg w) (sessions_ w) (connections_per_ip_ w) (reconnect_map_ w)
    (reconnect_stopped_ w) (acceptor_open w) (accepting w) (heap w) (next_sid w)
    (delete i (mops w)) (mlog w).

Definition log_event (e : mevent) (w : mworld) : mworld :=
  mkMWorld (cfg w) (sessions_ w) (connections_per_ip_ w) (reconnect_map_ w)
    (reconnect_stopped_ w) (acceptor_open w) (accepting w) (heap w) (next_sid w) (mops w)
    (mlog w ++ [e]).

(** [std::make_shared<SessionT>(std::move(socket), shared_from_this())]. *)
Definition make_session (sock : tcp_socket) : M mworld sid := fun w =>
  (Ret (next_sid w),
   mkMWorld (cfg w) (sessions_ w) (connections_per_ip_ w) (reconnect_map_ w)
     (reconnect_stopped_ w) (acceptor_open w) (accepting w) (<[next_sid w := sock]> (heap w))
     (S (next_sid w)) (mops w) (mlog w)).

(** [sess->socket()]. *)
Definition socket_of (s : sid) (w : mworld) : tcp_socket := default new_tcp_socket (heap w !! s).

(** ** [session_manager] *)

(** [session_manager::apply_caps], on the socket of the session. *)
Definition apply_caps (c : settings) (sock : tcp_socket) : tcp_socket :=
  let sock := if negb (mgr_idle_timeout_ c =? 0) then set_idle_timeout (mgr_idle_timeout_ c) sock else sock in
  let sock := if negb (mgr_heartbeat_timeout_ c =? 0) then set_heartbeat_timeout (mgr_heartbeat_timeout_ c) sock else sock in
  let sock := if negb (mgr_handshake_timeout_ c =? 0) then set_handshake_timeout (mgr_handshake_timeout_ c) sock else sock in
  let sock := if negb (mgr_max_message_size_ c =? 0) then set_max_message_size (mgr_max_message_size_ c) sock else sock in
  if negb (mgr_max_pending_writes_ c =? 0) then set_max_pending_writes (mgr_max_pending_writes_ c) sock else sock.

Definition apply_caps_to (s : sid) (w : mworld) : mworld := upd_socket s (apply_caps (cfg w)) w.

(** [++connections_per_ip_[ip]]. *)
Definition count_up (ip : Z) (m : gmap Z Z) : gmap Z Z := <[ip := default 0 (m !! ip) + 1]> m.

(** [session_manager::register_and_start]. *)
Definition register_and_start (s : sid) : M mworld unit :=
  _ ← modify (upd_sessions (fun l => l ++ [s]));
  sock ← gets (socket_of s);
  ip ← lift_outcome (ipv4_address sock);
  _ ← modify (upd_counts (count_up ip));
  has_callback ← gets (fun w => on_connect_ (cfg w));
  _ ← modify (if has_callback : bool then log_event (ev_connected s) else id);
  modify (log_event (ev_started s)).

(** [session_manager::can_ip_connect]. *)
Definition can_ip_connect (ip : Z) (w : mworld) : bool :=
  if negb (max_sessions_ (cfg w) =? 0) && (zlen (sessions_ w) >=? max_sessions_ (cfg w)) then false
  else if negb (max_connections_per_ip_ (cfg w) =? 0) then
    match connections_per_ip_ w !! ip with
    | Some n => if n >=? max_connections_per_ip_ (cfg w) then false else true
    | None => true
    end
  else true.

(** [session_manager::add_session]. *)
Definition add_session (s : sid) : M mworld unit :=
  sock ← gets (socket_of s);
  ip ← lift_outcome (ipv4_address sock);
  ok ← gets (can_ip_connect ip);
  if negb ok then modify (log_event (ev_closed s)) else
  _ ← modify (apply_caps_to s);
  modify (start_mop (m_accept_handshake s)).

(** [session_manager::connect]. *)
Definition connect (s : sid) (host service : string) : M mworld unit :=
  _ ← modify (apply_caps_to s);
  _ ← modify (log_event (ev_dial s host service));
  modify (start_mop (m_connect s)).

(** [std::find_if] and [sessions_.erase]. *)
Fixpoint erase_first (s : sid) (l : list sid) : list sid :=
  match l with
  | [] => []
  | x :: l => if decide (x = s) then l else x :: erase_first s l
  end.

(** [find(ip)], [--ip_entry->second == 0], [erase(ip_entry)]. *)
Definition count_down (ip : Z) (m : gmap Z Z) : gmap Z Z :=
  match m !! ip with
  | Some n => if n - 1 =? 0 then delete ip m else <[ip := n - 1]> m
  | None => m
  end.

(** [session_manager::remove_session]; [hook] is the virtual
    [on_session_removed]. *)
Definition remove_session (hook : sid -> mworld -> mworld) (s : sid) : M mworld unit :=
  registered ← gets sessions_;
  if negb (bool_decide (s ∈ registered)) then mret tt else
  _ ← modify (upd_sessions (erase_first s));
  sock ← gets (socket_of s);
  ip ← lift_outcome (ipv4_address sock);
  _ ← modify (upd_counts (count_down ip));
  has_callback ← gets (fun w => on_disconnect_ (cfg w));
  _ ← modify (if has_callback : bool then log_event (ev_disconnected s) else id);
  modify (hook s).

(** [session_manager::session_count]. *)
Definition session_count (w : mworld) : Z := zlen (sessions_ w).

(** [session_manager::for_each_session]; [fn] runs under the lock, on state of
    its own. *)
Definition for_each_session {A} (fn : sid -> A -> A) (w : mworld) (a : A) : A :=
  fold_left (fun a s => fn s a) (sessions_ w) a.

(** [session_manager::stop]. *)
Definition base_stop (w : mworld) : mworld :=
  let w := fold_left (fun w s => log_event (ev_closed s) w) (sessions_ w) w in
  upd_counts (fun _ => ∅) (upd_sessions (fun _ => []) w).

(** ** [boost_session_manager] *)

(** *** The backoff delay

    [std::chrono] computes [current_delay * multiplier] in doubles: the count is
    converted to the nearest double, multiplied, and truncated back. *)
Definition double_of_Z (z : Z) : spec_float := binary_normalize 53 1024 z 0 false.

Definition truncate (f : spec_float) : option Z :=
  match f with
  | S754_zero _ => Some 0
  | S754_finite sign m e =>
      let n := if e >=? 0 then Zpos m * 2 ^ e else Zpos m / 2 ^ (- e) in
      Some (if sign then - n else n)
  | _ => None
  end.

Definition in_int64 (z : Z) : bool := (- 2 ^ 63 <=? z) && (z <? 2 ^ 63).

Section backoff.
(** The value of a conversion that the language leaves undefined: a double out
    of the range of [int64_t], or no number. *)
Context (undefined_cast : spec_float -> Z).

Definition int64_of_double (f : spec_float) : Z :=
  match truncate f with
  | Some z => if in_int64 z then z else undefined_cast f
  | None => undefined_cast f
  end.

Definition scale_delay (delay : Z) (m : spec_float) : Z :=
  int64_of_double (SFmul 53 1024 (double_of_Z delay) m).

(** [std::min(duration_cast(current_delay * multiplier), max_delay)]. *)
Definition next_delay (p : reconnect_policy) (delay : Z) : Z :=
  Z.min (scale_delay delay (multiplier p)) (max_delay p).

Definition with_attempts (n : Z) (st : reconnect_state) : reconnect_state :=
  mkReconnectState (rs_host st) (rs_service st) (rs_ssl_context st) (rs_policy st) n
    (rs_current_delay st).

Definition with_delay (d : Z) (st : reconnect_state) : reconnect_state :=
  mkReconnectState (rs_host st) (rs_service st) (rs_ssl_context st) (rs_policy st)
    (rs_attempts st) d.

(** [boost_session_manager::schedule_reconnect]. *)
Definition schedule_reconnect (st : reconnect_state) (w : mworld) : mworld :=
  if reconnect_stopped_ w then w else
  let st := with_attempts ((rs_attempts st + 1) mod u64_modulus) st in
  if negb (max_attempts (rs_policy st) =? 0) && (rs_attempts st >? max_attempts (rs_policy st))
  then w
  else start_mop (m_backoff st) (log_event (ev_wait (rs_current_delay st)) w).

(** [boost_session_manager::on_session_removed]. *)
Definition on_session_removed (s : sid) (w : mworld) : mworld :=
  match reconnect_map_ w !! s with
  | Some st => schedule_reconnect st (upd_reconnect_map (delete s) w)
  | None => w
  end.

(** [boost_session_manager::do_connect]. *)
Definition do_connect (s : sid) (host service : string) (state : option reconnect_state)
    (w : mworld) : mworld :=
  let w := apply_caps_to s w in
  let w := match state with
           | Some st => if policy_idle_timeout (rs_policy st) >? 0
                        then upd_socket s (set_idle_timeout (policy_idle_timeout (rs_policy st))) w
                        else w
           | None => w
           end in
  start_mop (m_dial s state) (log_event (ev_dial s host service) w).

(** [boost_session_manager::attempt_reconnect]. *)
Definition attempt_reconnect (st : reconnect_state) : M mworld unit :=
  stopped ← gets reconnect_stopped_;
  if stopped : bool then mret tt else
  s ← make_session new_tcp_socket;
  modify (do_connect s (rs_host st) (rs_service st) (Some st)).

Definition is_some_state (state : option reconnect_state) : bool :=
  match state with Some _ => true | None => false end.

(** The handler of [async_connect] in [do_connect]. *)
Definition on_dialled (s : sid) (state : option reconnect_state) (connected : bool)
    (w : mworld) : mworld :=
  if is_some_state state && reconnect_stopped_ w then w else
  if negb connected then
    match state with Some st => schedule_reconnect st w | None => w end
  else start_mop (m_dial_handshake s state) w.

(** The handler of [async_handshake] in [do_connect]. *)
Definition on_dial_handshake (s : sid) (state : option reconnect_state) (is_valid : bool)
    : M mworld unit :=
  stopped ← gets reconnect_stopped_;
  if is_some_state state && stopped then mret tt else
  if negb is_valid then
    modify (match state with Some st => schedule_reconnect st | None => id end)
  else
  _ ← modify (match state with
              | Some st =>
                  upd_reconnect_map
                    (insert s (with_delay (initial_delay (rs_policy st)) (with_attempts 0 st)))
              | None => id
              end);
  register_and_start s.

(** The handler of the wait in [schedule_reconnect]. *)
Definition on_backoff (st : reconnect_state) (ec : bool) : M mworld unit :=
  stopped ← gets reconnect_stopped_;
  if ec || stopped then mret tt else
  attempt_reconnect (with_delay (next_delay (rs_policy st) (rs_current_delay st)) st).

(** The handlers of [session_manager::connect] and [add_session]. *)
Definition on_base_connected (s : sid) (connected : bool) (w : mworld) : mworld :=
  if negb connected then w else start_mop (m_connect_handshake s) w.

Definition on_base_handshake (s : sid) (is_valid : bool) : M mworld unit :=
  if is_valid then register_and_start s else mret tt.

(** [boost_session_manager::connect], without and with a policy. *)
Definition boost_connect (host service : string) (ssl_context : nat) : M mworld sid :=
  s ← make_session new_tcp_socket;
  _ ← modify (do_connect s host service None);
  mret s.

Definition boost_connect_policy (host service : string) (ssl_context : nat)
    (policy : reconnect_policy) : M mworld sid :=
  s ← make_session new_tcp_socket;
  let state := mkReconnectState host service ssl_context policy 0 (initial_delay policy) in
  _ ← modify (do_connect s host service (Some state));
  mret s.

(** [boost_session_manager::async_wait_for_connection], and its handler; the
    endpoint is the one [capture_remote_endpoint] finds. *)
Definition async_wait_for_connection : mworld -> mworld := upd_accepting S.

Definition on_accept (error_code : bool) (remote : endpoint) : M mworld unit :=
  _ ← modify (upd_accepting pred);
  if error_code then mret tt else
  s ← make_session (set_remote_endpoint remote new_tcp_socket);
  _ ← add_session s;
  modify async_wait_for_connection.

(** [boost_session_manager::stop]. *)
Definition stop (w : mworld) : mworld :=
  let w := set_reconnect_stopped w in
  let w := upd_reconnect_map (fun _ => ∅) w in
  let w := close_acceptor w in
  base_stop w.

(** A connection attempt that succeeded has set the remote endpoint. *)
Definition connected_to (s : sid) (ok : bool) (e : endpoint) (w : mworld) : mworld :=
  if ok then upd_socket s (set_remote_endpoint e) w else w.

(** The completion of an operation. *)
Definition on_mop (o : mgr_op) (ok : bool) (e : endpoint) : M mworld unit :=
  match o with
  | m_accept_handshake s => on_base_handshake s ok
  | m_connect s => modify (fun w => on_base_connected s ok (connected_to s ok e w))
  | m_connect_handshake s => on_base_handshake s ok
  | m_dial s state => modify (fun w => on_dialled s state ok (connected_to s ok e w))
  | m_dial_handshake s state => on_dial_handshake s state ok
  | m_backoff st => on_backoff st (negb ok)
  end.

(** ** Runs *)

Inductive mlabel : Type :=
| ml_set (f : setter)
| ml_listen
| ml_accept (error_code : bool) (remote : endpoint)
| ml_add (sock : tcp_socket)
| ml_connect (sock : tcp_socket) (host service : string)
| ml_boost_connect (host service : string) (ssl_context : nat)
| ml_boost_connect_policy (host service : string) (ssl_context : nat) (policy : reconnect_policy)
| ml_complete (i : nat) (ok : bool) (e : endpoint)
| ml_remove (s : sid)
| ml_stop.

(** One step, if it is possible.  An accept succeeds only on an open acceptor;
    an exception leaves the handler and the world as it is.  The sessions that a
    user gives to [add_session] and [connect] are new ones, with a socket of the
    user's making; giving the same session twice is left out. *)
Definition mstep (l : mlabel) (w : mworld) : option mworld :=
  match l with
  | ml_set f => Some (upd_cfg (apply_setter f) w)
  | ml_listen => Some (async_wait_for_connection w)
  | ml_accept ec remote =>
      if (0 <? accepting w)%nat && (ec || acceptor_open w) then Some (on_accept ec remote w).2 else None
  | ml_add sock => Some ((s ← make_session sock; add_session s) w).2
  | ml_connect sock h sv => Some ((s ← make_session sock; connect s h sv) w).2
  | ml_boost_connect h sv ssl => Some (boost_connect h sv ssl w).2
  | ml_boost_connect_policy h sv ssl p => Some (boost_connect_policy h sv ssl p w).2
  | ml_complete i ok e =>
      o ← mops w !! i;
      Some (on_mop o ok e (finish_mop i w)).2
  | ml_remove s => Some (remove_session on_session_removed s w).2
  | ml_stop => Some (stop w)
  end.

Fixpoint mrun (ls : list mlabel) (w : mworld) : option mworld :=
  match ls with
  | [] => Some w
  | l :: ls => w ← mstep l w; mrun ls w
  end.
End backoff.
