(* ===== verification/ManagerCorrect.v ===== *)
(** * Correctness of the session managers

    The invariant of the registry (every session at most once, the number of
    sessions per address exact), what admission control, removal and [stop] do,
    and how far the limits bind. *)

From stdpp Require Import strings.
From Stdlib Require Import Floats.SpecFloat.
From S2P Require Import Prelude SocketTimers BoostSocket SessionManager.

(** ** The registry invariant *)

(** The session that an operation in progress is about. *)
Definition op_sids (o : mgr_op) : list sid :=
  match o with
  | m_accept_handshake s | m_connect s | m_connect_handshake s
  | m_dial s _ | m_dial_handshake s _ => [s]
  | m_backoff _ => []
  end.

Definition pending (w : mworld) : list sid := mops w ≫= op_sids.

Definition has_ip (h : gmap sid tcp_socket) (ip : Z) (s : sid) : Prop :=
  ipv4_address (default new_tcp_socket (h !! s)) = Ret ip.

#[global] Instance has_ip_dec h ip s : Decision (has_ip h ip s).
Proof. unfold has_ip. apply _. Defined.

(** The number of registered sessions with an address. *)
Definition ip_count (h : gmap sid tcp_socket) (l : list sid) (ip : Z) : Z :=
  zlen (filter (has_ip h ip) l).

Definition entry_for (n : Z) : option Z := if n =? 0 then None else Some n.

Record minv (w : mworld) : Prop := {
  mi_nodup : NoDup (sessions_ w ++ pending w);
  mi_known : Forall (fun s => s < next_sid w)%nat (sessions_ w ++ pending w);
  mi_counts : forall ip, connections_per_ip_ w !! ip = entry_for (ip_count (heap w) (sessions_ w) ip)
}.

Lemma minv_ext w w' :
  (sessions_ w', connections_per_ip_ w', heap w', next_sid w', mops w') =
  (sessions_ w, connections_per_ip_ w, heap w, next_sid w, mops w) -> minv w -> minv w'.
Proof.
  intros [= E1 E2 E3 E4 E5] [H1 H2 H3].
  split; unfold pending in *; rewrite ?E1, ?E2, ?E3, ?E4, ?E5; done.
Qed.

(** A session that is neither registered nor on its way. *)
Definition free (s : sid) (w : mworld) : Prop :=
  (s < next_sid w)%nat /\ s ∉ sessions_ w ++ pending w.

Lemma filter_ext_elem {A} (P Q : A -> Prop) `{!forall x, Decision (P x)} `{!forall x, Decision (Q x)}
    (l : list A) :
  (forall x, x ∈ l -> (P x <-> Q x)) -> filter P l = filter Q l.
Proof.
  induction l as [|x l IH]; intros Hl; [done|]. rewrite !filter_cons, IH by (intros y Hy; apply Hl; by right).
  specialize (Hl x ltac:(by left)). by destruct (decide (P x)), (decide (Q x)); try tauto.
Qed.

(** The socket of an unregistered session does not count. *)
Lemma ip_count_heap h h' l ip :
  (forall s, s ∈ l -> h' !! s = h !! s) -> ip_count h' l ip = ip_count h l ip.
Proof.
  intros Hh. unfold ip_count. f_equal. apply filter_ext_elem.
  intros s Hs. unfold has_ip. by rewrite Hh.
Qed.

Lemma minv_socket s f w : s ∉ sessions_ w -> minv w -> minv (upd_socket s f w).
Proof.
  intros Hs [H1 H2 H3]. split; [done..|]. intros ip. simpl. rewrite H3. f_equal. symmetry.
  apply ip_count_heap. intros s' Hs'. apply lookup_alter_ne. set_solver.
Qed.

Lemma minv_make sock w :
  minv w -> minv (make_session sock w).2 /\ free (next_sid w) (make_session sock w).2.
Proof.
  intros [H1 H2 H3].
  assert (next_sid w ∉ sessions_ w ++ pending w) as Hf.
  { intros Hin. apply (proj1 (Forall_forall _ _) H2) in Hin. lia. }
  split; [split|split]; simpl; [done| | |lia|done].
  - apply (Forall_impl _ _ _ H2). intros s Hs. simpl in *. lia.
  - intros ip. rewrite H3. f_equal. symmetry. apply ip_count_heap. intros s Hs.
    apply lookup_insert_ne. set_solver.
Qed.

Lemma pending_start o w : pending (start_mop o w) = pending w ++ op_sids o.
Proof. unfold pending. simpl. rewrite bind_app. simpl. by rewrite app_nil_r. Qed.

Lemma minv_start o s w : op_sids o = [s] -> free s w -> minv w -> minv (start_mop o w).
Proof.
  intros Ho [Hs Hf] [H1 H2 H3]. split; [| |done]; rewrite pending_start, Ho, app_assoc.
  - apply NoDup_app. split_and!; [done| |apply NoDup_singleton].
    intros x Hx ->%list_elem_of_singleton. by apply Hf.
  - apply Forall_app. split; [done|]. by apply Forall_singleton.
Qed.

Lemma minv_start_none o w : op_sids o = [] -> minv w -> minv (start_mop o w).
Proof. intros Ho [H1 H2 H3]. split; [| |done]; rewrite pending_start, Ho, app_nil_r; done. Qed.

Lemma pending_finish i o w : mops w !! i = Some o -> pending w ≡ₚ op_sids o ++ pending (finish_mop i w).
Proof. intros Hi. exact (bind_Permutation op_sids _ _ (delete_Permutation _ _ _ Hi)). Qed.

Lemma minv_finish i o w :
  mops w !! i = Some o -> minv w ->
  minv (finish_mop i w) /\ forall s, s ∈ op_sids o -> free s (finish_mop i w).
Proof.
  intros Hi [H1 H2 H3]. pose proof (pending_finish _ _ _ Hi) as Hp. rewrite Hp in H1, H2.
  assert (sessions_ w ++ op_sids o ++ pending (finish_mop i w) ≡ₚ
          op_sids o ++ sessions_ w ++ pending (finish_mop i w)) as Hp'
    by (rewrite !app_assoc; f_equiv; apply Permutation_app_comm).
  rewrite Hp' in H1, H2. apply NoDup_app in H1 as (Hn1 & Hd & Hn2). apply Forall_app in H2 as [Hk1 Hk2].
  split; [by split|]. intros s Hs. split; [|by apply Hd].
  simpl. by apply (proj1 (Forall_forall _ _) Hk1).
Qed.

(** ** Counting up and down *)

Lemma zlen_nil_inv {A} (l : list A) : zlen l = 0 -> l = [].
Proof. destruct l; [done|]. unfold zlen. simpl. lia. Qed.

Lemma ip_count_snoc h l s ip :
  ip_count h (l ++ [s]) ip = ip_count h l ip + if decide (has_ip h ip s) then 1 else 0.
Proof.
  unfold ip_count. rewrite filter_app, zlen_app, filter_cons. by case_decide.
Qed.

Lemma ip_count_nonneg h l ip : 0 <= ip_count h l ip.
Proof. apply zlen_nonneg. Qed.

Lemma ip_count_erase h l s ip :
  s ∈ l -> ip_count h (erase_first s l) ip = ip_count h l ip - if decide (has_ip h ip s) then 1 else 0.
Proof.
  induction l as [|x l IH]; intros Hs; [by apply not_elem_of_nil in Hs|]. simpl.
  unfold ip_count in *. destruct (decide (x = s)) as [->|Hx].
  - rewrite filter_cons. case_decide; unfold zlen; simpl; lia.
  - apply elem_of_cons in Hs as [->|Hs]; [done|]. rewrite !filter_cons. specialize (IH Hs).
    destruct (decide (has_ip h ip x)); unfold zlen in *; simpl; lia.
Qed.

Lemma count_up_spec h l s ip m :
  (forall ip, m !! ip = entry_for (ip_count h l ip)) -> has_ip h ip s ->
  forall ip', count_up ip m !! ip' = entry_for (ip_count h (l ++ [s]) ip').
Proof.
  intros Hm Hs ip'. unfold count_up. rewrite ip_count_snoc. pose proof (ip_count_nonneg h l ip).
  destruct (decide (ip' = ip)) as [->|Hne].
  - rewrite lookup_insert_eq, decide_True by done. rewrite Hm. unfold entry_for.
    destruct (_ =? 0) eqn:E; [apply Z.eqb_eq in E; rewrite E; done|].
    apply Z.eqb_neq in E. rewrite (proj2 (Z.eqb_neq _ 0)) by lia. done.
  - rewrite lookup_insert_ne by done. rewrite decide_False, Z.add_0_r; [done|].
    unfold has_ip in *. congruence.
Qed.

Lemma count_down_spec h l s ip m :
  (forall ip, m !! ip = entry_for (ip_count h l ip)) -> has_ip h ip s -> s ∈ l ->
  forall ip', count_down ip m !! ip' = entry_for (ip_count h (erase_first s l) ip').
Proof.
  intros Hm Hs Hin ip'. rewrite ip_count_erase by done.
  assert (0 < ip_count h l ip) as Hpos.
  { pose proof (ip_count_nonneg h (erase_first s l) ip) as Hn.
    rewrite ip_count_erase, decide_True in Hn by done. lia. }
  unfold count_down. rewrite (Hm ip). unfold entry_for at 1. rewrite (proj2 (Z.eqb_neq _ 0)) by lia.
  destruct (decide (ip' = ip)) as [->|Hne].
  - rewrite (decide_True (P := has_ip h ip s)) by done. unfold entry_for. destruct (_ - 1 =? 0).
    + apply lookup_delete_eq.
    + apply lookup_insert_eq.
  - rewrite (decide_False (P := has_ip h ip' s)) by (unfold has_ip in *; congruence). rewrite Z.sub_0_r, <-Hm.
    destruct (_ - 1 =? 0); [by apply lookup_delete_ne|by apply lookup_insert_ne].
Qed.

(** The same when the session has no IPv4 address. *)
Lemma ip_count_none h l s e ip :
  ipv4_address (default new_tcp_socket (h !! s)) = Throw e ->
  ip_count h (l ++ [s]) ip = ip_count h l ip /\
  (s ∈ l -> ip_count h (erase_first s l) ip = ip_count h l ip).
Proof.
  intros He. assert (~ has_ip h ip s) as Hn by (unfold has_ip; congruence). split.
  - rewrite ip_count_snoc, decide_False by done. lia.
  - intros Hs. rewrite ip_count_erase, decide_False by done. lia.
Qed.

(** ** Every step keeps the invariant *)

Lemma erase_first_Permutation s l : s ∈ l -> l ≡ₚ s :: erase_first s l.
Proof.
  induction l as [|x l IH]; intros Hs; [by apply not_elem_of_nil in Hs|]. simpl.
  destruct (decide (x = s)) as [->|Hx]; [done|].
  apply elem_of_cons in Hs as [->|Hs]; [done|]. rewrite (IH Hs) at 1. apply perm_swap.
Qed.

(** What registering does, on both branches. *)
Definition registered (s : sid) (w : mworld) : mworld := upd_sessions (fun l => l ++ [s]) w.

Lemma register_run s w :
  register_and_start s w =
  match ipv4_address (socket_of s w) with
  | Ret ip =>
      (Ret tt, log_event (ev_started s)
        ((if on_connect_ (cfg w) then log_event (ev_connected s) else id)
          (upd_counts (count_up ip) (registered s w))))
  | Throw e => (Throw e, registered s w)
  end.
Proof.
  unfold register_and_start, mbind, M_bind, modify, gets, lift_outcome.
  change (socket_of s (upd_sessions (fun l => l ++ [s]) w)) with (socket_of s w).
  by destruct (ipv4_address (socket_of s w)).
Qed.

Lemma minv_registered s w :
  free s w -> minv w -> NoDup (sessions_ (registered s w) ++ pending (registered s w)) /\
  Forall (fun x => x < next_sid (registered s w))%nat (sessions_ (registered s w) ++ pending (registered s w)).
Proof.
  intros [Hs Hf] [H1 H2 _].
  assert (sessions_ (registered s w) ++ pending (registered s w) ≡ₚ
          s :: sessions_ w ++ pending w) as Hp.
  { simpl. change (pending (registered s w)) with (pending w).
    rewrite <-app_assoc. symmetry. apply Permutation_middle. }
  rewrite Hp. split; [by apply NoDup_cons|]. by apply Forall_cons.
Qed.

Lemma minv_register s w : free s w -> minv w -> minv (register_and_start s w).2.
Proof.
  intros Hf Hw. destruct (minv_registered s w Hf Hw) as [Hn Hk]. rewrite register_run.
  destruct (ipv4_address (socket_of s w)) as [ip|e] eqn:E.
  - apply (minv_ext (upd_counts (count_up ip) (registered s w))); [by destruct (on_connect_ _)|].
    split; [done..|]. simpl. by apply count_up_spec; [apply Hw|].
  - split; [done..|]. intros ip. simpl. rewrite (proj1 (ip_count_none _ _ _ _ ip E)). apply Hw.
Qed.

Lemma remove_run hook s w :
  remove_session hook s w =
  if bool_decide (s ∈ sessions_ w) then
    let w1 := upd_sessions (erase_first s) w in
    match ipv4_address (socket_of s w) with
    | Ret ip =>
        (Ret tt, hook s ((if on_disconnect_ (cfg w) then log_event (ev_disconnected s) else id)
                           (upd_counts (count_down ip) w1)))
    | Throw e => (Throw e, w1)
    end
  else (Ret tt, w).
Proof.
  unfold remove_session, mbind, M_bind, modify, gets, lift_outcome.
  destruct (bool_decide _); [|done]. simpl.
  change (socket_of s (upd_sessions (erase_first s) w)) with (socket_of s w).
  by destruct (ipv4_address (socket_of s w)).
Qed.

Lemma minv_schedule st w : minv w -> minv (schedule_reconnect st w).
Proof.
  intros Hw. unfold schedule_reconnect. destruct (reconnect_stopped_ w); [done|]. cbv zeta.
  destruct (_ && _); [done|]. by apply minv_start_none; [|apply (minv_ext w)].
Qed.

Lemma minv_on_session_removed s w : minv w -> minv (on_session_removed s w).
Proof.
  intros Hw. unfold on_session_removed. destruct (reconnect_map_ w !! s); [|done].
  apply minv_schedule. by apply (minv_ext w).
Qed.

Lemma minv_remove hook s w :
  (forall w, minv w -> minv (hook s w)) -> minv w -> minv (remove_session hook s w).2.
Proof.
  intros Hh Hw. rewrite remove_run. destruct (bool_decide_reflect (s ∈ sessions_ w)) as [Hs|]; [|done].
  destruct Hw as [H1 H2 H3].
  pose proof (erase_first_Permutation s (sessions_ w) Hs) as Hp. rewrite Hp in H1, H2.
  simpl in H1, H2. apply NoDup_cons in H1 as [_ H1]. apply Forall_cons in H2 as [_ H2]. cbv zeta.
  destruct (ipv4_address (socket_of s w)) as [ip|e] eqn:E.
  - apply Hh. apply (minv_ext (upd_counts (count_down ip) (upd_sessions (erase_first s) w)));
      [by destruct (on_disconnect_ _)|].
    split; [done..|]. simpl. by apply count_down_spec.
  - split; [done..|]. intros ip. simpl. rewrite (proj2 (ip_count_none _ (sessions_ w) _ _ ip E) Hs).
    apply H3.
Qed.

Lemma minv_base_stop w : minv w -> minv (base_stop w).
Proof.
  intros [H1 H2 H3]. apply NoDup_app in H1 as (_ & _ & H1). apply Forall_app in H2 as [_ H2].
  unfold base_stop.
  assert (forall l w1, mops (fold_left (fun w s => log_event (ev_closed s) w) l w1) = mops w1 /\
    next_sid (fold_left (fun w s => log_event (ev_closed s) w) l w1) = next_sid w1) as Hf.
  { induction l as [|x l IH]; intros w1; [done|]. apply (IH (log_event (ev_closed x) w1)). }
  destruct (Hf (sessions_ w) w) as [Ho Hn].
  split; unfold pending in *; simpl; rewrite ?Ho, ?Hn; [done..|].
  intros ip. apply lookup_empty.
Qed.

Lemma free_upd_socket s f w s' : free s w -> free s (upd_socket s' f w).
Proof. done. Qed.

Lemma minv_do_connect s h sv state w : free s w -> minv w -> minv (do_connect s h sv state w).
Proof.
  intros Hf Hw. assert (s ∉ sessions_ w) as Hs by (destruct Hf as [_ Hf]; set_solver).
  unfold do_connect. cbv zeta. eapply (minv_start _ s); [done|..].
  - by destruct state as [st|]; [destruct (_ >? 0)|].
  - apply (minv_socket s (apply_caps (cfg w))) in Hw; [|done].
    destruct state as [st|]; [destruct (_ >? 0)|].
    + by apply (minv_ext (upd_socket s (set_idle_timeout (policy_idle_timeout (rs_policy st))) (apply_caps_to s w)));
        [|apply minv_socket].
    + by apply (minv_ext (apply_caps_to s w)).
    + by apply (minv_ext (apply_caps_to s w)).
Qed.

Lemma minv_add_session s w : free s w -> minv w -> minv (add_session s w).2.
Proof.
  intros Hf Hw. assert (s ∉ sessions_ w) as Hs by (destruct Hf as [_ Hf]; set_solver).
  unfold add_session, mbind, M_bind, modify, gets, lift_outcome.
  destruct (ipv4_address (socket_of s w)); [|done]. destruct (can_ip_connect _ w); simpl.
  - apply (minv_start _ s); [done..|]. by apply minv_socket.
  - by apply (minv_ext w).
Qed.

Section steps.
Context (undefined_cast : spec_float -> Z).

Lemma minv_attempt st w : minv w -> minv (attempt_reconnect st w).2.
Proof.
  intros Hw. unfold attempt_reconnect, mbind, M_bind, modify, gets.
  destruct (reconnect_stopped_ w); [done|].
  destruct (minv_make new_tcp_socket w Hw) as [Hm Hf]. by apply minv_do_connect.
Qed.

Lemma minv_on_mop o ok e w :
  minv w -> (forall s, s ∈ op_sids o -> free s w) -> minv (on_mop undefined_cast o ok e w).2.
Proof.
  intros Hw Hf.
  assert (forall s, free s w -> minv (connected_to s ok e w)) as Hc.
  { intros s [_ Hs]. unfold connected_to. destruct ok; [|done]. apply minv_socket; [set_solver|done]. }
  assert (forall s, free s w -> free s (connected_to s ok e w)) as Hcf
    by (intros s Hs; unfold connected_to; by destruct ok).
  destruct o as [s|s|s|s state|s state|st]; simpl in Hf;
    try (specialize (Hf s ltac:(by left)); specialize (Hc s Hf); specialize (Hcf s Hf)); simpl.
  - unfold on_base_handshake. destruct ok; [by apply minv_register|done].
  - unfold on_base_connected. destruct ok; [|done]. by apply (minv_start _ s).
  - unfold on_base_handshake. destruct ok; [by apply minv_register|done].
  - unfold on_dialled. destruct (_ && _); [done|]. destruct ok; simpl.
    + by apply (minv_start _ s).
    + destruct state; [by apply minv_schedule|done].
  - unfold on_dial_handshake. erewrite bind_Ret by done. destruct (_ && _); [done|]. destruct ok; simpl.
    + erewrite bind_Ret by done. apply minv_register; [by destruct state|].
      by destruct state; apply (minv_ext w).
    + destruct state; [by apply minv_schedule|done].
  - unfold on_backoff. erewrite bind_Ret by done. destruct (_ || _); [done|]. by apply minv_attempt.
Qed.

Lemma minv_step l w w' : minv w -> mstep undefined_cast l w = Some w' -> minv w'.
Proof.
  intros Hw Hs. destruct l as [f| |ec e|sock|sock h sv|h sv ssl|h sv ssl p|i ok e|s|]; simpl in Hs.
  - injection Hs as <-. by apply (minv_ext w).
  - injection Hs as <-. by apply (minv_ext w).
  - destruct (_ && _); [|done]. injection Hs as <-. unfold on_accept.
    erewrite bind_Ret by done. destruct ec; [by apply (minv_ext w)|].
    destruct (minv_make (set_remote_endpoint e new_tcp_socket) (upd_accepting pred w)) as [Hm Hf];
      [by apply (minv_ext w)|].
    erewrite bind_Ret by reflexivity. apply (minv_add_session _ _ Hf) in Hm.
    unfold mbind, M_bind, modify. simpl in Hm |- *. destruct (add_session _ _) as [[] w1]; [|done].
    by apply (minv_ext w1).
  - injection Hs as <-. destruct (minv_make sock w Hw) as [Hm Hf]. by apply (minv_add_session (next_sid w)).
  - injection Hs as <-. destruct (minv_make sock w Hw) as [Hm Hf].
    apply (minv_start _ (next_sid w)); [done..|]. simpl.
    apply (minv_ext (apply_caps_to (next_sid w) (make_session sock w).2)); [done|].
    apply minv_socket; [|done]. destruct Hf as [_ Hf]. set_solver.
  - injection Hs as <-. destruct (minv_make new_tcp_socket w Hw) as [Hm Hf].
    by apply (minv_do_connect (next_sid w) h sv None).
  - injection Hs as <-. destruct (minv_make new_tcp_socket w Hw) as [Hm Hf].
    by apply (minv_do_connect (next_sid w) h sv (Some (mkReconnectState h sv ssl p 0 (initial_delay p)))).
  - destruct (mops w !! i) as [o|] eqn:Ei; [|done]. injection Hs as <-.
    destruct (minv_finish _ _ _ Ei Hw) as [Hf Hfree]. by apply minv_on_mop.
  - injection Hs as <-. apply minv_remove; [|done]. intros w1. apply minv_on_session_removed.
  - injection Hs as <-. apply minv_base_stop. by apply (minv_ext w).
Qed.

Lemma minv_run ls w w' : minv w -> mrun undefined_cast ls w = Some w' -> minv w'.
Proof.
  revert w. induction ls as [|l ls IH]; simpl; intros w Hw Hr; [by simplify_eq|].
  destruct (mstep undefined_cast l w) as [w1|] eqn:E; [|done].
  apply (IH w1); [|done]. by eapply minv_step.
Qed.

Lemma minv_new : minv new_manager.
Proof. split; [constructor|constructor|done]. Qed.
End steps.

(** ** Properties of the registry *)

(** C23 The registry is exact: in every run, also when handlers threw, every
    session is registered at most once, and [connections_per_ip_] has for each
    address the number of registered sessions with it, and no entry for none. *)
Theorem manager_registry_exact (undefined_cast : spec_float -> Z) (ls : list mlabel) (w : mworld) :
  mrun undefined_cast ls new_manager = Some w ->
  NoDup (sessions_ w) /\
  forall ip, connections_per_ip_ w !! ip =
    let n := zlen (filter (fun s => ipv4_address (socket_of s w) = Ret ip) (sessions_ w)) in
    if n =? 0 then None else Some n.
Proof.
  intros Hr. pose proof (minv_run _ _ _ _ minv_new Hr) as [H1 H2 H3].
  apply NoDup_app in H1 as [H1 _]. split; [done|]. exact H3.
Qed.

(** C24 Admission control decides on the registered sessions: in every run, an
    address is admitted exactly when the number of registered sessions is below
    [max_sessions_] and the number of those with that address is below
    [max_connections_per_ip_], zero meaning no limit. *)
Theorem can_ip_connect_correct (undefined_cast : spec_float -> Z) (ls : list mlabel) (w : mworld)
    (ip : Z) :
  mrun undefined_cast ls new_manager = Some w -> 0 <= max_connections_per_ip_ (cfg w) ->
  can_ip_connect ip w = true <->
  (max_sessions_ (cfg w) = 0 \/ session_count w < max_sessions_ (cfg w)) /\
  (max_connections_per_ip_ (cfg w) = 0 \/
   zlen (filter (fun s => ipv4_address (socket_of s w) = Ret ip) (sessions_ w)) <
     max_connections_per_ip_ (cfg w)).
Proof.
  intros Hr Hc. pose proof (minv_run _ _ _ _ minv_new Hr) as [_ _ H3].
  unfold can_ip_connect, session_count. rewrite (H3 ip). unfold entry_for.
  change (zlen (filter (fun s => ipv4_address (socket_of s w) = Ret ip) (sessions_ w)))
    with (ip_count (heap w) (sessions_ w) ip).
  pose proof (ip_count_nonneg (heap w) (sessions_ w) ip).
  destruct (max_sessions_ (cfg w) =? 0) eqn:E1; destruct (max_connections_per_ip_ (cfg w) =? 0) eqn:E2;
    destruct (zlen (sessions_ w) >=? max_sessions_ (cfg w)) eqn:E3;
    destruct (ip_count (heap w) (sessions_ w) ip =? 0) eqn:E4; simpl;
    try destruct (ip_count (heap w) (sessions_ w) ip >=? max_connections_per_ip_ (cfg w)) eqn:E5;
    rewrite ?Z.eqb_eq, ?Z.eqb_neq, ?Z.geb_leb, ?Z.leb_le, ?Z.leb_gt in *;
    split; intros; try done; lia.
Qed.

(** What the removal hook does. *)
Lemma schedule_frame st w :
  let w' := schedule_reconnect st w in
  sessions_ w' = sessions_ w /\ connections_per_ip_ w' = connections_per_ip_ w /\
  heap w' = heap w /\ cfg w' = cfg w /\
  exists waits, mlog w' = mlog w ++ waits /\ Forall (fun e => exists d, e = ev_wait d) waits.
Proof.
  unfold schedule_reconnect. cbv zeta. repeat split_match; simpl; split_and!; try done.
  - exists []. by rewrite app_nil_r.
  - exists []. by rewrite app_nil_r.
  - eexists. split; [done|]. apply Forall_singleton. by eexists.
Qed.

Lemma hook_frame s w :
  let w' := on_session_removed s w in
  sessions_ w' = sessions_ w /\ connections_per_ip_ w' = connections_per_ip_ w /\
  heap w' = heap w /\ cfg w' = cfg w /\
  exists waits, mlog w' = mlog w ++ waits /\ Forall (fun e => exists d, e = ev_wait d) waits.
Proof.
  unfold on_session_removed. destruct (reconnect_map_ w !! s) as [st|].
  - apply (schedule_frame st (upd_reconnect_map (delete s) w)).
  - split_and!; try done. exists []. by rewrite app_nil_r.
Qed.

Lemma erase_first_filter s l : NoDup l -> erase_first s l = filter (fun x => x <> s) l.
Proof.
  induction 1 as [|x l Hx Hl IH]; [done|]. simpl. rewrite filter_cons.
  destruct (decide (x = s)) as [->|Hne].
  - rewrite decide_False by tauto. rewrite <-IH. clear -Hx.
    induction l as [|y l IH]; [done|]. simpl. destruct (decide (y = s)) as [->|Hne]; [|].
    + exfalso. apply Hx. by left.
    + rewrite <-IH; [done|]. intros Hs. apply Hx. by right.
  - rewrite decide_True by done. by rewrite IH.
Qed.

Lemma filter_absent s (l : list sid) : s ∉ l -> filter (fun x => x <> s) l = l.
Proof.
  intros Hs. induction l as [|x l IH]; [done|]. rewrite filter_cons_True.
  - rewrite IH; [done|]. intros Hin. apply Hs. by right.
  - intros ->. apply Hs. by left.
Qed.

(** C25 Removing a session: in every run, [remove_session] of a session with an
    IPv4 address takes it out of the registry and leaves the others in their
    order, lowers the count of its address by one if it was registered, calls
    [on_disconnect_] if it was registered and the callback is set, after which
    only backoff timers may be started; doing it again changes nothing. *)
Theorem remove_session_correct (undefined_cast : spec_float -> Z) (ls : list mlabel) (w : mworld)
    (s : sid) (ip : Z) :
  mrun undefined_cast ls new_manager = Some w ->
  ipv4_address (socket_of s w) = Ret ip ->
  let '(r, w') := remove_session on_session_removed s w in
  r = Ret tt /\
  sessions_ w' = filter (fun x => x <> s) (sessions_ w) /\
  (forall ip', default 0 (connections_per_ip_ w' !! ip') =
     default 0 (connections_per_ip_ w !! ip') -
     if decide (s ∈ sessions_ w /\ ip' = ip) then 1 else 0) /\
  (exists waits,
     mlog w' = mlog w ++
       (if on_disconnect_ (cfg w) && bool_decide (s ∈ sessions_ w) then [ev_disconnected s] else [])
       ++ waits /\ Forall (fun e => exists d, e = ev_wait d) waits) /\
  remove_session on_session_removed s w' = (Ret tt, w').
Proof.
  intros Hr Hip. pose proof (minv_run _ _ _ _ minv_new Hr) as [H1 _ H3].
  apply NoDup_app in H1 as [H1 _]. rewrite remove_run, Hip. cbv zeta.
  destruct (bool_decide_reflect (s ∈ sessions_ w)) as [Hs|Hs].
  - set (w1 := (if on_disconnect_ (cfg w) then _ else _) _).
    destruct (hook_frame s w1) as (E1 & E2 & E3 & E4 & waits & E5 & Hw).
    assert (sessions_ w1 = erase_first s (sessions_ w) /\
            connections_per_ip_ w1 = count_down ip (connections_per_ip_ w) /\
            mlog w1 = mlog w ++ if on_disconnect_ (cfg w) then [ev_disconnected s] else [])
      as (F1 & F2 & F3).
    { unfold w1. destruct (on_disconnect_ (cfg w)); simpl; rewrite ?app_nil_r; done. }
    assert (sessions_ (on_session_removed s w1) = filter (fun x => x <> s) (sessions_ w)) as Hss
      by (by rewrite E1, F1, erase_first_filter).
    split_and!; [done|done| | |].
    + intros ip'. rewrite E2, F2, (count_down_spec _ _ _ _ _ H3 Hip Hs), H3, ip_count_erase by done.
      unfold entry_for. destruct (decide (ip' = ip)) as [->|Hne].
      * rewrite (decide_True (P := has_ip _ _ _)), decide_True by done.
        destruct (ip_count (heap w) (sessions_ w) ip - 1 =? 0) eqn:Ea,
          (ip_count (heap w) (sessions_ w) ip =? 0) eqn:Eb; simpl; lia.
      * rewrite (decide_False (P := has_ip _ _ _)) by (unfold has_ip, socket_of in *; congruence).
        rewrite decide_False by tauto. by rewrite !Z.sub_0_r.
    + exists waits. rewrite E5, F3, andb_true_r. by rewrite app_assoc.
    + rewrite remove_run, bool_decide_eq_false_2; [done|]. rewrite Hss.
      intros [Hn _]%list_elem_of_filter. done.
  - split_and!; [done|by rewrite filter_absent| | |].
    + intros ip'. rewrite decide_False by tauto. lia.
    + exists []. rewrite andb_false_r. by rewrite !app_nil_r.
    + by rewrite remove_run, bool_decide_eq_false_2.
Qed.

(** ** How far the limits bind *)
Section limits.
Context (undefined_cast : spec_float -> Z).

(** A server's run: only inbound connections, fixed settings, and at most [K]
    handshakes in progress at a time. *)
Fixpoint server_run (K : Z) (ls : list mlabel) (w : mworld) : Prop :=
  match ls with
  | [] => True
  | l :: ls =>
      match l with
      | ml_accept false _ | ml_add _ => zlen (mops w) < K
      | ml_accept true _ | ml_listen | ml_complete _ _ _ | ml_remove _ | ml_stop => True
      | _ => False
      end /\
      match mstep undefined_cast l w with Some w => server_run K ls w | None => True end
  end.

Definition is_accept (o : mgr_op) : Prop := exists s, o = m_accept_handshake s.

Record limit_inv (max K : Z) (w : mworld) : Prop := {
  lim_cfg : max_sessions_ (cfg w) = max;
  lim_ops : Forall is_accept (mops w);
  lim_map : reconnect_map_ w = ∅;
  lim_sum : zlen (sessions_ w) + zlen (mops w) <= max + K - 1
}.

Lemma zlen_delete {A} (l : list A) i x : l !! i = Some x -> zlen l = zlen (delete i l) + 1.
Proof. intros Hi. unfold zlen. rewrite (length_delete l i) by (by eexists). apply lookup_lt_Some in Hi. lia. Qed.

Lemma zlen_erase_first s l : zlen (erase_first s l) <= zlen l.
Proof.
  induction l as [|x l IH]; [done|]. simpl. case_decide; unfold zlen in *; simpl; lia.
Qed.

Lemma can_ip_connect_below ip w :
  can_ip_connect ip w = true -> max_sessions_ (cfg w) <> 0 -> zlen (sessions_ w) < max_sessions_ (cfg w).
Proof.
  unfold can_ip_connect. intros Hc Hm. rewrite (proj2 (Z.eqb_neq _ 0) Hm) in Hc. simpl in Hc.
  destruct (_ >=? _) eqn:E; [done|]. lia.
Qed.

Lemma limit_add max K s w :
  max <> 0 -> zlen (mops w) < K -> limit_inv max K w -> limit_inv max K (add_session s w).2.
Proof.
  intros Hm HK [H1 H2 H3 H4]. unfold add_session, mbind, M_bind, modify, gets, lift_outcome.
  destruct (ipv4_address _) as [ip|]; [|by split].
  destruct (can_ip_connect ip _) eqn:Ec; simpl; [|by split].
  apply can_ip_connect_below in Ec; [|simpl; congruence]. simpl in Ec.
  split; simpl; [done| |done|].
  - apply Forall_app; split; [done|]. apply Forall_singleton. by eexists.
  - rewrite zlen_app. unfold zlen in *. simpl. lia.
Qed.

Lemma limit_make max K sock w : limit_inv max K w -> limit_inv max K (make_session sock w).2.
Proof. by intros [H1 H2 H3 H4]. Qed.

Lemma limit_accept max K e w :
  max <> 0 -> zlen (mops w) < K -> limit_inv max K w -> limit_inv max K (on_accept false e w).2.
Proof.
  intros Hm HK Hw. unfold on_accept. do 2 erewrite bind_Ret by reflexivity.
  set (w1 := mkMWorld _ _ _ _ _ _ _ _ _ _ _). assert (limit_inv max K w1) as Hw1 by (by destruct Hw).
  pose proof (limit_add max K (next_sid (upd_accepting pred w)) w1 Hm HK Hw1) as Ha.
  unfold mbind, M_bind, modify. destruct (add_session _ w1) as [[] w2]; simpl in *; [by destruct Ha|done].
Qed.

Lemma limit_register max K s w :
  limit_inv max K w -> zlen (sessions_ w) + zlen (mops w) < max + K - 1 ->
  limit_inv max K (register_and_start s w).2.
Proof.
  intros [H1 H2 H3 _] H4. rewrite register_run.
  destruct (ipv4_address (socket_of s w)); [destruct (on_connect_ (cfg w))|]; split; simpl;
    rewrite ?zlen_app; try done; unfold zlen in *; simpl; lia.
Qed.

Lemma limit_complete max K i o ok e w :
  mops w !! i = Some o -> limit_inv max K w ->
  limit_inv max K (on_mop undefined_cast o ok e (finish_mop i w)).2.
Proof.
  intros Hi [H1 H2 H3 H4]. destruct (Forall_lookup_1 _ _ _ _ H2 Hi) as [s ->].
  pose proof (zlen_delete _ _ _ Hi) as Hl. simpl. unfold on_base_handshake.
  assert (limit_inv max K (finish_mop i w)) as Hf.
  { split; simpl; [done| |done|lia]. by apply Forall_delete. }
  destruct ok; [|done]. apply limit_register; [done|]. simpl. lia.
Qed.

Lemma limit_remove max K s w :
  limit_inv max K w -> limit_inv max K (remove_session on_session_removed s w).2.
Proof.
  intros Hw. pose proof Hw as [H1 H2 H3 H4]. rewrite remove_run. destruct (bool_decide _); [|done].
  pose proof (zlen_erase_first s (sessions_ w)) as Hl. cbv zeta.
  destruct (ipv4_address _); [|split; simpl; try done; lia].
  unfold on_session_removed. destruct (on_disconnect_ (cfg w)); simpl; rewrite H3, lookup_empty;
    split; simpl; try done; lia.
Qed.

Lemma base_stop_frame w :
  base_stop w =
  mkMWorld (cfg w) [] ∅ (reconnect_map_ w) (reconnect_stopped_ w) (acceptor_open w) (accepting w)
    (heap w) (next_sid w) (mops w) (mlog w ++ (ev_closed <$> sessions_ w)).
Proof.
  assert (forall l w1, fold_left (fun w s => log_event (ev_closed s) w) l w1 =
    mkMWorld (cfg w1) (sessions_ w1) (connections_per_ip_ w1) (reconnect_map_ w1)
      (reconnect_stopped_ w1) (acceptor_open w1) (accepting w1) (heap w1) (next_sid w1) (mops w1)
      (mlog w1 ++ (ev_closed <$> l))) as Hf.
  { induction l as [|x l IH]; intros w1; simpl; [rewrite app_nil_r; by destruct w1|].
    rewrite IH. simpl. by rewrite <-app_assoc. }
  unfold base_stop. by rewrite Hf.
Qed.

Lemma limit_step max K l w w' :
  max <> 0 -> server_run K [l] w -> limit_inv max K w -> mstep undefined_cast l w = Some w' ->
  limit_inv max K w'.
Proof.
  intros Hm [Hl _] Hw Hs.
  destruct l as [f| |ec e|sock|sock h sv|h sv ssl|h sv ssl p|i ok e|s|]; try done; simpl in Hs.
  - injection Hs as <-. by destruct Hw.
  - destruct (_ && _); [|done]. injection Hs as <-. destruct ec; [by destruct Hw|]. by apply limit_accept.
  - injection Hs as <-. by apply (limit_add max K (next_sid w)), limit_make.
  - destruct (mops w !! i) as [o|] eqn:Ei; [|done]. injection Hs as <-. by apply limit_complete.
  - injection Hs as <-. by apply limit_remove.
  - injection Hs as <-. destruct Hw as [H1 H2 H3 H4]. unfold stop. rewrite base_stop_frame.
    pose proof (zlen_nonneg (sessions_ w)). split; simpl; try done. unfold zlen in *. simpl. lia.
Qed.

Lemma limit_run max K ls w w' :
  max <> 0 -> server_run K ls w -> limit_inv max K w -> mrun undefined_cast ls w = Some w' ->
  limit_inv max K w'.
Proof.
  intros Hm. revert w. induction ls as [|l ls IH]; simpl; intros w Hl Hw Hr; [by simplify_eq|].
  destruct Hl as [Hl Hls]. destruct (mstep undefined_cast l w) as [w1|] eqn:E; [|done].
  apply (IH w1); [done| |done]. eapply limit_step; [done| |done..].
  split; [done|]. by rewrite E.
Qed.
End limits.

(** C26 How far [max_sessions_] binds: on a server whose settings stay fixed and
    that has at most [K] handshakes in progress at any time, no more than
    [max_sessions_ + K - 1] sessions are ever registered; in particular the limit
    holds exactly when handshakes do not overlap ([K] = 1). *)
Theorem session_limit (undefined_cast : spec_float -> Z) (K : Z) (c : settings)
    (ls : list mlabel) (w : mworld) :
  0 < max_sessions_ c -> 0 < K ->
  server_run undefined_cast K ls (upd_cfg (fun _ => c) new_manager) ->
  mrun undefined_cast ls (upd_cfg (fun _ => c) new_manager) = Some w ->
  session_count w <= max_sessions_ c + K - 1.
Proof.
  intros Hm HK Hl Hr.
  assert (limit_inv (max_sessions_ c) K (upd_cfg (fun _ => c) new_manager)) as Hi.
  { split; simpl; try done. unfold zlen. simpl. lia. }
  pose proof (limit_run undefined_cast (max_sessions_ c) K ls _ _ ltac:(lia) Hl Hi Hr) as [_ _ _ Hs].
  unfold session_count. pose proof (zlen_nonneg (mops w)). lia.
Qed.
