(* ===== verification/ManagerEvents.v ===== *)
(** * What the steps of a session manager announce

    The events [on_connect_], [start] and [on_disconnect_]: which steps of a
    manager log none of them, what it means for a log of them to be in order, and
    two runs that show how far [max_sessions_] and [stop] reach.  The order of the
    callbacks when several threads run the handlers is the subject of
    ManagerThreads.v. *)

From stdpp Require Import strings.
From Stdlib Require Import Floats.SpecFloat.
From S2P Require Import Prelude SocketTimers BoostSocket SessionManager ManagerCorrect.

(** ** Steps that announce nothing *)

(** The session whose callback or start an event is. *)
Definition announces (e : mevent) : option sid :=
  match e with
  | ev_connected s | ev_started s | ev_disconnected s => Some s
  | _ => None
  end.

Definition neutral (e : mevent) : Prop := announces e = None.

(** What such a step may do; [X] are sessions whose operation has just
    completed. *)
Record steady (X : list sid) (w w' : mworld) : Prop := {
  fr_cfg : cfg w' = cfg w;
  fr_sessions s : s ∈ sessions_ w' -> s ∈ sessions_ w /\ heap w' !! s = heap w !! s;
  fr_pending s : s ∈ pending w' -> s ∈ pending w \/ s ∈ X \/ (next_sid w <= s)%nat;
  fr_next : (next_sid w <= next_sid w')%nat;
  fr_log : exists l, mlog w' = mlog w ++ l /\ Forall neutral l
}.

Lemma steady_refl X w : steady X w w.
Proof. split; try done; [by left|]. exists []. by rewrite app_nil_r. Qed.

Lemma steady_trans X w1 w2 w3 : steady X w1 w2 -> steady X w2 w3 -> steady X w1 w3.
Proof.
  intros [A1 A2 A3 A4 (l & A5 & A6)] [B1 B2 B3 B4 (k & B5 & B6)]. split.
  - congruence.
  - intros s [Hs Hh]%B2. apply A2 in Hs as [Hs Hh']. split; congruence.
  - intros s [Hs|[Hs|Hs]]%B3; [by apply A3|by right; left|right; right; lia].
  - lia.
  - exists (l ++ k). rewrite B5, A5, app_assoc. split; [done|]. by apply Forall_app.
Qed.

(** Equal in all that matters. *)
Lemma steady_eq X w w' :
  (cfg w', sessions_ w', heap w', mops w', next_sid w', mlog w') =
  (cfg w, sessions_ w, heap w, mops w, next_sid w, mlog w) -> steady X w w'.
Proof.
  intros [= E1 E2 E3 E4 E5 E6]. split; unfold pending; rewrite ?E1, ?E2, ?E3, ?E4, ?E5, ?E6; try done.
  - by left.
  - exists []. by rewrite app_nil_r.
Qed.

Lemma steady_log X e w : neutral e -> steady X w (log_event e w).
Proof. intros He. split; try done; [by left|]. exists [e]. split; [done|]. by apply Forall_singleton. Qed.

Lemma steady_socket X s f w : s ∉ sessions_ w -> steady X w (upd_socket s f w).
Proof.
  intros Hs. split; try done; [|by left|].
  - intros s' Hs'. split; [done|]. simpl. apply lookup_alter_ne. by intros ->.
  - exists []. by rewrite app_nil_r.
Qed.

Lemma steady_make X sock w : minv w -> steady X w (make_session sock w).2.
Proof.
  intros Hw. split; simpl; try done; [|by left|lia|].
  - intros s Hs. split; [done|]. apply lookup_insert_ne. intros <-.
    pose proof (mi_known _ Hw) as Hk. apply Forall_app in Hk as [Hk _].
    apply (proj1 (Forall_forall _ _) Hk) in Hs. lia.
  - exists []. by rewrite app_nil_r.
Qed.

Lemma steady_start X o w :
  (forall s, s ∈ op_sids o -> s ∈ pending w \/ s ∈ X \/ (next_sid w <= s)%nat) -> steady X w (start_mop o w).
Proof.
  intros Ho. split; try done.
  - intros s. rewrite pending_start, elem_of_app. intros [?|?]; [by left|by apply Ho].
  - exists []. by rewrite app_nil_r.
Qed.

Lemma steady_schedule X st w : steady X w (schedule_reconnect st w).
Proof.
  unfold schedule_reconnect. cbv zeta. repeat split_match; try apply steady_refl.
  eapply steady_trans; [by apply (steady_log X (ev_wait (rs_current_delay st)))|].
  apply steady_start. by intros s ?%not_elem_of_nil.
Qed.

Lemma steady_hook X s w : steady X w (on_session_removed s w).
Proof.
  unfold on_session_removed. destruct (reconnect_map_ w !! s); [|apply steady_refl].
  eapply steady_trans; [|apply steady_schedule]. by apply steady_eq.
Qed.

Lemma steady_do_connect X s h sv state w :
  s ∉ sessions_ w -> (s ∈ pending w \/ s ∈ X \/ (next_sid w <= s)%nat) ->
  steady X w (do_connect s h sv state w).
Proof.
  intros Hs Hx. unfold do_connect. cbv zeta.
  eapply steady_trans; [by apply (steady_socket X s (apply_caps (cfg w)))|]. fold (apply_caps_to s w).
  set (w1 := apply_caps_to s w). set (w2 := match state with Some _ => _ | None => _ end).
  assert (steady X w1 w2 /\ pending w2 = pending w /\ next_sid w2 = next_sid w) as (Hf & Hp & Hn).
  { unfold w2. destruct state as [st|]; [destruct (_ >? 0)|];
      (split; [|done]); [by apply steady_socket|apply steady_refl..]. }
  eapply steady_trans; [done|]. eapply steady_trans; [by apply (steady_log X (ev_dial s h sv))|].
  apply steady_start. intros s' ->%list_elem_of_singleton. simpl. rewrite Hn.
  change (pending (log_event (ev_dial s h sv) w2)) with (pending w2). by rewrite Hp.
Qed.

(** A session that did not exist before. *)
Lemma steady_fresh X s w w' : (next_sid w <= s)%nat -> steady (s :: X) w w' -> steady X w w'.
Proof.
  intros Hs [A1 A2 A3 A4 A5]. split; try done.
  intros s' Hs'. destruct (A3 s' Hs') as [?|[[->|?]%elem_of_cons|?]]; auto.
Qed.

Lemma steady_dial X sock h sv state w :
  minv w -> steady X w (do_connect (next_sid w) h sv state (make_session sock w).2).
Proof.
  intros Hw. destruct (minv_make sock w Hw) as [_ [_ Hf]].
  apply (steady_fresh X (next_sid w)); [done|].
  eapply steady_trans; [by apply steady_make|]. apply steady_do_connect; [set_solver|].
  right. left. by left.
Qed.

Lemma steady_connect X sock h sv w :
  minv w -> steady X w ((s ← make_session sock; connect s h sv) w).2.
Proof.
  intros Hw. destruct (minv_make sock w Hw) as [_ [_ Hf]].
  apply (steady_fresh X (next_sid w)); [done|].
  eapply steady_trans; [by apply (steady_make _ sock)|].
  eapply steady_trans; [apply (steady_socket _ (next_sid w) (apply_caps (cfg w))); set_solver|].
  eapply steady_trans; [by apply (steady_log _ (ev_dial (next_sid w) h sv))|].
  apply (steady_start _ (m_connect (next_sid w))).
  intros s ->%list_elem_of_singleton. right. left. by left.
Qed.

Lemma steady_add_session X s w :
  s ∉ sessions_ w -> s ∈ X -> steady X w (add_session s w).2.
Proof.
  intros Hs Hx. unfold add_session, mbind, M_bind, modify, gets, lift_outcome.
  destruct (ipv4_address _); [|apply steady_refl]. destruct (can_ip_connect _ w); simpl.
  - eapply steady_trans; [by apply (steady_socket _ s (apply_caps (cfg w)))|].
    apply steady_start. intros s' ->%list_elem_of_singleton. auto.
  - by apply steady_log.
Qed.

Lemma steady_add X sock w : minv w -> steady X w ((s ← make_session sock; add_session s) w).2.
Proof.
  intros Hw. destruct (minv_make sock w Hw) as [_ [_ Hf]].
  apply (steady_fresh X (next_sid w)); [done|]. erewrite bind_Ret by reflexivity.
  eapply steady_trans; [by apply (steady_make _ sock)|].
  apply steady_add_session; [set_solver|by left].
Qed.

Lemma steady_accept X ec e w : minv w -> steady X w (on_accept ec e w).2.
Proof.
  intros Hw. unfold on_accept. erewrite bind_Ret by reflexivity.
  eapply steady_trans; [by apply (steady_eq _ w (upd_accepting pred w))|].
  assert (minv (upd_accepting pred w)) as Hw' by (by apply (minv_ext w)).
  destruct ec; [apply steady_refl|]. set (w1 := upd_accepting pred w) in *.
  destruct (minv_make (set_remote_endpoint e new_tcp_socket) w1 Hw') as [_ [_ Hf]].
  apply (steady_fresh X (next_sid w1)); [done|]. erewrite bind_Ret by reflexivity.
  eapply steady_trans; [by apply (steady_make _ (set_remote_endpoint e new_tcp_socket))|].
  pose proof (steady_add_session (next_sid w1 :: X) (next_sid w1)
    (make_session (set_remote_endpoint e new_tcp_socket) w1).2 ltac:(set_solver) ltac:(by left)) as Ha.
  unfold mbind, M_bind, modify. simpl in Ha |- *. destruct (add_session _ _) as [[] w2]; [|done].
  eapply steady_trans; [done|]. by apply steady_eq.
Qed.

Lemma steady_stop X w : steady X w (stop w).
Proof.
  unfold stop. rewrite base_stop_frame. split; simpl; try done.
  - intros s Hs. by apply not_elem_of_nil in Hs.
  - by left.
  - exists (ev_closed <$> sessions_ w). split; [done|]. apply Forall_fmap. by apply Forall_true.
Qed.

(** ** The order of the callbacks *)

(** An event is in order after those before it: [on_connect_] once, then [start]
    once, then [on_disconnect_] at most once. *)
Definition in_order (before : list mevent) (e : mevent) : Prop :=
  match e with
  | ev_connected s => ev_connected s ∉ before
  | ev_started s => ev_connected s ∈ before /\ ev_started s ∉ before
  | ev_disconnected s => ev_started s ∈ before /\ ev_disconnected s ∉ before
  | _ => True
  end.

Definition paired (log : list mevent) : Prop :=
  forall before e after, log = before ++ e :: after -> in_order before e.

Lemma paired_snoc log e : paired log -> in_order log e -> paired (log ++ [e]).
Proof.
  intros Hp He before e' after E. apply snoc_split in E as [(-> & -> & ->)|(after' & -> & ->)]; [done|].
  by eapply Hp.
Qed.

Lemma paired_neutral log l : Forall neutral l -> paired log -> paired (log ++ l).
Proof.
  revert log. induction l as [|e l IH]; intros log Hl Hp; [by rewrite app_nil_r|].
  apply Forall_cons in Hl as [He Hl]. rewrite cons_middle, app_assoc. apply IH; [done|].
  apply paired_snoc; [done|]. by destruct e.
Qed.

Lemma paired_started log s : paired log -> ev_started s ∈ log -> ev_connected s ∈ log.
Proof.
  intros Hp (before & after & E)%list_elem_of_split. destruct (Hp _ _ _ E) as [Hc _].
  rewrite E. apply elem_of_app. by left.
Qed.

Lemma paired_disconnected log s : paired log -> ev_disconnected s ∈ log -> ev_started s ∈ log.
Proof.
  intros Hp (before & after & E)%list_elem_of_split. destruct (Hp _ _ _ E) as [Hc _].
  rewrite E. apply elem_of_app. by left.
Qed.

Lemma steady_finish i w : steady [] w (finish_mop i w).
Proof.
  split; try done.
  - intros s Hs. left. unfold pending in *. simpl in Hs.
    apply list_elem_of_bind in Hs as (o & Ho & Hin). apply list_elem_of_bind.
    exists o. split; [done|]. apply (sublist_subseteq (delete i (mops w))); [apply sublist_delete|done].
  - exists []. by rewrite app_nil_r.
Qed.

Lemma steady_attempt X st w : minv w -> steady X w (attempt_reconnect st w).2.
Proof.
  intros Hw. unfold attempt_reconnect. erewrite bind_Ret by reflexivity.
  destruct (reconnect_stopped_ w); [apply steady_refl|]. by apply steady_dial.
Qed.

Definition configured_manager (c : settings) : mworld := upd_cfg (fun _ => c) new_manager.

Module ManagerWitness.
(** Any value does for a cast that is not reached. *)
Definition cast (_ : spec_float) : Z := 0.

Definition peer (n : Z) : endpoint := mkEndpoint (address_v4 (167772160 + n)) 40000.

Definition one_session : settings := mkSettings 0 0 0 0 0 1 0 true true.

(** Two clients connect before either handshake is over. *)
Definition two_at_once : list mlabel :=
  [ml_listen; ml_accept false (peer 1); ml_accept false (peer 2);
   ml_complete 0 true default_endpoint; ml_complete 0 true default_endpoint].

(** One client after the other, with a third turned away. *)
Definition one_by_one : list mlabel :=
  [ml_listen; ml_accept false (peer 1); ml_complete 0 true default_endpoint;
   ml_accept false (peer 2); ml_remove 0;
   ml_accept false (peer 3); ml_complete 0 true default_endpoint].

(** [stop] during a handshake that then succeeds. *)
Definition stopped_too_early : list mlabel :=
  [ml_listen; ml_accept false (peer 1); ml_stop; ml_complete 0 true default_endpoint].
End ManagerWitness.

Section manager_witnesses.
Import ManagerWitness.

Lemma manager_registry_exact_witness :
  exists w, mrun cast (ml_set (set_max_sessions 5) :: two_at_once) new_manager = Some w /\
    sessions_ w = [0; 1]%nat /\ NoDup (sessions_ w) /\
    connections_per_ip_ w !! (167772161) = Some 1.
Proof.
  eexists. split; [vm_compute; reflexivity|]. split; [reflexivity|].
  edestruct (manager_registry_exact cast (ml_set (set_max_sessions 5) :: two_at_once)) as [Hn Hc];
    [vm_compute; reflexivity|]. split; [exact Hn|]. rewrite Hc. vm_compute. reflexivity.
Defined.

Lemma can_ip_connect_correct_witness :
  exists w, mrun cast (ml_set (set_max_connections_per_ip 2) :: two_at_once) new_manager = Some w /\
    can_ip_connect 167772161 w = true.
Proof.
  eexists. split; [vm_compute; reflexivity|].
  eapply (can_ip_connect_correct cast (ml_set (set_max_connections_per_ip 2) :: two_at_once));
    [vm_compute; reflexivity|vm_compute; congruence|].
  vm_compute. auto.
Defined.

Lemma remove_session_correct_witness :
  exists w, mrun cast (ml_set (set_max_sessions 5) :: two_at_once) new_manager = Some w /\
    sessions_ (remove_session on_session_removed 0%nat w).2 = [1%nat].
Proof.
  eexists. split; [vm_compute; reflexivity|].
  pose proof (remove_session_correct cast (ml_set (set_max_sessions 5) :: two_at_once) _ 0%nat 167772161
                ltac:(vm_compute; reflexivity) ltac:(vm_compute; reflexivity)) as R.
  destruct (remove_session on_session_removed 0%nat _) as [r w'].
  destruct R as (_ & E & _). simpl. rewrite E. vm_compute. reflexivity.
Defined.

Lemma session_limit_witness :
  exists w, mrun cast one_by_one (configured_manager one_session) = Some w /\
    sessions_ w = [2%nat] /\ session_count w <= 1 + 1 - 1.
Proof.
  eexists. split; [vm_compute; reflexivity|]. split; [reflexivity|].
  eapply (session_limit cast 1 one_session one_by_one);
    [vm_compute; reflexivity|vm_compute; reflexivity| |vm_compute; reflexivity].
  vm_compute. tauto.
Defined.

(** Admission is decided before the handshake and sessions are counted after
    it: two clients whose handshakes overlap are both registered on a manager
    with [max_sessions_] = 1. *)
Theorem session_limit_exceeded :
  exists w, mrun cast two_at_once (configured_manager one_session) = Some w /\
    max_sessions_ (cfg w) = 1 /\ session_count w = 2 /\
    mlog w = [ev_connected 0; ev_started 0; ev_connected 1; ev_started 1].
Proof. eexists. split; [vm_compute; reflexivity|]. split_and!; reflexivity. Qed.

(** [stop] does not cover a handshake in progress: there is a run in which a
    session is registered, announced and started after [stop], and nothing has
    closed it. *)
Theorem session_registered_after_stop :
  exists w, mrun cast stopped_too_early (configured_manager one_session) = Some w /\
    reconnect_stopped_ w = true /\ sessions_ w = [0%nat] /\
    mlog w = [ev_connected 0; ev_started 0].
Proof. eexists. split; [vm_compute; reflexivity|]. split_and!; reflexivity. Qed.
End manager_witnesses.
