(* ===== verification/Reconnect.v ===== *)
(** * Dialling again ([boost_session_manager])

    The reconnect machinery: which dials and waits a manager makes, how often,
    with which delays, and that [stop] ends it.  Also the settings a session gets
    before it is dialled or accepted. *)

From stdpp Require Import strings.
From Stdlib Require Import Floats.SpecFloat.
From S2P Require Import Prelude SocketTimers BoostSocket SessionManager ManagerCorrect ManagerEvents.

(** ** After [stop] *)

Definition is_redial (e : mevent) : bool :=
  match e with ev_dial _ _ _ | ev_wait _ => true | _ => false end.

Definition redials (w : mworld) : list mevent := filter (fun e => is_redial e = true) (mlog w).

Lemma redials_log e w : is_redial e = false -> redials (log_event e w) = redials w.
Proof.
  intros He. unfold redials. simpl. rewrite filter_app, filter_cons_False, filter_nil, app_nil_r;
    [done|]. by rewrite He.
Qed.

Definition is_connect (l : mlabel) : bool :=
  match l with
  | ml_connect _ _ _ | ml_boost_connect _ _ _ | ml_boost_connect_policy _ _ _ _ => true
  | _ => false
  end.

(** Stopped, with [r] the dials and waits so far. *)
Definition stopped_at (r : list mevent) (w : mworld) : Prop :=
  reconnect_stopped_ w = true /\ redials w = r.

Lemma stopped_ext r w w' :
  reconnect_stopped_ w' = reconnect_stopped_ w -> redials w' = redials w ->
  stopped_at r w -> stopped_at r w'.
Proof. intros E1 E2 [H1 H2]. split; congruence. Qed.

Lemma stopped_schedule w st : reconnect_stopped_ w = true -> schedule_reconnect st w = w.
Proof. intros E. unfold schedule_reconnect. by rewrite E. Qed.

Lemma stopped_register r s w : stopped_at r w -> stopped_at r (register_and_start s w).2.
Proof.
  intros Hw. rewrite register_run. destruct (ipv4_address _); [|done].
  eapply stopped_ext; [| |done].
  - by destruct (on_connect_ _).
  - simpl. rewrite redials_log by done. by destruct (on_connect_ _); [rewrite redials_log|].
Qed.

Lemma stopped_remove r s w : stopped_at r w -> stopped_at r (remove_session on_session_removed s w).2.
Proof.
  intros Hw. rewrite remove_run. destruct (bool_decide _); [|done]. cbv zeta.
  destruct (ipv4_address _) as [ip|]; [|done]. set (w1 := (if on_disconnect_ (cfg w) then _ else _) _).
  assert (stopped_at r w1) as [H1 H2].
  { unfold w1. destruct (on_disconnect_ _); [|done].
    eapply stopped_ext; [| |done]; [done|]. by rewrite redials_log. }
  unfold on_session_removed. destruct (reconnect_map_ w1 !! s); [|done].
  by rewrite stopped_schedule.
Qed.

Lemma stopped_accept r ec e w : stopped_at r w -> stopped_at r (on_accept ec e w).2.
Proof.
  intros Hw. unfold on_accept. erewrite bind_Ret by reflexivity. destruct ec; [done|].
  erewrite bind_Ret by reflexivity.
  unfold add_session, mbind, M_bind, modify, gets, lift_outcome.
  destruct (ipv4_address _); [|done]. destruct (can_ip_connect _ _); [done|].
  eapply stopped_ext; [| |done]; [done|]. apply (redials_log (ev_closed (next_sid w)) w). done.
Qed.

Lemma stopped_add r sock w :
  stopped_at r w -> stopped_at r ((s ← make_session sock; add_session s) w).2.
Proof.
  intros Hw. erewrite bind_Ret by reflexivity.
  unfold add_session, mbind, M_bind, modify, gets, lift_outcome.
  destruct (ipv4_address _); [|done]. destruct (can_ip_connect _ _); [done|].
  eapply stopped_ext; [| |done]; [done|]. apply (redials_log (ev_closed (next_sid w)) w). done.
Qed.

Section after_stop.
Context (undefined_cast : spec_float -> Z).

Lemma stopped_mop r o ok e w : stopped_at r w -> stopped_at r (on_mop undefined_cast o ok e w).2.
Proof.
  intros Hw. pose proof Hw as [Hs _].
  assert (forall s, stopped_at r (connected_to s ok e w)) as Hc
    by (intros s; unfold connected_to; by destruct ok).
  destruct o as [s|s|s|s state|s state|st]; simpl.
  - destruct ok; [by apply stopped_register|done].
  - unfold on_base_connected. destruct ok; simpl; apply (Hc s).
  - destruct ok; [by apply stopped_register|done].
  - unfold on_dialled. destruct (Hc s) as [Hs' _]. rewrite Hs', andb_true_r.
    destruct state as [st|]; simpl; [apply Hc|]. destruct ok; simpl; apply (Hc s).
  - unfold on_dial_handshake. erewrite bind_Ret by reflexivity. rewrite Hs, andb_true_r.
    destruct state as [st|]; simpl; [done|]. destruct ok; simpl; [|done].
    erewrite bind_Ret by reflexivity. by apply stopped_register.
  - unfold on_backoff. erewrite bind_Ret by reflexivity. rewrite Hs, orb_true_r. done.
Qed.

Lemma stopped_step r l w w' :
  is_connect l = false -> stopped_at r w -> mstep undefined_cast l w = Some w' -> stopped_at r w'.
Proof.
  intros Hl Hw Hs. destruct l as [f| |ec e|sock|sock h sv|h sv ssl|h sv ssl p|i ok e|s|]; try done; simpl in Hs.
  - by injection Hs as <-.
  - by injection Hs as <-.
  - destruct (_ && _); [|done]. injection Hs as <-. by apply stopped_accept.
  - injection Hs as <-. by apply (stopped_add r sock).
  - destruct (mops w !! i) as [o|]; [|done]. injection Hs as <-. by apply stopped_mop.
  - injection Hs as <-. by apply stopped_remove.
  - injection Hs as <-. destruct Hw as [_ Hr]. unfold stop. rewrite base_stop_frame. split; [done|].
    unfold redials in *. simpl. rewrite filter_app, Hr. rewrite <-(app_nil_r r) at 2. f_equal.
    clear. induction (sessions_ w) as [|x l IH]; [done|]. simpl. by rewrite filter_cons_False.
Qed.

Lemma stopped_run r ls w w' :
  Forall (fun l => is_connect l = false) ls -> stopped_at r w -> mrun undefined_cast ls w = Some w' ->
  stopped_at r w'.
Proof.
  revert w. induction ls as [|l ls IH]; simpl; intros w Hl Hw Hr; [by simplify_eq|].
  apply Forall_cons in Hl as [Hl Hls].
  destruct (mstep undefined_cast l w) as [w1|] eqn:E; [|done].
  apply (IH w1); [done| |done]. by eapply stopped_step.
Qed.
End after_stop.


(** ** Attempts and delays *)

Definition states_of (o : mgr_op) : list reconnect_state :=
  match o with
  | m_dial _ (Some st) | m_dial_handshake _ (Some st) | m_backoff st => [st]
  | _ => []
  end.

Definition delay_ok (p : reconnect_policy) (d : Z) : Prop := d = initial_delay p \/ d <= max_delay p.

Definition state_ok (p : reconnect_policy) (st : reconnect_state) : Prop :=
  rs_policy st = p /\ 0 <= rs_attempts st /\
  (max_attempts p <> 0 -> rs_attempts st <= max_attempts p) /\ delay_ok p (rs_current_delay st).

Definition fresh_state (p : reconnect_policy) (st : reconnect_state) : Prop :=
  rs_policy st = p /\ rs_attempts st = 0 /\ rs_current_delay st = initial_delay p.

Record rinv (p : reconnect_policy) (w : mworld) : Prop := {
  ri_ops : Forall (fun o => Forall (state_ok p) (states_of o)) (mops w);
  ri_map s st : reconnect_map_ w !! s = Some st -> fresh_state p st;
  ri_waits d : ev_wait d ∈ mlog w -> delay_ok p d
}.

Definition policy_is (p : reconnect_policy) (l : mlabel) : Prop :=
  match l with ml_boost_connect_policy _ _ _ p' => p' = p | _ => True end.

Section attempts.
Context (undefined_cast : spec_float -> Z) (p : reconnect_policy) (Hp : 0 <= max_attempts p).

Lemma rinv_ext w w' :
  (mops w', reconnect_map_ w', mlog w') = (mops w, reconnect_map_ w, mlog w) -> rinv p w -> rinv p w'.
Proof. intros [= E1 E2 E3] [H1 H2 H3]. split; rewrite ?E1, ?E2, ?E3; done. Qed.

Lemma rinv_log e w : (forall d, e <> ev_wait d) -> rinv p w -> rinv p (log_event e w).
Proof.
  intros He [H1 H2 H3]. split; [done..|]. intros d. simpl. rewrite elem_of_app.
  intros [Hd|Hd%list_elem_of_singleton]; [by apply H3|]. by destruct (He d).
Qed.

Lemma rinv_start o w : Forall (state_ok p) (states_of o) -> rinv p w -> rinv p (start_mop o w).
Proof.
  intros Ho [H1 H2 H3]. split; [|done..]. simpl. apply Forall_app. split; [done|].
  by apply Forall_singleton.
Qed.

Lemma rinv_schedule st w :
  state_ok p st -> rinv p w -> rinv p (schedule_reconnect st w).
Proof.
  intros (E1 & E2 & E3 & E4) Hw. unfold schedule_reconnect. destruct (reconnect_stopped_ w); [done|].
  cbv zeta. destruct (_ && _) eqn:Eb; [done|].
  assert (0 <= (rs_attempts st + 1) mod u64_modulus) as Hm by (by apply Z.mod_pos_bound).
  apply rinv_start.
  - apply Forall_singleton. split_and!; [done|done| |done]. simpl in *. intros Hne.
    rewrite E1, (proj2 (Z.eqb_neq _ 0) Hne) in Eb. simpl in Eb. lia.
  - destruct Hw as [H1 H2 H3]. split; [done..|]. intros d. simpl. rewrite elem_of_app.
    intros [Hd|[= ->]%list_elem_of_singleton]; [by apply H3|done].
Qed.

Lemma fresh_state_ok st : fresh_state p st -> state_ok p st.
Proof. intros (E1 & E2 & E3). split_and!; [done|lia|lia|by left]. Qed.

Lemma rinv_hook s w : rinv p w -> rinv p (on_session_removed s w).
Proof.
  intros Hw. unfold on_session_removed. destruct (reconnect_map_ w !! s) as [st|] eqn:E; [|done].
  apply rinv_schedule; [by apply fresh_state_ok, (ri_map _ _ Hw s)|].
  destruct Hw as [H1 H2 H3]. split; [done| |done].
  intros s' st'. simpl. intros [_ Hs']%lookup_delete_Some. by apply (H2 s').
Qed.

Lemma rinv_register s w : rinv p w -> rinv p (register_and_start s w).2.
Proof.
  intros Hw. rewrite register_run. destruct (ipv4_address _) as [ip|]; [|by apply (rinv_ext w)].
  simpl. apply rinv_log; [done|]. destruct (on_connect_ _); [apply rinv_log; [done|]|];
    by apply (rinv_ext w).
Qed.

Lemma rinv_remove s w : rinv p w -> rinv p (remove_session on_session_removed s w).2.
Proof.
  intros Hw. rewrite remove_run. destruct (bool_decide _); [|done]. cbv zeta.
  destruct (ipv4_address _) as [ip|]; [|by apply (rinv_ext w)]. simpl. apply rinv_hook.
  destruct (on_disconnect_ _); [apply rinv_log; [done|]|]; by apply (rinv_ext w).
Qed.

Lemma rinv_do_connect s h sv state w :
  Forall (state_ok p) (states_of (m_dial s state)) -> rinv p w -> rinv p (do_connect s h sv state w).
Proof.
  intros Hs Hw. unfold do_connect. cbv zeta. apply rinv_start; [done|]. apply rinv_log; [done|].
  destruct state; [destruct (_ >? 0)|]; by apply (rinv_ext w).
Qed.

Lemma rinv_attempt st w : state_ok p st -> rinv p w -> rinv p (attempt_reconnect st w).2.
Proof.
  intros Hs Hw. unfold attempt_reconnect. erewrite bind_Ret by reflexivity.
  destruct (reconnect_stopped_ w); [done|]. erewrite bind_Ret by reflexivity.
  apply rinv_do_connect; [by apply Forall_singleton|]. by apply (rinv_ext w).
Qed.

Lemma rinv_mop o ok e w :
  Forall (state_ok p) (states_of o) -> rinv p w -> rinv p (on_mop undefined_cast o ok e w).2.
Proof.
  intros Ho Hw.
  assert (forall st, states_of o = [st] -> state_ok p st) as Hst
    by (intros st E; rewrite E in Ho; by inversion Ho).
  assert (forall s, rinv p (connected_to s ok e w)) as Hc
    by (intros s; unfold connected_to; destruct ok; by apply (rinv_ext w)).
  destruct o as [s|s|s|s state|s state|st]; simpl.
  - destruct ok; [by apply rinv_register|done].
  - unfold on_base_connected. destruct ok; simpl; [|apply (Hc s)]. apply rinv_start; [done|apply (Hc s)].
  - destruct ok; [by apply rinv_register|done].
  - unfold on_dialled. destruct (_ && _); [apply (Hc s)|]. destruct ok; simpl.
    + apply rinv_start; [done|apply (Hc s)].
    + destruct state as [st|]; [|apply (Hc s)]. apply rinv_schedule; [|apply (Hc s)].
      by apply Hst.
  - unfold on_dial_handshake. erewrite bind_Ret by reflexivity. destruct (_ && _); [done|].
    destruct state as [st|]; destruct ok; simpl; try (erewrite bind_Ret by reflexivity).
    + apply rinv_register. destruct (Hst st eq_refl) as [Ep _].
      destruct Hw as [H1 H2 H3]. split; [done| |done].
      intros s' st'. simpl. rewrite lookup_insert_Some. intros [[_ <-]|[_ Hm]]; [|by apply (H2 s')].
      by split_and!; simpl; [|done|rewrite Ep].
    + apply rinv_schedule; [|done]. by apply Hst.
    + by apply rinv_register.
    + done.
  - unfold on_backoff. erewrite bind_Ret by reflexivity. destruct (_ || _); [done|].
    apply rinv_attempt; [|done]. destruct (Hst st eq_refl) as (E1 & E2 & E3 & E4).
    split_and!; [done..|]. right. simpl. rewrite E1. apply Z.le_min_r.
Qed.

Lemma rinv_accept ec e w : rinv p w -> rinv p (on_accept ec e w).2.
Proof.
  intros Hw. unfold on_accept. erewrite bind_Ret by reflexivity. destruct ec; [by apply (rinv_ext w)|].
  erewrite bind_Ret by reflexivity. unfold add_session, mbind, M_bind, modify, gets, lift_outcome.
  destruct (ipv4_address _); [|by apply (rinv_ext w)]. destruct (can_ip_connect _ _); simpl.
  - apply (rinv_ext (start_mop (m_accept_handshake (next_sid w)) w)); [done|]. by apply rinv_start.
  - apply (rinv_ext (log_event (ev_closed (next_sid w)) w)); [done|]. by apply rinv_log.
Qed.

Lemma rinv_add sock w : rinv p w -> rinv p ((s ← make_session sock; add_session s) w).2.
Proof.
  intros Hw. erewrite bind_Ret by reflexivity.
  unfold add_session, mbind, M_bind, modify, gets, lift_outcome.
  destruct (ipv4_address _); [|by apply (rinv_ext w)]. destruct (can_ip_connect _ _); simpl.
  - apply (rinv_ext (start_mop (m_accept_handshake (next_sid w)) w)); [done|]. by apply rinv_start.
  - apply (rinv_ext (log_event (ev_closed (next_sid w)) w)); [done|]. by apply rinv_log.
Qed.

Lemma rinv_step l w w' : policy_is p l -> rinv p w -> mstep undefined_cast l w = Some w' -> rinv p w'.
Proof.
  intros Hl Hw Hs. destruct l as [f| |ec e|sock|sock h sv|h sv ssl|h sv ssl p'|i ok e|s|]; simpl in Hs.
  - injection Hs as <-. by apply (rinv_ext w).
  - injection Hs as <-. by apply (rinv_ext w).
  - destruct (_ && _); [|done]. injection Hs as <-. by apply rinv_accept.
  - injection Hs as <-. by apply (rinv_add sock).
  - injection Hs as <-. apply rinv_start; [done|]. apply rinv_log; [done|]. by apply (rinv_ext w).
  - injection Hs as <-. apply (rinv_do_connect (next_sid w) h sv None); [done|]. by apply (rinv_ext w).
  - injection Hs as <-. simpl in Hl. subst p'.
    apply (rinv_do_connect (next_sid w) h sv (Some (mkReconnectState h sv ssl p 0 (initial_delay p))));
      [|by apply (rinv_ext w)].
    apply Forall_singleton. by apply fresh_state_ok.
  - destruct (mops w !! i) as [o|] eqn:Ei; [|done]. injection Hs as <-.
    pose proof Hw as [H1 H2 H3]. apply rinv_mop; [by apply (Forall_lookup_1 _ _ _ _ H1 Ei)|].
    split; [|done..]. by apply Forall_delete.
  - injection Hs as <-. by apply rinv_remove.
  - injection Hs as <-. unfold stop. rewrite base_stop_frame. destruct Hw as [H1 H2 H3].
    split; simpl; [done| |].
    + intros s st Hs. by rewrite lookup_empty in Hs.
    + intros d [Hd|Hd]%elem_of_app; [by apply H3|]. by apply list_elem_of_fmap in Hd as (? & ? & _).
Qed.

Lemma rinv_run ls w w' :
  Forall (policy_is p) ls -> rinv p w -> mrun undefined_cast ls w = Some w' -> rinv p w'.
Proof.
  revert w. induction ls as [|l ls IH]; simpl; intros w Hl Hw Hr; [by simplify_eq|].
  apply Forall_cons in Hl as [Hl Hls].
  destruct (mstep undefined_cast l w) as [w1|] eqn:E; [|done].
  apply (IH w1); [done| |done]. by eapply rinv_step.
Qed.

Lemma rinv_new : rinv p new_manager.
Proof.
  split; simpl; [constructor| |].
  - intros s st Hs. by rewrite lookup_empty in Hs.
  - intros d Hd. by apply not_elem_of_nil in Hd.
Qed.
End attempts.

(** C32 The backoff stays within its policy: in every run whose reconnecting
    dials use one policy, every wait is the initial delay or at most the maximal
    one, and no dial or wait in progress has made more attempts than
    [max_attempts], when that is not zero. *)
Theorem backoff_within_policy (undefined_cast : spec_float -> Z) (p : reconnect_policy)
    (ls : list mlabel) (w : mworld) :
  0 <= max_attempts p -> Forall (policy_is p) ls -> mrun undefined_cast ls new_manager = Some w ->
  (forall d, ev_wait d ∈ mlog w -> d = initial_delay p \/ d <= max_delay p) /\
  (forall o st, o ∈ mops w -> st ∈ states_of o -> max_attempts p <> 0 ->
     rs_attempts st <= max_attempts p).
Proof.
  intros Hp Hl Hr. pose proof (rinv_run undefined_cast p Hp _ _ _ Hl (rinv_new p) Hr) as [H1 H2 H3].
  split; [exact H3|]. intros o st Ho Hst. rewrite Forall_forall in H1. specialize (H1 _ Ho).
  rewrite Forall_forall in H1. by apply (H1 _ Hst).
Qed.

(** C33 A session that drops is dialled again from the start: in every run, when
    a registered session with a reconnect entry is removed from a manager that is
    not stopped, a backoff timer is started with the initial delay of its policy,
    as the first attempt. *)
Theorem dropped_session_redials (undefined_cast : spec_float -> Z) (p : reconnect_policy)
    (ls : list mlabel) (w : mworld) (s : sid) (st : reconnect_state) (ip : Z) :
  0 <= max_attempts p -> Forall (policy_is p) ls -> mrun undefined_cast ls new_manager = Some w ->
  s ∈ sessions_ w -> ipv4_address (socket_of s w) = Ret ip ->
  reconnect_map_ w !! s = Some st -> reconnect_stopped_ w = false ->
  let w' := (remove_session on_session_removed s w).2 in
  mops w' = mops w ++ [m_backoff (with_attempts 1 st)] /\
  ev_wait (initial_delay p) ∈ mlog w' /\ reconnect_map_ w' !! s = None.
Proof.
  intros Hp Hl Hr Hs Hip Hm Hst. pose proof (rinv_run undefined_cast p Hp _ _ _ Hl (rinv_new p) Hr) as Hi.
  destruct (ri_map _ _ Hi _ _ Hm) as (E1 & E2 & E3). cbv zeta.
  rewrite remove_run, bool_decide_eq_true_2, Hip by done. cbv zeta. simpl.
  set (w1 := (if on_disconnect_ (cfg w) then _ else _) _).
  assert (reconnect_map_ w1 = reconnect_map_ w /\ reconnect_stopped_ w1 = false /\ mops w1 = mops w)
    as (F1 & F2 & F3) by (unfold w1; by destruct (on_disconnect_ _)).
  unfold on_session_removed, schedule_reconnect. rewrite F1, Hm. simpl. rewrite F2, E1, E2.
  change ((0 + 1) mod u64_modulus) with 1. simpl.
  assert (negb (max_attempts p =? 0) && (1 >? max_attempts p) = false) as ->.
  { destruct (max_attempts p =? 0) eqn:E; [done|]. simpl. lia. }
  simpl. rewrite F1, F3, E3. split_and!; [done|set_solver|apply lookup_delete_eq].
Qed.

(** ** How often a server that cannot be reached is dialled *)
Section budget.
Context (undefined_cast : spec_float -> Z).

Definition is_dial (e : mevent) : bool := match e with ev_dial _ _ _ => true | _ => false end.

Definition dials (w : mworld) : Z := zlen (filter (fun e => is_dial e = true) (mlog w)).

(** The dials an operation in progress can still lead to. *)
Definition remaining (o : mgr_op) : Z :=
  match o with
  | m_dial _ (Some st) | m_dial_handshake _ (Some st) => max_attempts (rs_policy st) - rs_attempts st
  | m_backoff st => max_attempts (rs_policy st) - rs_attempts st + 1
  | _ => 0
  end.

Definition total (l : list mgr_op) : Z := foldr (fun o n => remaining o + n) 0 l.

Definition limited (st : reconnect_state) : Prop :=
  0 < max_attempts (rs_policy st) < u64_modulus - 1 /\ 0 <= rs_attempts st <= max_attempts (rs_policy st).

(** What a call of [connect] may dial. *)
Definition dial_budget (l : mlabel) : Z :=
  match l with
  | ml_connect _ _ _ | ml_boost_connect _ _ _ => 1
  | ml_boost_connect_policy _ _ _ p => 1 + max_attempts p
  | _ => 0
  end.

Definition limited_label (l : mlabel) : Prop :=
  match l with
  | ml_boost_connect_policy _ _ _ p => 0 < max_attempts p < u64_modulus - 1
  | _ => True
  end.

(** No handshake of a dial with a policy succeeds. *)
Fixpoint unreachable (ls : list mlabel) (w : mworld) : Prop :=
  match ls with
  | [] => True
  | l :: ls =>
      match l with
      | ml_complete i ok _ =>
          match mops w !! i with Some (m_dial_handshake _ (Some _)) => ok = false | _ => True end
      | _ => True
      end /\
      match mstep undefined_cast l w with Some w => unreachable ls w | None => True end
  end.

(** [used] dials so far and [w] within what was allowed. *)
Record within (B : Z) (w : mworld) : Prop := {
  wi_map : reconnect_map_ w = ∅;
  wi_ops : Forall (fun o => Forall limited (states_of o)) (mops w);
  wi_sum : dials w + total (mops w) <= B
}.

Lemma within_ext B w w' :
  reconnect_map_ w' = reconnect_map_ w -> mops w' = mops w -> dials w' = dials w ->
  within B w -> within B w'.
Proof. intros E1 E2 E3 [H1 H2 H3]. split; congruence. Qed.

Lemma within_le B B' w : B <= B' -> within B w -> within B' w.
Proof. intros HB [H1 H2 H3]. split; [done..|lia]. Qed.

Lemma dials_log e w : dials (log_event e w) = dials w + if is_dial e then 1 else 0.
Proof.
  unfold dials. simpl. rewrite filter_app, zlen_app, filter_cons.
  destruct (is_dial e); simpl; unfold zlen; simpl; lia.
Qed.

Lemma total_app l k : total (l ++ k) = total l + total k.
Proof. induction l as [|o l IH]; simpl; [done|]. rewrite IH. lia. Qed.

Lemma total_delete l i o : l !! i = Some o -> total l = remaining o + total (delete i l).
Proof.
  revert i. induction l as [|x l IH]; intros [|i] Hi; simplify_eq/=; [done|]. rewrite (IH i Hi). lia.
Qed.

Lemma within_start B o w :
  Forall limited (states_of o) -> within (B - remaining o) w -> within B (start_mop o w).
Proof.
  intros Ho [H1 H2 H3]. split; [done| |].
  - simpl. apply Forall_app. split; [done|]. by apply Forall_singleton.
  - change (dials (start_mop o w)) with (dials w). simpl. rewrite total_app. simpl. lia.
Qed.

Lemma within_log B e w :
  within (B - if is_dial e then 1 else 0) w -> within B (log_event e w).
Proof. intros [H1 H2 H3]. split; [done..|]. rewrite dials_log. simpl. lia. Qed.

Lemma within_schedule B st w :
  limited st -> within (B - (max_attempts (rs_policy st) - rs_attempts st)) w ->
  within B (schedule_reconnect st w).
Proof.
  intros [Hm Ha] Hw. unfold schedule_reconnect. destruct (reconnect_stopped_ w).
  { eapply within_le; [|done]. lia. }
  cbv zeta. simpl. rewrite (proj2 (Z.eqb_neq _ 0)) by lia. simpl.
  rewrite (Z.mod_small (rs_attempts st + 1)) by lia.
  destruct (_ >? _) eqn:E; [eapply within_le; [|done]; lia|].
  apply within_start; simpl.
  - apply Forall_singleton. split; simpl; lia.
  - apply within_log. simpl. eapply within_le; [|done]. lia.
Qed.

Lemma dials_register s w : dials (register_and_start s w).2 = dials w.
Proof.
  rewrite register_run. destruct (ipv4_address _); [|done]. simpl. rewrite dials_log, Z.add_0_r.
  destruct (on_connect_ _); [by rewrite dials_log, Z.add_0_r|done].
Qed.

Lemma within_register B s w : within B w -> within B (register_and_start s w).2.
Proof.
  intros Hw. eapply within_ext; [| |apply dials_register|done]; rewrite register_run;
    destruct (ipv4_address _); try done; by destruct (on_connect_ _).
Qed.

Lemma within_remove B s w : within B w -> within B (remove_session on_session_removed s w).2.
Proof.
  intros Hw. rewrite remove_run. destruct (bool_decide _); [|done]. cbv zeta.
  destruct (ipv4_address _) as [ip|]; [|by apply (within_ext B w)]. simpl.
  set (w1 := (if on_disconnect_ (cfg w) then _ else _) _).
  assert (within B w1) as Hw1.
  { unfold w1. destruct (on_disconnect_ _); [apply within_log; rewrite Z.sub_0_r|];
      by apply (within_ext B w). }
  unfold on_session_removed. by rewrite (wi_map _ _ Hw1), lookup_empty.
Qed.

Lemma within_do_connect B s h sv state w :
  Forall limited (states_of (m_dial s state)) -> within (B - 1 - remaining (m_dial s state)) w ->
  within B (do_connect s h sv state w).
Proof.
  intros Hs Hw. unfold do_connect. cbv zeta. apply within_start; [done|]. apply within_log. simpl.
  apply (within_ext _ w); [destruct state; [destruct (_ >? 0)|]; done..|].
  eapply within_le; [|done]. simpl. lia.
Qed.

Lemma within_accept B ec e w : within B w -> within B (on_accept ec e w).2.
Proof.
  intros Hw. unfold on_accept. erewrite bind_Ret by reflexivity. destruct ec; [by apply (within_ext B w)|].
  erewrite bind_Ret by reflexivity. unfold add_session, mbind, M_bind, modify, gets, lift_outcome.
  destruct (ipv4_address _); [|by apply (within_ext B w)]. destruct (can_ip_connect _ _); simpl.
  - apply (within_ext B (start_mop (m_accept_handshake (next_sid w)) w)); [done..|].
    apply within_start; [done|]. by rewrite Z.sub_0_r.
  - apply (within_ext B (log_event (ev_closed (next_sid w)) w)); [done..|].
    apply within_log. by rewrite Z.sub_0_r.
Qed.

Lemma within_add B sock w : within B w -> within B ((s ← make_session sock; add_session s) w).2.
Proof.
  intros Hw. erewrite bind_Ret by reflexivity.
  unfold add_session, mbind, M_bind, modify, gets, lift_outcome.
  destruct (ipv4_address _); [|by apply (within_ext B w)]. destruct (can_ip_connect _ _); simpl.
  - apply (within_ext B (start_mop (m_accept_handshake (next_sid w)) w)); [done..|].
    apply within_start; [done|]. by rewrite Z.sub_0_r.
  - apply (within_ext B (log_event (ev_closed (next_sid w)) w)); [done..|].
    apply within_log. by rewrite Z.sub_0_r.
Qed.

(** The completion of an operation: its remaining dials pay for what follows. *)
Lemma within_mop B o ok e w :
  Forall limited (states_of o) ->
  match o with m_dial_handshake _ (Some _) => ok = false | _ => True end ->
  within (B - remaining o) w -> within B (on_mop undefined_cast o ok e w).2.
Proof.
  intros Ho Hok Hw.
  assert (forall st, states_of o = [st] -> limited st) as Hst
    by (intros st E; rewrite E in Ho; by inversion Ho).
  assert (0 <= remaining o) as Hr.
  { destruct o as [?|?|?|? [st|]|? [st|]|st]; simpl; try lia; destruct (Hst st eq_refl); lia. }
  assert (within B w) as HwB by (eapply within_le; [|done]; lia).
  assert (forall s B', within B' w -> within B' (connected_to s ok e w)) as Hc
    by (intros s B' Hw'; unfold connected_to; destruct ok; by apply (within_ext B' w)).
  destruct o as [s|s|s|s state|s state|st]; simpl.
  - destruct ok; [by apply within_register|done].
  - unfold on_base_connected. destruct ok; simpl; [|by apply (Hc s)].
    apply within_start; [done|]. simpl. rewrite Z.sub_0_r. by apply (Hc s).
  - destruct ok; [by apply within_register|done].
  - unfold on_dialled. destruct (_ && _); [by apply Hc|]. destruct ok; simpl.
    + apply within_start; [done|]. by apply (Hc s).
    + destruct state as [st|]; [|by apply (Hc s)]. apply within_schedule; [by apply Hst|by apply (Hc s)].
  - unfold on_dial_handshake. erewrite bind_Ret by reflexivity. destruct (_ && _); [done|].
    destruct state as [st|]; [subst ok; simpl|].
    + apply within_schedule; [by apply Hst|done].
    + destruct ok; simpl; [|done]. erewrite bind_Ret by reflexivity. by apply within_register.
  - unfold on_backoff. erewrite bind_Ret by reflexivity. destruct (_ || _); [done|].
    unfold attempt_reconnect. erewrite bind_Ret by reflexivity. destruct (reconnect_stopped_ w); [done|].
    erewrite bind_Ret by reflexivity.
    apply within_do_connect; [apply Forall_singleton; by apply (Hst st)|].
    apply (within_ext _ w); [done..|]. eapply within_le; [|exact Hw]. simpl. lia.
Qed.

Lemma within_step B l w w' :
  limited_label l -> unreachable [l] w -> within B w -> mstep undefined_cast l w = Some w' ->
  within (B + dial_budget l) w'.
Proof.
  intros Hl [Hu _] Hw Hs.
  assert (within (B + 0) w) as Hw0 by (by rewrite Z.add_0_r).
  destruct l as [f| |ec e|sock|sock h sv|h sv ssl|h sv ssl p|i ok e|s|]; simpl in Hs; simpl dial_budget.
  - injection Hs as <-. by apply (within_ext _ w).
  - injection Hs as <-. by apply (within_ext _ w).
  - destruct (_ && _); [|done]. injection Hs as <-. by apply within_accept.
  - injection Hs as <-. by apply (within_add _ sock).
  - injection Hs as <-. apply within_start; [done|]. apply within_log. apply (within_ext _ w); [done..|].
    eapply within_le; [|done]. simpl. lia.
  - injection Hs as <-. apply (within_do_connect _ (next_sid w) h sv None); [done|].
    apply (within_ext _ w); [done..|]. eapply within_le; [|done]. simpl. lia.
  - injection Hs as <-. simpl in Hl.
    apply (within_do_connect _ (next_sid w) h sv (Some (mkReconnectState h sv ssl p 0 (initial_delay p)))).
    + apply Forall_singleton. split; simpl; lia.
    + apply (within_ext _ w); [done..|]. eapply within_le; [|done]. simpl. lia.
  - destruct (mops w !! i) as [o|] eqn:Ei; [|done]. injection Hs as <-. pose proof Hw as [H1 H2 H3].
    apply within_mop; [by apply (Forall_lookup_1 _ _ _ _ H2 Ei)| |].
    + exact Hu.
    + split; [done|by apply Forall_delete|]. rewrite (total_delete _ _ _ Ei) in H3.
      change (dials (finish_mop i w)) with (dials w). simpl. lia.
  - injection Hs as <-. by apply within_remove.
  - injection Hs as <-. unfold stop. rewrite base_stop_frame. destruct Hw0 as [H1 H2 H3].
    split; [done..|]. unfold dials in *. simpl. rewrite filter_app, zlen_app.
    assert (filter (fun e => is_dial e = true) (ev_closed <$> sessions_ w) = []) as ->.
    { induction (sessions_ w) as [|x k IH]; [done|]. simpl. by rewrite filter_cons_False. }
    unfold zlen in *. simpl. lia.
Qed.

Lemma within_run B ls w w' :
  Forall limited_label ls -> unreachable ls w -> within B w -> mrun undefined_cast ls w = Some w' ->
  within (B + foldr (fun l n => dial_budget l + n) 0 ls) w'.
Proof.
  revert B w. induction ls as [|l ls IH]; simpl; intros B w Hl Hu Hw Hr.
  { simplify_eq. by rewrite Z.add_0_r. }
  apply Forall_cons in Hl as [Hl Hls]. destruct Hu as [Hu Hus].
  destruct (mstep undefined_cast l w) as [w1|] eqn:E; [|done]. rewrite Z.add_assoc.
  apply (IH _ w1); [done..| |done]. eapply within_step; [done| |done..].
  split; [done|]. by rewrite E.
Qed.
End budget.

(** C34 An unreachable server is not dialled for ever: in every run in which no
    handshake of a reconnecting dial succeeds, the number of dials is at most one
    for each [connect], and [max_attempts] more for each [connect] with a policy,
    when every policy sets a limit. *)
Theorem dials_bounded (undefined_cast : spec_float -> Z) (ls : list mlabel) (w : mworld) :
  Forall limited_label ls -> unreachable undefined_cast ls new_manager ->
  mrun undefined_cast ls new_manager = Some w ->
  dials w <= foldr (fun l n => dial_budget l + n) 0 ls.
Proof.
  intros Hl Hu Hr.
  assert (within 0 new_manager) as Hn by (by split).
  pose proof (within_run undefined_cast 0 ls _ _ Hl Hu Hn Hr) as [H1 H2 H3].
  assert (0 <= total (mops w)) as Ht.
  { clear -H2. induction H2 as [|o l Ho _ IH]; simpl; [done|].
    assert (forall st, states_of o = [st] -> limited st) as Hst
      by (intros st E; rewrite E in Ho; by inversion Ho).
    destruct o as [?|?|?|? [st|]|? [st|]|st]; simpl; try lia; destruct (Hst st eq_refl); lia. }
  lia.
Qed.

(** ** The default policy *)

(** The double 2.0, and the default member initialisers of [reconnect_policy]. *)
Definition two : spec_float := S754_finite false 4503599627370496 (-51).

Definition seconds (n : Z) : Z := n * 1000000000.

Definition default_policy : reconnect_policy :=
  mkPolicy (seconds 1) (seconds 30) (seconds 30) two 0.

Definition default_delay (k : nat) : Z := seconds (Z.min (2 ^ Z.of_nat k) 30).

(** A dial that fails, and the backoff timer that then fires. *)
Definition failed_attempt : list mlabel :=
  [ml_complete 0 false default_endpoint; ml_complete 0 true default_endpoint].

Fixpoint failing_run (n : nat) : list mlabel :=
  match n with O => [] | S n => failed_attempt ++ failing_run n end.

Definition wait_of (e : mevent) : option Z := match e with ev_wait d => Some d | _ => None end.

Section default_backoff.
Context (undefined_cast : spec_float -> Z).

Lemma mrun_app ls ks w : mrun undefined_cast (ls ++ ks) w = mrun undefined_cast ls w ≫= mrun undefined_cast ks.
Proof.
  revert w. induction ls as [|l ls IH]; intros w; [done|]. simpl.
  destruct (mstep undefined_cast l w); [apply IH|done].
Qed.

Lemma default_next k : next_delay undefined_cast default_policy (default_delay k) = default_delay (S k).
Proof.
  destruct (decide (k < 5)%nat) as [Hk|Hk].
  - do 5 (destruct k as [|k]; [vm_compute; reflexivity|]). lia.
  - assert (forall j, (5 <= j)%nat -> default_delay j = seconds 30) as Hd.
    { intros j Hj. unfold default_delay. f_equal. apply Z.min_r.
      assert (2 ^ 5 <= 2 ^ Z.of_nat j) by (apply Z.pow_le_mono_r; lia). lia. }
    rewrite !Hd by lia. vm_compute. reflexivity.
Qed.

(** One failed attempt: the wait, and the next dial. *)
Lemma failed_attempt_run s st w :
  mops w = [m_dial s (Some st)] -> reconnect_stopped_ w = false -> rs_policy st = default_policy ->
  exists w' st',
    mrun undefined_cast failed_attempt w = Some w' /\
    mops w' = [m_dial (next_sid w) (Some st')] /\ reconnect_stopped_ w' = false /\
    rs_policy st' = default_policy /\
    rs_current_delay st' = next_delay undefined_cast default_policy (rs_current_delay st) /\
    mlog w' = mlog w ++ [ev_wait (rs_current_delay st); ev_dial (next_sid w) (rs_host st) (rs_service st)].
Proof.
  intros Ho Hs Hp. unfold failed_attempt. simpl. rewrite Ho. simpl.
  unfold on_dialled, schedule_reconnect, connected_to. simpl. rewrite Hs, Hp. simpl. rewrite Ho. simpl.
  unfold on_backoff, attempt_reconnect, mbind, M_bind, gets. simpl. rewrite Hs. simpl. rewrite Hs. simpl.
  unfold do_connect. simpl. rewrite Hp. simpl.
  eexists _, (with_delay (next_delay undefined_cast default_policy (rs_current_delay st))
                (with_attempts ((rs_attempts st + 1) mod u64_modulus) st)).
  split; [reflexivity|]. simpl. rewrite Ho. split_and!; try done. by rewrite <-app_assoc.
Qed.

Lemma failing_run_spec n k s st w :
  mops w = [m_dial s (Some st)] -> reconnect_stopped_ w = false -> rs_policy st = default_policy ->
  rs_current_delay st = default_delay k ->
  exists w',
    mrun undefined_cast (failing_run n) w = Some w' /\
    omap wait_of (mlog w') = omap wait_of (mlog w) ++ (default_delay <$> seq k n) /\
    dials w' = dials w + Z.of_nat n.
Proof.
  revert k s st w. induction n as [|n IH]; intros k s st w Ho Hs Hp Hd.
  { exists w. rewrite app_nil_r. split_and!; [done..|lia]. }
  destruct (failed_attempt_run s st w Ho Hs Hp) as (w1 & st1 & Hr & Ho1 & Hs1 & Hp1 & Hd1 & Hl1).
  rewrite Hd, default_next in Hd1.
  destruct (IH (S k) _ st1 w1 Ho1 Hs1 Hp1 Hd1) as (w' & Hr' & Hw' & Hn').
  exists w'. cbn [failing_run]. rewrite mrun_app, Hr. split_and!; [done| |].
  - rewrite Hw', Hl1, omap_app, Hd. simpl. by rewrite <-app_assoc.
  - rewrite Hn'. unfold dials. rewrite Hl1, filter_app, zlen_app.
    rewrite filter_cons_False, filter_cons_True by done. unfold zlen. simpl. lia.
Qed.
End default_backoff.

(** C35 The default backoff: dialling a server that never answers with the
    default policy, the waits between the dials are 1, 2, 4, 8, 16 and then 30
    seconds for ever, computed in doubles as the code does, without a conversion
    that the language leaves undefined; after [n] failures the [n]+1st dial is
    under way. *)
Theorem default_backoff_sequence (undefined_cast : spec_float -> Z) (n : nat) (h sv : string) :
  exists w,
    mrun undefined_cast (ml_boost_connect_policy h sv 0 default_policy :: failing_run n) new_manager
      = Some w /\
    omap wait_of (mlog w) = (fun k => seconds (Z.min (2 ^ Z.of_nat k) 30)) <$> seq 0 n /\
    dials w = Z.of_nat n + 1.
Proof.
  set (w0 := (boost_connect_policy h sv 0 default_policy new_manager).2).
  destruct (failing_run_spec undefined_cast n 0 0
    (mkReconnectState h sv 0 default_policy 0 (initial_delay default_policy)) w0)
    as (w & Hr & Hw & Hd); [reflexivity..|].
  exists w. split; [exact Hr|]. split; [exact Hw|]. rewrite Hd. unfold dials, zlen. simpl. lia.
Qed.

(** ** The settings and the address of a session *)

(** The settings a dialled session gets: after [connect] with a policy the
    new session's socket has the manager's limits and timeouts, except that an
    idle timeout of the policy replaces the manager's; a setting that is zero in
    the manager leaves the socket's default of zero. *)
Theorem dialled_settings (h sv : string) (ssl : nat) (p : reconnect_policy) (w : mworld) :
  let '(r, w') := boost_connect_policy h sv ssl p w in
  r = Ret (next_sid w) /\
  heap w' !! next_sid w = Some
    (mkTcpSocket (if policy_idle_timeout p >? 0 then policy_idle_timeout p else mgr_idle_timeout_ (cfg w))
       (mgr_heartbeat_timeout_ (cfg w)) (mgr_handshake_timeout_ (cfg w)) false
       (mgr_max_message_size_ (cfg w)) (mgr_max_pending_writes_ (cfg w)) false false false default_endpoint) /\
  (forall s, s <> next_sid w -> heap w' !! s = heap w !! s).
Proof.
  unfold boost_connect_policy. do 2 erewrite bind_Ret by reflexivity.
  unfold mret, M_ret. split; [done|].
  assert (apply_caps (cfg w) new_tcp_socket =
    mkTcpSocket (mgr_idle_timeout_ (cfg w)) (mgr_heartbeat_timeout_ (cfg w))
      (mgr_handshake_timeout_ (cfg w)) false (mgr_max_message_size_ (cfg w))
      (mgr_max_pending_writes_ (cfg w)) false false false default_endpoint) as Hcaps.
  { unfold apply_caps, new_tcp_socket. destruct (cfg w) as [it ht st mm mp ms mi oc od]. simpl.
    destruct (it =? 0) eqn:E1, (ht =? 0) eqn:E2, (st =? 0) eqn:E3, (mm =? 0) eqn:E4, (mp =? 0) eqn:E5;
      rewrite ?Z.eqb_eq in *; subst; reflexivity. }
  unfold do_connect. cbn [rs_policy]. split.
  - destruct (policy_idle_timeout p >? 0); simpl;
      rewrite ?lookup_alter_eq, lookup_insert_eq; simpl; by rewrite Hcaps.
  - intros s Hs. destruct (policy_idle_timeout p >? 0); simpl;
      by rewrite ?lookup_alter_ne, lookup_insert_ne by done.
Qed.

(** A peer reached over IPv6 is lost: registering a session whose remote
    address is not IPv4 throws, after the session was put into the registry and
    before it was counted, announced or started. *)
Theorem ipv6_session_half_registered (s : sid) (w : mworld) (bits port : Z) :
  remote_endpoint_ (socket_of s w) = mkEndpoint (address_v6 bits) port ->
  let '(r, w') := register_and_start s w in
  r = Throw bad_address_cast /\ sessions_ w' = sessions_ w ++ [s] /\
  connections_per_ip_ w' = connections_per_ip_ w /\ mlog w' = mlog w.
Proof.
  intros E. rewrite register_run. unfold ipv4_address. rewrite E. done.
Qed.

Module ReconnectWitness.
Export ManagerWitness.

(** At most two more attempts, 1 s and 30 s. *)
Definition two_attempts : reconnect_policy := mkPolicy (seconds 1) (seconds 30) 0 two 2.

(** A dial that fails, fails again, and fails for good. *)
Definition gives_up : list mlabel :=
  ml_boost_connect_policy "h" "s" 0 two_attempts :: failing_run 2
    ++ [ml_complete 0 false default_endpoint].

(** A dial that succeeds. *)
Definition established : list mlabel :=
  [ml_boost_connect_policy "h" "s" 0 two_attempts; ml_complete 0 true (peer 9);
   ml_complete 0 true default_endpoint].

Definition established_world : mworld := default new_manager (mrun cast established new_manager).

Definition established_state : reconnect_state :=
  mkReconnectState "h" "s" 0 two_attempts 0 (seconds 1).

(** A dial that reaches an IPv6 address. *)
Definition over_ipv6 : list mlabel :=
  [ml_boost_connect "h" "s" 0; ml_complete 0 true (mkEndpoint (address_v6 1) 443)].
End ReconnectWitness.

Section reconnect_witnesses.
Import ReconnectWitness.


Lemma backoff_within_policy_witness :
  exists w, mrun cast gives_up new_manager = Some w /\
    ev_wait (seconds 2) ∈ mlog w /\
    (seconds 2 = seconds 1 \/ seconds 2 <= seconds 30).
Proof.
  eexists. split; [vm_compute; reflexivity|].
  assert (ev_wait (seconds 2) ∈
    [ev_dial 0 "h" "s"; ev_wait (seconds 1); ev_dial 1 "h" "s"; ev_wait (seconds 2); ev_dial 2 "h" "s"]) as Hin
    by (apply list_elem_of_In; simpl; auto).
  split; [exact Hin|].
  eapply (backoff_within_policy cast two_attempts gives_up);
    [vm_compute; congruence|repeat constructor|vm_compute; reflexivity|exact Hin].
Defined.

Lemma dropped_session_redials_witness :
  mops (remove_session on_session_removed 0%nat established_world).2 =
    [m_backoff (with_attempts 1 established_state)].
Proof.
  assert (mrun cast established new_manager = Some established_world) as Hr by (vm_compute; reflexivity).
  assert (reconnect_map_ established_world !! 0%nat = Some established_state) as Hm
    by (vm_compute; reflexivity).
  exact (proj1 (dropped_session_redials cast two_attempts established established_world 0%nat
    established_state 167772169 ltac:(vm_compute; congruence) ltac:(repeat constructor) Hr
    ltac:(constructor) ltac:(vm_compute; reflexivity) Hm ltac:(reflexivity))).
Defined.

Lemma dials_bounded_witness :
  exists w, mrun cast gives_up new_manager = Some w /\ dials w = 3 /\ mops w = [] /\ dials w <= 3.
Proof.
  eexists. split; [vm_compute; reflexivity|]. split; [reflexivity|]. split; [reflexivity|].
  eapply (dials_bounded cast gives_up); [|vm_compute; tauto|vm_compute; reflexivity].
  repeat constructor.
Defined.

Lemma ipv6_session_half_registered_witness :
  exists w, mrun cast over_ipv6 new_manager = Some w /\
    (register_and_start 0%nat w).1 = Throw bad_address_cast.
Proof.
  eexists. split; [vm_compute; reflexivity|].
  pose proof (ipv6_session_half_registered 0%nat) as R.
  match goal with |- (register_and_start _ ?w).1 = _ => specialize (R w 1 443 eq_refl) end.
  destruct (register_and_start _ _) as [r w']. exact (proj1 R).
Defined.
End reconnect_witnesses.
