(* ===== verification/ManagerThreads.v ===== *)
(** * The session managers on a pool of threads

    SessionManager.v takes each operation and each completion handler of the
    managers as one step.  On a pool they are not: the mutexes cover only parts of
    them, [on_connect_], [start], [on_disconnect_] and [on_session_removed] run
    after [sessions_mutex_] is released, and each test of [reconnect_stopped_] is
    followed by an action of its own.  Here a handler is a thread that stands
    before its next atomic action ([thread], a program counter with what the
    handler holds), and any thread may take the next step.

    What remains one step touches shared state once: an accept and a call of
    [add_session] or [connect] (one locked test, then work on a session that
    nobody else has), and each locked region, [session_manager::stop] being one.

    Run to its end without interruption a thread does what the operation of
    SessionManager.v does ([atomic_runs_are_schedules]). *)

From stdpp Require Import strings.
From Stdlib Require Import Floats.SpecFloat.
From S2P Require Import Prelude SocketTimers BoostSocket SessionManager ManagerCorrect.
From S2P Require Import ManagerEvents Reconnect.

#[global] Instance mevent_eq_dec : EqDecision mevent.
Proof. solve_decision. Defined.

(** ** Threads *)

(** What a thread does next. *)
Inductive thread : Type :=
| t_shake (o : mgr_op)                                (* async_handshake, on a connected session *)
| t_remember (s : sid) (st : reconnect_state)         (* reconnect_map_[sess.get()] = ..., locked *)
| t_register (s : sid)                                (* register_and_start: the locked region *)
| t_announce (s : sid)                                (* on_connect_(sess) *)
| t_start (s : sid)                                   (* sess->start() *)
| t_remove (s : sid)                                  (* remove_session: the locked region *)
| t_removed (s : sid)                                 (* on_disconnect_(removed) *)
| t_hook (s : sid)                                    (* on_session_removed: the locked region *)
| t_schedule (st : reconnect_state)                   (* schedule_reconnect *)
| t_wait (st : reconnect_state)                       (* its timer *)
| t_attempt (st : reconnect_state)                    (* attempt_reconnect *)
| t_redial (st : reconnect_state)                     (* make_shared, do_connect *)
| t_stop                                              (* reconnect_stopped_ = true *)
| t_stop_map                                          (* reconnect_map_.clear(), locked *)
| t_stop_acceptor                                     (* acceptor_->close(ec) *)
| t_stop_sessions.                                    (* session_manager::stop, locked *)

(** The locked region of [register_and_start]; [ipv4_address] may throw in it. *)
Definition register_locked (s : sid) (w : mworld) : mworld * option thread :=
  let w := upd_sessions (fun l => l ++ [s]) w in
  match ipv4_address (socket_of s w) with
  | Ret ip => (upd_counts (count_up ip) w, Some (t_announce s))
  | Throw _ => (w, None)
  end.

(** The locked region of [remove_session]. *)
Definition remove_locked (s : sid) (w : mworld) : mworld * option thread :=
  if negb (bool_decide (s ∈ sessions_ w)) then (w, None) else
  let w := upd_sessions (erase_first s) w in
  match ipv4_address (socket_of s w) with
  | Ret ip => (upd_counts (count_down ip) w, Some (t_removed s))
  | Throw _ => (w, None)
  end.

(** The locked region of [on_session_removed]. *)
Definition hook_locked (s : sid) (w : mworld) : mworld * option thread :=
  match reconnect_map_ w !! s with
  | Some st => (upd_reconnect_map (delete s) w, Some (t_schedule st))
  | None => (w, None)
  end.

(** The tests of [schedule_reconnect], before its timer. *)
Definition schedule_tested (st : reconnect_state) (w : mworld) : mworld * option thread :=
  if reconnect_stopped_ w then (w, None) else
  let st := with_attempts ((rs_attempts st + 1) mod u64_modulus) st in
  if negb (max_attempts (rs_policy st) =? 0) && (rs_attempts st >? max_attempts (rs_policy st))
  then (w, None) else (w, Some (t_wait st)).

Ltac open_locked := unfold register_locked, remove_locked, hook_locked, schedule_tested; cbv zeta.

(** The next action of a thread, and where it stands afterwards. *)
Definition thread_step (t : thread) (w : mworld) : mworld * option thread :=
  match t with
  | t_shake o => (start_mop o w, None)
  | t_remember s st => (upd_reconnect_map (insert s st) w, Some (t_register s))
  | t_register s => register_locked s w
  | t_announce s => (if on_connect_ (cfg w) then log_event (ev_connected s) w else w, Some (t_start s))
  | t_start s => (log_event (ev_started s) w, None)
  | t_remove s => remove_locked s w
  | t_removed s => (if on_disconnect_ (cfg w) then log_event (ev_disconnected s) w else w, Some (t_hook s))
  | t_hook s => hook_locked s w
  | t_schedule st => schedule_tested st w
  | t_wait st => (start_mop (m_backoff st) (log_event (ev_wait (rs_current_delay st)) w), None)
  | t_attempt st => if reconnect_stopped_ w then (w, None) else (w, Some (t_redial st))
  | t_redial st =>
      (do_connect (next_sid w) (rs_host st) (rs_service st) (Some st) (make_session new_tcp_socket w).2, None)
  | t_stop => (set_reconnect_stopped w, Some t_stop_map)
  | t_stop_map => (upd_reconnect_map (fun _ => ∅) w, Some t_stop_acceptor)
  | t_stop_acceptor => (close_acceptor w, Some t_stop_sessions)
  | t_stop_sessions => (base_stop w, None)
  end.

Section threads.
Context (undefined_cast : spec_float -> Z).

(** A completion handler up to its first test, and the thread that goes on. *)
Definition on_completion (o : mgr_op) (ok : bool) (e : endpoint) (w : mworld) : mworld * option thread :=
  match o with
  | m_accept_handshake s | m_connect_handshake s => (w, if ok then Some (t_register s) else None)
  | m_connect s => (connected_to s ok e w, if ok then Some (t_shake (m_connect_handshake s)) else None)
  | m_dial s state =>
      (connected_to s ok e w,
       if is_some_state state && reconnect_stopped_ w then None else
       if ok then Some (t_shake (m_dial_handshake s state)) else t_schedule <$> state)
  | m_dial_handshake s state =>
      (w,
       if is_some_state state && reconnect_stopped_ w then None else
       if negb ok then t_schedule <$> state else
       match state with
       | Some st => Some (t_remember s (with_delay (initial_delay (rs_policy st)) (with_attempts 0 st)))
       | None => Some (t_register s)
       end)
  | m_backoff st =>
      (w,
       if negb ok || reconnect_stopped_ w then None else
       Some (t_attempt (with_delay (next_delay undefined_cast (rs_policy st) (rs_current_delay st)) st)))
  end.

Record tworld := mkTWorld { tw_mgr : mworld; tw_threads : list thread }.

(** Calls that are one step. *)
Definition is_call (l : mlabel) : bool :=
  match l with ml_complete _ _ _ | ml_remove _ | ml_stop => false | _ => true end.

Inductive tlabel : Type :=
| tl_call (l : mlabel)
| tl_complete (i : nat) (ok : bool) (e : endpoint)   (* Asio runs a handler *)
| tl_error (s : sid)                                 (* a started session calls remove_session *)
| tl_remove (s : sid)                                (* a user does *)
| tl_stop                                            (* a user calls stop *)
| tl_run (j : nat).                                  (* a thread takes its next step *)

(** A session reports an error from the handlers of its reads, which [start]
    begins. *)
Definition tstep (l : tlabel) (tw : tworld) : option tworld :=
  let '(mkTWorld w ts) := tw in
  match l with
  | tl_call l =>
      if is_call l then w ← mstep undefined_cast l w; Some (mkTWorld w ts) else None
  | tl_complete i ok e =>
      o ← mops w !! i;
      let r := on_completion o ok e (finish_mop i w) in
      Some (mkTWorld r.1 (ts ++ option_list r.2))
  | tl_error s =>
      if bool_decide (ev_started s ∈ mlog w) then Some (mkTWorld w (ts ++ [t_remove s])) else None
  | tl_remove s => Some (mkTWorld w (ts ++ [t_remove s]))
  | tl_stop => Some (mkTWorld w (ts ++ [t_stop]))
  | tl_run j =>
      t ← ts !! j;
      let r := thread_step t w in
      Some (mkTWorld r.1 (delete j ts ++ option_list r.2))
  end.

Fixpoint trun (ls : list tlabel) (tw : tworld) : option tworld :=
  match ls with
  | [] => Some tw
  | l :: ls => tw ← tstep l tw; trun ls tw
  end.

Lemma trun_app ls1 ls2 tw :
  trun (ls1 ++ ls2) tw = tw' ← trun ls1 tw; trun ls2 tw'.
Proof.
  revert tw. induction ls1 as [|l ls1 IH]; intros tw; simpl; [done|].
  destruct (tstep l tw); simpl; [apply IH|done].
Qed.

(** ** Uninterrupted threads *)

(** The steps a thread has left, at most. *)
Definition rank (t : thread) : nat :=
  match t with
  | t_shake _ | t_start _ | t_wait _ | t_redial _ | t_stop_sessions => 1
  | t_announce _ | t_schedule _ | t_attempt _ | t_stop_acceptor => 2
  | t_register _ | t_hook _ | t_stop_map => 3
  | t_remember _ _ | t_removed _ | t_stop => 4
  | t_remove _ => 5
  end.

Lemma rank_decreases t w t' : (thread_step t w).2 = Some t' -> (rank t' < rank t)%nat.
Proof.
  destruct t; unfold thread_step; open_locked;
    repeat case_match; simpl; intros; simplify_eq/=; lia.
Qed.

(** A thread that runs to its end, with fuel. *)
Fixpoint finish_thread (n : nat) (t : thread) (w : mworld) : mworld :=
  match n with
  | O => w
  | S n =>
      let r := thread_step t w in
      match r.2 with Some t' => finish_thread n t' r.1 | None => r.1 end
  end.

Lemma delete_last {A} (l : list A) x : delete (length l) (l ++ [x]) = l.
Proof. induction l; simpl; [done|]. by f_equal. Qed.

Lemma finish_thread_run n t w ts :
  (rank t <= n)%nat ->
  exists ls, trun ls (mkTWorld w (ts ++ [t])) = Some (mkTWorld (finish_thread n t w) ts).
Proof.
  revert t w. induction n as [|n IH]; intros t w Hn.
  { destruct t; simpl in Hn; lia. }
  destruct ((thread_step t w).2) as [t'|] eqn:E.
  - pose proof (rank_decreases _ _ _ E).
    destruct (IH t' (thread_step t w).1 ltac:(lia)) as [ls Hls].
    exists (tl_run (length ts) :: ls). cbn [trun tstep]. rewrite list_lookup_middle by done.
    cbn [mbind option_bind]. rewrite E, delete_last. cbn [option_list finish_thread]. rewrite E. exact Hls.
  - exists [tl_run (length ts)]. cbn [trun tstep]. rewrite list_lookup_middle by done.
    cbn [mbind option_bind]. rewrite E, delete_last. cbn [option_list finish_thread].
    by rewrite E, app_nil_r.
Qed.

(** What the threads do when they are not interrupted. *)

Lemma finish_register n s w :
  (3 <= n)%nat -> finish_thread n (t_register s) w = (register_and_start s w).2.
Proof.
  intros Hn. destruct n as [|[|[|n]]]; [lia..|]. rewrite register_run. cbn [finish_thread thread_step]; open_locked.
  change (socket_of s (upd_sessions (fun l => l ++ [s]) w)) with (socket_of s w).
  destruct (ipv4_address _) as [ip|]; [|done]. simpl. by destruct (on_connect_ (cfg w)).
Qed.

Lemma finish_schedule n st w :
  (2 <= n)%nat -> finish_thread n (t_schedule st) w = schedule_reconnect st w.
Proof.
  intros Hn. destruct n as [|[|n]]; [lia..|]. unfold schedule_reconnect. cbn [finish_thread thread_step]; open_locked.
  destruct (reconnect_stopped_ w); [done|]. cbv zeta. by destruct (_ && _).
Qed.

Lemma finish_hook n s w : (3 <= n)%nat -> finish_thread n (t_hook s) w = on_session_removed s w.
Proof.
  intros Hn. destruct n as [|n]; [lia|]. unfold on_session_removed. cbn [finish_thread thread_step]; open_locked.
  destruct (reconnect_map_ w !! s) as [st|]; [|done]. apply finish_schedule. lia.
Qed.

Lemma finish_remove n s w :
  (5 <= n)%nat -> finish_thread n (t_remove s) w = (remove_session on_session_removed s w).2.
Proof.
  intros Hn. destruct n as [|[|n]]; [lia..|]. rewrite remove_run. cbn [finish_thread thread_step]; open_locked.
  destruct (bool_decide _); [|done]. cbv zeta. cbn [negb].
  change (socket_of s (upd_sessions (erase_first s) w)) with (socket_of s w).
  destruct (ipv4_address _) as [ip|]; [|done]. cbn [fst snd thread_step cfg upd_counts upd_sessions]; open_locked.
  rewrite finish_hook by lia. by destruct (on_disconnect_ (cfg w)).
Qed.

Lemma finish_attempt n st w :
  (2 <= n)%nat -> finish_thread n (t_attempt st) w = (attempt_reconnect st w).2.
Proof.
  intros Hn. destruct n as [|[|n]]; [lia..|]. unfold attempt_reconnect. erewrite bind_Ret by reflexivity.
  cbn [finish_thread thread_step]; open_locked. by destruct (reconnect_stopped_ w).
Qed.

Lemma finish_stop n w : (4 <= n)%nat -> finish_thread n t_stop w = stop w.
Proof. intros Hn. by destruct n as [|[|[|[|n]]]]; [lia..|]. Qed.

(** A completion handler that is not interrupted. *)
Definition finish_option (o : option thread) (w : mworld) : mworld :=
  match o with Some t => finish_thread 5 t w | None => w end.

Lemma finish_completion o ok e w :
  let r := on_completion o ok e w in finish_option r.2 r.1 = (on_mop undefined_cast o ok e w).2.
Proof.
  pose proof (fun s w => finish_register 5 s w ltac:(lia)) as Hr.
  pose proof (fun st w => finish_schedule 5 st w ltac:(lia)) as Hsc.
  destruct o as [s|s|s|s state|s state|st]; cbn [on_completion fst snd on_mop].
  - unfold on_base_handshake. destruct ok; [apply Hr|done].
  - by destruct ok.
  - unfold on_base_handshake. destruct ok; [apply Hr|done].
  - assert (reconnect_stopped_ (connected_to s ok e w) = reconnect_stopped_ w) as E by (by destruct ok).
    cbn [modify snd]. unfold on_dialled. rewrite E. destruct (_ && _); [done|]. destruct ok; [done|].
    destruct state; [apply Hsc|done].
  - unfold on_dial_handshake. erewrite bind_Ret by reflexivity. destruct (_ && _); [done|]. destruct ok.
    + cbn [negb]. erewrite bind_Ret by reflexivity. destruct state as [st|]; [|apply Hr].
      cbn [finish_option finish_thread thread_step fst snd]; open_locked. by apply (finish_register 4); lia.
    + cbn [negb]. destruct state; [apply Hsc|done].
  - unfold on_backoff. erewrite bind_Ret by reflexivity. destruct (_ || _); [done|].
    apply (finish_attempt 5). lia.
Qed.

(** ** The atomic runs are schedules *)

Lemma finish_option_run o w ts :
  exists ls, trun ls (mkTWorld w (ts ++ option_list o)) = Some (mkTWorld (finish_option o w) ts).
Proof.
  destruct o as [t|]; [|exists []; simpl; by rewrite app_nil_r].
  apply finish_thread_run. destruct t; simpl; lia.
Qed.

Lemma atomic_step l w w' ts :
  mstep undefined_cast l w = Some w' -> exists ls, trun ls (mkTWorld w ts) = Some (mkTWorld w' ts).
Proof.
  intros Hs. destruct (is_call l) eqn:Ec.
  { exists [tl_call l]. cbn [trun tstep]. by rewrite Ec, Hs. }
  destruct l as [f| |ec e|sock|sock h sv|h sv ssl|h sv ssl p|i ok e|s|]; try done; simpl in Hs.
  - destruct (mops w !! i) as [o|] eqn:Ei; [|done]. injection Hs as <-.
    pose proof (finish_completion o ok e (finish_mop i w)) as Ef. cbv zeta in Ef.
    destruct (finish_option_run (on_completion o ok e (finish_mop i w)).2
      (on_completion o ok e (finish_mop i w)).1 ts) as [ls Hls]. rewrite Ef in Hls.
    exists (tl_complete i ok e :: ls). cbn [trun tstep]. rewrite Ei. exact Hls.
  - injection Hs as <-. destruct (finish_thread_run 5 (t_remove s) w ts ltac:(done)) as [ls Hls].
    rewrite finish_remove in Hls by lia. by exists (tl_remove s :: ls).
  - injection Hs as <-. destruct (finish_thread_run 5 t_stop w ts ltac:(simpl; lia)) as [ls Hls].
    rewrite finish_stop in Hls by lia. by exists (tl_stop :: ls).
Qed.
End threads.

(** Every run of SessionManager.v is a run of the threads, in which no handler is
    interrupted. *)
Theorem atomic_runs_are_schedules (undefined_cast : spec_float -> Z) (ls : list mlabel) (w w' : mworld) :
  mrun undefined_cast ls w = Some w' ->
  exists tls, trun undefined_cast tls (mkTWorld w []) = Some (mkTWorld w' []).
Proof.
  revert w. induction ls as [|l ls IH]; simpl; intros w Hr; [simplify_eq; by exists []|].
  destruct (mstep undefined_cast l w) as [w1|] eqn:E; [|done]. simpl in Hr.
  destruct (atomic_step _ _ _ _ [] E) as [tl1 H1]. destruct (IH w1 Hr) as [tl2 H2].
  exists (tl1 ++ tl2). by rewrite trun_app, H1.
Qed.

(** ** The invariant of the threads *)

(** The session that a thread is about to bring in or to see off. *)
Definition place (t : thread) : list sid :=
  match t with
  | t_shake o => op_sids o
  | t_remember s _ | t_register s | t_announce s | t_start s | t_removed s => [s]
  | _ => []
  end.

(** Those that are not in the registry meanwhile. *)
Definition outside (t : thread) : list sid :=
  match t with t_announce _ | t_start _ => [] | _ => place t end.

(** What was announced before the thread goes on. *)
Definition status (log : list mevent) (t : thread) : Prop :=
  match t with
  | t_shake o => forall s, s ∈ op_sids o -> ev_connected s ∉ log
  | t_remember s _ | t_register s | t_announce s => ev_connected s ∉ log
  | t_start s => ev_connected s ∈ log /\ ev_started s ∉ log
  | t_remove s => ev_started s ∈ log
  | t_removed s => ev_started s ∈ log /\ ev_disconnected s ∉ log
  | _ => True
  end.

Record thread_ok (w : mworld) (t : thread) : Prop := {
  to_place s : s ∈ place t -> (s < next_sid w)%nat /\ s ∉ pending w;
  to_outside s : s ∈ outside t -> s ∉ sessions_ w;
  to_status : status (mlog w) t
}.

Record tinv (w : mworld) (ts : list thread) : Prop := {
  ti_connect : on_connect_ (cfg w) = true;
  ti_disconnect : on_disconnect_ (cfg w) = true;
  ti_minv : minv w;
  ti_places : NoDup (ts ≫= place);
  ti_threads : Forall (thread_ok w) ts;
  ti_new s : s ∈ pending w \/ (next_sid w <= s)%nat -> ev_connected s ∉ mlog w;
  ti_live s : s ∈ sessions_ w -> ev_disconnected s ∉ mlog w;
  ti_paired : paired (mlog w)
}.

Lemma tinv_perm w ts ts' : ts ≡ₚ ts' -> tinv w ts -> tinv w ts'.
Proof.
  intros Hp [H1 H2 H3 H4 H5 H6 H7 H8]. split; try done.
  - by rewrite <-(bind_Permutation place _ _ Hp).
  - by rewrite <-Hp.
Qed.

(** What a step that is about the sessions [X] may do. *)
Record frame (X : list sid) (w w' : mworld) : Prop := {
  fx_cfg : cfg w' = cfg w;
  fx_pending s : s ∈ pending w' -> s ∈ pending w \/ s ∈ X \/ (next_sid w <= s)%nat;
  fx_sessions s : s ∈ sessions_ w' -> s ∈ sessions_ w \/ s ∈ X;
  fx_next : (next_sid w <= next_sid w')%nat;
  fx_log : exists l, mlog w' = mlog w ++ l /\ forall e s, e ∈ l -> announces e = Some s -> s ∈ X
}.

Lemma steady_frame X w w' : steady X w w' -> frame X w w'.
Proof.
  intros [A1 A2 A3 A4 (l & A5 & A6)]. split; [done..| |done|].
  - intros s [Hs _]%A2. by left.
  - exists l. split; [done|]. intros e s He Ha. pose proof (proj1 (Forall_forall _ _) A6 e He) as Hn.
    unfold neutral in Hn. congruence.
Qed.

(** Only events about [X] are new. *)
Lemma frame_event X w w' e s :
  frame X w w' -> announces e = Some s -> s ∉ X -> e ∈ mlog w' -> e ∈ mlog w.
Proof.
  intros Hf He Hs. destruct (fx_log _ _ _ Hf) as (l & -> & Hl).
  intros [?|Hin]%elem_of_app; [done|]. by destruct Hs; eapply Hl.
Qed.

Lemma frame_log_mono X w w' e : frame X w w' -> e ∈ mlog w -> e ∈ mlog w'.
Proof. intros Hf He. destruct (fx_log _ _ _ Hf) as (l & -> & _). apply elem_of_app. by left. Qed.

Lemma outside_place t s : s ∈ outside t -> s ∈ place t.
Proof. destruct t; simpl; try done; by intros ?%not_elem_of_nil. Qed.

Lemma thread_ok_frame X w w' t :
  frame X w w' -> (forall s, s ∈ place t -> s ∉ X) -> thread_ok w t -> thread_ok w' t.
Proof.
  intros Hf HX [H1 H2 H3]. pose proof (fx_next _ _ _ Hf) as Hn. split.
  - intros s Hs. destruct (H1 s Hs) as [Hlt Hp]. split; [lia|].
    intros Hin. destruct (fx_pending _ _ _ Hf s Hin) as [?|[?|?]]; [done|by eapply HX|lia].
  - intros s Hs Hin. destruct (fx_sessions _ _ _ Hf s Hin) as [?|?]; [by eapply H2|].
    by eapply HX; [apply outside_place|].
  - assert (forall e s, announces e = Some s -> s ∈ place t -> e ∉ mlog w -> e ∉ mlog w') as Hk.
    { intros e s He Hs Hni Hin. apply Hni. by eapply (frame_event X); [..|apply HX|]. }
    destruct t; simpl in *; try done.
    + intros s Hs. by apply (Hk _ s), H3.
    + apply (Hk _ s); [done|by left|done].
    + apply (Hk _ s); [done|by left|done].
    + apply (Hk _ s); [done|by left|done].
    + destruct H3 as [Ha Hb]. split; [by eapply frame_log_mono|]. apply (Hk _ s); [done|by left|done].
    + by eapply frame_log_mono.
    + destruct H3 as [Ha Hb]. split; [by eapply frame_log_mono|]. apply (Hk _ s); [done|by left|done].
Qed.

(** One thread, or none, goes on; the others are not concerned. *)
Lemma tinv_move X w w' old new rest :
  tinv w (old ++ rest) -> frame X w w' -> minv w' ->
  (forall s, s ∈ X -> (s < next_sid w)%nat /\ s ∉ (rest ≫= place)) ->
  (forall s, s ∈ X -> s ∈ pending w' -> ev_connected s ∉ mlog w') ->
  (forall s, s ∈ X -> s ∈ sessions_ w' -> ev_disconnected s ∉ mlog w') ->
  paired (mlog w') ->
  NoDup (new ≫= place) -> (forall s, s ∈ (new ≫= place) -> s ∈ X) -> Forall (thread_ok w') new ->
  tinv w' (new ++ rest).
Proof.
  intros [H1 H2 H3 H4 H5 H6 H7 H8] Hf Hm HX Hpe Hli Hpa Hnd Hsub Hok.
  rewrite bind_app in H4. apply NoDup_app in H4 as (_ & _ & H4). apply Forall_app in H5 as [_ H5].
  split; rewrite ?(fx_cfg _ _ _ Hf); try done.
  - rewrite bind_app. apply NoDup_app. split_and!; [done| |done]. intros s Hs. by apply HX, Hsub.
  - apply Forall_app. split; [done|]. rewrite Forall_forall in H5 |- *. intros t Ht.
    apply (thread_ok_frame X w); [done| |by apply H5]. intros s Hs Hin.
    apply (proj2 (HX s Hin)). apply list_elem_of_bind. by exists t.
  - intros s Hs Hin. destruct (decide (s ∈ X)) as [Hx|Hx].
    + destruct Hs as [Hs|Hs]; [by apply (Hpe s Hx Hs)|]. pose proof (proj1 (HX s Hx)).
      pose proof (fx_next _ _ _ Hf). lia.
    + apply (frame_event X w w' (ev_connected s) s Hf eq_refl Hx) in Hin.
      destruct Hs as [Hs|Hs]; [|apply (H6 s); [right; pose proof (fx_next _ _ _ Hf); lia|done]].
      destruct (fx_pending _ _ _ Hf s Hs) as [?|[?|?]]; [|done|]; (apply (H6 s); auto).
  - intros s Hs Hin. destruct (decide (s ∈ X)) as [Hx|Hx]; [by apply (Hli s Hx Hs)|].
    apply (frame_event X w w' (ev_disconnected s) s Hf eq_refl Hx) in Hin.
    destruct (fx_sessions _ _ _ Hf s Hs) as [?|?]; [by apply (H7 s)|done].
Qed.

Lemma paired_frame_neutral X w w' : steady X w w' -> paired (mlog w) -> paired (mlog w').
Proof. intros Hs Hp. destruct (fr_log _ _ _ Hs) as (l & -> & Hl). by apply paired_neutral. Qed.

(** A step that announces nothing, of a thread that is about no session. *)
Lemma tinv_quiet w w' old new rest :
  tinv w (old ++ rest) -> steady [] w w' -> minv w' ->
  Forall (fun t => place t = [] /\ forall log, status log t) new -> tinv w' (new ++ rest).
Proof.
  intros Hw Hs Hm Hn. assert (new ≫= place = []) as Ep.
  { clear -Hn. induction Hn as [|t l [Ht _] _ IH]; [done|]. by rewrite bind_cons, Ht, IH. }
  apply (tinv_move [] w w' old); rewrite ?Ep; try done.
  - by apply steady_frame.
  - by intros s ?%not_elem_of_nil.
  - by intros s ?%not_elem_of_nil.
  - by intros s ?%not_elem_of_nil.
  - eapply paired_frame_neutral; [done|]. by apply (ti_paired _ _ Hw).
  - constructor.
  - apply (Forall_impl _ _ _ Hn). intros t [Ht Hst]. split; [rewrite Ht; by intros s ?%not_elem_of_nil| |done].
    intros s Hso%outside_place. rewrite Ht in Hso. by apply not_elem_of_nil in Hso.
Qed.

(** What is known of the session of a thread. *)
Lemma tinv_head w t rest s :
  tinv w (t :: rest) -> s ∈ place t ->
  ((s < next_sid w)%nat /\ s ∉ (rest ≫= place)) /\ (s ∉ pending w) /\ (s ∈ outside t -> free s w).
Proof.
  intros Hw Hs. pose proof (ti_threads _ _ Hw) as Ht. apply Forall_cons in Ht as [[H1 H2 _] _].
  pose proof (ti_places _ _ Hw) as Hn. rewrite bind_cons in Hn. apply NoDup_app in Hn as (_ & Hn & _).
  destruct (H1 s Hs) as [Hlt Hp]. split_and!; [done|by apply Hn|done|]. intros Ho. split; [done|].
  rewrite elem_of_app. intros [?|?]; [by apply (H2 s)|done].
Qed.

Lemma tinv_head_status w t rest : tinv w (t :: rest) -> status (mlog w) t.
Proof. intros Hw. pose proof (ti_threads _ _ Hw) as Ht. by apply Forall_cons in Ht as [[_ _ H3] _]. Qed.

Lemma nodup_one (s : sid) : NoDup ([s] ++ []).
Proof. apply NoDup_singleton. Qed.

Lemma unseen_disconnected log s : paired log -> ev_connected s ∉ log -> ev_disconnected s ∉ log.
Proof. intros Hp Hc Hd. by apply Hc, (paired_started _ _ Hp), (paired_disconnected _ _ Hp). Qed.

Lemma tinv_shake o w rest : tinv w (t_shake o :: rest) -> tinv (start_mop o w) rest.
Proof.
  intros Hw. pose proof (tinv_head_status _ _ _ Hw) as Hst. simpl in Hst.
  apply (tinv_move (op_sids o) w _ [t_shake o] []); try done.
  - apply steady_frame, steady_start. auto.
  - assert (forall s, s ∈ op_sids o -> free s w) as Hf
      by (intros s Hs; by apply (tinv_head w (t_shake o) rest s Hw)).
    pose proof (ti_minv _ _ Hw) as Hm. destruct o; simpl in Hf;
      first [by eapply minv_start; [reflexivity|apply Hf; left|] | by apply minv_start_none].
  - intros s Hs. by apply (tinv_head w (t_shake o) rest s Hw).
  - intros s Hs _. by apply Hst.
  - intros s _ Hs. by apply (ti_live _ _ Hw).
  - by apply (ti_paired _ _ Hw).
  - constructor.
  - by intros s ?%not_elem_of_nil.
Qed.

Lemma tinv_register s w rest :
  let r := thread_step (t_register s) w in
  tinv w (t_register s :: rest) -> tinv r.1 (option_list r.2 ++ rest).
Proof.
  intros r Hw. destruct (tinv_head w _ rest s Hw ltac:(by left)) as (Hx & Hp & Hf).
  specialize (Hf ltac:(by left)). pose proof (tinv_head_status _ _ _ Hw) as Hst. simpl in Hst.
  pose proof (unseen_disconnected _ _ (ti_paired _ _ Hw) Hst) as Hd.
  pose proof (minv_register s w Hf (ti_minv _ _ Hw)) as Hm. rewrite register_run in Hm.
  unfold r. cbn [thread_step]; open_locked. cbv zeta.
  change (socket_of s (upd_sessions (fun l => l ++ [s]) w)) with (socket_of s w).
  assert (forall w', mops w' = mops w -> cfg w' = cfg w -> sessions_ w' = sessions_ w ++ [s] ->
    next_sid w' = next_sid w -> mlog w' = mlog w -> minv w' ->
    forall new, new = [] \/ new = [t_announce s] -> tinv w' (new ++ rest)) as Hgo.
  { intros w' E1 E2 E3 E4 E5 Hm' new Hnew.
    apply (tinv_move [s] w w' [t_register s] new); rewrite ?E5; try done.
    - split; rewrite ?E3, ?E4; try done.
      + unfold pending. rewrite E1. by left.
      + intros s' [?|?]%elem_of_app; [by left|by right].
      + exists []. rewrite E5, app_nil_r. split; [done|]. by intros e s' ?%not_elem_of_nil.
    - by intros s' ->%list_elem_of_singleton.
    - by intros s' ->%list_elem_of_singleton.
    - by intros s' ->%list_elem_of_singleton.
    - by apply (ti_paired _ _ Hw).
    - destruct Hnew as [->| ->]; [constructor|apply nodup_one].
    - destruct Hnew as [->| ->]; simpl; [by intros ? ?%not_elem_of_nil|done].
    - destruct Hnew as [->| ->]; [constructor|]. apply Forall_singleton. split.
      + intros s' ->%list_elem_of_singleton. rewrite E4. unfold pending. rewrite E1. split; [apply Hx|done].
      + by intros s' ?%not_elem_of_nil.
      + simpl. by rewrite E5. }
  destruct (ipv4_address (socket_of s w)) as [ip|]; cbn [fst snd option_list] in *; apply Hgo; try done; auto.
  revert Hm. by apply minv_ext; destruct (on_connect_ (cfg w)).
Qed.

(** A session that was started and is in the registry is with no other thread. *)
Lemma started_elsewhere w rest s :
  paired (mlog w) -> Forall (thread_ok w) rest -> ev_started s ∈ mlog w -> s ∈ sessions_ w ->
  s ∉ (rest ≫= place).
Proof.
  intros Hp Ht Hs Hin (t & Hst & Hel)%list_elem_of_bind.
  destruct (proj1 (Forall_forall _ _) Ht t Hel) as [_ Ho Hok].
  pose proof (paired_started _ _ Hp Hs) as Hc.
  destruct t; simpl in *; try (by apply not_elem_of_nil in Hst); try (by apply (Ho s));
    apply list_elem_of_singleton in Hst as ->; try done; try (by apply (Ho s); left).
  by destruct Hok.
Qed.

Lemma tinv_remove s w rest :
  let r := thread_step (t_remove s) w in
  tinv w (t_remove s :: rest) -> tinv r.1 (option_list r.2 ++ rest).
Proof.
  intros r Hw. pose proof (tinv_head_status _ _ _ Hw) as Hst. simpl in Hst.
  unfold r. cbn [thread_step]; open_locked. destruct (bool_decide_reflect (s ∈ sessions_ w)) as [Hin|Hin]; cbn [negb fst snd].
  2: { apply (tinv_quiet w w [t_remove s] []); [done|apply steady_refl|apply Hw|constructor]. }
  pose proof (ti_minv _ _ Hw) as Hm. pose proof (ti_threads _ _ Hw) as Ht. apply Forall_cons in Ht as [_ Ht].
  pose proof (started_elsewhere _ _ _ (ti_paired _ _ Hw) Ht Hst Hin) as Hel.
  pose proof (ti_live _ _ Hw s Hin) as Hd. pose proof (mi_nodup _ Hm) as Hnd.
  apply NoDup_app in Hnd as (Hnd & Hdis & _). specialize (Hdis s Hin).
  assert (s < next_sid w)%nat as Hlt.
  { pose proof (mi_known _ Hm) as Hk. apply Forall_app in Hk as [Hk _].
    by apply (proj1 (Forall_forall _ _) Hk). }
  pose proof (minv_remove (fun _ w => w) s w (fun w Hw => Hw) Hm) as Hm'.
  rewrite remove_run, bool_decide_eq_true_2 in Hm' by done. cbv zeta in Hm' |- *.
  change (socket_of s (upd_sessions (erase_first s) w)) with (socket_of s w).
  assert (forall w', mops w' = mops w -> cfg w' = cfg w -> sessions_ w' = erase_first s (sessions_ w) ->
    next_sid w' = next_sid w -> mlog w' = mlog w -> minv w' ->
    forall new, new = [] \/ new = [t_removed s] -> tinv w' (new ++ rest)) as Hgo.
  { intros w' E1 E2 E3 E4 E5 Hmw new Hnew.
    assert (s ∉ sessions_ w') as Hout by (rewrite E3, erase_first_filter, list_elem_of_filter by done; tauto).
    apply (tinv_move [s] w w' [t_remove s] new); rewrite ?E5; try done.
    - split; rewrite ?E3, ?E4; try done.
      + unfold pending. rewrite E1. by left.
      + intros s' Hs'. left. rewrite erase_first_filter, list_elem_of_filter in Hs' by done. tauto.
      + exists []. rewrite E5, app_nil_r. split; [done|]. by intros e s' ?%not_elem_of_nil.
    - by intros s' ->%list_elem_of_singleton.
    - intros s' ->%list_elem_of_singleton. unfold pending. by rewrite E1.
    - by intros s' ->%list_elem_of_singleton.
    - by apply (ti_paired _ _ Hw).
    - destruct Hnew as [->| ->]; [constructor|apply nodup_one].
    - destruct Hnew as [->| ->]; simpl; [by intros ? ?%not_elem_of_nil|done].
    - destruct Hnew as [->| ->]; [constructor|]. apply Forall_singleton. split.
      + intros s' ->%list_elem_of_singleton. rewrite E4. unfold pending. by rewrite E1.
      + by intros s' ->%list_elem_of_singleton.
      + simpl. by rewrite E5. }
  destruct (ipv4_address (socket_of s w)) as [ip|]; cbn [fst snd option_list] in *; apply Hgo; try done; auto.
  revert Hm'. by apply minv_ext; destruct (on_disconnect_ (cfg w)).
Qed.

(** A thread announces its session. *)
Lemma tinv_log e s t t' w rest :
  announces e = Some s -> place t = [s] -> tinv w (t :: rest) -> in_order (mlog w) e ->
  (s ∈ sessions_ w -> e <> ev_disconnected s /\ ev_disconnected s ∉ mlog w) ->
  (forall x, t' = Some x -> (forall s', s' ∈ place x -> s' = s) /\ outside x = [] /\
     NoDup (place x) /\ status (mlog w ++ [e]) x) ->
  tinv (log_event e w) (option_list t' ++ rest).
Proof.
  intros He Ht Hw Ho Hd Hx. destruct (tinv_head w t rest s Hw) as (Hlt & Hp & _); [rewrite Ht; by left|].
  apply (tinv_move [s] w (log_event e w) [t]); try done.
  - split; try done; [by left|by left|]. exists [e]. split; [done|].
    intros e' s' ->%list_elem_of_singleton Hs'. rewrite He in Hs'. injection Hs' as <-. by left.
  - by apply (minv_ext w), ti_minv with (t :: rest).
  - by intros s' ->%list_elem_of_singleton.
  - by intros s' ->%list_elem_of_singleton.
  - intros s' ->%list_elem_of_singleton Hs'. simpl. destruct (Hd Hs') as [Hne Hni].
    intros [?|E%list_elem_of_singleton]%elem_of_app; [done|]. congruence.
  - apply paired_snoc; [by apply (ti_paired _ _ Hw)|done].
  - destruct t' as [x|]; simpl; [|constructor]. rewrite app_nil_r. by destruct (Hx x eq_refl) as (_ & _ & ? & _).
  - intros s'. destruct t' as [x|]; simpl; [|by intros ?%not_elem_of_nil]. rewrite app_nil_r.
    intros Hs'. destruct (Hx x eq_refl) as (Hs & _). rewrite (Hs s' Hs'). by left.
  - destruct t' as [x|]; simpl; [|constructor]. destruct (Hx x eq_refl) as (Hs & Hout & _ & Hst).
    apply Forall_singleton. split; [|by rewrite Hout; intros ? ?%not_elem_of_nil|done].
    intros s' Hs'. rewrite (Hs s' Hs'). split; [apply Hlt|done].
Qed.

Lemma tinv_remember s st w rest :
  tinv w (t_remember s st :: rest) -> tinv (upd_reconnect_map (insert s st) w) (t_register s :: rest).
Proof.
  intros Hw. pose proof (tinv_head_status _ _ _ Hw) as Hst. simpl in Hst.
  destruct (tinv_head w _ rest s Hw ltac:(by left)) as (Hx & Hp & Hf). specialize (Hf ltac:(by left)).
  apply (tinv_move [s] w _ [t_remember s st] [t_register s]); try done.
  - apply steady_frame. by apply steady_eq.
  - by apply (minv_ext w), ti_minv with (t_remember s st :: rest).
  - by intros s' ->%list_elem_of_singleton.
  - by intros s' ->%list_elem_of_singleton.
  - intros s' _. apply (ti_live _ _ Hw).
  - apply (ti_paired _ _ Hw).
  - apply nodup_one.
  - apply Forall_singleton. split; [| |done].
    + intros s' ->%list_elem_of_singleton. split; [apply Hx|done].
    + intros s' ->%list_elem_of_singleton. destruct Hf as [_ Hf]. set_solver.
Qed.

Lemma tinv_announce s w rest :
  tinv w (t_announce s :: rest) -> tinv (log_event (ev_connected s) w) (t_start s :: rest).
Proof.
  intros Hw. pose proof (tinv_head_status _ _ _ Hw) as Hst. simpl in Hst.
  apply (tinv_log (ev_connected s) s (t_announce s) (Some (t_start s))); try done.
  - intros _. split; [done|]. by apply unseen_disconnected; [apply (ti_paired _ _ Hw)|].
  - intros x [= <-]. split_and!; [by intros s' ->%list_elem_of_singleton|done|apply NoDup_singleton|].
    split; [set_solver|]. intros [Hin|?%list_elem_of_singleton]%elem_of_app; [|done].
    by apply Hst, (paired_started _ _ (ti_paired _ _ Hw)).
Qed.

Lemma tinv_start s w rest : tinv w (t_start s :: rest) -> tinv (log_event (ev_started s) w) rest.
Proof.
  intros Hw. pose proof (tinv_head_status _ _ _ Hw) as Hst. simpl in Hst.
  apply (tinv_log (ev_started s) s (t_start s) None); try done. intros _. split; [done|].
  intros Hd%(paired_disconnected _ _ (ti_paired _ _ Hw)). by destruct Hst.
Qed.

Lemma tinv_removed s w rest :
  tinv w (t_removed s :: rest) -> tinv (log_event (ev_disconnected s) w) (t_hook s :: rest).
Proof.
  intros Hw. pose proof (tinv_head_status _ _ _ Hw) as Hst. simpl in Hst.
  destruct (tinv_head w _ rest s Hw ltac:(by left)) as (_ & _ & Hf). specialize (Hf ltac:(by left)).
  apply (tinv_log (ev_disconnected s) s (t_removed s) (Some (t_hook s))); try done.
  - intros Hin. destruct Hf as [_ Hf]. set_solver.
  - intros x [= <-]. split_and!; [by intros s' ?%not_elem_of_nil|done|constructor|done].
Qed.

Lemma steady_base_stop w : steady [] w (base_stop w).
Proof.
  rewrite base_stop_frame. split; simpl; try done.
  - intros s Hin. by apply not_elem_of_nil in Hin.
  - by left.
  - exists (ev_closed <$> sessions_ w). split; [done|]. apply Forall_fmap. by apply Forall_true.
Qed.

(** A thread that has no session yet, or no more. *)
Definition aside (o : option thread) : Prop :=
  match o with Some x => place x = [] /\ forall log, status log x | None => True end.

Lemma tinv_thread t w rest :
  let r := thread_step t w in tinv w (t :: rest) -> tinv r.1 (option_list r.2 ++ rest).
Proof.
  intros r Hw. pose proof (ti_minv _ _ Hw) as Hm.
  assert (forall w' o, steady [] w w' -> minv w' -> aside o -> tinv w' (option_list o ++ rest)) as Hq.
  { intros w' o Hs Hm' Hx. apply (tinv_quiet w w' [t]); [done..|].
    destruct o as [x|]; [by apply Forall_singleton|constructor]. }
  assert (forall w', (cfg w', sessions_ w', heap w', mops w', next_sid w', mlog w') =
    (cfg w, sessions_ w, heap w, mops w, next_sid w, mlog w) -> connections_per_ip_ w' = connections_per_ip_ w ->
    forall o, aside o -> tinv w' (option_list o ++ rest)) as Hs.
  { intros w' E Ec o Hx. apply Hq; [by apply steady_eq| |done]. injection E as E1 E2 E3 E4 E5 E6.
    apply (minv_ext w); [congruence|done]. }
  unfold r. destruct t as [o|s st|s|s|s|s|s|s|st|st|st|st| | | |].
  - by apply tinv_shake.
  - by apply tinv_remember.
  - by apply tinv_register.
  - cbn [thread_step]; open_locked. rewrite (ti_connect _ _ Hw). by apply tinv_announce.
  - by apply tinv_start.
  - by apply tinv_remove.
  - cbn [thread_step]; open_locked. rewrite (ti_disconnect _ _ Hw). by apply tinv_removed.
  - cbn [thread_step]; open_locked. by destruct (reconnect_map_ w !! s); apply Hs.
  - cbn [thread_step]; open_locked. destruct (reconnect_stopped_ w); [by apply Hs|]. cbv zeta.
    by destruct (_ && _); apply Hs.
  - apply (Hq _ None); [| |done].
    + eapply steady_trans; [by apply (steady_log [] (ev_wait (rs_current_delay st)))|].
      apply steady_start. by intros s ?%not_elem_of_nil.
    + by apply minv_start_none; [|apply (minv_ext w)].
  - cbn [thread_step]; open_locked. by destruct (reconnect_stopped_ w); apply Hs.
  - apply (Hq _ None); [by apply steady_dial| |done].
    destruct (minv_make new_tcp_socket w Hm) as [Hm' Hf]. by apply minv_do_connect.
  - by apply (Hs (set_reconnect_stopped w) eq_refl eq_refl (Some t_stop_map)).
  - by apply (Hs (upd_reconnect_map (fun _ => ∅) w) eq_refl eq_refl (Some t_stop_acceptor)).
  - by apply (Hs (close_acceptor w) eq_refl eq_refl (Some t_stop_sessions)).
  - apply (Hq (base_stop w) None); [apply steady_base_stop|by apply minv_base_stop|done].
Qed.

Section thread_runs.
Context (undefined_cast : spec_float -> Z).

(** A completion handler leaves the registry alone. *)
Lemma completion_world o ok e w :
  minv w -> (forall s, s ∈ op_sids o -> free s w) ->
  let w' := (on_completion undefined_cast o ok e w).1 in
  (cfg w', sessions_ w', mops w', next_sid w', mlog w') = (cfg w, sessions_ w, mops w, next_sid w, mlog w) /\
  minv w'.
Proof.
  intros Hw Hf. assert (forall s, s ∈ op_sids o -> minv (connected_to s ok e w)) as Hc.
  { intros s Hs. unfold connected_to. destruct ok; [|done]. apply minv_socket; [|done].
    destruct (Hf s Hs) as [_ Hn]. set_solver. }
  destruct o as [s|s|s|s state|s state|st]; simpl; try done;
    (split; [unfold connected_to; by destruct ok|apply Hc; by left]).
Qed.

(** The thread that goes on is about the session of the operation, if any. *)
Lemma completion_thread o ok e w t :
  (on_completion undefined_cast o ok e w).2 = Some t ->
  (forall s, s ∈ place t -> s ∈ op_sids o) /\ NoDup (place t) /\
  (forall log, (forall s, s ∈ op_sids o -> ev_connected s ∉ log) -> status log t).
Proof.
  assert (forall s, NoDup [s : sid]) as Hn by (intros s; apply NoDup_singleton).
  assert (forall (P : sid -> Prop) s, s ∈ [] -> P s) as He by (by intros P s ?%not_elem_of_nil).
  destruct o as [s|s|s|s state|s state|st]; simpl; intros Ht;
    repeat case_match; simplify_eq/=; try (destruct state; simplify_eq/=);
    (split_and!; [done || (intros s' Hs'; by apply (He (fun s => s ∈ _)))
                 |done || constructor
                 |done || (intros log Hl; apply Hl; by left)]).
Qed.

Lemma tinv_complete i o ok e w ts :
  mops w !! i = Some o -> tinv w ts ->
  let r := on_completion undefined_cast o ok e (finish_mop i w) in
  tinv r.1 (ts ++ option_list r.2).
Proof.
  intros Hi Hw r. destruct (minv_finish _ _ _ Hi (ti_minv _ _ Hw)) as [Hm Hfree].
  destruct (completion_world o ok e _ Hm Hfree) as [E Hm']. fold r in E, Hm'.
  injection E as E1 E2 E3 E4 E5.
  assert (forall s, s ∈ op_sids o -> s ∈ pending w) as Hin.
  { intros s Hs. apply list_elem_of_bind. exists o. split; [done|]. by eapply list_elem_of_lookup_2. }
  assert (pending r.1 = pending (finish_mop i w)) as Ep by (unfold pending; by rewrite E3).
  apply (tinv_perm _ (option_list r.2 ++ ts)); [apply Permutation_app_comm|].
  apply (tinv_move (op_sids o) w r.1 []); rewrite ?E5; try done.
  - destruct (steady_finish i w) as [_ _ A3 _ _]. split; [done| | | |].
    + intros s. rewrite Ep. intros Hs. destruct (A3 s Hs) as [?|[[]%not_elem_of_nil|?]]; auto.
    + intros s. rewrite E2. by left.
    + rewrite E4. simpl. lia.
    + exists []. rewrite E5, app_nil_r. split; [done|]. by intros e' s ?%not_elem_of_nil.
  - intros s Hs. split; [by destruct (Hfree s Hs)|]. intros (t & Hst & Ht)%list_elem_of_bind.
    pose proof (proj1 (Forall_forall _ _) (ti_threads _ _ Hw) t Ht) as [Hp _ _].
    apply (proj2 (Hp s Hst)). by apply Hin.
  - intros s Hs _. apply (ti_new _ _ Hw). left. by apply Hin.
  - intros s _. rewrite E2. apply (ti_live _ _ Hw).
  - apply (ti_paired _ _ Hw).
  - destruct (r.2) as [t|] eqn:Et; simpl; [|constructor]. rewrite app_nil_r.
    by apply (completion_thread _ _ _ _ _ Et).
  - destruct (r.2) as [t|] eqn:Et; simpl; [|by intros s ?%not_elem_of_nil]. rewrite app_nil_r.
    by apply (completion_thread _ _ _ _ _ Et).
  - destruct (r.2) as [t|] eqn:Et; simpl; [|constructor]. apply Forall_singleton.
    destruct (completion_thread _ _ _ _ _ Et) as (Hpl & _ & Hst).
    assert (forall s, s ∈ place t -> free s (finish_mop i w)) as Hft by (intros s Hs; by apply Hfree, Hpl).
    split.
    + intros s Hs. destruct (Hft s Hs) as [Hlt Hn]. rewrite E4, Ep. split; [done|set_solver].
    + intros s Hs%outside_place. destruct (Hft s Hs) as [_ Hn]. rewrite E2. set_solver.
    + rewrite E5. apply Hst. intros s Hs. apply (ti_new _ _ Hw). left. by apply Hin.
Qed.

Lemma steady_call l w w' :
  is_call l = true -> (forall f, l <> ml_set f) -> minv w -> mstep undefined_cast l w = Some w' ->
  steady [] w w'.
Proof.
  intros Hl Hf Hw Hs. destruct l as [f| |ec e|sock|sock h sv|h sv ssl|h sv ssl p|i ok e|s|]; try done; simpl in Hs.
  - by destruct (Hf f).
  - injection Hs as <-. by apply steady_eq.
  - destruct (_ && _); [|done]. injection Hs as <-. by apply steady_accept.
  - injection Hs as <-. by apply (steady_add [] sock).
  - injection Hs as <-. by apply (steady_connect [] sock h sv).
  - injection Hs as <-. by apply (steady_dial [] new_tcp_socket h sv None).
  - injection Hs as <-.
    by apply (steady_dial [] new_tcp_socket h sv (Some (mkReconnectState h sv ssl p 0 (initial_delay p)))).
Qed.

(** No change of the settings, and no user who removes sessions. *)
Definition undisturbed (l : tlabel) : bool :=
  match l with tl_call (ml_set _) | tl_remove _ => false | _ => true end.

Lemma tinv_step l w ts tw' :
  undisturbed l = true -> tinv w ts -> tstep undefined_cast l (mkTWorld w ts) = Some tw' ->
  tinv (tw_mgr tw') (tw_threads tw').
Proof.
  intros Hl Hw Hs. destruct l as [l|i ok e|s|s| |j]; simpl in Hs; [..|done| |].
  - destruct (is_call l) eqn:Ec; [|done]. destruct (mstep _ l w) as [w'|] eqn:E; [|done]. injection Hs as <-.
    apply (tinv_quiet w w' [] []); [done| | |constructor].
    + eapply steady_call; [done| |apply Hw|done]. intros f ->. done.
    + eapply minv_step; [apply Hw|done].
  - destruct (mops w !! i) as [o|] eqn:Ei; [|done]. injection Hs as <-. by apply tinv_complete.
  - destruct (bool_decide_reflect (ev_started s ∈ mlog w)) as [Hst|]; [|done]. injection Hs as <-. simpl.
    apply (tinv_perm _ (t_remove s :: ts)); [by rewrite Permutation_app_comm|].
    destruct Hw as [H1 H2 H3 H4 H5 H6 H7 H8]. split; try done. apply Forall_cons. split; [|done].
    split; [by intros ? ?%not_elem_of_nil|by intros ? ?%not_elem_of_nil|done].
  - injection Hs as <-. simpl. apply (tinv_perm _ ([t_stop] ++ ts)); [apply Permutation_app_comm|].
    apply (tinv_quiet w w [] [t_stop]); [done|apply steady_refl|apply Hw|]. by repeat constructor.
  - destruct (ts !! j) as [t|] eqn:Ej; [|done]. injection Hs as <-. simpl.
    apply (tinv_perm _ (option_list (thread_step t w).2 ++ delete j ts)); [apply Permutation_app_comm|].
    apply tinv_thread. apply (tinv_perm w ts); [by apply delete_Permutation|done].
Qed.

Lemma tinv_run ls tw tw' :
  Forall (fun l => undisturbed l = true) ls -> tinv (tw_mgr tw) (tw_threads tw) ->
  trun undefined_cast ls tw = Some tw' -> tinv (tw_mgr tw') (tw_threads tw').
Proof.
  revert tw. induction ls as [|l ls IH]; simpl; intros tw Hl Hw Hr; [by simplify_eq|].
  apply Forall_cons in Hl as [Hl Hls]. destruct (tstep undefined_cast l tw) as [tw1|] eqn:E; [|done].
  apply (IH tw1); [done| |done]. destruct tw as [w ts]. by eapply tinv_step.
Qed.
End thread_runs.

(** A manager that is configured, with no thread in it. *)
Definition idle_manager (c : settings) : tworld := mkTWorld (configured_manager c) [].

Lemma tinv_initial c :
  on_connect_ c = true -> on_disconnect_ c = true -> tinv (configured_manager c) [].
Proof.
  intros H1 H2. split; simpl; try done.
  - by apply (minv_ext new_manager); [|apply minv_new].
  - constructor.
  - intros s _. apply not_elem_of_nil.
  - intros s _. apply not_elem_of_nil.
  - intros before e after E. by destruct before.
Qed.

(** C27 The callbacks come in order: on a pool of threads, whatever the
    interleaving of the locked regions, callbacks and tests of accepts, dials,
    handshakes, removals, backoffs and [stop], for a manager with both callbacks
    set: [on_connect_] is called at most once for a session, the session is
    started at most once and after it, and [on_disconnect_] is called at most once
    and only after the session was started.  Each session object is added or
    dialled once, and sessions are removed by their own errors (a user's
    [remove_session] can be in between, see [removal_before_announcement]). *)
Theorem callbacks_in_order (undefined_cast : spec_float -> Z) (c : settings) (ls : list tlabel)
    (tw : tworld) before e after :
  on_connect_ c = true -> on_disconnect_ c = true ->
  Forall (fun l => undisturbed l = true) ls -> trun undefined_cast ls (idle_manager c) = Some tw ->
  mlog (tw_mgr tw) = before ++ e :: after ->
  match e with
  | ev_connected s => ev_connected s ∉ before
  | ev_started s => ev_connected s ∈ before /\ ev_started s ∉ before
  | ev_disconnected s => ev_started s ∈ before /\ ev_disconnected s ∉ before
  | _ => True
  end.
Proof.
  intros H1 H2 Hl Hr E. pose proof (tinv_run _ _ (idle_manager c) tw Hl (tinv_initial c H1 H2) Hr) as Hw.
  exact (ti_paired _ _ Hw _ _ _ E).
Qed.

(** ** After [stop] *)

(** The sessions of the operations that may still register one when
    [reconnect_stopped_] is set: their handlers do not test it. *)
Definition live_sids (o : mgr_op) : list sid :=
  match o with m_dial _ (Some _) | m_dial_handshake _ (Some _) => [] | _ => op_sids o end.

Definition on_the_way (tw : tworld) : list sid :=
  (mops (tw_mgr tw) ≫= live_sids) ++ (tw_threads tw ≫= place).

(** The threads that have passed the last test before a dial. *)
Definition is_redialling (t : thread) : bool := match t with t_redial _ => true | _ => false end.

Definition redialling (ts : list thread) : nat := length (filter (fun t => is_redialling t = true) ts).

Definition dial_count (l : list mevent) : nat := length (filter (fun e => is_dial e = true) l).

Lemma redialling_app ts ts' : redialling (ts ++ ts') = (redialling ts + redialling ts')%nat.
Proof. unfold redialling. by rewrite filter_app, length_app. Qed.

Lemma dial_count_app l l' : dial_count (l ++ l') = (dial_count l + dial_count l')%nat.
Proof. unfold dial_count. by rewrite filter_app, length_app. Qed.

(** What a step that is about the sessions [P], of which [O] are not in the
    registry, may do on a stopped manager; [d] is the number of dials left to it. *)
Record advance (P O : list sid) (d : nat) (new : list thread) (w w' : mworld) : Prop := {
  ad_stopped : reconnect_stopped_ w' = true;
  ad_closed : acceptor_open w = false -> acceptor_open w' = false;
  ad_live s : s ∈ (mops w' ≫= live_sids) -> s ∈ (mops w ≫= live_sids) \/ s ∈ P;
  ad_pending s : s ∈ pending w' -> s ∈ pending w \/ s ∈ O \/ (next_sid w <= s)%nat;
  ad_sessions s : s ∈ sessions_ w' -> s ∈ sessions_ w \/ (s ∈ P /\ s ∈ O);
  ad_next : (next_sid w <= next_sid w')%nat;
  ad_place s : s ∈ (new ≫= place) -> s ∈ P \/ s ∈ sessions_ w;
  ad_outside s : s ∈ (new ≫= outside) -> s ∈ O \/ s ∈ sessions_ w;
  ad_log : exists l, mlog w' = mlog w ++ l /\
    (forall e s, e ∈ l -> announces e = Some s -> s ∈ P) /\
    (forall s, ev_disconnected s ∈ l -> s ∈ O) /\
    (dial_count l + redialling new <= d)%nat
}.

(** A stopped manager: [L] are the sessions that were on their way, [K] those
    that were closed, [n] bounds the dials since then. *)
Record halted (L K : list sid) (n : nat) (log0 : list mevent) (w : mworld) (ts : list thread) : Prop := {
  ha_stopped : reconnect_stopped_ w = true;
  ha_closed : acceptor_open w = false;
  ha_way s : s ∈ (mops w ≫= live_sids) \/ s ∈ (ts ≫= place) \/ s ∈ sessions_ w -> s ∈ L;
  ha_gone s : s ∈ K ->
    (s < next_sid w)%nat /\ (s ∉ pending w) /\ (s ∉ sessions_ w) /\ s ∉ (ts ≫= outside);
  ha_log : exists l, mlog w = log0 ++ l /\
    (forall e s, e ∈ l -> announces e = Some s -> s ∈ L) /\
    (forall s, s ∈ K -> ev_disconnected s ∉ l) /\
    (dial_count l + redialling ts <= n)%nat
}.

Lemma halted_perm L K n log0 w ts ts' : ts ≡ₚ ts' -> halted L K n log0 w ts -> halted L K n log0 w ts'.
Proof.
  intros Hp [H1 H2 H3 H4 (l & H5 & H6 & H7 & H8)]. split; try done.
  - intros s. rewrite <-(bind_Permutation place _ _ Hp). apply H3.
  - intros s. rewrite <-(bind_Permutation outside _ _ Hp). apply H4.
  - exists l. split_and!; [done..|]. unfold redialling in *. by rewrite <-Hp.
Qed.

Lemma halted_advance L K n log0 P O w w' old new rest :
  halted L K n log0 w (old ++ rest) -> (forall s, s ∈ P -> s ∈ L) -> (forall s, s ∈ O -> s ∉ K) ->
  advance P O (redialling old) new w w' -> halted L K n log0 w' (new ++ rest).
Proof.
  intros [H1 H2 H3 H4 (l & H5 & H6 & H7 & H8)] HP HO [A1 A2 A3 A4 A5 A6 A7 A8 (l' & A9 & B1 & B2 & B3)].
  setoid_rewrite bind_app in H3. setoid_rewrite bind_app in H4. rewrite redialling_app in H8.
  assert (forall s, s ∈ sessions_ w -> s ∈ L) as HL by (intros s Hs; apply H3; auto).
  split; [done|by apply A2|..].
  - intros s. rewrite bind_app, elem_of_app. intros [Hs|[[Hs|Hs]|Hs]].
    + destruct (A3 s Hs); [apply H3; auto|by apply HP].
    + destruct (A7 s Hs); [by apply HP|by apply HL].
    + apply H3. rewrite elem_of_app. auto.
    + destruct (A5 s Hs) as [?|[? _]]; [by apply HL|by apply HP].
  - intros s Hs. destruct (H4 s Hs) as (G1 & G2 & G3 & G4). rewrite bind_app, !elem_of_app in *. split_and!.
    + lia.
    + intros Hin. destruct (A4 s Hin) as [?|[Ho|?]]; [done|by apply (HO s Ho)|lia].
    + intros Hin. destruct (A5 s Hin) as [?|[_ Ho]]; [done|by apply (HO s Ho)].
    + intros [Hin|Hin]; [|by apply G4; right]. destruct (A8 s Hin) as [Ho|?]; [by apply (HO s Ho)|done].
  - exists (l ++ l'). rewrite A9, H5, app_assoc. split_and!; [done|..].
    + intros e s [He|He]%elem_of_app Ha; [by eapply H6|]. by eapply HP, B1.
    + intros s Hs [Hin|Hin]%elem_of_app; [by apply (H7 s)|]. by apply (HO s (B2 s Hin)).
    + rewrite dial_count_app, redialling_app. lia.
Qed.

(** Nothing is in an empty list, and what is in a singleton is its element. *)
Ltac by_elem :=
  simpl; rewrite ?app_nil_r; try done; intros; simpl in *;
  repeat match goal with
  | H : _ ∈ [] |- _ => by apply not_elem_of_nil in H
  | H : ?x ∈ [?y] |- _ => apply list_elem_of_singleton in H; try subst x
  end; simplify_eq/=; first [done | by left | by auto | lia | right; lia].

(** A step that changes neither the registry nor the operations. *)
Lemma advance_same P O d new w w' :
  (mops w', sessions_ w', next_sid w', mlog w') = (mops w, sessions_ w, next_sid w, mlog w) ->
  reconnect_stopped_ w' = true -> (acceptor_open w = false -> acceptor_open w' = false) ->
  (forall s, s ∈ (new ≫= place) -> s ∈ P) -> (forall s, s ∈ (new ≫= outside) -> s ∈ O) ->
  (redialling new <= d)%nat -> advance P O d new w w'.
Proof.
  intros [= E1 E2 E3 E4] Hst Hc HP HO Hd. split; unfold pending; rewrite ?E1, ?E2, ?E3; try done; auto.
  exists []. rewrite E4, app_nil_r. split_and!; [done|..|done].
  - by intros e s ?%not_elem_of_nil.
  - by intros s ?%not_elem_of_nil.
Qed.

(** A step that logs one event and starts one operation, or none. *)
Lemma advance_log P O d new w w' os l :
  (mops w', sessions_ w', mlog w') = (mops w ++ os, sessions_ w, mlog w ++ l) ->
  reconnect_stopped_ w' = true -> acceptor_open w' = acceptor_open w -> (next_sid w <= next_sid w')%nat ->
  (forall s, s ∈ (os ≫= live_sids) -> s ∈ P) ->
  (forall s, s ∈ (os ≫= op_sids) -> s ∈ O \/ (next_sid w <= s)%nat) ->
  (forall s, s ∈ (new ≫= place) -> s ∈ P) -> (forall s, s ∈ (new ≫= outside) -> s ∈ O) ->
  (forall e s, e ∈ l -> announces e = Some s -> s ∈ P) -> (forall s, ev_disconnected s ∈ l -> s ∈ O) ->
  (dial_count l + redialling new <= d)%nat -> advance P O d new w w'.
Proof.
  intros [= E1 E2 E3] Hst Hc Hn Hli Hop HP HO Hl Hdis Hd.
  split; unfold pending; rewrite ?E1, ?E2, ?Hc, ?bind_app; try done; auto.
  - intros s [?|?]%elem_of_app; [by left|right; by apply Hli].
  - intros s [?|Hs]%elem_of_app; [by left|]. destruct (Hop s Hs); auto.
  - by exists l.
Qed.

Lemma advance_register s w :
  reconnect_stopped_ w = true ->
  let r := thread_step (t_register s) w in advance [s] [s] 0 (option_list r.2) w r.1.
Proof.
  intros Hst r. unfold r. cbn [thread_step]; open_locked. cbv zeta.
  assert (forall w', mops w' = mops w -> sessions_ w' = sessions_ w ++ [s] -> next_sid w' = next_sid w ->
    mlog w' = mlog w -> reconnect_stopped_ w' = true -> acceptor_open w' = acceptor_open w ->
    forall new, new = [] \/ new = [t_announce s] -> advance [s] [s] 0 new w w') as Hgo.
  { intros w' E1 E2 E3 E4 E5 E6 new Hnew.
    split; unfold pending; rewrite ?E1, ?E2, ?E3, ?E6; try done; auto.
    - intros s' [?|?]%elem_of_app; auto.
    - destruct Hnew as [->| ->]; simpl; [by intros s' ?%not_elem_of_nil|auto].
    - destruct Hnew as [->| ->]; simpl; by intros s' ?%not_elem_of_nil.
    - exists []. rewrite E4, app_nil_r. split_and!; [done|by intros e s' ?%not_elem_of_nil|
        by intros s' ?%not_elem_of_nil|by destruct Hnew as [->| ->]]. }
  destruct (ipv4_address _); apply Hgo; simpl; auto.
Qed.

Lemma advance_remove s w :
  reconnect_stopped_ w = true ->
  let r := thread_step (t_remove s) w in advance [] [] 0 (option_list r.2) w r.1.
Proof.
  intros Hst r. unfold r. cbn [thread_step]; open_locked. cbv zeta.
  destruct (bool_decide_reflect (s ∈ sessions_ w)) as [Hin|Hin]; cbn [negb fst snd option_list].
  2: { apply advance_same; try done; by intros s' ?%not_elem_of_nil. }
  assert (forall w', mops w' = mops w -> sessions_ w' = erase_first s (sessions_ w) -> next_sid w' = next_sid w ->
    mlog w' = mlog w -> reconnect_stopped_ w' = true -> acceptor_open w' = acceptor_open w ->
    forall new, new = [] \/ new = [t_removed s] -> advance [] [] 0 new w w') as Hgo.
  { intros w' E1 E2 E3 E4 E5 E6 new Hnew.
    split; unfold pending; rewrite ?E1, ?E2, ?E3, ?E6; try done; auto.
    - intros s' Hs'. left. rewrite (erase_first_Permutation s _ Hin). by right.
    - destruct Hnew as [->| ->]; simpl; intros s' Hs'; [by apply not_elem_of_nil in Hs'|].
      right. by apply list_elem_of_singleton in Hs' as ->.
    - destruct Hnew as [->| ->]; simpl; intros s' Hs'; [by apply not_elem_of_nil in Hs'|].
      right. by apply list_elem_of_singleton in Hs' as ->.
    - exists []. rewrite E4, app_nil_r. split_and!; [done|by intros e s' ?%not_elem_of_nil|
        by intros s' ?%not_elem_of_nil|by destruct Hnew as [->| ->]]. }
  destruct (ipv4_address _); apply Hgo; simpl; auto.
Qed.

Lemma advance_base_stop w : reconnect_stopped_ w = true -> advance [] [] 0 [] w (base_stop w).
Proof.
  intros Hst. rewrite base_stop_frame. split; unfold pending; try by_elem.
  exists (ev_closed <$> sessions_ w). split_and!; [done|..].
  - by intros e s (x & -> & _)%list_elem_of_fmap.
  - by intros s (x & ? & _)%list_elem_of_fmap.
  - enough (dial_count (ev_closed <$> sessions_ w) = 0%nat) as -> by done.
    unfold dial_count. induction (sessions_ w) as [|x k IH]; [done|]. simpl. by rewrite filter_cons_False.
Qed.

Lemma thread_advance t w :
  reconnect_stopped_ w = true ->
  let r := thread_step t w in advance (place t) (outside t) (redialling [t]) (option_list r.2) w r.1.
Proof.
  intros Hst r. unfold r. destruct t as [o|s st|s|s|s|s|s|s|st|st|st|st| | | |].
  - apply (advance_log _ _ _ _ _ _ [o] []); try by_elem. destruct o as [| | |? []|? []|]; by_elem.
  - apply advance_same; by_elem.
  - by apply advance_register.
  - cbn [thread_step]; open_locked. destruct (on_connect_ (cfg w));
      [apply (advance_log _ _ _ _ _ _ [] [ev_connected s])|apply advance_same]; by_elem.
  - apply (advance_log _ _ _ _ _ _ [] [ev_started s]); by_elem.
  - by apply advance_remove.
  - cbn [thread_step]; open_locked. destruct (on_disconnect_ (cfg w));
      [apply (advance_log _ _ _ _ _ _ [] [ev_disconnected s])|apply advance_same]; by_elem.
  - cbn [thread_step]; open_locked. destruct (reconnect_map_ w !! s); apply advance_same; by_elem.
  - cbn [thread_step]; open_locked. rewrite Hst. apply advance_same; by_elem.
  - apply (advance_log _ _ _ _ _ _ [m_backoff st] [ev_wait (rs_current_delay st)]); by_elem.
  - cbn [thread_step]; open_locked. rewrite Hst. apply advance_same; by_elem.
  - cbn [thread_step fst snd]; open_locked. unfold do_connect. cbv zeta. destruct (_ >? 0);
      (apply (advance_log _ _ _ _ _ _ [m_dial (next_sid w) (Some st)]
               [ev_dial (next_sid w) (rs_host st) (rs_service st)]); by_elem).
  - apply advance_same; by_elem.
  - apply advance_same; by_elem.
  - apply advance_same; by_elem.
  - by apply advance_base_stop.
Qed.

Section stopped_runs.
Context (undefined_cast : spec_float -> Z).

Lemma completion_advance i o ok e w :
  reconnect_stopped_ w = true -> mops w !! i = Some o ->
  let r := on_completion undefined_cast o ok e (finish_mop i w) in
  advance (live_sids o) (op_sids o) 0 (option_list r.2) w r.1.
Proof.
  intros Hst Hi r.
  assert (forall w', (cfg w', sessions_ w', mops w', next_sid w', mlog w', reconnect_stopped_ w', acceptor_open w') =
    (cfg w, sessions_ w, delete i (mops w), next_sid w, mlog w, reconnect_stopped_ w, acceptor_open w) ->
    forall new, (forall s, s ∈ (new ≫= place) -> s ∈ live_sids o) -> (forall s, s ∈ (new ≫= outside) -> s ∈ op_sids o) ->
    redialling new = 0%nat -> advance (live_sids o) (op_sids o) 0 new w w') as Hgo.
  { intros w' [= E1 E2 E3 E4 E5 E6 E7] new HP HO Hd.
    pose proof (bind_Permutation live_sids _ _ (delete_Permutation _ _ _ Hi)) as Hl.
    pose proof (bind_Permutation op_sids _ _ (delete_Permutation _ _ _ Hi)) as Hp.
    split; unfold pending; rewrite ?E2, ?E3, ?E4, ?E7; try done; auto; try congruence.
    - intros s Hs. left. rewrite Hl, bind_cons. set_solver.
    - intros s Hs. left. rewrite Hp, bind_cons. set_solver.
    - exists []. rewrite E5, app_nil_r, Hd. split_and!; by_elem. }
  assert (reconnect_stopped_ (finish_mop i w) = true) as Hst' by done.
  unfold r. destruct o as [s|s|s|s [st|]|s [st|]|st]; cbn [on_completion fst snd is_some_state andb];
    rewrite ?Hst', ?orb_true_r; apply Hgo; try (unfold connected_to); destruct ok; by_elem.
Qed.

(** Calls that bring in new sessions. *)
Definition brings_session (l : mlabel) : bool :=
  match l with ml_add _ => true | _ => is_connect l end.

Definition quiet (l : tlabel) : bool :=
  match l with tl_call l => negb (brings_session l) | _ => true end.

Lemma call_advance l w w' :
  is_call l = true -> brings_session l = false -> reconnect_stopped_ w = true -> acceptor_open w = false ->
  mstep undefined_cast l w = Some w' -> advance [] [] 0 [] w w'.
Proof.
  intros Hl Hb Hst Hc Hs.
  destruct l as [f| |ec e|sock|sock h sv|h sv ssl|h sv ssl p|i ok e|s|]; try done; simpl in Hs.
  - injection Hs as <-. apply advance_same; by_elem.
  - injection Hs as <-. apply advance_same; by_elem.
  - rewrite Hc, orb_false_r in Hs. destruct ec; [|by rewrite andb_false_r in Hs].
    destruct (_ && _); [|done]. injection Hs as <-. apply advance_same; by_elem.
Qed.

Lemma halted_step L K n log0 l w ts tw' :
  quiet l = true -> halted L K n log0 w ts -> tstep undefined_cast l (mkTWorld w ts) = Some tw' ->
  halted L K n log0 (tw_mgr tw') (tw_threads tw').
Proof.
  intros Hl Hw Hs. pose proof (ha_stopped _ _ _ _ _ _ Hw) as Hst. pose proof (ha_closed _ _ _ _ _ _ Hw) as Hc.
  assert (forall t, place t = [] -> is_redialling t = false -> outside t = [] ->
    halted L K n log0 w (ts ++ [t])) as Hsame.
  { intros t Hp Hr Ho. apply (halted_perm _ _ _ _ _ ([t] ++ ts)); [apply Permutation_app_comm|].
    apply (halted_advance L K n log0 [] [] w w [] [t] ts); [done|by_elem|by_elem|].
    apply advance_same; simpl; rewrite ?Hp, ?Ho; try by_elem. unfold redialling.
    by rewrite filter_cons_False by (by rewrite Hr). }
  destruct l as [l|i ok e|s|s| |j]; simpl in Hs.
  - destruct (is_call l) eqn:Ec; [|done]. destruct (mstep _ l w) as [w'|] eqn:E; [|done]. injection Hs as <-.
    apply (halted_advance L K n log0 [] [] w w' [] [] ts); [done|by_elem|by_elem|].
    eapply call_advance; [done|by apply negb_true_iff|done..].
  - destruct (mops w !! i) as [o|] eqn:Ei; [|done]. injection Hs as <-. simpl.
    apply (halted_perm _ _ _ _ _ (option_list (on_completion undefined_cast o ok e (finish_mop i w)).2 ++ ts));
      [apply Permutation_app_comm|].
    eapply (halted_advance _ _ _ _ _ _ _ _ []); [done| | |by apply completion_advance].
    + intros s Hs. apply (ha_way _ _ _ _ _ _ Hw). left. apply list_elem_of_bind.
      exists o. split; [done|]. by eapply list_elem_of_lookup_2.
    + intros s Hs Hk. destruct (ha_gone _ _ _ _ _ _ Hw s Hk) as (_ & Hp & _). apply Hp.
      apply list_elem_of_bind. exists o. split; [done|]. by eapply list_elem_of_lookup_2.
  - destruct (bool_decide _); [|done]. injection Hs as <-. by apply Hsame.
  - injection Hs as <-. by apply Hsame.
  - injection Hs as <-. by apply Hsame.
  - destruct (ts !! j) as [t|] eqn:Ej; [|done]. injection Hs as <-. simpl.
    apply (halted_perm _ _ _ _ _ (option_list (thread_step t w).2 ++ delete j ts)); [apply Permutation_app_comm|].
    pose proof (list_elem_of_lookup_2 _ _ _ Ej) as Ht.
    eapply (halted_advance _ _ _ _ (place t) (outside t) w _ [t]); [| | |by apply thread_advance].
    + by apply (halted_perm _ _ _ _ _ ts); [apply delete_Permutation|].
    + intros s Hs. apply (ha_way _ _ _ _ _ _ Hw). right. left. apply list_elem_of_bind. by exists t.
    + intros s Hs Hk. destruct (ha_gone _ _ _ _ _ _ Hw s Hk) as (_ & _ & _ & Ho). apply Ho.
      apply list_elem_of_bind. by exists t.
Qed.

Lemma halted_run L K n log0 ls tw tw' :
  Forall (fun l => quiet l = true) ls -> halted L K n log0 (tw_mgr tw) (tw_threads tw) ->
  trun undefined_cast ls tw = Some tw' -> halted L K n log0 (tw_mgr tw') (tw_threads tw').
Proof.
  revert tw. induction ls as [|l ls IH]; simpl; intros tw Hl Hw Hr; [by simplify_eq|].
  apply Forall_cons in Hl as [Hl Hls]. destruct (tstep undefined_cast l tw) as [tw1|] eqn:E; [|done].
  apply (IH tw1); [done| |done]. destruct tw as [w ts]. by eapply halted_step.
Qed.

(** What the phases of [stop] have done. *)
Definition stop_ok (w : mworld) (t : thread) : Prop :=
  match t with
  | t_stop_map | t_stop_acceptor => reconnect_stopped_ w = true
  | t_stop_sessions => reconnect_stopped_ w = true /\ acceptor_open w = false
  | _ => True
  end.

(** Neither flag is taken back. *)
Definition flags_kept (w w' : mworld) : Prop :=
  (reconnect_stopped_ w = true -> reconnect_stopped_ w' = true) /\
  (acceptor_open w = false -> acceptor_open w' = false).

Lemma flags_add s w : flags_kept w (add_session s w).2.
Proof.
  unfold add_session, mbind, M_bind, modify, gets, lift_outcome.
  destruct (ipv4_address _); [|done]. by destruct (can_ip_connect _ _).
Qed.

Lemma flags_do_connect s h sv state w : flags_kept w (do_connect s h sv state w).
Proof. unfold do_connect. cbv zeta. destruct state as [st|]; [|done]. by destruct (_ >? 0). Qed.

Lemma flags_call l w w' : is_call l = true -> mstep undefined_cast l w = Some w' -> flags_kept w w'.
Proof.
  intros Hl Hs. destruct l as [f| |ec e|sock|sock h sv|h sv ssl|h sv ssl p|i ok e|s|]; try done; simpl in Hs.
  - by injection Hs as <-.
  - by injection Hs as <-.
  - destruct (_ && _); [|done]. injection Hs as <-. unfold on_accept. erewrite bind_Ret by reflexivity.
    destruct ec; [done|]. erewrite bind_Ret by reflexivity. set (w1 := mkMWorld _ _ _ _ _ _ _ _ _ _ _).
    pose proof (flags_add (next_sid (upd_accepting pred w)) w1) as Ha. unfold mbind, M_bind, modify.
    by destruct (add_session _ w1) as [[] w2].
  - injection Hs as <-. apply (flags_add (next_sid w) (make_session sock w).2).
  - by injection Hs as <-.
  - injection Hs as <-. apply (flags_do_connect (next_sid w) h sv None (make_session new_tcp_socket w).2).
  - injection Hs as <-. apply (flags_do_connect (next_sid w) h sv _ (make_session new_tcp_socket w).2).
Qed.

Lemma flags_thread t w : flags_kept w (thread_step t w).1.
Proof.
  destruct t; cbn [thread_step]; open_locked; cbv zeta; repeat case_match; try done.
  - apply (flags_do_connect (next_sid w) _ _ _ (make_session new_tcp_socket w).2).
  - unfold flags_kept. cbn [fst]. by rewrite base_stop_frame.
Qed.

Lemma thread_stop_ok t w t' : stop_ok w t -> (thread_step t w).2 = Some t' -> stop_ok (thread_step t w).1 t'.
Proof.
  destruct t; cbn [thread_step stop_ok]; open_locked; repeat case_match; intros; by simplify_eq/=.
Qed.

Lemma completion_flags o ok e w :
  let r := on_completion undefined_cast o ok e w in
  flags_kept w r.1 /\ forall t', r.2 = Some t' -> stop_ok r.1 t'.
Proof.
  destruct o as [s|s|s|s [st|]|s [st|]|st]; simpl; unfold connected_to; destruct ok; simpl;
    (split; [done|]); repeat case_match; intros t' Ht; by simplify_eq.
Qed.

Lemma stop_ok_kept w w' t : flags_kept w w' -> stop_ok w t -> stop_ok w' t.
Proof. intros [F1 F2]. destruct t; simpl; intuition. Qed.

Lemma stop_ok_step l w ts tw' :
  Forall (stop_ok w) ts -> tstep undefined_cast l (mkTWorld w ts) = Some tw' ->
  Forall (stop_ok (tw_mgr tw')) (tw_threads tw').
Proof.
  intros Hw Hs.
  assert (forall w', flags_kept w w' -> Forall (stop_ok w') ts) as Hk.
  { intros w' Hf. apply (Forall_impl _ _ _ Hw). intros t. by apply stop_ok_kept. }
  destruct l as [l|i ok e|s|s| |j]; simpl in Hs.
  - destruct (is_call l) eqn:Ec; [|done]. destruct (mstep _ l w) as [w'|] eqn:E; [|done]. injection Hs as <-.
    apply Hk. by eapply flags_call.
  - destruct (mops w !! i) as [o|]; [|done]. injection Hs as <-. simpl.
    destruct (completion_flags o ok e (finish_mop i w)) as [Hf Ho]. apply Forall_app. split; [by apply Hk|].
    destruct (on_completion _ _ _ _ _).2; [|constructor]. apply Forall_singleton. by apply Ho.
  - destruct (bool_decide _); [|done]. injection Hs as <-. apply Forall_app. by split; [|constructor].
  - injection Hs as <-. apply Forall_app. by split; [|constructor].
  - injection Hs as <-. apply Forall_app. by split; [|constructor].
  - destruct (ts !! j) as [t|] eqn:Ej; [|done]. injection Hs as <-. simpl.
    pose proof (Hk _ (flags_thread t w)) as Hk'. pose proof (Forall_lookup_1 _ _ _ _ Hw Ej) as Ht.
    apply Forall_app. split; [by apply Forall_delete|].
    destruct ((thread_step t w).2) as [t'|] eqn:E; [|constructor]. apply Forall_singleton.
    by eapply thread_stop_ok.
Qed.

Lemma stop_ok_run ls tw tw' :
  Forall (stop_ok (tw_mgr tw)) (tw_threads tw) -> trun undefined_cast ls tw = Some tw' ->
  Forall (stop_ok (tw_mgr tw')) (tw_threads tw').
Proof.
  revert tw. induction ls as [|l ls IH]; simpl; intros tw Hw Hr; [by simplify_eq|].
  destruct (tstep undefined_cast l tw) as [tw1|] eqn:E; [|done].
  apply (IH tw1); [|done]. destruct tw as [w ts]. by eapply stop_ok_step.
Qed.
End stopped_runs.

Lemma halted_start w ts j :
  tinv w ts -> stop_ok w t_stop_sessions -> ts !! j = Some t_stop_sessions ->
  let tw1 := mkTWorld (base_stop w) (delete j ts) in
  halted (on_the_way tw1) (sessions_ w) (redialling (tw_threads tw1)) (mlog (tw_mgr tw1))
    (tw_mgr tw1) (tw_threads tw1).
Proof.
  intros Hw [Hst Hc] Hj tw1. unfold tw1, on_the_way. cbn [tw_mgr tw_threads]. rewrite base_stop_frame.
  pose proof (ti_minv _ _ Hw) as [Hnd Hkn _]. apply NoDup_app in Hnd as (_ & Hdis & _).
  apply Forall_app in Hkn as [Hkn _]. split; simpl; try done.
  - intros s. rewrite elem_of_app. intros [?|[?|?%not_elem_of_nil]]; auto. done.
  - intros s Hs. split_and!; [by apply (proj1 (Forall_forall _ _) Hkn)|by apply Hdis|apply not_elem_of_nil|].
    intros (t & Hst' & Ht)%list_elem_of_bind.
    assert (t ∈ ts) as Hin by (apply (sublist_subseteq (delete j ts)); [apply sublist_delete|done]).
    destruct (proj1 (Forall_forall _ _) (ti_threads _ _ Hw) t Hin) as [_ Ho _]. by apply (Ho s).
  - exists []. rewrite app_nil_r. split_and!; [done|by_elem|intros; apply not_elem_of_nil|done].
Qed.


Module ThreadsWitness.
Export ManagerWitness.

Definition watched : settings := mkSettings 0 0 0 0 0 0 0 true true.

(** A session is accepted; its thread has registered it. *)
Definition joining : list tlabel :=
  [tl_call ml_listen; tl_call (ml_accept false (peer 1)); tl_complete 0 true default_endpoint; tl_run 0].

(** It is announced and started, and its first read fails while another one joins;
    the two threads take turns. *)
Definition crossing : list tlabel :=
  joining ++ [tl_run 0; tl_run 0; tl_call (ml_accept false (peer 2)); tl_error 0;
              tl_complete 0 true default_endpoint; tl_run 0; tl_run 0; tl_run 1; tl_run 1; tl_run 0].

(** [stop] runs up to its last phase while a registered session is not announced
    yet, and another one is in its handshake. *)
Definition stopping : list tlabel :=
  joining ++ [tl_call (ml_accept false (peer 2)); tl_stop; tl_run 1; tl_run 1; tl_run 1].

(** The announcement and the other handshake then go on. *)
Definition going_on : list tlabel :=
  [tl_run 0; tl_run 0; tl_error 0; tl_run 0; tl_complete 0 true default_endpoint; tl_run 0; tl_run 0].

Definition ended_by (tw : tworld) (ls : list tlabel) : tworld := default tw (trun cast ls tw).

Definition at_stop : tworld := ended_by (idle_manager watched) stopping.
Definition after_stop : tworld := ended_by at_stop [tl_run 1].
Definition later_on : tworld := ended_by after_stop going_on.

(** The policy of a dial that fails, waits and is made again. *)
Definition again : reconnect_policy := mkPolicy 1000 30000 0 (double_of_Z 2) 0.
End ThreadsWitness.

Section threads_witnesses.
Import ThreadsWitness.

Lemma callbacks_in_order_witness :
  exists tw before after, trun cast crossing (idle_manager watched) = Some tw /\
    mlog (tw_mgr tw) = before ++ ev_disconnected 0 :: after /\
    ev_started 0 ∈ before /\ ev_disconnected 0 ∉ before.
Proof.
  eexists _, [_; _; _; _], []. split; [vm_compute; reflexivity|]. split; [reflexivity|].
  eapply (callbacks_in_order cast watched crossing _ _ (ev_disconnected 0));
    [reflexivity|reflexivity|repeat constructor|vm_compute; reflexivity|reflexivity].
Defined.


(** The registry is unlocked before [on_connect_] is called: a user who removes a
    session in between gets [on_disconnect_] first, then [on_connect_], and the
    session is started after it was removed. *)
Theorem removal_before_announcement :
  exists tw, trun cast (joining ++ [tl_remove 0; tl_run 1; tl_run 1; tl_run 0; tl_run 1]) (idle_manager watched)
      = Some tw /\
    mlog (tw_mgr tw) = [ev_disconnected 0; ev_connected 0; ev_started 0] /\ sessions_ (tw_mgr tw) = [].
Proof. eexists. split; [vm_compute; reflexivity|]. split; reflexivity. Qed.

(** The test of [reconnect_stopped_] in [attempt_reconnect] and the dial that
    follows are two steps: when [stop] runs to its end in between, the manager
    dials once more after it. *)
Theorem dial_after_stop :
  exists tw tw', trun cast ([tl_call (ml_boost_connect_policy "h" "s" 0 again);
      tl_complete 0 false default_endpoint; tl_run 0; tl_run 0; tl_complete 0 true default_endpoint;
      tl_run 0; tl_stop; tl_run 1; tl_run 1; tl_run 1; tl_run 1]) (idle_manager watched) = Some tw /\
    tw_threads tw <> [] /\ reconnect_stopped_ (tw_mgr tw) = true /\ acceptor_open (tw_mgr tw) = false /\
    tstep cast (tl_run 0) tw = Some tw' /\
    mlog (tw_mgr tw') = mlog (tw_mgr tw) ++ [ev_dial 1 "h" "s"].
Proof. eexists _, _. split; [vm_compute; reflexivity|]. split_and!; [done|done|done|reflexivity|reflexivity]. Qed.
End threads_witnesses.
