(* ===== verification/System.v ===== *)
(** * Sessions and their manager together

    The manager starts sessions ([register_and_start] ends with [sess->start()]),
    and a session that fails leaves its manager ([session::on_error] calls
    [remove_session]).  Here both run together: the manager of SessionManager.v,
    and for each session it has started the session of Session.v.  A read of a
    session may complete at any moment between two steps of the manager. *)

From Stdlib Require Import Floats.SpecFloat.
From S2P Require Import Prelude Endian Serialisation SocketBase Message WireFormat MessageCorrect.
From S2P Require Import Session SocketTimers BoostSocket SessionManager ManagerCorrect ManagerEvents Reconnect.

Record sworld := mkSWorld {
  sw_mgr : mworld;
  sw_sess : gmap sid session
}.

Definition started_of (e : mevent) : option sid :=
  match e with ev_started s => Some s | _ => None end.

(** The sessions whose [start] was called. *)
Definition started (w : mworld) : list sid := omap started_of (mlog w).

Definition is_remove (l : mlabel) : bool := match l with ml_remove _ => true | _ => false end.

Section code.
Context `{Schema} {BE : BoostEndian} {Al : Allocator} (cast : spec_float -> Z).

(** [sess->start()], on a session with the cap of its socket. *)
Definition start_session (w : mworld) (ss : gmap sid session) (s : sid) : gmap sid session :=
  <[s := start (new_session (get_max_message_size (socket_of s w)) true)]> ss.

(** [manager_->remove_session(this)], for each call a handler made. *)
Definition removals (s : sid) (es : list effect) (m : mworld) : mworld :=
  fold_left (fun m e =>
    match e with
    | e_removed => (remove_session on_session_removed s m).2
    | _ => m
    end) es m.

Inductive sys_label : Type :=
| sl_manager (l : mlabel)
| sl_read (s : sid) (is_valid : bool) (buffer : list uint8_t).

Definition sys_step (l : sys_label) (w : sworld) : option sworld :=
  match l with
  | sl_manager l =>
      if is_remove l then None else
      m ← mstep cast l (sw_mgr w);
      Some (mkSWorld m (fold_left (start_session m) (drop (length (started (sw_mgr w))) (started m))
                          (sw_sess w)))
  | sl_read s is_valid buffer =>
      se ← sw_sess w !! s;
      '(k, n) ← ses_pending se;
      if zlen buffer =? n
      then let se' := (complete_read k is_valid buffer se).2 in
           Some (mkSWorld (removals s (drop (length (ses_effects se)) (ses_effects se')) (sw_mgr w))
                          (<[s := se']> (sw_sess w)))
      else None
  end.

Fixpoint sys_run (ls : list sys_label) (w : sworld) : option sworld :=
  match ls with
  | [] => Some w
  | l :: ls => w ← sys_step l w; sys_run ls w
  end.

Definition new_system : sworld := mkSWorld new_manager ∅.
End code.

(** ** What a step of the manager does to the registry *)

Lemma started_log e w : started (log_event e w) = started w ++ option_list (started_of e).
Proof. unfold started. simpl. rewrite omap_app. by destruct e. Qed.

(** Neither registers nor starts nor removes. *)
Definition unchanged (w w' : mworld) : Prop := sessions_ w' = sessions_ w /\ started w' = started w.

Lemma unchanged_log e w : started_of e = None -> unchanged w (log_event e w).
Proof. intros He. split; [done|]. by rewrite started_log, He, app_nil_r. Qed.

Lemma unchanged_trans w1 w2 w3 : unchanged w1 w2 -> unchanged w2 w3 -> unchanged w1 w3.
Proof. intros [A1 A2] [B1 B2]. split; congruence. Qed.

Lemma unchanged_schedule st w : unchanged w (schedule_reconnect st w).
Proof.
  unfold schedule_reconnect. cbv zeta. repeat split_match; try done.
  by apply (unchanged_log (ev_wait (rs_current_delay st))).
Qed.

Lemma unchanged_hook s w : unchanged w (on_session_removed s w).
Proof.
  unfold on_session_removed. destruct (reconnect_map_ w !! s); [|done].
  apply (unchanged_trans _ (upd_reconnect_map (delete s) w)); [done|apply unchanged_schedule].
Qed.

Lemma unchanged_do_connect s h sv state w : unchanged w (do_connect s h sv state w).
Proof.
  unfold do_connect. cbv zeta. set (w2 := match state with Some _ => _ | None => _ end).
  apply (unchanged_trans w w2); [unfold w2; destruct state; [destruct (_ >? 0)|]; done|].
  by apply (unchanged_log (ev_dial s h sv)).
Qed.

Lemma unchanged_dial sock s h sv state w :
  unchanged w (do_connect s h sv state (make_session sock w).2).
Proof. apply (unchanged_trans _ (make_session sock w).2); [done|apply unchanged_do_connect]. Qed.

Lemma unchanged_accept ec e w : unchanged w (on_accept ec e w).2.
Proof.
  unfold on_accept. erewrite bind_Ret by reflexivity. destruct ec; [done|].
  erewrite bind_Ret by reflexivity.
  unfold add_session, mbind, M_bind, modify, gets, lift_outcome.
  destruct (ipv4_address _); [|done]. destruct (can_ip_connect _ _); [done|].
  by apply (unchanged_log (ev_closed (next_sid w)) w).
Qed.

Lemma unchanged_add sock w : unchanged w ((s ← make_session sock; add_session s) w).2.
Proof.
  erewrite bind_Ret by reflexivity. unfold add_session, mbind, M_bind, modify, gets, lift_outcome.
  destruct (ipv4_address _); [|done]. destruct (can_ip_connect _ _); [done|].
  by apply (unchanged_log (ev_closed (next_sid w)) w).
Qed.

Lemma started_stop w : started (stop w) = started w.
Proof.
  unfold stop. rewrite base_stop_frame. unfold started. simpl. rewrite omap_app.
  rewrite <-(app_nil_r (omap _ (mlog w))) at 2. f_equal. clear. by induction (sessions_ w).
Qed.

(** A session that was on its way is registered, and started unless its address
    is no IPv4 address. *)
Definition joins (s : sid) (w w' : mworld) : Prop :=
  sessions_ w' = sessions_ w ++ [s] /\ (started w' = started w ++ [s] \/ started w' = started w) /\
  pending w' = pending w /\ next_sid w' = next_sid w.

Lemma register_joins s w : joins s w (register_and_start s w).2.
Proof.
  rewrite register_run. destruct (ipv4_address _) as [ip|]; [|by split_and!; [|right|..]].
  split_and!; [by destruct (on_connect_ _)| |by destruct (on_connect_ _)..].
  left. simpl. rewrite started_log. f_equal.
  destruct (on_connect_ _); [|done]. by rewrite started_log, app_nil_r.
Qed.

Definition settles (X : list sid) (w w' : mworld) : Prop := unchanged w w' /\ steady X w w'.

Lemma settles_refl X w : settles X w w.
Proof. split; [done|apply steady_refl]. Qed.

Lemma settles_trans X w1 w2 w3 : settles X w1 w2 -> settles X w2 w3 -> settles X w1 w3.
Proof. intros [A1 A2] [B1 B2]. split; [by eapply unchanged_trans|by eapply steady_trans]. Qed.

Lemma settles_schedule X st w : settles X w (schedule_reconnect st w).
Proof. split; [apply unchanged_schedule|apply steady_schedule]. Qed.

Section steps.
Context (cast : spec_float -> Z).

Lemma mop_cases o ok e w :
  minv w -> (forall s, s ∈ op_sids o -> free s w) ->
  settles (op_sids o) w (on_mop cast o ok e w).2 \/
  exists s, s ∈ op_sids o /\ joins s w (on_mop cast o ok e w).2.
Proof.
  intros Hw Ho.
  assert (forall s, s ∈ op_sids o -> settles (op_sids o) w (connected_to s ok e w)) as Hc.
  { intros s Hs. unfold connected_to. destruct ok; [|apply settles_refl]. split; [done|].
    apply steady_socket. destruct (Ho s Hs) as [_ Hf]. set_solver. }
  destruct o as [s|s|s|s state|s state|st]; simpl in *; try specialize (Hc s ltac:(by left)).
  - destruct ok; [right; exists s; split; [by left|apply register_joins]|left; apply settles_refl].
  - left. eapply settles_trans; [exact Hc|]. unfold on_base_connected.
    destruct ok; [|apply settles_refl]. split; [done|]. apply steady_start. auto.
  - destruct ok; [right; exists s; split; [by left|apply register_joins]|left; apply settles_refl].
  - left. eapply settles_trans; [exact Hc|]. unfold on_dialled. destruct (_ && _); [apply settles_refl|].
    destruct ok; simpl.
    + split; [done|]. apply steady_start. auto.
    + destruct state; [apply settles_schedule|apply settles_refl].
  - unfold on_dial_handshake. erewrite bind_Ret by reflexivity.
    destruct (_ && _); [left; apply settles_refl|]. destruct ok; simpl.
    + right. exists s. split; [by left|]. erewrite bind_Ret by reflexivity.
      destruct state; [apply (register_joins s (upd_reconnect_map _ w))|apply register_joins].
    + left. destruct state; [apply settles_schedule|apply settles_refl].
  - left. unfold on_backoff. erewrite bind_Ret by reflexivity. destruct (_ || _); [apply settles_refl|].
    split; [|by apply steady_attempt]. unfold attempt_reconnect. erewrite bind_Ret by reflexivity.
    destruct (reconnect_stopped_ w); [done|]. apply unchanged_dial.
Qed.

(** Nothing changes in the registry, and only new sessions get on their way. *)
Definition tame (w w' : mworld) : Prop :=
  unchanged w w' /\ (forall s, s ∈ pending w' -> s ∈ pending w \/ (next_sid w <= s)%nat) /\
  (next_sid w <= next_sid w')%nat.

Lemma settles_tame w w' : settles [] w w' -> tame w w'.
Proof.
  intros [Hu [_ _ A3 A4 _]]. split_and!; [done| |done].
  intros s Hs. destruct (A3 s Hs) as [?|[[]%not_elem_of_nil|?]]; auto.
Qed.

(** A step of the manager other than a removal: nothing changes in the registry,
    a session joins, or the manager is stopped. *)
Lemma step_cases l w w' :
  is_remove l = false -> minv w -> mstep cast l w = Some w' ->
  tame w w' \/
  (exists s, s ∈ pending w /\ (s ∉ pending w') /\ sessions_ w' = sessions_ w ++ [s] /\
     (started w' = started w ++ [s] \/ started w' = started w) /\
     (forall s', s' ∈ pending w' -> s' ∈ pending w) /\ next_sid w' = next_sid w) \/
  (w' = stop w).
Proof.
  intros Hl Hw Hs. destruct l as [f| |ec e|sock|sock h sv|h sv ssl|h sv ssl p|i ok e|s|]; simpl in Hs; [..|done|].
  - injection Hs as <-. left. split_and!; [done|by left|done].
  - injection Hs as <-. left. split_and!; [done|by left|done].
  - destruct (_ && _); [|done]. injection Hs as <-. left. apply settles_tame.
    split; [apply unchanged_accept|by apply steady_accept].
  - injection Hs as <-. left. apply settles_tame.
    split; [apply (unchanged_add sock)|by apply (steady_add [] sock)].
  - injection Hs as <-. left. apply settles_tame. split; [|by apply (steady_connect [] sock h sv)].
    split; [done|]. etransitivity; [by apply (started_log (ev_dial (next_sid w) h sv))|apply app_nil_r].
  - injection Hs as <-. left. apply settles_tame.
    split; [apply unchanged_dial|by apply (steady_dial [] new_tcp_socket h sv None)].
  - injection Hs as <-. left. apply settles_tame.
    split; [apply unchanged_dial|].
    by apply (steady_dial [] new_tcp_socket h sv (Some (mkReconnectState h sv ssl p 0 (initial_delay p)))).
  - destruct (mops w !! i) as [o|] eqn:Ei; [|done]. injection Hs as <-.
    destruct (minv_finish _ _ _ Ei Hw) as [Hf Hfree].
    assert (forall s, s ∈ op_sids o -> s ∈ pending w) as Hin.
    { intros s Hs. apply list_elem_of_bind. exists o. split; [done|]. by eapply list_elem_of_lookup_2. }
    pose proof (steady_finish i w) as Hst.
    destruct (mop_cases o ok e _ Hf Hfree) as [[Hu Hy]|(s & Hs & Hj1 & Hj2 & Hj3 & Hj4)].
    + left. split_and!; [done| |].
      * intros x Hx. destruct (fr_pending _ _ _ Hy x Hx) as [Hx'|[?|?]]; [|left; by apply Hin|by right].
        destruct (fr_pending _ _ _ Hst x Hx') as [?|[[]%not_elem_of_nil|?]]; auto.
      * exact (fr_next _ _ _ Hy).
    + right. left. exists s. split_and!; [by apply Hin| |done..| |done].
      * rewrite Hj3. destruct (Hfree s Hs) as [_ Hn]. set_solver.
      * intros s' Hs'. rewrite Hj3 in Hs'. destruct (fr_pending _ _ _ Hst s' Hs') as [?|[?|?]]; [done|set_solver|].
        pose proof (mi_known _ Hf) as Hk. apply Forall_app in Hk as [_ Hk].
        apply (proj1 (Forall_forall _ _) Hk) in Hs'. simpl in Hs'. lia.
  - injection Hs as <-. by right; right.
Qed.
End steps.

(** ** What a completed read does to a session *)
Section reads.
Context `{Schema} {BE : BoostEndian} {Al : Allocator}.

(** Effects are only added. *)
Definition extends (es : list effect) (s : session) : Prop := es `prefix_of` ses_effects s.

Lemma extends_emit es e s : extends es s -> extends es (emit e s).
Proof. intros Hs. unfold extends. simpl. by apply prefix_app_r. Qed.

Lemma extends_error es s : extends es s -> extends es (on_error s).
Proof. intros Hs. unfold on_error. destruct (ses_managed s); by apply extends_emit. Qed.

Lemma extends_read_header es n : preserves (extends es) (read_header n).
Proof.
  intros s Hs. rewrite read_header_run. destruct (over_cap _ _); [by apply extends_error|].
  destruct (vector_alloc n); by apply extends_emit.
Qed.

Lemma extends_read_body es ty n sys : preserves (extends es) (read_body ty n sys).
Proof.
  intros s Hs. rewrite read_body_run. destruct (over_cap _ _); [by apply extends_error|].
  destruct (vector_alloc n); by apply extends_emit.
Qed.

Lemma extends_complete es k v b : preserves (extends es) (complete_read k v b).
Proof.
  intros s Hs. unfold complete_read. erewrite bind_Ret by reflexivity.
  assert (extends es (set_pending None s)) as Hp by done. destruct k as [| |ty sys]; simpl.
  - destruct v; [by apply extends_read_header|by apply extends_error].
  - destruct v; simpl; [|by apply extends_error]. unfold parse_header.
    destruct (is_valid MessageHeader b); simpl; [by apply extends_read_body|by apply extends_error].
  - destruct v; simpl; [|by apply extends_error].
    destruct sys; [|by apply extends_emit]. unfold handle_sys_message.
    case_decide; [by apply extends_emit|done].
Qed.
End reads.

(** ** Removals *)

Definition leaves (s : sid) (m m' : mworld) : Prop :=
  (forall x, x ∈ sessions_ m' <-> x ∈ sessions_ m /\ x <> s) /\ started m' = started m /\
  (forall x, x ∈ pending m' -> x ∈ pending m) /\ next_sid m' = next_sid m /\
  reconnect_stopped_ m' = reconnect_stopped_ m /\ minv m'.

Lemma schedule_pending st w :
  pending (schedule_reconnect st w) = pending w /\ next_sid (schedule_reconnect st w) = next_sid w /\
  reconnect_stopped_ (schedule_reconnect st w) = reconnect_stopped_ w.
Proof.
  unfold schedule_reconnect. cbv zeta. repeat split_match; try done.
  split_and!; [|done..]. rewrite pending_start. apply app_nil_r.
Qed.

Lemma hook_pending s w :
  pending (on_session_removed s w) = pending w /\ next_sid (on_session_removed s w) = next_sid w /\
  reconnect_stopped_ (on_session_removed s w) = reconnect_stopped_ w.
Proof.
  unfold on_session_removed. destruct (reconnect_map_ w !! s); [|done].
  apply (schedule_pending _ (upd_reconnect_map (delete s) w)).
Qed.

Lemma remove_leaves s m : minv m -> leaves s m (remove_session on_session_removed s m).2.
Proof.
  intros Hm. pose proof (minv_remove on_session_removed s m
    (fun w => minv_on_session_removed s w) Hm) as Hm'.
  rewrite remove_run in *. destruct (bool_decide_reflect (s ∈ sessions_ m)) as [Hs|Hs].
  2:{ split_and!; try done. intros x. split; [|tauto]. intros Hx. split; [done|]. by intros ->. }
  cbv zeta in *. pose proof (mi_nodup _ Hm) as Hnd. apply NoDup_app in Hnd as [Hnd _].
  assert (forall x, x ∈ erase_first s (sessions_ m) <-> x ∈ sessions_ m /\ x <> s) as He.
  { intros x. rewrite erase_first_filter, list_elem_of_filter by done. tauto. }
  destruct (ipv4_address (socket_of s m)) as [ip|e]; [|by split_and!].
  set (w1 := (if on_disconnect_ (cfg m) then _ else _) _) in *.
  assert (sessions_ w1 = erase_first s (sessions_ m) /\ started w1 = started m /\
    pending w1 = pending m /\ next_sid w1 = next_sid m /\
    reconnect_stopped_ w1 = reconnect_stopped_ m) as (E1 & E2 & E3 & E4 & E5).
  { unfold w1. destruct (on_disconnect_ _); [|done]. split_and!; try done.
    etransitivity; [apply started_log|apply app_nil_r]. }
  destruct (unchanged_hook s w1) as [F1 F2]. destruct (hook_pending s w1) as (F3 & F4 & F5).
  simpl in *. unfold leaves. rewrite F1, F2, F3, F4, F5, E1, E2, E3, E4, E5. by split_and!.
Qed.

Lemma leaves_trans s m1 m2 m3 : leaves s m1 m2 -> leaves s m2 m3 -> leaves s m1 m3.
Proof.
  intros (A1 & A2 & A3 & A4 & A5 & _) (B1 & B2 & B3 & B4 & B5 & B6).
  split_and!; [|congruence|auto|congruence|congruence|done].
  intros x. rewrite B1, A1. tauto.
Qed.

Lemma removals_cases s es m :
  minv m ->
  (e_removed ∉ es /\ removals s es m = m) \/ (e_removed ∈ es /\ leaves s m (removals s es m)).
Proof.
  revert m. induction es as [|e es IH]; intros m Hm; [left; split; [apply not_elem_of_nil|done]|].
  assert (e = e_removed \/ e <> e_removed) as [->|Hne] by (destruct e; (by left) || (by right)).
  - right. split; [by left|]. pose proof (remove_leaves s m Hm) as Hl. cbn [removals fold_left].
    destruct Hl as (?&?&?&?&?&Hm1). destruct (IH _ Hm1) as [[_ E]|[_ Hl]].
    + unfold removals in E. rewrite E. by apply remove_leaves.
    + by apply (leaves_trans s m _ _ (remove_leaves s m Hm)).
  - assert (removals s (e :: es) m = removals s es m) as -> by (by destruct e).
    destruct (IH m Hm) as [[Hn E]|[Hi Hl]]; [left|right]; (split; [|done]).
    + intros [?|?]%elem_of_cons; [congruence|done].
    + by right.
Qed.

(** ** The invariant *)
Section system.
Context `{Schema} {BE : BoostEndian} {Al : Allocator} (cast : spec_float -> Z).

Definition ended (s : session) : Prop := e_removed ∈ ses_effects s.

Record sys_inv (w : sworld) : Prop := {
  sy_minv : minv (sw_mgr w);
  sy_started s : s ∈ started (sw_mgr w) <-> is_Some (sw_sess w !! s);
  sy_old s : s ∈ started (sw_mgr w) -> s ∉ pending (sw_mgr w) /\ (s < next_sid (sw_mgr w))%nat;
  sy_reach s se : sw_sess w !! s = Some se -> exists cap, session_reachable cap true se;
  sy_reg s se : sw_sess w !! s = Some se -> s ∈ sessions_ (sw_mgr w) -> ~ ended se;
  sy_live s se : reconnect_stopped_ (sw_mgr w) = false -> sw_sess w !! s = Some se -> ~ ended se ->
    s ∈ sessions_ (sw_mgr w)
}.

Lemma stopped_mono l m m' :
  mstep cast l m = Some m' -> reconnect_stopped_ m' = false -> reconnect_stopped_ m = false.
Proof.
  intros Hs Hf. destruct (reconnect_stopped_ m) eqn:E; [|done]. rewrite <-Hf.
  destruct (is_connect l) eqn:El.
  - destruct l as [f| |ec e|sock|sock h sv|h sv ssl|h sv ssl p|i ok e|s|]; try done; simpl in Hs;
      injection Hs as <-; [done..|]. simpl. by destruct (_ >? 0).
  - by destruct (stopped_step cast (redials m) l m m' El (conj E eq_refl) Hs).
Qed.

Lemma sys_tame w m :
  sys_inv w -> tame (sw_mgr w) m -> minv m ->
  (reconnect_stopped_ m = false -> reconnect_stopped_ (sw_mgr w) = false) ->
  sys_inv (mkSWorld m (sw_sess w)).
Proof.
  intros [I1 I2 I3 I4 I5 I6] ([U1 U2] & T2 & T3) Hm Hst. split; simpl; rewrite ?U1, ?U2; [done..| |done|auto|].
  - intros s Hs. destruct (I3 s Hs) as [Hp Hn]. split; [|lia].
    intros [?|?]%T2; [done|lia].
  - intros s se Hf. apply I6. auto.
Qed.

Lemma sys_join w m s :
  sys_inv w -> minv m -> s ∈ pending (sw_mgr w) -> s ∉ pending m ->
  sessions_ m = sessions_ (sw_mgr w) ++ [s] -> started m = started (sw_mgr w) ++ [s] ->
  (forall x, x ∈ pending m -> x ∈ pending (sw_mgr w)) -> next_sid m = next_sid (sw_mgr w) ->
  (reconnect_stopped_ m = false -> reconnect_stopped_ (sw_mgr w) = false) ->
  sys_inv (mkSWorld m (start_session m (sw_sess w) s)).
Proof.
  intros [I1 I2 I3 I4 I5 I6] Hm Hs Hs' E1 E2 Hp E3 Hst. unfold start_session.
  split; simpl; rewrite ?E1, ?E2, ?E3; [done|..].
  - intros x. rewrite elem_of_app, list_elem_of_singleton, I2. destruct (decide (x = s)) as [->|Hx].
    + rewrite lookup_insert_eq. split; [by eexists|by right].
    + rewrite lookup_insert_ne by done. split; [by intros [?|?]|by left].
  - intros x [Hx| ->%list_elem_of_singleton]%elem_of_app.
    + destruct (I3 x Hx) as [Hn Hlt]. split; [|done]. auto.
    + split; [done|]. pose proof (mi_known _ I1) as Hk. apply Forall_app in Hk as [_ Hk].
      by apply (proj1 (Forall_forall _ _) Hk).
  - intros x se [[<- <-]|[Hx Hse]]%lookup_insert_Some; [|by apply (I4 x)].
    eexists. apply rtc_refl.
  - intros x se [[<- <-]|[Hx Hse]]%lookup_insert_Some; [intros _; apply not_elem_of_nil|].
    intros [Hin| ->%list_elem_of_singleton]%elem_of_app; [by apply (I5 x)|done].
  - intros x se Hf [[<- <-]|[Hx Hse]]%lookup_insert_Some Hne; [apply elem_of_app; right; by left|].
    apply elem_of_app. left. apply (I6 x se); auto.
Qed.

(** Registered but not started: the address is no IPv4 address. *)
Lemma sys_half w m s :
  sys_inv w -> minv m -> s ∈ pending (sw_mgr w) ->
  sessions_ m = sessions_ (sw_mgr w) ++ [s] -> started m = started (sw_mgr w) ->
  (forall x, x ∈ pending m -> x ∈ pending (sw_mgr w)) -> next_sid m = next_sid (sw_mgr w) ->
  (reconnect_stopped_ m = false -> reconnect_stopped_ (sw_mgr w) = false) ->
  sys_inv (mkSWorld m (sw_sess w)).
Proof.
  intros [I1 I2 I3 I4 I5 I6] Hm Hs E1 E2 Hp E3 Hst. split; simpl; rewrite ?E1, ?E2, ?E3; [done|done| |done|..].
  - intros x Hx. destruct (I3 x Hx) as [Hn Hlt]. auto.
  - intros x se Hse [Hin| ->%list_elem_of_singleton]%elem_of_app; [by apply (I5 x)|].
    destruct (I3 s) as [Hn _]; [apply I2; by eexists|done].
  - intros x se Hf Hse Hne. apply elem_of_app. left. apply (I6 x se); auto.
Qed.

Lemma sys_stop w : sys_inv w -> sys_inv (mkSWorld (stop (sw_mgr w)) (sw_sess w)).
Proof.
  intros [I1 I2 I3 I4 I5 I6].
  assert (minv (stop (sw_mgr w))) as Hm by (eapply (minv_step cast ml_stop); [exact I1|reflexivity]).
  split; cbn [sw_mgr sw_sess]; rewrite ?started_stop; [done|done| |done|..].
  - intros s Hs. unfold stop. rewrite base_stop_frame. exact (I3 s Hs).
  - intros s se _. unfold stop. rewrite base_stop_frame. by intros ?%not_elem_of_nil.
  - unfold stop. by rewrite base_stop_frame.
Qed.

Lemma sys_manager l w m :
  is_remove l = false -> sys_inv w -> mstep cast l (sw_mgr w) = Some m ->
  sys_inv (mkSWorld m (fold_left (start_session m) (drop (length (started (sw_mgr w))) (started m))
                         (sw_sess w))).
Proof.
  intros Hl Hw Hs. pose proof (sy_minv _ Hw) as Hm. pose proof (minv_step _ _ _ _ Hm Hs) as Hm'.
  pose proof (stopped_mono _ _ _ Hs) as Hst.
  destruct (step_cases cast _ _ _ Hl Hm Hs) as [Ht|[(s & A1 & A2 & A3 & A4 & A5 & A6)| ->]].
  - pose proof Ht as [[_ ->] _]. rewrite drop_all. by apply sys_tame.
  - destruct A4 as [E|E]; rewrite E at 1.
    + rewrite drop_app_length. by apply (sys_join w m s).
    + rewrite drop_all. by apply (sys_half w m s).
  - rewrite started_stop, drop_all. by apply sys_stop.
Qed.

Lemma session_step_complete se k n v b :
  ses_pending se = Some (k, n) -> zlen b = n -> session_step se (complete_read k v b se).2.
Proof.
  intros Hp Hb. destruct (complete_read k v b se) as [[[]|e] se'] eqn:E.
  - by eapply ses_step.
  - by eapply ses_step_throw.
Qed.

Lemma sys_read w s se k n v b :
  sys_inv w -> sw_sess w !! s = Some se -> ses_pending se = Some (k, n) -> zlen b = n ->
  let se' := (complete_read k v b se).2 in
  sys_inv (mkSWorld (removals s (drop (length (ses_effects se)) (ses_effects se')) (sw_mgr w))
             (<[s := se']> (sw_sess w))).
Proof.
  intros [I1 I2 I3 I4 I5 I6] Hse Hp Hb se'.
  destruct (extends_complete (ses_effects se) k v b se ltac:(unfold extends; reflexivity)) as [es Hes].
  fold se' in Hes. rewrite Hes, drop_app_length.
  assert (exists cap, session_reachable cap true se') as Hreach.
  { destruct (I4 s se Hse) as [cap Hc]. exists cap. eapply rtc_r; [exact Hc|].
    by eapply session_step_complete. }
  assert (forall x, is_Some (<[s := se']> (sw_sess w) !! x) <-> is_Some (sw_sess w !! x)) as Hdom.
  { intros x. destruct (decide (x = s)) as [->|Hx]; [|by rewrite lookup_insert_ne].
    rewrite lookup_insert_eq, Hse. split; intros _; [by exists se|by exists se']. }
  assert (ended se' <-> ended se \/ e_removed ∈ es) as Hend
    by (unfold ended; by rewrite Hes, elem_of_app).
  destruct (removals_cases s es (sw_mgr w) I1) as [[Hn ->]|[Hi (L1 & L2 & L3 & L4 & L5 & L6)]];
    (split; cbn [sw_mgr sw_sess]).
  - done.
  - intros x. by rewrite Hdom, I2.
  - done.
  - intros x ses [[<- <-]|[_ Hx]]%lookup_insert_Some; [done|by apply (I4 x)].
  - intros x ses [[<- <-]|[_ Hx]]%lookup_insert_Some; [|by apply I5].
    intros Hin. rewrite Hend. intros [?|?]; [by apply (I5 s se)|done].
  - intros x ses Hf [[<- <-]|[_ Hx]]%lookup_insert_Some; [|by apply I6].
    rewrite Hend. intros Hne. apply (I6 s se); tauto.
  - done.
  - intros x. by rewrite L2, Hdom, I2.
  - intros x. rewrite L2, L4. intros Hx. destruct (I3 x Hx) as [Hp' Hlt]. split; [|done]. auto.
  - intros x ses [[<- <-]|[_ Hx]]%lookup_insert_Some; [done|by apply (I4 x)].
  - intros x ses [[<- <-]|[Hne Hx]]%lookup_insert_Some; rewrite L1; [tauto|].
    intros [Hin _]. by apply (I5 x).
  - intros x ses. rewrite L5. intros Hf [[<- <-]|[Hne Hx]]%lookup_insert_Some; [tauto|].
    intros Hl. rewrite L1. split; [by apply (I6 x ses)|done].
Qed.

Lemma sys_inv_step l w w' : sys_inv w -> sys_step cast l w = Some w' -> sys_inv w'.
Proof.
  intros Hw Hs. destruct l as [l|s v b]; cbn [sys_step] in Hs.
  - destruct (is_remove l) eqn:El; [done|].
    destruct (mstep cast l (sw_mgr w)) as [m|] eqn:E; [|done]. injection Hs as <-.
    by apply (sys_manager l).
  - destruct (sw_sess w !! s) as [se|] eqn:Es; [|done]. cbn [mbind option_bind] in Hs.
    destruct (ses_pending se) as [[k n]|] eqn:Ep; [|done]. cbn [mbind option_bind] in Hs.
    destruct (Z.eqb_spec (zlen b) n) as [En|]; [|done]. injection Hs as <-. by eapply sys_read.
Qed.

Lemma sys_inv_run ls w w' : sys_inv w -> sys_run cast ls w = Some w' -> sys_inv w'.
Proof.
  revert w. induction ls as [|l ls IH]; cbn [sys_run]; intros w Hw Hr; [by simplify_eq|].
  destruct (sys_step cast l w) as [w1|] eqn:E; [|done]. apply (IH w1); [|done]. by eapply sys_inv_step.
Qed.

Lemma sys_inv_new : sys_inv new_system.
Proof.
  split; simpl; try done.
  - apply minv_new.
  - intros s. rewrite lookup_empty. split; [by intros ?%not_elem_of_nil|by intros []].
  - by intros s ?%not_elem_of_nil.
Qed.
End system.

(** C29 The registry and the sessions agree: in every run of a manager together
    with the sessions it has started, in any interleaving of accepts, dials,
    handshakes, reads that complete with any bytes or fail, and [stop], a session
    that is registered has not ended, and a session that was started and has not
    ended is registered, unless the manager was stopped.  Each of these sessions
    is in a state that Session.v's theorems speak of. *)
Theorem registry_tracks_sessions `{Schema} {BE : BoostEndian} {Al : Allocator}
    (cast : spec_float -> Z) (ls : list sys_label) (w : sworld) (s : sid) (se : session) :
  sys_run cast ls new_system = Some w -> sw_sess w !! s = Some se ->
  (exists cap, session_reachable cap true se) /\
  (s ∈ sessions_ (sw_mgr w) -> e_removed ∉ ses_effects se) /\
  (reconnect_stopped_ (sw_mgr w) = false -> e_removed ∉ ses_effects se ->
   s ∈ sessions_ (sw_mgr w)).
Proof.
  intros Hr Hse. pose proof (sys_inv_run cast _ _ _ sys_inv_new Hr) as Hw. split_and!.
  - by apply (sy_reach _ Hw s).
  - by apply (sy_reg _ Hw s).
  - intros Hf Hne. by apply (sy_live _ Hw s se).
Qed.

Section system_witnesses.
Import Witness ManagerWitness.

(** A session is accepted, reads the size of a header that is too long, and
    leaves; a second one stays. *)
Definition one_leaves : list sys_label :=
  [sl_manager (ml_set (set_mgr_max_message_size 64)); sl_manager ml_listen;
   sl_manager (ml_accept false (peer 1)); sl_manager (ml_complete 0 true (peer 1));
   sl_manager (ml_accept false (peer 2)); sl_manager (ml_complete 0 true (peer 2));
   sl_read 0 true (le_split 8 65)].

Lemma registry_tracks_sessions_witness :
  exists w se0 se1, sys_run cast one_leaves new_system = Some w /\
    sw_sess w !! 0%nat = Some se0 /\ sw_sess w !! 1%nat = Some se1 /\
    (0%nat ∈ sessions_ (sw_mgr w) -> e_removed ∉ ses_effects se0) /\ 1%nat ∈ sessions_ (sw_mgr w).
Proof.
  destruct (sys_run cast one_leaves new_system) as [w|] eqn:E; [|vm_compute in E; discriminate].
  exists w, (mkSession 64 true None [e_removed]), (mkSession 64 true (Some (k_frame_size, 8)) []).
  assert (sw_sess w !! 0%nat = Some (mkSession 64 true None [e_removed]) /\
          sw_sess w !! 1%nat = Some (mkSession 64 true (Some (k_frame_size, 8)) []) /\
          reconnect_stopped_ (sw_mgr w) = false) as (E0 & E1 & Es).
  { vm_compute in E. injection E as <-. split_and!; reflexivity. }
  split_and!; [reflexivity|exact E0|exact E1|..].
  - exact (proj1 (proj2 (registry_tracks_sessions cast one_leaves w 0%nat _ E E0))).
  - apply (registry_tracks_sessions cast one_leaves w 1%nat _ E E1); [exact Es|].
    apply not_elem_of_nil.
Defined.
End system_witnesses.
