(* ===== verification/ClientServer.v ===== *)
(** * The client and server examples ([src/examples/client_server])

    The programs [server_main.cpp] and [client_main.cpp], with their schemas
    ([request.fbs], [response.fbs]): the library's components put together.  A
    class derived from [session] overrides [handle_message]; the effects of the
    base class are those of Session.v, and each call of the virtual function
    among them is a call of the override.  Logging is a list of lines. *)

From stdpp Require Import strings.
From Stdlib Require Import Floats.SpecFloat.
From S2P Require Import Prelude Endian Serialisation SocketBase Message WireFormat MessageCorrect Router.
From S2P Require Import Session SocketTimers TimerProperties BoostSocket Ssl SessionManager ManagerCorrect.
From S2P Require Import ManagerEvents Reconnect.

(** ** Logging ([examples/common/log.hpp]) *)

Inductive log_arg : Type := arg_num (n : Z) | arg_str (s : string) | arg_id (b : uint8_t).

Inductive log_line : Type :=
| LOG_INFO (fmt : string) (args : list log_arg)
| LOG_WARN (fmt : string) (args : list log_arg)
| LOG_ERR (fmt : string) (args : list log_arg).

(** ** The schemas *)

Record TestRequest := mkTestRequest { request_key : Z }.
Record TestResponse := mkTestResponse { response_key : Z }.

Definition RequestId_Test : uint8_t := Byte.x00.
Definition ResponseId_Test : uint8_t := Byte.x00.

Class ClientSchema {Sc : Schema} := {
  request_table :: Table TestRequest;
  response_table :: Table TestResponse
}.

Class ClientSchemaLaws {Sc : Schema} {CS : ClientSchema} : Prop := {
  request_laws :: TableLaws TestRequest;
  request_wf r : table_wf r <-> is_u64 (request_key r);
  response_laws :: TableLaws TestResponse;
  response_wf r : table_wf r <-> is_u64 (response_key r)
}.

(** ** Derived sessions *)

(** A session and the log its handlers write to. *)
Record app := mkApp { app_session : session; app_log : list log_line }.

#[global] Instance app_writer : AsyncWriter app := {|
  async_write head body _ w := mkApp (emit (e_write head body) (app_session w)) (app_log w) |}.

Definition app_line (l : log_line) (w : app) : app := mkApp (app_session w) (app_log w ++ [l]).

(** The effects [es] of the base class, with [handle_message] overridden. *)
Definition derived (handle_message : message_id_t -> list uint8_t -> app -> app)
    (es : list effect) (w : app) : app :=
  fold_left (fun w e =>
    match e with
    | e_message id body => handle_message id body w
    | _ => mkApp (emit e (app_session w)) (app_log w)
    end) es w.

(** The bytes a session hands to its socket. *)
Definition written (es : list effect) : list uint8_t :=
  concat (omap (fun e => match e with e_write h b => Some (h ++ b) | _ => None end) es).

(** ** The server *)
Section server.
Context {Sc : Schema} {CS : ClientSchema} {BE : BoostEndian} {Al : Allocator}.

(** [handle_valid_test_request]. *)
Definition handle_valid_test_request (sess : unit) (request_body : TestRequest) (w : app) : app :=
  let w := app_line (LOG_INFO "test request key: 0x{:X}" [arg_num (request_key request_body)]) w in
  async_send false ResponseId_Test (mkTestResponse 0x56789) w.

(** [test_request] and [request_router]. *)
Definition test_request : message_info unit app :=
  mkMessageInfo TestRequest request_table RequestId_Test handle_valid_test_request.

Definition request_router : list (message_info unit app) := [test_request].

(** [client_connection::handle_message]. *)
Definition client_connection_handle_message (id : message_id_t) (body : list uint8_t) (w : app) : app :=
  let '(handled, w) := dispatch request_router id tt body w in
  if negb handled then app_line (LOG_ERR "unknown request type: {}" [arg_id id]) w else w.

(** A session of the server on the bytes of a client. *)
Definition serve_client (cap : Z) (fuel : nat) (bs : list uint8_t) : option (outcome unit * app) :=
  '(r, s) ← serve fuel bs (start (new_session cap true));
  Some (r, derived client_connection_handle_message (observable s) (mkApp (new_session cap true) [])).
End server.

(** Durations in nanoseconds, as in the reconnect policy. *)
Definition server_calls : list mlabel :=
  [ml_set (set_mgr_idle_timeout (seconds 10));
   ml_set (set_mgr_heartbeat_timeout (seconds 2));
   ml_set (set_mgr_handshake_timeout (seconds 3));
   ml_set (set_mgr_max_message_size (1024 * 1024));
   ml_set (set_on_connect true);
   ml_set (set_on_disconnect true);
   ml_listen].

(** ** The clients *)

Record client_world (Ctx St : Type) := mkClientWorld {
  cw_context : Ctx;
  cw_socket : boost_tcp_socket St;
  cw_log : list log_line
}.
Arguments mkClientWorld {Ctx St} _ _ _.
Arguments cw_context {Ctx St} _.
Arguments cw_socket {Ctx St} _.
Arguments cw_log {Ctx St} _.

Section client.
Context {Sc : Schema} {CS : ClientSchema} {BE : BoostEndian} {Al : Allocator}.
Context `{NativeContext Ctx} `{AsioStreamLaws St}.
Abbreviation CM := (M (client_world Ctx St)).

Definition say (l : log_line) : CM unit :=
  modify (fun w => mkClientWorld (cw_context w) (cw_socket w) (cw_log w ++ [l])).

Definition on_context {A} (m : M Ctx A) : CM A := fun w =>
  let '(r, c) := m (cw_context w) in (r, mkClientWorld c (cw_socket w) (cw_log w)).

Definition on_socket {A} (m : M (boost_tcp_socket St) A) : CM A := fun w =>
  let '(r, s) := m (cw_socket w) in (r, mkClientWorld (cw_context w) s (cw_log w)).

(** [sl::msg::send<Client::CreateTestRequest>(sock, Client::RequestId_Test, request_key)]. *)
Definition send_request : CM bool := on_socket (fun s =>
  let '(ok, s) := send false RequestId_Test (mkTestRequest 0x12345) s in (Ret ok, s)).

(** [sl::msg::recv<Client::TestResponse>(sock, response_buffer)]. *)
Definition recv_response (fuel : nat) : CM (option (option TestResponse)) := on_socket (fun s =>
  let '(r, w) := recv TestResponse fuel (mkRecvWorld s [] []) in (r, rw_socket w)).

(** [run_sync_client]; [None] when the fuel for [recv] runs out. *)
Definition run_sync_client (fuel : nat) : CM (option unit) :=
  _ ← say (LOG_INFO "sync client" []);
  _ ← on_context set_up_client_context;
  connected ← on_socket (connect_host "127.0.0.1" "2457");
  if negb connected then _ ← say (LOG_ERR "failed to connect to server" []); mret (Some tt) else
  ok ← on_socket (handshake client);
  if negb ok then _ ← say (LOG_ERR "failed to handshake" []); mret (Some tt) else
  _ ← say (LOG_INFO "handshake was successful" []);
  _ ← send_request;
  response ← recv_response fuel;
  match response with
  | None => mret None
  | Some None => _ ← say (LOG_ERR "failed to receive response" []); mret (Some tt)
  | Some (Some response) =>
      _ ← say (LOG_INFO "test response key: 0x{:X}" [arg_num (response_key response)]);
      mret (Some tt)
  end.

(** [handle_test_response], [test_response], [response_router]. *)
Definition handle_test_response (sess : unit) (response : TestResponse) (w : app) : app :=
  app_line (LOG_INFO "test response key: 0x{:X}" [arg_num (response_key response)]) w.

Definition test_response : message_info unit app :=
  mkMessageInfo TestResponse response_table ResponseId_Test handle_test_response.

Definition response_router : list (message_info unit app) := [test_response].

(** [async_client::handle_message]. *)
Definition async_client_handle_message (id : message_id_t) (body : list uint8_t) (w : app) : app :=
  let '(handled, w) := dispatch response_router id tt body w in
  if negb handled then app_line (LOG_ERR "unknown response type: {}" [arg_id id]) w else w.

(** [session->start(); io_context.run()]: the reads complete with the bytes the
    peer sends, until the session ends; [None] when the fuel runs out. *)
Definition run_session (fuel : nat) : CM (option unit) := fun w =>
  let cap := max_message_size (cw_socket w) in
  match serve fuel (incoming (cw_socket w)) (start (new_session cap false)) with
  | None => (Ret None, w)
  | Some (r, s) =>
      let a := derived async_client_handle_message (observable s) (mkApp (new_session cap false) []) in
      (match r with Ret _ => Ret (Some tt) | Throw e => Throw e end,
       mkClientWorld (cw_context w) (cw_socket w) (cw_log w ++ app_log a))
  end.

(** [run_async_client]. *)
Definition run_async_client (fuel : nat) : CM (option unit) :=
  _ ← say (LOG_INFO "async client" []);
  _ ← on_context set_up_client_context;
  connected ← on_socket (session_connect "127.0.0.1" "2457");
  if negb connected then _ ← say (LOG_ERR "failed to connect to server" []); mret (Some tt) else
  ok ← on_socket (session_handshake client);
  if negb ok then _ ← say (LOG_ERR "failed to handshake" []); mret (Some tt) else
  _ ← say (LOG_INFO "handshake was successful" []);
  _ ← send_request;
  run_session fuel.

(** [run_silent_client]; the sleep does nothing to the program's state. *)
Definition run_silent_client : CM (option unit) :=
  _ ← say (LOG_INFO "silent client (connect + handshake, then idle without answering pings)" []);
  _ ← on_context set_up_client_context;
  connected ← on_socket (connect_host "127.0.0.1" "2457");
  if negb connected then _ ← say (LOG_ERR "failed to connect to server" []); mret (Some tt) else
  ok ← on_socket (handshake client);
  if negb ok then _ ← say (LOG_ERR "failed to handshake" []); mret (Some tt) else
  _ ← say (LOG_INFO "handshake ok; idling silently for 12s (never reading, so never answering pings)" []);
  _ ← say (LOG_INFO "silent client done (was alive the whole time)" []);
  mret (Some tt).

(** [run_reconnect_client]: the policy, and the calls on the manager; the last one
    is the signal handler's. *)
Definition client_policy : reconnect_policy :=
  mkPolicy (seconds 1) (seconds 5) (seconds 5) two 0.

Definition reconnect_client_calls : list mlabel :=
  [ml_set (set_on_connect true); ml_set (set_on_disconnect true);
   ml_boost_connect_policy "127.0.0.1" "2457" 0 client_policy].

(** The callbacks it sets: a request is sent, synchronously, on each connection. *)
Definition reconnect_on_connect : CM bool := fun w =>
  let sock := members (cw_socket w) in
  (_ ← say (LOG_INFO "connected to {}:{}" [arg_str (remote_address sock); arg_num (port sock)]);
   send_request) w.

Definition reconnect_on_disconnect : CM unit :=
  say (LOG_INFO "disconnected -- waiting for auto-reconnect" []).

(** The manager's acceptor is bound to port 0, which may fail. *)
Definition run_reconnect_client (tcp_listen : Z -> outcome unit) : CM (list mlabel) :=
  _ ← say (LOG_INFO "reconnect client (auto-reconnect with backoff)" []);
  _ ← on_context set_up_client_context;
  _ ← lift_outcome (tcp_listen 0);
  mret reconnect_client_calls.

(** [main] of the client: each mode works on sockets and contexts of its own,
    [env k] those of the [k]th; an exception ends the program with a line. *)
Context (what : exn -> string) (tcp_listen : Z -> outcome unit).

Definition caught {A} (r : outcome A * client_world Ctx St) : bool * list log_line :=
  match r with
  | (Ret _, w) => (true, cw_log w)
  | (Throw e, w) => (false, cw_log w ++ [LOG_ERR (what e) []])
  end.

Definition client_main (fuel : nat) (env : nat -> client_world Ctx St) (args : list string)
    : list log_line :=
  let mode := match args with mode :: _ => mode | [] => EmptyString end in
  if String.eqb mode "silent" then (caught (run_silent_client (env 0%nat))).2
  else if String.eqb mode "reconnect" then (caught (run_reconnect_client tcp_listen (env 0%nat))).2
  else
    let '(ok, log) := caught (run_sync_client fuel (env 0%nat)) in
    if ok then log ++ (caught (run_async_client fuel (env 1%nat))).2 else log.
End client.

(** ** The programs that listen

    What a [main] does before its pool runs: the state of its SSL contexts, the
    port its acceptor is bound to, the calls it makes on the manager, and the
    lines it logs. *)
Record main_world (Ctx : Type) := mkMain {
  mn_context : Ctx;
  mn_port : option Z;
  mn_calls : list mlabel;
  mn_log : list log_line
}.
Arguments mkMain {Ctx} _ _ _ _.
Arguments mn_context {Ctx} _.
Arguments mn_port {Ctx} _.
Arguments mn_calls {Ctx} _.
Arguments mn_log {Ctx} _.

Section mains.
Context {Ctx : Type} (what : exn -> string).
Abbreviation MM := (M (main_world Ctx)).

Definition main_log (l : log_line) : MM unit :=
  modify (fun w => mkMain (mn_context w) (mn_port w) (mn_calls w) (mn_log w ++ [l])).

Definition call_manager (ls : list mlabel) : MM unit :=
  modify (fun w => mkMain (mn_context w) (mn_port w) (mn_calls w ++ ls) (mn_log w)).

Definition in_context {A} (m : M Ctx A) : MM A := fun w =>
  let '(r, c) := m (mn_context w) in (r, mkMain c (mn_port w) (mn_calls w) (mn_log w)).

(** The manager's constructor binds and listens, which throws on failure. *)
Definition make_manager (tcp_listen : Z -> outcome unit) (port : Z) : MM unit := fun w =>
  match tcp_listen port with
  | Ret _ => (Ret tt, mkMain (mn_context w) (Some port) (mn_calls w) (mn_log w))
  | Throw e => (Throw e, w)
  end.

(** [try { ... } catch (const std::exception& e) { LOG_ERR(e.what()); } return 0;]. *)
Definition catching (m : MM Z) : MM Z := fun w =>
  match m w with
  | (Ret r, w) => (Ret r, w)
  | (Throw e, w) => (Ret 0, (main_log (LOG_ERR (what e) []) w).2)
  end.
End mains.

(** The callbacks of the server, and its signal handler. *)
Definition server_on_connect `{AsioStream St} (s : tcp_socket) : log_line :=
  LOG_INFO "client connected: {}:{}" [arg_str (remote_address s); arg_num (port s)].

Definition server_on_disconnect `{AsioStream St} (s : tcp_socket) : log_line :=
  LOG_INFO "client disconnected: {}:{}" [arg_str (remote_address s); arg_num (port s)].

Definition server_on_signal {Ctx} : M (main_world Ctx) unit :=
  _ ← main_log (LOG_INFO "shutting down" []);
  call_manager [ml_stop].

(** [main] of the server. *)
Definition server_main `{NativeContext Ctx} (what : exn -> string) (tcp_listen : Z -> outcome unit)
    (thread_count : Z) : M (main_world Ctx) Z :=
  catching what (
    _ ← main_log (LOG_INFO "server (thread pool: {} threads)" [arg_num thread_count]);
    _ ← in_context set_up_server_context;
    _ ← make_manager tcp_listen 2457;
    _ ← call_manager server_calls;
    mret 0).

(** ** Sessions on encoded frames *)

Section encoded.
Context `{SL : SchemaLaws} {Al : Allocator}.

Lemma decode_encoded cap fuel fs :
  Forall (frame_fits cap) fs -> (length fs < fuel)%nat ->
  decode cap fuel (concat (encode_frame <$> fs)) = (fs, end_fail short_size).
Proof.
  intros Hfs. revert fuel. induction Hfs as [|f fs Hf _ IH]; intros [|fuel] Hl; simpl in Hl; try lia.
  - done.
  - cbn [fmap list_fmap concat decode]. rewrite parse_encode_frame by done. by rewrite IH by lia.
Qed.

(** A session that is sent the frames [fs] and then the end of the stream. *)
Lemma serve_encoded {BE : BoostEndian} {BEL : BoostEndianLaws} cap managed fuel fs :
  Forall (frame_fits cap) fs -> (length (concat (encode_frame <$> fs)) < 8 * fuel)%nat ->
  exists s, serve (3 * fuel) (concat (encode_frame <$> fs)) (start (new_session cap managed))
              = Some (Ret tt, s) /\
    observable s = concat (frame_effects <$> fs) ++ end_effects managed (end_fail short_size).
Proof.
  intros Hfs Hl.
  pose proof (serve_decode fuel _ (start (new_session cap managed)) eq_refl Hl) as Hs.
  pose proof (length_encoded fs) as Hlen. cbn [ses_cap start new_session] in Hs.
  rewrite decode_encoded in Hs by (done || lia). exact Hs.
Qed.

Lemma derived_app hm es es' w : derived hm (es ++ es') w = derived hm es' (derived hm es w).
Proof. apply fold_left_app. Qed.

(** System frames and the end of a session log nothing. *)
Lemma derived_system {BE : BoostEndian} hm fs w :
  Forall (fun f => f_system f = true) fs ->
  app_log (derived hm (concat (frame_effects <$> fs)) w) = app_log w.
Proof.
  intros Hfs. revert w. induction Hfs as [|f fs Hf _ IH]; intros w; [done|].
  cbn [fmap list_fmap concat]. rewrite derived_app, IH. unfold frame_effects. rewrite Hf.
  by destruct (is_ping f).
Qed.

(** One message among system frames: its handler alone writes to the log. *)
Lemma derived_delivery {BE : BoostEndian} hm managed st before f after w :
  Forall (fun f => f_system f = true) before -> Forall (fun f => f_system f = true) after ->
  f_system f = false ->
  exists w0, app_log w0 = app_log w /\
    app_log (derived hm (concat (frame_effects <$> before ++ f :: after) ++
                         end_effects managed (end_fail st)) w) =
    app_log (hm (f_id f) (f_body f) w0).
Proof.
  intros Hb Ha Hf. exists (derived hm (concat (frame_effects <$> before)) w).
  split; [by apply derived_system|].
  rewrite derived_app, fmap_app, concat_app, derived_app. cbn [fmap list_fmap concat].
  rewrite derived_app. set (w0 := derived hm (concat (frame_effects <$> before)) w).
  transitivity (app_log (derived hm (concat (frame_effects <$> after)) (hm (f_id f) (f_body f) w0))).
  - unfold frame_effects at 2. rewrite Hf. by destruct managed.
  - by apply derived_system.
Qed.
End encoded.

(** ** A request and its response *)

Section request_response.
Context `{SL : SchemaLaws} {CS : ClientSchema} {CL : ClientSchemaLaws} {Al : Allocator}.

Definition request_frame : frame :=
  mkFrame false RequestId_Test (serialise (lift Create) (mkTestRequest 0x12345)).

Definition response_frame : frame :=
  mkFrame false ResponseId_Test (serialise (lift Create) (mkTestResponse 0x56789)).

Lemma request_key_wf : table_wf (mkTestRequest 0x12345).
Proof. apply (proj2 (request_wf _)). by vm_compute. Qed.

Lemma response_key_wf : table_wf (mkTestResponse 0x56789).
Proof. apply (proj2 (response_wf _)). by vm_compute. Qed.

(** The server's answer to a request. *)
Lemma server_answers (BE : BoostEndian) (BEL : BoostEndianLaws) cap fuel :
  frame_fits cap request_frame -> (length (encode_frame request_frame) < 8 * fuel)%nat ->
  exists a, serve_client cap (3 * fuel) (encode_frame request_frame) = Some (Ret tt, a) /\
    written (ses_effects (app_session a)) = encode_frame response_frame /\
    app_log a = [LOG_INFO "test request key: 0x{:X}" [arg_num 0x12345]].
Proof.
  intros Hfit Hl. rewrite <-(app_nil_r (encode_frame request_frame)) in *.
  destruct (serve_encoded cap true fuel [request_frame]) as (s & Hs & Ho); [by apply Forall_singleton|done|].
  cbn [fmap list_fmap concat] in Hs. unfold serve_client. rewrite Hs. simpl.
  eexists. split; [reflexivity|]. rewrite Ho. simpl.
  unfold client_connection_handle_message. simpl. unfold process. simpl.
  rewrite is_valid_serialise by apply request_key_wf. simpl.
  rewrite deserialise_serialise by apply request_key_wf. simpl. split; [|done].
  unfold written. simpl. rewrite app_nil_r. apply frame_bytes_eq.
Qed.

(** [recv<T>] past any number of system frames. *)
Lemma recv_past_system {BE : BoostEndian} {BEL : BoostEndianLaws} `{StreamSocket Sk}
    {T} `{!Table T} `{!TableLaws T} id (t : T) sys rest fuel (w : recv_world Sk) :
  let f := mkFrame false id (serialise (lift Create) t) in
  loopback = false -> stream_inv (rw_socket w) -> table_wf t ->
  Forall (fun f => f_system f = true /\ frame_fits (max_message_size (rw_socket w)) f) sys ->
  frame_fits (max_message_size (rw_socket w)) f ->
  incoming (rw_socket w) = concat (encode_frame <$> sys) ++ encode_frame f ++ rest ->
  (length (incoming (rw_socket w)) < 8 * fuel)%nat ->
  exists w', recv T fuel w = (Ret (Some (Some t)), w') /\ incoming (rw_socket w') = rest /\
    answered sys w w'.
Proof.
  intros f Hl Hi Ht Hsys Hf Hin Hfuel.
  pose proof (recv_loop_refines (max_message_size (rw_socket w)) fuel w Hl Hi Hfuel) as Hr.
  pose proof (length_encoded sys) as Hlen. rewrite Hin in Hr, Hfuel. rewrite length_app in Hfuel.
  rewrite (next_message_encoded _ fuel sys f rest Hsys eq_refl Hf) in Hr by lia.
  destruct Hr as (w' & Hr & Hb & Hi' & Ha). exists w'. split_and!; [|done..].
  unfold recv. assert (recv_buffer fuel w = (Ret (Some (Some id)), w')) as Hbuf.
  { unfold recv_buffer. erewrite bind_Ret by done. exact Hr. }
  run Hbuf. erewrite bind_Ret by done. rewrite Hb. unfold f. cbn [f_body].
  by rewrite is_valid_serialise, deserialise_serialise by done.
Qed.
End request_response.

(** C37 A synchronous client and the example server understand each other: let the
    client connect and do its handshake, over hosts of any byte orders, and let
    what it then reads be what a session of the server writes on the bytes the
    client sent, after any system frames (the server's pings) and before anything
    else.  Then the server logs the client's key, the client logs the server's
    key, leaves what follows unread, and has answered each ping. *)
Theorem sync_client_served `{SL : SchemaLaws} {CS : ClientSchema} {CL : ClientSchemaLaws} {Al : Allocator}
    (E1 E2 : BoostEndian) (L1 : @BoostEndianLaws E1) (L2 : @BoostEndianLaws E2)
    `{NativeContext Ctx} `{AsioStreamLaws St}
    (w : client_world Ctx St) (ctx : Ctx) (s1 s2 : boost_tcp_socket St)
    (cap : Z) (sfuel fuel : nat) (sys : list frame) (rest : list uint8_t) r (a : app) :
  set_up_client_context (cw_context w) = (Ret tt, ctx) ->
  connect_host "127.0.0.1" "2457" (cw_socket w) = (Ret true, s1) ->
  handshake client s1 = (Ret true, s2) ->
  reliable (Sk := boost_tcp_socket St) ->
  frame_fits cap request_frame -> frame_fits (max_message_size s2) response_frame ->
  Forall (fun f => f_system f = true /\ frame_fits (max_message_size s2) f) sys ->
  let sent := drop (length (outgoing s2))
                (outgoing (send (BE := E1) false RequestId_Test (mkTestRequest 0x12345) s2).2) in
  serve_client (BE := E2) cap (3 * sfuel) sent = Some (r, a) ->
  incoming s2 = concat (encode_frame <$> sys) ++ written (ses_effects (app_session a)) ++ rest ->
  (length sent < 8 * sfuel)%nat -> (length (incoming s2) < 8 * fuel)%nat ->
  r = Ret tt /\ app_log a = [LOG_INFO "test request key: 0x{:X}" [arg_num 0x12345]] /\
  exists w', run_sync_client (BE := E1) fuel w = (Ret (Some tt), w') /\
    cw_log w' = cw_log w ++ [LOG_INFO "sync client" []; LOG_INFO "handshake was successful" [];
                             LOG_INFO "test response key: 0x{:X}" [arg_num 0x56789]] /\
    incoming (cw_socket w') = rest /\
    outgoing (cw_socket w') = outgoing s2 ++ sent ++
      concat ((fun _ => encode_frame pong_frame) <$> filter is_ping sys).
Proof.
  intros Hctx Hcon Hhs R Hreq Hres Hsys sent Hsv Hin Hl Hfuel.
  assert (stream_inv s2) as Hi2 by exact I.
  destruct (send_view_reliable (BE := E1) request_frame s2 R Hi2) as (s3 & Es & _ & Ho3 & Hi3 & Hc3).
  change (send (BE := E1) false RequestId_Test (mkTestRequest 0x12345) s2 = (true, s3)) in Es.
  simpl loopback in Hi3. rewrite app_nil_r in Hi3.
  assert (sent = encode_frame request_frame) as Hsent.
  { unfold sent. rewrite Es. cbn [snd]. rewrite Ho3. apply drop_app_length. }
  rewrite Hsent in *. destruct (server_answers E2 L2 cap sfuel Hreq Hl) as (a' & Ha & Hw & Hlog).
  rewrite Ha in Hsv. injection Hsv as <- <-. rewrite Hw in Hin. split_and!; [done..|].
  destruct (recv_past_system (BE := E1) ResponseId_Test (mkTestResponse 0x56789) sys rest fuel
    (mkRecvWorld s3 [] [])) as (w4 & Hr & Hi4 & Ho4); [done|exact I|apply response_key_wf|..].
  { cbn [rw_socket]. by rewrite Hc3. }
  { cbn [rw_socket]. by rewrite Hc3. }
  { cbn [rw_socket]. by rewrite Hi3. }
  { cbn [rw_socket]. by rewrite Hi3. }
  eexists (mkClientWorld ctx (rw_socket w4) _). split; [|split; [reflexivity|]].
  - unfold run_sync_client. erewrite bind_Ret by done.
    erewrite bind_Ret by (unfold on_context; cbn [cw_context]; rewrite Hctx; reflexivity).
    erewrite bind_Ret by (unfold on_socket; cbn [cw_socket]; rewrite Hcon; reflexivity). cbn [negb].
    erewrite bind_Ret by (unfold on_socket; cbn [cw_socket]; rewrite Hhs; reflexivity). cbn [negb].
    erewrite bind_Ret by done.
    erewrite bind_Ret by (unfold send_request, on_socket; cbn [cw_socket]; rewrite Es; reflexivity).
    erewrite bind_Ret by (unfold recv_response, on_socket; cbn [cw_socket]; rewrite Hr; reflexivity).
    cbn beta iota. erewrite bind_Ret by done. cbn [cw_context cw_socket cw_log response_key].
    by rewrite <-!(assoc_L (++)).
  - split; [exact Hi4|]. cbn [cw_socket]. rewrite (Ho4 R). cbn [rw_socket]. by rewrite Ho3, <-(assoc_L (++)).
Qed.

(** ** The asynchronous client *)

(** The asynchronous client of the example, served in the same way: it logs the
    server's key, once, and ends when the server closes the connection. *)
Theorem async_client_served `{SL : SchemaLaws} {CS : ClientSchema} {CL : ClientSchemaLaws} {Al : Allocator}
    {BE : BoostEndian} {BEL : BoostEndianLaws} `{NativeContext Ctx} `{AsioStreamLaws St}
    (w : client_world Ctx St) (ctx : Ctx) (s1 s2 : boost_tcp_socket St)
    (fuel : nat) (before after : list frame) :
  set_up_client_context (cw_context w) = (Ret tt, ctx) ->
  session_connect "127.0.0.1" "2457" (cw_socket w) = (Ret true, s1) ->
  session_handshake client s1 = (Ret true, s2) ->
  reliable (Sk := boost_tcp_socket St) ->
  Forall (fun f => f_system f = true) (before ++ after) ->
  Forall (frame_fits (max_message_size s2)) (before ++ response_frame :: after) ->
  incoming s2 = concat (encode_frame <$> before ++ response_frame :: after) ->
  (length (incoming s2) < 8 * fuel)%nat ->
  exists w', run_async_client (3 * fuel) w = (Ret (Some tt), w') /\
    cw_log w' = cw_log w ++ [LOG_INFO "async client" []; LOG_INFO "handshake was successful" [];
                             LOG_INFO "test response key: 0x{:X}" [arg_num 0x56789]].
Proof.
  intros Hctx Hcon Hhs R [Hsb Hsa]%Forall_app Hfit Hin Hfuel.
  assert (stream_inv s2) as Hi2 by exact I.
  destruct (send_view_reliable request_frame s2 R Hi2) as (s3 & Es & _ & _ & Hi3 & Hc3).
  change (send false RequestId_Test (mkTestRequest 0x12345) s2 = (true, s3)) in Es.
  simpl loopback in Hi3. rewrite app_nil_r in Hi3.
  rewrite Hin in Hfuel.
  destruct (serve_encoded (max_message_size s2) false fuel _ Hfit Hfuel) as (s & Hs & Ho).
  rewrite <-Hin in Hs.
  eexists. split.
  - unfold run_async_client. erewrite bind_Ret by done.
    erewrite bind_Ret by (unfold on_context; cbn [cw_context]; rewrite Hctx; reflexivity).
    erewrite bind_Ret by (unfold on_socket; cbn [cw_socket]; rewrite Hcon; reflexivity). cbn [negb].
    erewrite bind_Ret by (unfold on_socket; cbn [cw_socket]; rewrite Hhs; reflexivity). cbn [negb].
    erewrite bind_Ret by done.
    erewrite bind_Ret by (unfold send_request, on_socket; cbn [cw_socket]; rewrite Es; reflexivity).
    unfold run_session. cbn [cw_socket]. rewrite Hc3, Hi3, Hs. reflexivity.
  - cbn [cw_log]. rewrite Ho.
    destruct (derived_delivery async_client_handle_message false short_size before response_frame
      after (mkApp (new_session (max_message_size s2) false) []) Hsb Hsa eq_refl) as (a & Ha & ->).
    unfold async_client_handle_message. simpl. unfold process. simpl.
    rewrite is_valid_serialise by apply response_key_wf. simpl.
    rewrite deserialise_serialise by apply response_key_wf. simpl. rewrite Ha.
    by rewrite <-!(assoc_L (++)).
Qed.

(** ** The server and its silent clients *)

(** What the example server's settings make of an accepted connection. *)
Lemma server_accepts (undefined_cast : spec_float -> Z) (ip port : Z) :
  exists w,
    mrun undefined_cast (server_calls ++ [ml_accept false (mkEndpoint (address_v4 ip) port)]) new_manager
      = Some w /\ mops w = [m_accept_handshake 0] /\
    socket_of 0%nat w = mkTcpSocket (seconds 10) (seconds 2) (seconds 3) false 1048576 0 false false false
                     (mkEndpoint (address_v4 ip) port).
Proof. eexists. split; [reflexivity|]. split; reflexivity. Qed.

(** C38 The example server drops silent clients: from the socket of a client that
    the server accepted, through the TLS handshake that the server starts on it
    and that succeeds at some time [t0] (the run before it is arbitrary), a client
    that then sends nothing is closed by the heartbeat at the latest four seconds
    after [t0]. *)
Theorem server_drops_silent_client `{Schema} {BE : BoostEndian} {Callback : Type}
    (undefined_cast : spec_float -> Z) (ip port : Z) (mw : mworld)
    (w w1 established w' : world Callback) (cb : Callback) (ls1 ls2 : list (label Callback))
    (i : nat) (e : endpoint) :
  mrun undefined_cast (server_calls ++ [ml_accept false (mkEndpoint (address_v4 ip) port)]) new_manager
    = Some mw ->
  w_sock w = socket_of 0%nat mw ->
  timed_run ls1 (async_handshake server cb w) = Some w1 ->
  w_ops w1 !! i = Some (op_handshake server cb) ->
  timed_step (lb_op i false e) w1 = Some established ->
  timed_run ls2 established = Some w' ->
  let n := length (w_log established) in
  Forall (fun p => is_activity p.2 = false) (since n w') ->
  w_now w' <= w_now w1 + seconds 4 \/
  exists t, (t, l_timer_close heartbeat) ∈ since n w' /\ t <= w_now w1 + seconds 4.
Proof.
  intros Hm Hs Hr1 Ho He Hr n HF.
  destruct (server_accepts undefined_cast ip port) as (mw' & Hm' & _ & Hs').
  rewrite Hm in Hm'. injection Hm' as <-. rewrite Hs' in Hs.
  assert (heartbeat_timeout_ (w_sock w1) = seconds 2) as HT.
  { pose proof (config_run _ _ _ Hr1) as E.
    rewrite (config_api (call_handshake server cb) w : config (async_handshake _ _ w) = _) in E.
    unfold config in E. rewrite Hs in E. by injection E. }
  pose proof (hb_watch_handshake (seconds 2) _ _ _ _ _ _ ltac:(done) HT Ho He) as Hw.
  assert (hb_watch (seconds 2) (w_now w1) n w') as [_ [Hd|[Hb _]]].
  - eapply (run_invariant (hb_watch (seconds 2) (w_now w1) n) silent n); [|exact Hw|done|exact Hr|exact HF].
    intros l w2 w3 Hw2 Hl Hst HF'. by eapply hb_watch_step.
  - right. exact Hd.
  - left. revert Hb. generalize (w_now w1), (w_now w'). unfold seconds.
    destruct (heartbeat_sent_ (w_sock w')); lia.
Qed.

(** ** Witnesses *)
Module ToyClientSchema.
Import ToyCodec.

#[export] Instance toy_client_schema : ClientSchema := {|
  request_table := key_table mkTestRequest request_key;
  response_table := key_table mkTestResponse response_key |}.

#[export] Instance toy_client_schema_laws : ClientSchemaLaws.
Proof. split; [by apply key_table_laws; [intros []|]|done|by apply key_table_laws; [intros []|]|done]. Qed.
End ToyClientSchema.

Module ClientServerWitness.
Export Witness ToyClientSchema ToyContext LiveStream.

Definition pings : list frame := [ping; ping].

(** What the server wrote, with two pings before it and a byte after it. *)
Definition inbox : list uint8_t :=
  concat (encode_frame <$> pings) ++ encode_frame response_frame ++ [Byte.xff].

Definition client_start : client_world ctx_config live :=
  mkClientWorld blank (dialling_socket (mkLive inbox [])) [].

Definition ready_context : ctx_config := (set_up_client_context blank).2.

Definition accepted : option mworld :=
  mrun (fun _ => 0) (server_calls ++ [ml_accept false (mkEndpoint (address_v4 1) 5000)]) new_manager.

Definition served_socket : tcp_socket :=
  mkTcpSocket (seconds 10) (seconds 2) (seconds 3) false 1048576 0 false false false
    (mkEndpoint (address_v4 1) 5000).

(** The handshake is started, and completes after two seconds. *)
Definition shaking : SocketTimers.world nat := async_handshake server 0%nat (new_world served_socket).

Definition shaken : SocketTimers.world nat :=
  default shaking (timed_run [lb_tick (seconds 2)] shaking).

Definition established : SocketTimers.world nat :=
  default shaken (timed_step (lb_op 0 false default_endpoint) shaken).

Definition silent_client_run : list (label nat) :=
  [lb_tick (seconds 2); lb_expire heartbeat; lb_run 0; lb_tick (seconds 2); lb_expire heartbeat; lb_run 0].
End ClientServerWitness.

Section client_server_witnesses.
Import ClientServerWitness.

(** A big-endian client and a little-endian server. *)
Lemma sync_client_served_witness :
  exists w', run_sync_client (BE := boost_endian_on order_big) 20 client_start = (Ret (Some tt), w') /\
    cw_log w' = [LOG_INFO "sync client" []; LOG_INFO "handshake was successful" [];
                 LOG_INFO "test response key: 0x{:X}" [arg_num 0x56789]] /\
    incoming (cw_socket w') = [Byte.xff].
Proof.
  set (s := cw_socket client_start).
  destruct (server_answers host host_laws 1048576 20) as (a & Ha & Hw & _);
    [split; vm_compute; (done || lia)|vm_compute; lia|].
  destruct (sync_client_served (boost_endian_on order_big) host (boost_endian_on_laws _)
    (boost_endian_on_laws _) client_start ready_context s s 1048576 20 20 pings [Byte.xff] (Ret tt) a)
    as (_ & _ & w' & Hr & Hl & Hi & _).
  - reflexivity.
  - reflexivity.
  - reflexivity.
  - by intros bs x.
  - split; vm_compute; (done || lia).
  - split; vm_compute; (done || lia).
  - repeat constructor; vm_compute; (done || lia).
  - exact Ha.
  - rewrite Hw. reflexivity.
  - vm_compute. lia.
  - vm_compute. lia.
  - exists w'. exact (conj Hr (conj Hl Hi)).
Defined.

Lemma server_drops_silent_client_witness :
  exists mw w', accepted = Some mw /\
    shaking = async_handshake server 0%nat (new_world (socket_of 0%nat mw)) /\
    handshake_timer_ (w_sock established) = true /\
    timed_run (lb_run 0 :: silent_client_run) established = Some w' /\ w_now w' = seconds 6 /\
    (w_now w' <= seconds 2 + seconds 4 \/
     exists t, (t, l_timer_close heartbeat) ∈ since 3 w' /\ t <= seconds 2 + seconds 4).
Proof.
  destruct (server_accepts (fun _ => 0) 1 5000) as (mw & Em & _ & Hs).
  change (socket_of 0%nat mw = served_socket) in Hs.
  exists mw, (default established (timed_run (lb_run 0 :: silent_client_run) established)).
  rewrite Hs. split; [exact Em|]. split; [reflexivity|]. split; [by vm_compute|].
  split; [vm_compute; reflexivity|]. split; [by vm_compute|].
  apply (server_drops_silent_client (fun _ => 0) 1 5000 mw (new_world served_socket) shaken established
           _ 0%nat [lb_tick (seconds 2)] (lb_run 0 :: silent_client_run) 0 default_endpoint Em);
    [by rewrite Hs|by vm_compute|by vm_compute|by vm_compute|by vm_compute|].
  vm_compute. repeat constructor; done.
Defined.
End client_server_witnesses.
