(* ===== verification/Peer.v ===== *)
(** * The peer example ([src/examples/peer/main.cpp])

    A peer listens and dials: it reads its port and the addresses of other peers
    from the command line, and broadcasts a random number to every session once a
    second.  Modelled are [main], the derived session with its router, and the
    broadcaster with the states of its timer; the random numbers are inputs. *)

From stdpp Require Import strings pretty.
From Stdlib Require Import Ascii Floats.SpecFloat.
From S2P Require Import Prelude Endian Serialisation SocketBase Message WireFormat MessageCorrect Router.
From S2P Require Import Session SocketTimers BoostSocket Ssl SessionManager ManagerCorrect.
From S2P Require Import ManagerEvents Reconnect ClientServer.

(** ** Strings of the command line *)

(** [std::string::rfind(c)]; [None] is [npos]. *)
Fixpoint rfind (c : Ascii.ascii) (s : string) : option nat :=
  match s with
  | EmptyString => None
  | String a s =>
      match rfind c s with
      | Some n => Some (S n)
      | None => if Ascii.eqb a c then Some 0%nat else None
      end
  end.

(** [s.substr(pos)]. *)
Definition substr_from (pos : nat) (s : string) : string :=
  String.substring pos (String.length s - pos) s.

(** [std::isspace] in the C locale. *)
Definition isspace (c : Ascii.ascii) : bool :=
  let n := Z.of_N (Ascii.N_of_ascii c) in (n =? 32) || ((9 <=? n) && (n <=? 13)).

Fixpoint skip_spaces (s : string) : string :=
  match s with String c s' => if isspace c then skip_spaces s' else s | EmptyString => s end.

Definition digit_value (c : Ascii.ascii) : option Z :=
  let n := Z.of_N (Ascii.N_of_ascii c) - 48 in
  if (0 <=? n) && (n <=? 9) then Some n else None.

(** The value of the longest prefix of digits, after [acc]. *)
Fixpoint read_digits (acc : Z) (s : string) : Z :=
  match s with
  | EmptyString => acc
  | String c s =>
      match digit_value c with Some d => read_digits (acc * 10 + d) s | None => acc end
  end.

Definition starts_with_digit (s : string) : bool :=
  match s with String c _ => bool_decide (is_Some (digit_value c)) | EmptyString => false end.

Definition read_sign (s : string) : bool * string :=
  match s with
  | String c s' =>
      if Ascii.eqb c "-"%char then (true, s') else if Ascii.eqb c "+"%char then (false, s') else (false, s)
  | EmptyString => (false, s)
  end.

(** [std::stoul(s)] in base ten: what follows the number is ignored, a minus sign
    negates in [unsigned long]. *)
Definition stoul (s : string) : outcome Z :=
  let '(negative, s) := read_sign (skip_spaces s) in
  if negb (starts_with_digit s) then Throw invalid_argument else
  let v := read_digits 0 s in
  if u64_modulus <=? v then Throw out_of_range else
  Ret (if negative : bool then (- v) mod u64_modulus else v).

(** [static_cast<std::uint16_t>]. *)
Definition to_uint16 (v : Z) : Z := v mod 65536.

(** ** [main] *)

(** The arguments after the port. *)
Definition peer_address (address : string) : option (string * string) :=
  match rfind ":"%char address with
  | None => None
  | Some separator =>
      Some (String.substring 0 separator address, substr_from (S separator) address)
  end.

Definition peer_settings : list mlabel :=
  [ml_set (set_mgr_idle_timeout (seconds 10));
   ml_set (set_mgr_heartbeat_timeout (seconds 3));
   ml_set (set_mgr_max_message_size (1024 * 1024));
   ml_set (set_on_connect true);
   ml_set (set_on_disconnect true);
   ml_listen].

(** The callbacks it sets. *)
Definition peer_on_connect `{AsioStream St} (s : tcp_socket) : log_line :=
  LOG_INFO "peer connected: {}:{}" [arg_str (remote_address s); arg_num (port s)].

Definition peer_on_disconnect `{AsioStream St} (s : tcp_socket) : log_line :=
  LOG_INFO "peer disconnected: {}:{}" [arg_str (remote_address s); arg_num (port s)].

(** The context that outgoing connections use. *)
Definition client_context : nat := 1.

Section main.
Context {Ctx : Type} `{NativeContext Ctx}.
Abbreviation PM := (M (main_world (Ctx * Ctx))).

Definition on_server_context {A} (m : M Ctx A) : M (Ctx * Ctx) A := fun c =>
  let '(r, s) := m c.1 in (r, (s, c.2)).

Definition on_client_context {A} (m : M Ctx A) : M (Ctx * Ctx) A := fun c =>
  let '(r, k) := m c.2 in (r, (c.1, k)).

(** The body of the loop over the addresses. *)
Definition dial_peer (address : string) : PM unit :=
  match peer_address address with
  | None =>
      main_log (LOG_WARN "skipping malformed peer address '{}' (expected host:port)" [arg_str address])
  | Some (host, service) =>
      _ ← main_log (LOG_INFO "connecting to peer {}:{}" [arg_str host; arg_str service]);
      call_manager [ml_boost_connect host service client_context]
  end.

Fixpoint dial_peers (addresses : list string) : PM unit :=
  match addresses with
  | [] => mret tt
  | a :: addresses => _ ← dial_peer a; dial_peers addresses
  end.

(** [main] up to the start of the broadcaster, which is [broadcaster_start] below;
    [args] are [argv[1]], [argv[2]], ... *)
Definition peer_main (what : exn -> string) (tcp_listen : Z -> outcome unit) (thread_count : Z)
    (args : list string) : PM Z :=
  catching what (
    match args with
    | [] => _ ← main_log (LOG_ERR "usage: peer <listen-port> [host:port ...]" []); mret 1
    | port :: addresses =>
        v ← lift_outcome (stoul port);
        let listen_port := to_uint16 v in
        _ ← main_log (LOG_INFO "peer starting (thread pool: {} threads)" [arg_num thread_count]);
        _ ← in_context (on_server_context
              (set_up_ssl_context "server_certificate.pem" "server_private_key.pem"));
        _ ← in_context (on_client_context
              (set_up_ssl_context "client_certificate.pem" "client_private_key.pem"));
        _ ← make_manager tcp_listen listen_port;
        _ ← call_manager peer_settings;
        _ ← main_log (LOG_INFO "peer listening on port {}" [arg_num listen_port]);
        _ ← dial_peers addresses;
        mret 0
    end).
End main.

(** ** Reading the command line *)

Lemma digit_value_char x : (x < 10)%N -> digit_value (pretty_N_char x) = Some (Z.of_N x).
Proof.
  intros Hx. assert (x = 0 \/ x = 1 \/ x = 2 \/ x = 3 \/ x = 4 \/ x = 5 \/ x = 6 \/ x = 7 \/ x = 8 \/ x = 9)%N
    as Hc by lia. by destruct_or!; subst.
Qed.

Lemma read_digits_pretty x s : read_digits 0 (pretty_N_go x s) = read_digits (Z.of_N x) s.
Proof.
  revert s. induction (N.lt_wf_0 x) as [x _ IH]; intros s.
  destruct (decide (0 < x)%N) as [Hx|Hx]; [|by replace x with 0%N by lia].
  rewrite pretty_N_go_step, IH by (done || by apply N.div_lt). simpl.
  rewrite digit_value_char by (by apply N.mod_lt). f_equal.
  rewrite N2Z.inj_div, N2Z.inj_mod. pose proof (Z.div_mod (Z.of_N x) 10). lia.
Qed.

Lemma starts_pretty x s : starts_with_digit s = true -> starts_with_digit (pretty_N_go x s) = true.
Proof.
  revert s. induction (N.lt_wf_0 x) as [x _ IH]; intros s Hs.
  destruct (decide (0 < x)%N) as [Hx|Hx]; [|by replace x with 0%N by lia].
  rewrite pretty_N_go_step by done. apply IH; [by apply N.div_lt|]. simpl.
  rewrite digit_value_char by (by apply N.mod_lt). done.
Qed.

Lemma digit_not_space c : is_Some (digit_value c) ->
  isspace c = false /\ Ascii.eqb c "-" = false /\ Ascii.eqb c "+" = false.
Proof. destruct c as [[] [] [] [] [] [] [] []]; intros [d Hd]; try discriminate; done. Qed.

Lemma number_first s :
  starts_with_digit s = true -> read_sign (skip_spaces s) = (false, s).
Proof.
  destruct s as [|c s]; [done|]. simpl. intros (Hs & H1 & H2)%bool_decide_eq_true%digit_not_space.
  rewrite Hs. simpl. by rewrite H1, H2.
Qed.

(** Decimal notation is read back. *)
Lemma stoul_pretty (n : N) : Z.of_N n < u64_modulus -> stoul (pretty n) = Ret (Z.of_N n).
Proof.
  intros Hn.
  assert (starts_with_digit (pretty n) = true /\ read_digits 0 (pretty n) = Z.of_N n) as [Hs Hr].
  { unfold pretty, pretty_N. case_decide as H0; [by subst|]. split; [|apply read_digits_pretty].
    rewrite pretty_N_go_step by lia. apply starts_pretty. simpl.
    by rewrite digit_value_char by (by apply N.mod_lt). }
  unfold stoul. rewrite (number_first _ Hs), Hs, Hr. simpl. by rewrite (proj2 (Z.leb_gt _ _)).
Qed.

(** An address with a separator, whose service has none, and one without. *)
Inductive peer_arg : Type := good_address (host service : string) | bad_address (s : string).

Definition render (a : peer_arg) : string :=
  match a with
  | good_address host service => host +:+ String ":" service
  | bad_address s => s
  end.

Definition arg_ok (a : peer_arg) : Prop :=
  match a with good_address _ service => rfind ":" service = None | bad_address s => rfind ":" s = None end.

Lemma rfind_separator h sv : rfind ":" sv = None -> rfind ":" (h +:+ String ":" sv) = Some (String.length h).
Proof. intros Hs. induction h as [|c h IH].
  - change (match rfind ":" sv with Some n => Some (S n) | None => Some 0%nat end = Some 0%nat).
    by rewrite Hs.
  - change (match rfind ":" (h +:+ String ":" sv) with
            | Some n => Some (S n)
            | None => if Ascii.eqb c ":" then Some 0%nat else None
            end = Some (S (String.length h))).
    by rewrite IH.
Qed.

Lemma substring_all s : String.substring 0 (String.length s) s = s.
Proof. induction s as [|c s IH]; simpl; congruence. Qed.

Lemma substring_prefix h s : String.substring 0 (String.length h) (h +:+ s) = h.
Proof. induction h as [|c h IH]; simpl; [by destruct s|congruence]. Qed.

Lemma substr_suffix h c sv : substr_from (S (String.length h)) (h +:+ String c sv) = sv.
Proof.
  unfold substr_from. induction h as [|d h IH]; [|exact IH].
  change (String.substring 0 (String.length sv - 0) sv = sv). rewrite Nat.sub_0_r. apply substring_all.
Qed.

Lemma peer_address_render a :
  arg_ok a ->
  peer_address (render a) =
    match a with good_address host service => Some (host, service) | bad_address _ => None end.
Proof.
  destruct a as [h sv|s]; simpl; unfold peer_address; intros Ha; [|by rewrite Ha].
  rewrite rfind_separator by done. by rewrite substring_prefix, substr_suffix.
Qed.

(** Every argument is of one of the two forms. *)
Lemma peer_arg_total s : exists a, arg_ok a /\ render a = s.
Proof.
  induction s as [|c s ([h sv|s'] & Ha & Hr)]; [by exists (bad_address "")|..]; simpl in *; subst.
  - by exists (good_address (String c h) sv).
  - destruct (Ascii.eqb c ":") eqn:Ec.
    + apply Ascii.eqb_eq in Ec as ->. by exists (good_address "" s).
    + exists (bad_address (String c s)). simpl. by rewrite Ha, Ec.
Qed.

(** ** Dials of a manager without reconnect policies *)

(** A shuffle of the calls of the main thread with what the pool runs. *)
Inductive interleaving {A} : list A -> list A -> list A -> Prop :=
| il_nil : interleaving [] [] []
| il_left x l k m : interleaving l k m -> interleaving (x :: l) k (x :: m)
| il_right x l k m : interleaving l k m -> interleaving l (x :: k) (x :: m).

Definition dial_of (e : mevent) : option (string * string) :=
  match e with ev_dial _ h sv => Some (h, sv) | _ => None end.

Definition dialled (w : mworld) : list (string * string) := omap dial_of (mlog w).

(** The dials a call makes by itself. *)
Definition dials_of_call (l : mlabel) : list (string * string) :=
  match l with ml_boost_connect h sv _ => [(h, sv)] | _ => [] end.

(** No reconnect state anywhere, and [r] dialled so far. *)
Definition plain (r : list (string * string)) (w : mworld) : Prop :=
  dialled w = r /\ reconnect_map_ w = ∅ /\ Forall (fun o => states_of o = []) (mops w).

Lemma plain_ext r w w' :
  dialled w' = dialled w -> reconnect_map_ w' = reconnect_map_ w -> mops w' = mops w ->
  plain r w -> plain r w'.
Proof. intros E1 E2 E3 (H1 & H2 & H3). unfold plain. by rewrite E1, E2, E3. Qed.

Lemma dialled_log e w : dialled (log_event e w) = dialled w ++ option_list (dial_of e).
Proof. unfold dialled. simpl. rewrite omap_app. by destruct e. Qed.

Lemma plain_log r e w : dial_of e = None -> plain r w -> plain r (log_event e w).
Proof. intros He. apply plain_ext; [|done..]. by rewrite dialled_log, He, app_nil_r. Qed.

Lemma plain_start r o w : states_of o = [] -> plain r w -> plain r (start_mop o w).
Proof.
  intros Ho (H1 & H2 & H3). split_and!; [done..|]. simpl. apply Forall_app. split; [done|].
  by apply Forall_singleton.
Qed.

Lemma plain_register r s w : plain r w -> plain r (register_and_start s w).2.
Proof.
  intros Hw. rewrite register_run. destruct (ipv4_address _); [|done].
  apply plain_log; [done|]. by destruct (on_connect_ _); [apply plain_log|].
Qed.

Lemma plain_remove r s w : plain r w -> plain r (remove_session on_session_removed s w).2.
Proof.
  intros Hw. rewrite remove_run. destruct (bool_decide _); [|done]. cbv zeta.
  destruct (ipv4_address _) as [ip|]; [|done]. set (w1 := (if on_disconnect_ (cfg w) then _ else _) _).
  assert (plain r w1) as H1 by (unfold w1; by destruct (on_disconnect_ _); [apply plain_log|]).
  unfold on_session_removed. pose proof H1 as (_ & -> & _). by rewrite lookup_empty.
Qed.

Lemma plain_accept r ec e w : plain r w -> plain r (on_accept ec e w).2.
Proof.
  intros Hw. unfold on_accept. erewrite bind_Ret by reflexivity. destruct ec; [done|].
  erewrite bind_Ret by reflexivity.
  unfold add_session, mbind, M_bind, modify, gets, lift_outcome.
  destruct (ipv4_address _); [|done]. destruct (can_ip_connect _ _).
  - apply (plain_start r (m_accept_handshake (next_sid w))); [done|exact Hw].
  - apply (plain_log r (ev_closed (next_sid w))); [done|exact Hw].
Qed.

Lemma plain_add r sock w : plain r w -> plain r ((s ← make_session sock; add_session s) w).2.
Proof.
  intros Hw. erewrite bind_Ret by reflexivity.
  unfold add_session, mbind, M_bind, modify, gets, lift_outcome.
  destruct (ipv4_address _); [|done]. destruct (can_ip_connect _ _).
  - apply (plain_start r (m_accept_handshake (next_sid w))); [done|exact Hw].
  - apply (plain_log r (ev_closed (next_sid w))); [done|exact Hw].
Qed.

Lemma plain_stop r w : plain r w -> plain r (stop w).
Proof.
  intros (H1 & H2 & H3). unfold stop. rewrite base_stop_frame. split_and!; [|done..].
  unfold dialled. simpl. rewrite omap_app. unfold dialled in H1. rewrite H1. rewrite <-(app_nil_r r) at 2.
  f_equal. clear. by induction (sessions_ w).
Qed.

Section dialling.
Context (undefined_cast : spec_float -> Z).

Lemma plain_mop r o ok e w :
  states_of o = [] -> plain r w -> plain r (on_mop undefined_cast o ok e w).2.
Proof.
  intros Ho Hw.
  assert (forall s, plain r (connected_to s ok e w)) as Hc
    by (intros s; unfold connected_to; by destruct ok).
  destruct o as [s|s|s|s [st|]|s [st|]|st]; try done; simpl.
  - destruct ok; [by apply plain_register|done].
  - unfold on_base_connected. destruct ok; simpl; [by apply plain_start, (Hc s)|apply (Hc s)].
  - destruct ok; [by apply plain_register|done].
  - unfold on_dialled. simpl. destruct ok; simpl; [by apply plain_start, (Hc s)|apply (Hc s)].
  - unfold on_dial_handshake. erewrite bind_Ret by reflexivity. simpl.
    destruct ok; simpl; [|done]. erewrite bind_Ret by reflexivity. by apply plain_register.
Qed.

Lemma plain_step r l w w' :
  is_connect l = false -> plain r w -> mstep undefined_cast l w = Some w' -> plain r w'.
Proof.
  intros Hl Hw Hs. destruct l as [f| |ec e|sock|sock h sv|h sv ssl|h sv ssl p|i ok e|s|]; try done; simpl in Hs.
  - by injection Hs as <-.
  - by injection Hs as <-.
  - destruct (_ && _); [|done]. injection Hs as <-. by apply plain_accept.
  - injection Hs as <-. by apply (plain_add r sock).
  - destruct (mops w !! i) as [o|] eqn:Eo; [|done]. injection Hs as <-.
    destruct Hw as (H1 & H2 & H3). apply plain_mop; [by eapply (Forall_lookup_1 _ _ _ _ H3)|].
    split_and!; [done..|]. simpl. by apply Forall_delete.
  - injection Hs as <-. by apply plain_remove.
  - injection Hs as <-. by apply plain_stop.
Qed.

Lemma plain_call r l w w' :
  is_connect l = false \/ (exists h sv ssl, l = ml_boost_connect h sv ssl) ->
  plain r w -> mstep undefined_cast l w = Some w' -> plain (r ++ dials_of_call l) w'.
Proof.
  intros [Hl|(h & sv & ssl & ->)] Hw Hs.
  - replace (dials_of_call l) with (@nil (string * string)) by (by destruct l).
    rewrite app_nil_r. by eapply plain_step.
  - assert (w' = start_mop (m_dial (next_sid w) None) (log_event (ev_dial (next_sid w) h sv)
              (apply_caps_to (next_sid w) (make_session new_tcp_socket w).2))) as ->
      by (simpl in Hs; by injection Hs as <-).
    apply plain_start; [done|]. destruct Hw as (<- & H2 & H3). split_and!; [|done..]. by rewrite dialled_log.
Qed.

Lemma plain_interleaved calls env ls r w w' :
  interleaving calls env ls -> Forall (fun l => is_connect l = false) env ->
  Forall (fun l => is_connect l = false \/ exists h sv ssl, l = ml_boost_connect h sv ssl) calls ->
  plain r w -> mrun undefined_cast ls w = Some w' -> plain (r ++ concat (dials_of_call <$> calls)) w'.
Proof.
  intros Hi. revert r w. induction Hi as [|x l k m _ IH|x l k m _ IH]; intros r w Henv Hcalls Hw Hr.
  - simpl in Hr. simplify_eq. by rewrite app_nil_r.
  - simpl in Hr. destruct (mstep undefined_cast x w) as [w1|] eqn:E; [|done].
    apply Forall_cons in Hcalls as [Hx Hcalls]. cbn [fmap list_fmap concat].
    rewrite (assoc_L (++)). eapply IH; [done..| |exact Hr]. by eapply plain_call.
  - simpl in Hr. destruct (mstep undefined_cast x w) as [w1|] eqn:E; [|done].
    apply Forall_cons in Henv as [Hx Henv]. eapply IH; [done..| |exact Hr]. by eapply plain_step.
Qed.
End dialling.

(** ** What [main] does with its arguments *)

Definition good_of (a : peer_arg) : option (string * string) :=
  match a with good_address h sv => Some (h, sv) | bad_address _ => None end.

Definition arg_line (a : peer_arg) : log_line :=
  match a with
  | good_address h sv => LOG_INFO "connecting to peer {}:{}" [arg_str h; arg_str sv]
  | bad_address s => LOG_WARN "skipping malformed peer address '{}' (expected host:port)" [arg_str s]
  end.

Definition dial_call (p : string * string) : mlabel := ml_boost_connect p.1 p.2 client_context.

Lemma dial_peers_run {Ctx} (args : list peer_arg) (w : main_world (Ctx * Ctx)) :
  Forall arg_ok args ->
  dial_peers (render <$> args) w =
  (Ret tt, mkMain (mn_context w) (mn_port w) (mn_calls w ++ (dial_call <$> omap good_of args))
             (mn_log w ++ (arg_line <$> args))).
Proof.
  intros Ha. revert w. induction Ha as [|a args Ha _ IH]; intros w; cbn [fmap list_fmap dial_peers].
  - destruct w. simpl. by rewrite !app_nil_r.
  - assert (dial_peer (render a) w =
        (Ret tt, mkMain (mn_context w) (mn_port w) (mn_calls w ++ (dial_call <$> option_list (good_of a)))
                   (mn_log w ++ [arg_line a]))) as Hd.
    { unfold dial_peer. rewrite peer_address_render by done. destruct a; [done|].
      simpl. by rewrite app_nil_r. }
    run Hd. rewrite IH. cbn [mn_context mn_port mn_calls mn_log]. rewrite <-!(assoc_L (++)).
    by destruct a.
Qed.

Lemma dials_of_settings ps :
  concat (dials_of_call <$> peer_settings ++ (dial_call <$> ps)) = ps.
Proof.
  rewrite fmap_app, concat_app. simpl. induction ps as [|[h sv] ps IH]; [done|].
  simpl. f_equal. exact IH.
Qed.

(** A [main] either gave up with neither a port nor a call, or has its contexts. *)
Definition guarded {Ctx} (P : Ctx -> Prop) (w : main_world Ctx) : Prop :=
  mn_port w <> None \/ mn_calls w <> [] -> P (mn_context w).

Lemma dial_peers_context {Ctx} addresses (w : main_world (Ctx * Ctx)) :
  exists w', dial_peers addresses w = (Ret tt, w') /\ mn_context w' = mn_context w.
Proof.
  revert w. induction addresses as [|a addresses IH]; intros w; cbn [dial_peers]; [by exists w|].
  assert (exists w1, dial_peer a w = (Ret tt, w1) /\ mn_context w1 = mn_context w) as (w1 & Hd & E1).
  { unfold dial_peer. destruct (peer_address a) as [[h sv]|]; [|by eexists]. by eexists. }
  destruct (IH w1) as (w2 & Hd2 & E2). exists w2. run Hd. split; [exact Hd2|congruence].
Qed.

Section guarded_mains.
Context `{NativeContextLaws Ctx} (what : exn -> string) (tcp_listen : Z -> outcome unit) (threads : Z).

Lemma server_outcome (c : Ctx) :
  exists w, server_main what tcp_listen threads (mkMain c None [] []) = (Ret 0, w) /\
    match files_usable "server_certificate.pem" "server_private_key.pem", tcp_listen 2457 with
    | true, Ret _ =>
        mn_port w = Some 2457 /\ mn_calls w = server_calls /\
        observe (mn_context w) = mutual_tls "server_certificate.pem" "server_private_key.pem" (observe c)
    | true, Throw e => mn_port w = None /\ mn_calls w = [] /\ last (mn_log w) = Some (LOG_ERR (what e) [])
    | false, _ =>
        mn_port w = None /\ mn_calls w = [] /\ last (mn_log w) = Some (LOG_ERR (what system_error) [])
    end.
Proof.
  pose proof (set_up_outcome "server_certificate.pem" "server_private_key.pem" c) as Hs.
  rewrite <-set_up_server_eq in Hs. unfold server_main, catching.
  erewrite bind_Ret by reflexivity. unfold in_context at 1, mbind, M_bind. cbn [mn_context main_log modify snd].
  destruct (files_usable _ _).
  - destruct Hs as (c' & -> & Ho). unfold make_manager. destruct (tcp_listen 2457) as [[]|e]; by eexists.
  - destruct Hs as (c' & ->). by eexists.
Qed.

Lemma peer_guarded (args : list string) (c : Ctx * Ctx) :
  guarded (fun x =>
    observe x.1 = mutual_tls "server_certificate.pem" "server_private_key.pem" (observe c.1) /\
    observe x.2 = mutual_tls "client_certificate.pem" "client_private_key.pem" (observe c.2))
    (peer_main what tcp_listen threads args (mkMain c None [] [])).2.
Proof.
  unfold peer_main, catching. destruct args as [|p addresses]; [by intros [?|?]|].
  unfold lift_outcome at 1. unfold mbind at 1, M_bind at 1. destruct (stoul p) as [v|e]; [|by intros [?|?]].
  cbv zeta. erewrite bind_Ret by reflexivity.
  pose proof (set_up_outcome "server_certificate.pem" "server_private_key.pem" c.1) as Hs.
  unfold mbind at 1, M_bind at 1, in_context at 1, on_server_context. cbn [mn_context main_log modify snd].
  destruct (files_usable _ _); [destruct Hs as (c1 & -> & Ho1)|destruct Hs as (c1 & ->); by intros [?|?]].
  pose proof (set_up_outcome "client_certificate.pem" "client_private_key.pem" c.2) as Hc.
  unfold mbind at 1, M_bind at 1, in_context at 1, on_client_context. cbn [mn_context fst snd].
  destruct (files_usable _ _); [destruct Hc as (c2 & -> & Ho2)|destruct Hc as (c2 & ->); by intros [?|?]].
  unfold mbind at 1, M_bind at 1, make_manager. destruct (tcp_listen _) as [[]|e]; [|by intros [?|?]].
  erewrite bind_Ret by reflexivity. erewrite bind_Ret by reflexivity.
  edestruct (dial_peers_context (Ctx := Ctx) addresses) as (w' & Hd & E).
  erewrite bind_Ret by exact Hd. intros _. simpl. by rewrite E.
Qed.
End guarded_mains.

(** C39 A peer does what its command line says: given a port in decimal and any
    arguments (each of which is either [host:service], with no separator in the
    service, or has no separator at all), with files it can read and a free port,
    [main] listens on that port, logs one line per argument, and dials the
    well-formed addresses, each once and in their order, however the calls of the
    main thread interleave with what the pool does meanwhile (connections
    accepted, operations that complete or fail, sessions that end, [stop]). *)
Theorem peer_listens_and_dials `{NativeContext Ctx} (what : exn -> string)
    (tcp_listen : Z -> outcome unit) (threads port : Z) (args : list peer_arg) (c c' : Ctx * Ctx) :
  0 <= port < 65536 -> Forall arg_ok args -> tcp_listen port = Ret tt ->
  set_up_ssl_context "server_certificate.pem" "server_private_key.pem" c.1 = (Ret tt, c'.1) ->
  set_up_ssl_context "client_certificate.pem" "client_private_key.pem" c.2 = (Ret tt, c'.2) ->
  exists w, peer_main what tcp_listen threads (pretty (Z.to_N port) :: (render <$> args))
              (mkMain c None [] []) = (Ret 0, w) /\
    mn_port w = Some port /\
    mn_log w = LOG_INFO "peer starting (thread pool: {} threads)" [arg_num threads]
               :: LOG_INFO "peer listening on port {}" [arg_num port] :: (arg_line <$> args) /\
    forall undefined_cast env ls mw,
      interleaving (mn_calls w) env ls -> Forall (fun l => is_connect l = false) env ->
      mrun undefined_cast ls new_manager = Some mw -> dialled mw = omap good_of args.
Proof.
  intros Hport Ha Hl Hs Hc. eexists (mkMain c' (Some port) (peer_settings ++ _) (_ :: _ :: _)).
  split; [|split; [reflexivity|split; [reflexivity|]]].
  - unfold peer_main, catching.
    assert (stoul (pretty (Z.to_N port)) = Ret port) as Hn.
    { rewrite stoul_pretty by (unfold u64_modulus; lia). f_equal. lia. }
    erewrite bind_Ret by (unfold lift_outcome; rewrite Hn; reflexivity).
    unfold to_uint16. rewrite Z.mod_small by done.
    erewrite bind_Ret by reflexivity.
    erewrite bind_Ret by (unfold in_context, on_server_context; simpl; rewrite Hs; reflexivity).
    erewrite bind_Ret by (unfold in_context, on_client_context; simpl; rewrite Hc; reflexivity).
    erewrite bind_Ret by (unfold make_manager; rewrite Hl; reflexivity).
    erewrite bind_Ret by reflexivity. erewrite bind_Ret by reflexivity.
    erewrite bind_Ret by (by apply dial_peers_run). simpl. by destruct c'.
  - intros cast env ls mw Hi Henv Hr. cbn [mn_calls] in Hi.
    eapply (plain_interleaved cast _ env ls [] new_manager mw) in Hi as (-> & _); [|done|..|done].
    + apply dials_of_settings.
    + apply Forall_app. split; [by repeat constructor; left|].
      apply Forall_fmap, Forall_true. intros [h sv]. right. by do 3 eexists.
    + done.
Qed.

(** C30 The programs that listen fail closed.  The server's [main] returns in every
    case: with usable files and a free port it listens on port 2457, its context
    is set up for mutual TLS, and it has made its calls on the manager; otherwise
    it has opened no port and made no call, and the error is its last line.  The
    peer's [main], for any command line, opens a port or calls its manager only
    when both its contexts are set up for mutual TLS. *)
Theorem listeners_fail_closed `{NativeContextLaws Ctx} (what : exn -> string)
    (tcp_listen : Z -> outcome unit) (threads : Z) (args : list string) (c : Ctx * Ctx) :
  (exists w, server_main what tcp_listen threads (mkMain c.1 None [] []) = (Ret 0, w) /\
     match files_usable "server_certificate.pem" "server_private_key.pem", tcp_listen 2457 with
     | true, Ret _ =>
         mn_port w = Some 2457 /\ mn_calls w = server_calls /\
         observe (mn_context w) = mutual_tls "server_certificate.pem" "server_private_key.pem" (observe c.1)
     | true, Throw e => mn_port w = None /\ mn_calls w = [] /\ last (mn_log w) = Some (LOG_ERR (what e) [])
     | false, _ =>
         mn_port w = None /\ mn_calls w = [] /\ last (mn_log w) = Some (LOG_ERR (what system_error) [])
     end) /\
  (let w := (peer_main what tcp_listen threads args (mkMain c None [] [])).2 in
   mn_port w <> None \/ mn_calls w <> [] ->
   observe (mn_context w).1 = mutual_tls "server_certificate.pem" "server_private_key.pem" (observe c.1) /\
   observe (mn_context w).2 = mutual_tls "client_certificate.pem" "client_private_key.pem" (observe c.2)).
Proof.
  split; [apply server_outcome|]. apply peer_guarded.
Qed.

(** What is not a port number: [main] gives up before it listens, with exit code
    zero, and a number that does not fit sixteen bits is cut to its low bits. *)
Theorem peer_port_errors `{NativeContext Ctx} (what : exn -> string)
    (tcp_listen : Z -> outcome unit) (threads : Z) (args : list string) (c : Ctx * Ctx) :
  (peer_main what tcp_listen threads ("port" :: args) (mkMain c None [] []) =
    (Ret 0, mkMain c None [] [LOG_ERR (what invalid_argument) []])) /\
  (peer_main what tcp_listen threads ("18446744073709551616" :: args) (mkMain c None [] []) =
    (Ret 0, mkMain c None [] [LOG_ERR (what out_of_range) []])) /\
  (stoul "70000" = Ret 70000 /\ to_uint16 70000 = 4464) /\
  (stoul " -1x" = Ret (2 ^ 64 - 1) /\ to_uint16 (2 ^ 64 - 1) = 65535).
Proof. done. Qed.

(** ** The session of a peer *)

Record RandomNumber := mkRandomNumber { value : Z }.

Definition MessageId_Random : uint8_t := Byte.x00.

Class PeerSchema {Sc : Schema} := { random_table :: Table RandomNumber }.

Class PeerSchemaLaws {Sc : Schema} {PS : PeerSchema} : Prop := {
  random_laws :: TableLaws RandomNumber;
  random_wf r : table_wf r <-> is_u64 (value r)
}.

Section peer_session.
Context {Sc : Schema} {PS : PeerSchema} {BE : BoostEndian} {Al : Allocator}.

Definition received_line (v : Z) : log_line := LOG_INFO "received random number: {}" [arg_num v].

(** [handle_random_number]. *)
Definition handle_random_number (sess : unit) (message : RandomNumber) (w : app) : app :=
  app_line (received_line (value message)) w.

(** [random_number], [peer_router]. *)
Definition random_number : message_info unit app :=
  mkMessageInfo RandomNumber random_table MessageId_Random handle_random_number.

Definition peer_router : list (message_info unit app) := [random_number].

(** [peer_session::handle_message]. *)
Definition peer_session_handle_message (id : message_id_t) (body : list uint8_t) (w : app) : app :=
  let '(handled, w) := dispatch peer_router id tt body w in
  if negb handled then app_line (LOG_ERR "unknown message type: {}" [arg_id id]) w else w.

(** A session of a peer on the bytes of another. *)
Definition serve_peer (cap : Z) (fuel : nat) (bs : list uint8_t) : option (outcome unit * app) :=
  '(r, s) ← serve fuel bs (start (new_session cap true));
  Some (r, derived peer_session_handle_message (observable s) (mkApp (new_session cap true) [])).
End peer_session.

(** ** The broadcaster *)

(** The manager, the timer of the broadcaster (a wait is outstanding; handlers of
    waits that ended are queued, with their error flag), the frames given to the
    socket of each session, and the log. *)
Record peer_world := mkPeerWorld {
  pw_manager : mworld;
  pw_waiting : bool;
  pw_handlers : list bool;
  pw_sockets : gmap sid (list (list uint8_t * list uint8_t));
  pw_log : list log_line
}.

(** The socket of a session: the frames that [async_write] was given. *)
#[global] Instance frames_writer : AsyncWriter (list (list uint8_t * list uint8_t)) := {|
  async_write head body _ frames := frames ++ [(head, body)] |}.

Definition frames_to (s : sid) (w : peer_world) : list (list uint8_t * list uint8_t) :=
  default [] (pw_sockets w !! s).

Section broadcaster.
Context {Sc : Schema} {PS : PeerSchema} {BE : BoostEndian}.

Definition upd_timer (waiting : bool) (handlers : list bool) (w : peer_world) : peer_world :=
  mkPeerWorld (pw_manager w) waiting handlers (pw_sockets w) (pw_log w).

(** [timer_.cancel()]: the handler of an outstanding wait is queued with an error. *)
Definition cancel_wait (w : peer_world) : peer_world :=
  upd_timer false (if pw_waiting w then pw_handlers w ++ [true] else pw_handlers w) w.

(** [broadcaster::schedule]: [expires_after] cancels, and a wait starts. *)
Definition schedule (w : peer_world) : peer_world :=
  let w := cancel_wait w in upd_timer true (pw_handlers w) w.

(** [broadcaster::broadcast]; [value] is what [dist_(rng_)] returns.  No other
    handler runs between the count and the loop. *)
Definition broadcast (value : Z) (w : peer_world) : peer_world :=
  let line := LOG_INFO "broadcasting random number {} to {} peer(s)"
                [arg_num value; arg_num (session_count (pw_manager w))] in
  let sockets := for_each_session (fun s sockets =>
                   <[s := async_send false MessageId_Random (mkRandomNumber value)
                            (default [] (sockets !! s))]> sockets)
                   (pw_manager w) (pw_sockets w) in
  mkPeerWorld (pw_manager w) (pw_waiting w) (pw_handlers w) sockets (pw_log w ++ [line]).

(** [broadcaster::start], [broadcaster::stop], and the handler of the wait. *)
Definition broadcaster_start (w : peer_world) : peer_world := schedule w.
Definition broadcaster_stop (w : peer_world) : peer_world := cancel_wait w.

Definition on_wait (error_code : bool) (value : Z) (w : peer_world) : peer_world :=
  if error_code then w else schedule (broadcast value w).

(** The handler of the signals. *)
Definition shut_down (w : peer_world) : peer_world :=
  let w := mkPeerWorld (pw_manager w) (pw_waiting w) (pw_handlers w) (pw_sockets w)
             (pw_log w ++ [LOG_INFO "shutting down" []]) in
  let w := broadcaster_stop w in
  mkPeerWorld (stop (pw_manager w)) (pw_waiting w) (pw_handlers w) (pw_sockets w) (pw_log w).

(** What can happen after [main] has started the broadcaster. *)
Inductive peer_label : Type :=
| pl_manager (l : mlabel)
| pl_expire                          (* a second has passed *)
| pl_handler (i : nat) (value : Z)
| pl_signal.

Definition peer_step (cast : spec_float -> Z) (l : peer_label) (w : peer_world) : option peer_world :=
  match l with
  | pl_manager l =>
      m ← mstep cast l (pw_manager w);
      Some (mkPeerWorld m (pw_waiting w) (pw_handlers w) (pw_sockets w) (pw_log w))
  | pl_expire => if pw_waiting w then Some (upd_timer false (pw_handlers w ++ [false]) w) else None
  | pl_handler i v =>
      ec ← pw_handlers w !! i;
      Some (on_wait ec v (upd_timer (pw_waiting w) (delete i (pw_handlers w)) w))
  | pl_signal => Some (shut_down w)
  end.

Fixpoint peer_run (cast : spec_float -> Z) (ls : list peer_label) (w : peer_world) : option peer_world :=
  match ls with
  | [] => Some w
  | l :: ls => w ← peer_step cast l w; peer_run cast ls w
  end.
End broadcaster.

(** ** What a broadcast delivers *)
Section delivery.
Context `{SL : SchemaLaws} {PS : PeerSchema} {PL : PeerSchemaLaws}.

Definition random_frame (v : Z) : frame :=
  mkFrame false MessageId_Random (serialise (lift Create) (mkRandomNumber v)).

(** A frame of the stream between two peers: the system's, or a random number. *)
Definition peer_frame (p : frame + Z) : frame :=
  match p with inl f => f | inr v => random_frame v end.

Definition peer_frame_ok (p : frame + Z) : Prop :=
  match p with inl f => f_system f = true | inr v => is_u64 v end.

Definition number_of (p : frame + Z) : option Z := match p with inl _ => None | inr v => Some v end.

Lemma peer_handles {BE : BoostEndian} v w :
  is_u64 v ->
  peer_session_handle_message MessageId_Random (f_body (random_frame v)) w =
  app_line (received_line v) w.
Proof.
  intros Hv. assert (table_wf (mkRandomNumber v)) as Hwf by (by apply (proj2 (random_wf _))).
  unfold peer_session_handle_message. simpl. unfold process. simpl.
  rewrite is_valid_serialise by done. simpl. by rewrite deserialise_serialise by done.
Qed.

Lemma peer_logs {BE : BoostEndian} ps w :
  Forall peer_frame_ok ps ->
  app_log (derived peer_session_handle_message (concat (frame_effects <$> (peer_frame <$> ps))) w) =
  app_log w ++ (received_line <$> omap number_of ps).
Proof.
  intros Hps. revert w. induction Hps as [|[f|v] ps Hp _ IH]; intros w.
  - simpl. by rewrite app_nil_r.
  - cbn [fmap list_fmap concat peer_frame]. rewrite derived_app, IH. f_equal.
    rewrite <-(app_nil_r (frame_effects f)).
    by apply (derived_system peer_session_handle_message [f]), Forall_singleton.
  - cbn [fmap list_fmap concat peer_frame]. rewrite derived_app, IH.
    change (derived peer_session_handle_message (frame_effects (random_frame v)) w)
      with (peer_session_handle_message MessageId_Random (f_body (random_frame v)) w).
    rewrite peer_handles by done. simpl. by rewrite <-(assoc_L (++)).
Qed.

(** The sessions of [l], each once, get one more frame. *)
Lemma broadcast_sockets {BE : BoostEndian} v (l : list sid)
    (sockets : gmap sid (list (list uint8_t * list uint8_t))) (s : sid) :
  NoDup l ->
  fold_left (fun a s => <[s := async_send false MessageId_Random (mkRandomNumber v)
                                 (default [] (a !! s))]> a) l sockets !! s =
  if decide (s ∈ l)
  then Some (async_send false MessageId_Random (mkRandomNumber v) (default [] (sockets !! s)))
  else sockets !! s.
Proof.
  intros Hl. revert sockets. induction Hl as [|x l Hx Hl IH]; intros sockets; [done|].
  cbn [fold_left]. rewrite IH. destruct (decide (s = x)) as [->|Hne].
  - rewrite decide_False by done. rewrite decide_True by set_solver. by rewrite lookup_insert_eq.
  - rewrite lookup_insert_ne by done. destruct (decide (s ∈ l)).
    + rewrite decide_True by set_solver. done.
    + rewrite decide_False by set_solver. done.
Qed.
End delivery.

(** C40 A broadcast reaches every session, once, and is understood: in any state
    the manager can reach, [broadcast] gives the socket of each registered session
    one frame with the number, and no other socket anything, and logs how many
    got it; and a peer of either byte order that reads such frames, among any
    system frames, logs the numbers, each once and in the order they came. *)
Theorem broadcast_delivered `{SL : SchemaLaws} {PS : PeerSchema} {PL : PeerSchemaLaws} {Al : Allocator}
    (E1 E2 : BoostEndian) (L1 : @BoostEndianLaws E1) (L2 : @BoostEndianLaws E2) (cast : spec_float -> Z) (ls : list mlabel)
    (w : peer_world) (v : Z) (cap : Z) (fuel : nat) (ps : list (frame + Z)) :
  mrun cast ls new_manager = Some (pw_manager w) ->
  Forall peer_frame_ok ps -> Forall (frame_fits cap) (peer_frame <$> ps) ->
  (length (concat (encode_frame <$> (peer_frame <$> ps))) < 8 * fuel)%nat ->
  let w' := broadcast (BE := E1) v w in
  pw_log w' = pw_log w ++ [LOG_INFO "broadcasting random number {} to {} peer(s)"
                             [arg_num v; arg_num (zlen (sessions_ (pw_manager w)))]] /\
  (forall s, s ∉ sessions_ (pw_manager w) -> frames_to s w' = frames_to s w) /\
  (forall s, s ∈ sessions_ (pw_manager w) -> exists head body,
     frames_to s w' = frames_to s w ++ [(head, body)] /\
     head ++ body = encode_frame (random_frame v)) /\
  exists a, serve_peer (BE := E2) cap (3 * fuel) (concat (encode_frame <$> (peer_frame <$> ps)))
              = Some (Ret tt, a) /\
    app_log a = received_line <$> omap number_of ps.
Proof.
  intros Hr Hps Hfit Hl w'. split; [done|].
  assert (NoDup (sessions_ (pw_manager w))) as Hn.
  { pose proof (mi_nodup _ (minv_run _ _ _ _ minv_new Hr)) as Hd. by apply NoDup_app in Hd as [Hd _]. }
  split; [|split].
  - intros s Hs. unfold frames_to, w', broadcast, for_each_session. cbn [pw_sockets].
    rewrite (broadcast_sockets (BE := E1)) by done. by rewrite decide_False.
  - intros s Hs. pose (m := make (BE := E1) false MessageId_Random (mkRandomNumber v)).
    exists (header m), (body m). unfold frames_to, w', broadcast, for_each_session. cbn [pw_sockets].
    rewrite (broadcast_sockets (BE := E1)) by done. rewrite decide_True by done. split; [reflexivity|].
    apply (frame_bytes_eq (BE := E1)).
  - destruct (serve_encoded cap true fuel _ Hfit Hl) as (s & Hs & Ho).
    unfold serve_peer. rewrite Hs. eexists. split; [reflexivity|]. rewrite Ho, derived_app.
    etransitivity; [|exact (peer_logs ps (mkApp (new_session cap true) []) Hps)]. done.
Qed.

(** ** Stopping the broadcaster *)
Section stopping.
Context {Sc : Schema} {PS : PeerSchema} {BE : BoostEndian} (cast : spec_float -> Z).

(** The lines of broadcasts. *)
Definition is_broadcast (l : log_line) : bool :=
  match l with
  | LOG_INFO fmt _ => String.eqb fmt "broadcasting random number {} to {} peer(s)"
  | _ => false
  end.

Definition broadcasts (w : peer_world) : nat := length (filter (fun l => is_broadcast l = true) (pw_log w)).

(** No wait is outstanding and no handler will find it succeeded. *)
Definition stopped (w : peer_world) : Prop :=
  pw_waiting w = false /\ Forall (fun ec => ec = true) (pw_handlers w).

Lemma stopped_peer_step l w w' :
  stopped w -> peer_step cast l w = Some w' -> stopped w' /\ broadcasts w' = broadcasts w.
Proof.
  intros [Hw Hh] Hs. destruct l as [l| |i v|]; simpl in Hs.
  - destruct (mstep cast l (pw_manager w)); [|done]. by injection Hs as <-.
  - by rewrite Hw in Hs.
  - destruct (pw_handlers w !! i) as [ec|] eqn:E; [|done]. simpl in Hs. injection Hs as <-.
    rewrite (Forall_lookup_1 _ _ _ _ Hh E). split; [|done]. split; [done|]. by apply Forall_delete.
  - injection Hs as <-. unfold shut_down, broadcaster_stop, cancel_wait, stopped. simpl. rewrite Hw.
    split; [done|]. unfold broadcasts. simpl. rewrite filter_app. simpl. by rewrite app_nil_r.
Qed.

Lemma stopped_peer_run ls w w' :
  stopped w -> peer_run cast ls w = Some w' -> broadcasts w' = broadcasts w.
Proof.
  revert w. induction ls as [|l ls IH]; simpl; intros w Hw Hr; [by simplify_eq|].
  destruct (peer_step cast l w) as [w1|] eqn:E; [|done]. simpl in Hr.
  destruct (stopped_peer_step _ _ _ Hw E) as [H1 <-]. by apply IH.
Qed.

(** One turn of the broadcaster: its wait ends and the handler runs. *)
Lemma broadcaster_turn v w :
  pw_waiting w = true ->
  exists w', peer_run cast [pl_expire; pl_handler (length (pw_handlers w)) v] w = Some w' /\
    pw_waiting w' = true /\ broadcasts w' = S (broadcasts w).
Proof.
  intros Hw. simpl. rewrite Hw. simpl. rewrite list_lookup_middle by done. simpl.
  eexists. split; [reflexivity|]. split; [done|].
  unfold broadcasts. simpl. rewrite filter_app, length_app. simpl. lia.
Qed.

Lemma peer_run_app ls ks w : peer_run cast (ls ++ ks) w = peer_run cast ls w ≫= peer_run cast ks.
Proof.
  revert w. induction ls as [|l ls IH]; intros w; [done|]. simpl.
  destruct (peer_step cast l w); [apply IH|done].
Qed.

Lemma broadcaster_turns n w :
  pw_waiting w = true ->
  exists ls w', peer_run cast ls w = Some w' /\ Forall (fun l => l <> pl_signal) ls /\
    broadcasts w' = (n + broadcasts w)%nat.
Proof.
  revert w. induction n as [|n IH]; intros w Hw; [by exists [], w|].
  destruct (broadcaster_turn 0 w Hw) as (w1 & Hr & Hw1 & Hb).
  destruct (IH w1 Hw1) as (ls & w2 & Hr2 & Hf & Hb2).
  eexists (_ ++ ls), w2. rewrite peer_run_app, Hr. split; [exact Hr2|]. split; [|lia].
  apply Forall_app. split; [by repeat constructor|done].
Qed.
End stopping.

(** The signal handler stops the broadcaster unless a wait has just expired: if
    no handler of an expired wait is queued when it runs, nothing is broadcast any
    more, whatever happens; if one is queued, that handler starts a new wait after
    the cancellation, and the broadcasts go on without bound. *)
Theorem signal_stops_broadcaster {Sc : Schema} {PS : PeerSchema} {BE : BoostEndian}
    (cast : spec_float -> Z) (w : peer_world) :
  (Forall (fun ec => ec = true) (pw_handlers w) ->
   forall ls w', peer_run cast ls (shut_down w) = Some w' -> broadcasts w' = broadcasts w) /\
  (false ∈ pw_handlers w ->
   forall n, exists ls w', peer_run cast ls (shut_down w) = Some w' /\
     Forall (fun l => l <> pl_signal) ls /\ (n <= broadcasts w')%nat).
Proof.
  split.
  - intros Hh ls w' Hr. assert (broadcasts (shut_down w) = broadcasts w) as <-.
    { unfold broadcasts. simpl. rewrite filter_app. simpl. by rewrite app_nil_r. }
    eapply stopped_peer_run; [|exact Hr]. split; [done|]. simpl.
    destruct (pw_waiting w); [|done]. apply Forall_app. by split; [|apply Forall_singleton].
  - intros [i Hi]%list_elem_of_lookup n.
    assert (pw_handlers (shut_down w) !! i = Some false) as Hi'.
    { simpl. destruct (pw_waiting w); [by apply lookup_app_l_Some|done]. }
    set (w1 := on_wait false 0 (upd_timer (pw_waiting (shut_down w))
                 (delete i (pw_handlers (shut_down w))) (shut_down w))).
    destruct (broadcaster_turns cast n w1 eq_refl) as (ls & w' & Hr & Hf & Hb).
    exists (pl_handler i 0 :: ls), w'. split; [|split; [by constructor|lia]].
    cbn [peer_run peer_step]. rewrite Hi'. exact Hr.
Qed.

(** ** Witnesses *)
Module PeerWitness.
Export Witness ToyContext.

#[export] Instance toy_peer_schema : PeerSchema := {|
  random_table := key_table mkRandomNumber value |}.

#[export] Instance toy_peer_schema_laws : PeerSchemaLaws.
Proof. split; [by apply key_table_laws; [intros []|]|done]. Qed.

Definition cast (_ : spec_float) : Z := 0.

(** An IPv6 host, a name, and an argument that is no address. *)
Definition some_args : list peer_arg :=
  [good_address "::1" "5001"; bad_address "localhost"; good_address "peer.example" "http"].

Definition ready_contexts : ctx_config * ctx_config :=
  ((set_up_ssl_context "server_certificate.pem" "server_private_key.pem" blank).2,
   (set_up_ssl_context "client_certificate.pem" "client_private_key.pem" blank).2).

(** Two peers are accepted. *)
Definition two_peers : list mlabel :=
  peer_settings ++
  [ml_accept false (mkEndpoint (address_v4 1) 40000); ml_complete 0 true default_endpoint;
   ml_accept false (mkEndpoint (address_v4 2) 40000); ml_complete 0 true default_endpoint].

Definition two_peers_world : mworld := default new_manager (mrun cast two_peers new_manager).

Definition peers_start : peer_world := mkPeerWorld two_peers_world true [] ∅ [].

Definition traffic : list (frame + Z) := [inl ping; inr 7; inr 9; inl pong].
End PeerWitness.

Section peer_witnesses.
Import PeerWitness.

Lemma listeners_fail_closed_witness :
  (exists w, server_main (fun _ => "") (fun _ => Ret tt) 4 (mkMain blank None [] []) = (Ret 0, w) /\
     mn_port w = Some 2457 /\ cfg_verify (mn_context w) = 3) /\
  (let w := (peer_main (fun _ => "") (fun _ => Ret tt) 4 ["5000"] (mkMain (blank, blank) None [] [])).2 in
   mn_port w = Some 5000 /\ cfg_verify (mn_context w).1 = 3 /\ cfg_verify (mn_context w).2 = 3).
Proof.
  destruct (listeners_fail_closed (fun _ => "") (fun _ => Ret tt) 4 ["5000"] (blank, blank))
    as [(w & Hw & Hp & _ & Ho) Hg].
  split.
  - exists w. split; [exact Hw|]. split; [exact Hp|]. exact (f_equal cfg_verify Ho).
  - split; [by vm_compute|]. destruct Hg as [H1 H2]; [left; by vm_compute|].
    split; [exact (f_equal cfg_verify H1)|exact (f_equal cfg_verify H2)].
Defined.

Lemma peer_listens_and_dials_witness :
  exists w mw, peer_main (fun _ => "") (fun _ => Ret tt) 4 ["5000"; "::1:5001"; "localhost"; "peer.example:http"]
                 (mkMain (blank, blank) None [] []) = (Ret 0, w) /\
    mn_port w = Some 5000 /\ mrun cast (mn_calls w) new_manager = Some mw /\
    dialled mw = [("::1", "5001"); ("peer.example", "http")].
Proof.
  destruct (peer_listens_and_dials (fun _ => "") (fun _ => Ret tt) 4 5000 some_args (blank, blank)
    ready_contexts) as (w & Hm & Hp & _ & Hd); [done|by repeat constructor|done|done|done|].
  exists w, (default new_manager (mrun cast (mn_calls w) new_manager)).
  assert (mn_calls w = peer_settings ++ [ml_boost_connect "::1" "5001" client_context;
            ml_boost_connect "peer.example" "http" client_context]) as Hc.
  { vm_compute in Hm. by injection Hm as <-. }
  split; [exact Hm|]. split; [exact Hp|].
  assert (mrun cast (mn_calls w) new_manager =
          Some (default new_manager (mrun cast (mn_calls w) new_manager))) as Hr by (by rewrite Hc).
  split; [exact Hr|]. apply (Hd cast [] (mn_calls w)); [|by constructor|exact Hr].
  rewrite Hc. repeat constructor.
Defined.

Lemma broadcast_delivered_witness :
  sessions_ two_peers_world = [0%nat; 1%nat] /\
  (exists head body, frames_to 1%nat (broadcast 7 peers_start) = [(head, body)] /\
     head ++ body = encode_frame (random_frame 7)) /\
  exists a, serve_peer 64 60 (concat (encode_frame <$> (peer_frame <$> traffic))) = Some (Ret tt, a) /\
    app_log a = [received_line 7; received_line 9].
Proof.
  destruct (broadcast_delivered host host host_laws host_laws cast two_peers peers_start 7 64 20 traffic)
    as (_ & _ & Hb & Ha).
  - vm_compute; reflexivity.
  - by repeat constructor.
  - repeat constructor; by vm_compute.
  - vm_compute. lia.
  - assert (sessions_ two_peers_world = [0%nat; 1%nat]) as Hs by (vm_compute; reflexivity).
    split; [exact Hs|]. split; [|exact Ha]. apply (Hb 1%nat).
    change (1%nat ∈ sessions_ two_peers_world). rewrite Hs.
    apply list_elem_of_further, list_elem_of_here.
Defined.

Lemma signal_stops_broadcaster_witness :
  (forall ls w', peer_run cast ls (shut_down peers_start) = Some w' -> broadcasts w' = 0%nat) /\
  (exists w, peer_run cast [pl_expire] peers_start = Some w /\
     exists ls w', peer_run cast ls (shut_down w) = Some w' /\ (3 <= broadcasts w')%nat).
Proof.
  split.
  - apply (proj1 (signal_stops_broadcaster cast peers_start)). by constructor.
  - exists (upd_timer false [false] peers_start). split; [reflexivity|].
    destruct (proj2 (signal_stops_broadcaster cast (upd_timer false [false] peers_start))
                (list_elem_of_here _ _) 3%nat) as (ls & w' & Hr & _ & Hn).
    exists ls, w'. exact (conj Hr Hn).
Defined.
End peer_witnesses.
